(* ===== verification/_CoqProject ===== *)
-Q . S2P
Prelude.v
Text.v
Fairness.v
Syntax.v
Version.v
Method.v
HeaderName.v
HeaderValue.v
Reason.v
Status.v
HeaderMap.v
CSeq.v
ContentLength.v
Request.v
Response.v
Decoder.v
RequestDecoder.v
ResponseDecoder.v
Encoder.v
Codec.v
Messages.v
Futures.v
Forwarding.v
Shutdown.v
Handler.v
Pending.v
Waiting.v
Delivery.v
Sender.v
Receiver.v
ReceiverSteps.v
Connection.v
ConnectionSteps.v
Handle.v
Float32.v
CommaList.v
AcceptRanges.v
Public.v
Accept.v
Session.v
Transport.v
Comparisons.v
DateParser.v
Date.v
Uri.v
Texts.v
Server.v
Serving.v
HostSteps.v
Progress.v
ServerStack.v
ServerProgress.v
Endpoints.v
Media.v
Conversation.v
Exchange.v
ExchangeSample.v
ProgressSample.v
