(* ===== verification/Prelude.v ===== *)
(** * Verification of rtsp-rs

    This library models the RTSP 2.0 crate of the repository ([rtsp-2/src/], with the version type of
    [rtsp-common/src/]) and proves what its parts promise. Paths below are relative to [rtsp-2/src/].

    ** The program

    A connection reads bytes from a transport. The codec turns them into requests and responses with
    two incremental decoders, and turns outgoing messages into bytes. The task of a connection polls
    a receiver, which hands requests to a buffer that puts them in the order of their CSeqs and
    responses to the table of the requests that await them; a sender, which dates the outgoing
    messages and writes them; and a shutdown handler. A second task, the request handler, has a
    service answer the requests one at a time. A handle, which can be cloned, sends requests and asks
    for the shutdown. Messages are made of small validated values: methods, URIs, header names and
    values, status codes, and typed headers that are read from and written to header values.

    ** The files

    Foundations:
    - [Prelude]: results, panics ([Outcome]), the machine integers, tables of names, generic lemmas;
      [Text]: what the code uses of [str] and of the parsing of integers; [Float32]: what it uses of
      [f32]; [Futures]: what it uses of the [futures] crate (polls, sinks, streams, timers, clocks);
      [Fairness]: rules for what holds from some time on in a run without end.

    Values:
    - [Syntax] (syntax.rs), [Version] (version.rs of rtsp-common), [Method] (method.rs),
      [HeaderName] (header/name.rs), [HeaderValue] (header/value.rs), [Reason] (reason.rs), [Status]
      (status.rs);
    - [Uri] (uri/request.rs, uri/mod.rs): the URI of a request with its conversions, setters,
      normalisation and builder;
    - [HeaderMap] (header/map.rs): typed access to an ordered multimap of headers;
    - [Request] (request.rs) and [Response] (response.rs): the messages, their builders, and the
      responses the connection sends by itself.

    Typed headers (header/types/):
    - [ContentLength], [CSeq], [Session] (with the identifiers of session.rs), [Transport] (the
      parameters under transport/), [Date] (date.rs and expires.rs) over [DateParser]
      (header/common/date.rs), and [AcceptRanges], [Public] and [Accept] (accept.rs), three instances
      of [CommaList];
    - [Comparisons]: the instances of [PartialEq] and [Ord] with texts and integers;
    - [Texts]: the instances of [Display], [Debug] and [Hash] of the values and the errors, and the
      conversions between errors;
    - [Media] (media.rs): the declarations of media streams and presentations.

    Codec (protocol/codec/):
    - [Decoder]: what decoder/request.rs and decoder/response.rs have in common, once, over the class
      [DecoderOps]; [RequestDecoder] and [ResponseDecoder]: the two decoders with their
      configurations; [Encoder]: the two encoders; [Codec]: mod.rs, with the events; [Messages]: what
      is known of every message that a codec returns.

    Connection (protocol/connection/):
    - [Forwarding]: [ForwardingReceiver] of receiver.rs; [Pending]: pending.rs, [ResponseReceiver] of
      receiver.rs and [send_request_with_options] of mod.rs; [Waiting]: the time limits of its
      futures, and [Delivery], the way of a response to the future that awaits it; [Receiver]: the rest of receiver.rs; [Sender]: sender.rs; [Handler]: handler.rs;
      [Shutdown]: shutdown.rs; [Connection]: the task of mod.rs, against an interface of its two
      halves ([ConnectionParts], [ConnectionLaws]), of which the models of the receiver and the
      sender are an instance; [Handle]: the handles, the configurations, and [with_config], which
      wires everything together;
    - [ReceiverSteps] and [ConnectionSteps]: what a poll of the receiver and of the connection does,
      in steps of [Forwarding] and [Pending], so that the connection refines the system of [Pending].

    Service and composition:
    - [Server]: the service and the sessions of server.rs, the [Session] trait of session.rs, and
      protocol/service.rs;
    - [Serving]: the forwarding receiver and the request handler over the channel between them, in any
      interleaving; [HostSteps]: a connection with its request handler as such a pipe, and its runs;
      [Progress]: its fair runs, with any service; [ServerStack]: the pipe with the service of
      [Server], and [ServerProgress] its fair runs; [Endpoints]: [Client] of client.rs and [Server]
      of server.rs with its accept loop, which start the tasks; [Conversation]: a client and a
      server, from the encoding of the requests to the decoding of the responses; [Exchange]: the
      two ends with their connections and callers; [ExchangeSample]: a run of them;
      [ProgressSample]: a run of a server without end.

    ** How the code is modelled

    A method that changes [self] takes it and returns it. Fallible code returns [Result]. Code that may
    panic ([expect], [unwrap], an assertion, a slice out of bounds) returns an [Outcome], whose
    [Panic] the theorems exclude or characterise. Integers are [N] or [Z] with the wrap-around of
    their width written out, as in a release build; [usize] has 64 bits. A string is its UTF-8 bytes.
    A by-reference setter of a builder and the consuming one are one definition.

    Tasks that share channels thread a state of them: a world of oneshot channels and the channel of
    the updates. What timers, clocks and channels answer at a poll is given by an environment or by a
    class, so that theorems quantify over every schedule; runs of several tasks are inductive step
    relations.

    Code of other crates is a class of operations. What is relied on is a second class, of laws that
    the documentation of the crate states: [HeaderMapLaws] (ordered-multimap), [LinkedSetLaws]
    (linked-hash-set), [MimeLaws] (mime), [ExecutorLaws] (tokio-executor), [UriparseLaws]
    (uriparse), [ChronoLaws] (chrono), [SinkLaws], [FlushLaws], [StreamLaws], [UnboundedLaws],
    [OneshotLaws], [OneshotDelivery], [ChannelLaws] (futures). [HostOps], [ChronoOps], [TimeOps], [ClockOps] and
    [TryStreamOps] are used without laws; [BoundedLaws] is a channel of which both ends are used,
    and which is full only when it is not empty. Every class of laws has a concrete instance, on
    which the witnesses of the theorems run. Numbers in floating point are their bits; reading a
    decimal rounds like the specification of IEEE 754 in Rocq's standard library, and writing gives
    the shortest decimal that is read back. [URIOps] is the part of a URI that the messages need;
    [Uri.uri_ops] is its instance, in which the panic of the URI parser (see below) is an error.

    ** Loops

    Loops that are not structural take fuel, and running out of it is a [Panic], so that each theorem
    that excludes panics also proves that the fuel is enough.
    - decoders: the length of the data plus two; every turn takes bytes or changes the state forward;
    - forwarding: the number of the buffered requests plus one;
    - shutdown: three turns; the timer of Continue responses: three turns, since a timer that was just
      set is not ready;
    - sender, receiver and request handler: any fuel above the number of waiting items;
    - floating point: seventeen digits, of which nine are enough for every [f32]; this is checked on the
      qualities that the theorems are about;
    - date parser: twice the length plus two for folding white space, the length for a comment, the
      length plus one for what is skipped.

    ** The theorems

    - Codec: a decoder accepts exactly a grammar of messages ([request_decoder_grammar],
      [response_decoder_grammar]); its result does not depend on how the data is cut into pieces
      ([..._pieces]); it always returns ([..._total]); encoded messages are decoded to themselves, one
      ([..._roundtrip]) or many over the codec ([codec_messages_roundtrip]), with the events that
      announce them ([codec_events_spec]); whatever arrives, the messages that it returns are well
      formed and within its limits ([framed_messages_typed]).
    - Ordering: requests are forwarded in the order of their CSeqs, each once
      ([forwarding_in_order]), and are answered in that order ([handler_answers_in_order],
      [handler_poll_progress]); messages are written in the order in which they were sent
      ([sender_in_order]).
    - Matching: whatever the interleaving of the tasks, a response goes to the future of the request
      with its CSeq ([response_matching], [response_routing]). The receiver ([receiver_poll_steps]) and
      the connection ([connection_refines]) implement the steps that these theorems are about.
    - Life cycle: the states of a shutdown ([shutdown_protocol]) and of a connection
      ([connection_lifecycle]); one request to shut down per connection ([shutdown_sent_once]); the
      future of the end ([shutdown_receiver_spec]); the wiring ([with_config_spec]); the tasks that a
      client and a server start ([client_connects], [server_accepts]).
    - Values: the invariant, the round trips and the normal form of URIs ([uri_invariant],
      [uri_roundtrip], [uri_normalize_spec]); grammars and round trips of the typed headers; the
      arithmetic of CSeqs; the decoders of names, values, methods and codes; a comparison with a text or
      a number agrees with the decoder ([text_comparisons], [status_comparisons]).
    - Qualities: those in the syntax of the protocol are read in their order and written back
      ([qvalues_read]); all are from 0 to 1 or not numbers ([quality_new_bits]); the header of media
      types ([accept_decode_spec], [accept_roundtrip]).
    - Dates: what is skipped, what is read, and that the parser returns ([skipped_text_spec],
      [written_date_spec], [parse_date_time_total], [date_roundtrip]).
    - Service: its answers and what it does to the session ([service_call_spec]).
    - Composition: requests that arrive in any order are served in the order of their CSeqs
      ([requests_served_in_order]), by the answers of the service ([server_serves]), as soon as the
      handler is polled ([server_drains]); and the client reads one response for each of its requests,
      with its CSeq and its status ([conversation]). Through the two connections, a caller whose future
      resolves has the answer to its own request ([exchange]).
    - Progress: in a run in which the connection and its request handler are polled again and again,
      every request that can be forwarded gets its final answer, in order, from any service whose
      futures are ready after some polls ([requests_are_answered]); the service of [Server] answers it
      with one message ([server_answers_row]). At the other end, a response that is
      handled reaches the caller that goes on polling ([response_delivered]), and a request never waits
      beyond its time limits ([request_time_limits]).
    - Texts: what is written for a value is read as the value ([texts_read_back]); the text of an error
      identifies it, but for the errors of a CSeq ([error_texts]); header names are hashed alike
      exactly when they are equal ([names_hash]).
    - Flaws, each with the run that shows it: [receiver_stalled], [protocol_error_panics],
      [drop_after_match_panics], [header_value_limit], [date_local_weekday], [date_decode_panics],
      [date_trailing_text], [decode_eof_cut], [address_ipv6_extension], [uri_slash_asterisk].

    ** Not modelled

    - opening and accepting sockets, and the order in which an executor polls its tasks: runs allow
      every order;
    - the conversions from [Infallible], which has no value; accessors, [AsRef] and [Deref], which give a
      field of a record; and the crate of RTSP 1 (rtsp-1/), which only exports the version type;
    - wake-ups: a poll is an event of the environment, so that a task that is not woken is not told
      from one that is slow;
    - the equality of media types, which is that of the [mime] crate.

    ** Plan

    Next: that every exchange ends, when the transport between the two ends and the two executors are
    fair: [Progress], [Delivery] and [Waiting] give it for each end. *)

From Stdlib Require Import Strings.Byte.
From stdpp Require Import base list numbers strings countable.

Local Open Scope nat_scope.

Create HintDb rtsp.

(** ** Results and panics *)

(** Rust's [Result<T, E>]. *)
Inductive Result (A E : Type) : Type :=
  | Ok (value : A)
  | Err (error : E).
Arguments Ok {A E} value.
Arguments Err {A E} error.

(** The outcome of code that may panic ([expect], [unwrap], [panic!], an out-of-range slice). *)
Inductive Outcome (A : Type) : Type :=
  | Return (value : A)
  | Panic.
Arguments Return {A} value.
Arguments Panic {A}.

Definition result_bind {A B E} (r : Result A E) (k : A -> Result B E) : Result B E :=
  match r with
  | Ok a => k a
  | Err e => Err e
  end.

Definition result_map_err {A E F} (f : E -> F) (r : Result A E) : Result A F :=
  match r with
  | Ok a => Ok a
  | Err e => Err (f e)
  end.

Definition result_map {A B E} (f : A -> B) (r : Result A E) : Result B E :=
  match r with
  | Ok a => Ok (f a)
  | Err e => Err e
  end.

Definition outcome_bind {A B} (o : Outcome A) (k : A -> Outcome B) : Outcome B :=
  match o with
  | Return a => k a
  | Panic => Panic
  end.

Declare Scope rust_scope.
Delimit Scope rust_scope with rust.
Notation "'let?' x ':=' r 'in' k" := (result_bind r (fun x => k))
  (at level 10, x name, r at level 100, k at level 200) : rust_scope.
Notation "'let!' x ':=' r 'in' k" := (outcome_bind r (fun y => match y with x => k end))
  (at level 10, x pattern, r at level 100, k at level 200) : rust_scope.

Lemma result_bind_Ok {A B E} (r : Result A E) (k : A -> Result B E) b :
  result_bind r k = Ok b <-> exists a, r = Ok a /\ k a = Ok b.
Proof. destruct r; cbn; split; intros; destruct_and?; eauto; try discriminate; naive_solver. Qed.

Lemma outcome_bind_Return {A B} (o : Outcome A) (k : A -> Outcome B) b :
  outcome_bind o k = Return b <-> exists a, o = Return a /\ k a = Return b.
Proof. destruct o; cbn; naive_solver. Qed.

(** What a computation that may panic ends with: [Q] of its result, or [P] if it panics. *)
Definition ends {A} (P : Prop) (Q : A -> Prop) (o : Outcome A) : Prop :=
  match o with Return a => Q a | Panic => P end.

Lemma ends_bind {A B} P (Q : A -> Prop) (Q' : B -> Prop) o (k : A -> Outcome B) :
  ends P Q o -> (forall a, Q a -> ends P Q' (k a)) -> ends P Q' (outcome_bind o k).
Proof. destruct o; cbn; [|done]. auto. Qed.

Lemma ends_mono {A} P (Q Q' : A -> Prop) o : ends P Q o -> (forall a, Q a -> Q' a) -> ends P Q' o.
Proof. destruct o; cbn; auto. Qed.

#[export] Hint Extern 0 (ends True _ Panic) => exact I : core.
#[export] Hint Extern 0 (ends _ _ (Return _)) => cbn; solve [trivial | tauto] : core.

(** [Option::is_some]. *)
Definition is_some {A} (o : option A) : bool := match o with Some _ => true | None => false end.

(** ** Bytes *)

(** A [&[u8]], a [Vec<u8>], a [BytesMut] and the UTF-8 content of a [String] are lists of bytes. *)
Notation bytes := (list byte).

#[export] Instance byte_eq_dec : EqDecision byte := Byte.byte_eq_dec.

#[export] Program Instance byte_countable : Countable byte :=
  inj_countable Byte.to_N Byte.of_N _.
Next Obligation. exact Byte.of_to_N. Qed.

(** The bytes of a literal, [b"..."] in Rust. *)
Definition bs (s : string) : bytes := String.list_byte_of_string s.

Definition CR : byte := x0d.
Definition LF : byte := x0a.
Definition SP : byte := x20.
Definition HT : byte := x09.
Definition CRLF : bytes := [CR; LF].

Definition byte_of_N (n : N) : byte := default x00 (Byte.of_N n).

Lemma byte_of_N_to_N b : byte_of_N (Byte.to_N b) = b.
Proof. unfold byte_of_N. now rewrite Byte.of_to_N. Qed.

Lemma to_N_byte_of_N n : (n < 256)%N -> Byte.to_N (byte_of_N n) = n.
Proof.
  intros Hn. unfold byte_of_N. destruct (Byte.of_N n) as [b|] eqn:E; cbn.
  - now apply Byte.to_of_N.
  - apply Byte.of_N_None_iff in E. lia.
Qed.

Lemma to_N_inj b1 b2 : Byte.to_N b1 = Byte.to_N b2 -> b1 = b2.
Proof. intros H. rewrite <- (byte_of_N_to_N b1), <- (byte_of_N_to_N b2). now f_equal. Qed.

(** [u8::is_ascii] and the ASCII case mappings of the standard library. *)
Definition is_ascii (b : byte) : bool := (Byte.to_N b <? 128)%N.
Definition is_ascii_uppercase (b : byte) : bool :=
  (65 <=? Byte.to_N b)%N && (Byte.to_N b <=? 90)%N.
Definition is_ascii_lowercase (b : byte) : bool :=
  (97 <=? Byte.to_N b)%N && (Byte.to_N b <=? 122)%N.
Definition is_ascii_digit (b : byte) : bool :=
  (48 <=? Byte.to_N b)%N && (Byte.to_N b <=? 57)%N.
Definition to_ascii_lowercase (b : byte) : byte :=
  if is_ascii_uppercase b then byte_of_N (Byte.to_N b + 32) else b.
Definition to_ascii_uppercase (b : byte) : byte :=
  if is_ascii_lowercase b then byte_of_N (Byte.to_N b - 32) else b.

(** [<[u8]>::eq_ignore_ascii_case]. *)
Definition eq_ignore_ascii_case (s t : bytes) : bool :=
  bool_decide (to_ascii_lowercase <$> s = to_ascii_lowercase <$> t).

(** Facts about single bytes are decided by running over the 256 of them. *)
Ltac byte_cases b := destruct b; vm_compute; try reflexivity; try discriminate; try tauto.

Lemma to_ascii_lowercase_idemp b :
  to_ascii_lowercase (to_ascii_lowercase b) = to_ascii_lowercase b.
Proof. byte_cases b. Qed.

Lemma to_ascii_uppercase_idemp b :
  to_ascii_uppercase (to_ascii_uppercase b) = to_ascii_uppercase b.
Proof. byte_cases b. Qed.

Lemma to_ascii_lower_upper b :
  to_ascii_lowercase (to_ascii_uppercase b) = to_ascii_lowercase b.
Proof. byte_cases b. Qed.

Lemma to_ascii_upper_lower b :
  to_ascii_uppercase (to_ascii_lowercase b) = to_ascii_uppercase b.
Proof. byte_cases b. Qed.

(** ** Slices *)

(** [value.starts_with(p)] and [value.ends_with(p)]. *)
Definition starts_with (p value : bytes) : bool := bool_decide (p `prefix_of` value).
Definition ends_with (p value : bytes) : bool := bool_decide (p `suffix_of` value).

(** [value.iter().position(f)]. *)
Fixpoint position {A} (f : A -> bool) (l : list A) : option nat :=
  match l with
  | [] => None
  | x :: l' => if f x then Some 0 else S <$> position f l'
  end.

(** [value.windows(2)]. *)
Fixpoint windows2 {A} (l : list A) : list (A * A) :=
  match l with
  | x :: ((y :: _) as l') => (x, y) :: windows2 l'
  | _ => []
  end.

Lemma position_Some {A} (f : A -> bool) l i :
  position f l = Some i <->
  (exists x, l !! i = Some x /\ f x = true) /\ Forall (fun x => f x = false) (take i l).
Proof.
  revert i. induction l as [|x l IH]; intros i; cbn.
  - split; [discriminate|]. intros [[x [H _]] _]. now rewrite lookup_nil in H.
  - destruct (f x) eqn:Hx.
    + split.
      * intros [= <-]. split; [now exists x|constructor].
      * intros [[y [Hy Hfy]] Hall]. destruct i as [|i]; [reflexivity|].
        inversion Hall; congruence.
    + destruct i as [|i]; cbn.
      * split.
        -- intros H. now destruct (position f l).
        -- intros [[y [[= <-] Hy]] _]. congruence.
      * rewrite list.Forall_cons. specialize (IH i). split.
        -- destruct (position f l) as [j|]; cbn; [intros [= ->]|discriminate].
           destruct (proj1 IH eq_refl) as [H1 H2]. now repeat split.
        -- intros [H1 [_ H2]]. now rewrite (proj2 IH (conj H1 H2)).
Qed.

Lemma position_None {A} (f : A -> bool) l :
  position f l = None <-> Forall (fun x => f x = false) l.
Proof.
  induction l as [|x l IH]; cbn; [now split|].
  rewrite list.Forall_cons, <- IH.
  destruct (f x); [naive_solver|]. destruct (position f l); cbn; [|naive_solver].
  split; [discriminate|]. now intros [_ ?].
Qed.

Lemma position_lt {A} (f : A -> bool) l i : position f l = Some i -> i < length l.
Proof. intros [[x [H _]] _]%position_Some. now apply lookup_lt_Some in H. Qed.

Lemma position_app {A} (f : A -> bool) l k i :
  position f l = Some i -> position f (l ++ k) = Some i.
Proof.
  intros H. pose proof (position_lt _ _ _ H) as Hlt.
  apply position_Some in H as [[x [Hx Hfx]] Hall]. apply position_Some.
  rewrite lookup_app_l, take_app_le by lia. eauto.
Qed.

Lemma position_take_app {A} (f : A -> bool) n l k i :
  position f (take n l) = Some i -> position f (take n (l ++ k)) = Some i.
Proof. intros H. rewrite take_app. now apply position_app. Qed.

(** The first occurrence of a byte ends a word without it. *)
Definition is_byte (b : byte) (x : byte) : bool := bool_decide (x = b).

Lemma position_word (c : byte) w rest n :
  c ∉ w -> length w < n -> position (is_byte c) (take n (w ++ c :: rest)) = Some (length w).
Proof.
  intros Hc Hn. apply position_Some. rewrite lookup_take_lt by done. split.
  - exists c. split; [|now apply bool_decide_eq_true].
    rewrite lookup_app_r, Nat.sub_diag by lia. reflexivity.
  - rewrite take_take, Nat.min_l, take_app_length by lia.
    apply Forall_forall. intros x Hx%list_elem_of_In. apply bool_decide_eq_false. now intros ->.
Qed.

Lemma position_word_inv (c : byte) b n i :
  position (is_byte c) (take n b) = Some i ->
  i < length b /\ i < n /\ b = take i b ++ c :: drop (S i) b /\ c ∉ take i b.
Proof.
  intros Hp. pose proof (position_lt _ _ _ Hp) as Hi. rewrite length_take in Hi.
  apply position_Some in Hp as [(x & Hx & ->%bool_decide_eq_true) Hall].
  rewrite lookup_take_lt in Hx by lia. split; [lia|]. split; [lia|]. split.
  - rewrite <- (take_drop i b) at 1. f_equal. now apply drop_S.
  - rewrite take_take, Nat.min_l in Hall by lia. rewrite Forall_forall in Hall.
    intros Hc%list_elem_of_In. apply Hall in Hc. now apply bool_decide_eq_false in Hc.
Qed.

Lemma length_windows2 {A} (l : list A) : length (windows2 l) = length l - 1.
Proof.
  induction l as [|x [|y l] IH]; [reflexivity..|].
  change (windows2 (x :: y :: l)) with ((x, y) :: windows2 (y :: l)).
  cbn [length] in *. lia.
Qed.

Lemma windows2_app {A} (l k : list A) :
  exists m, windows2 (l ++ k) = windows2 l ++ m.
Proof.
  induction l as [|x [|y l] IH]; [now eexists..|].
  destruct IH as [m Hm]. exists m. cbn in Hm |- *. now f_equal.
Qed.

Lemma windows2_lookup {A} (l : list A) i p :
  windows2 l !! i = Some p <-> l !! i = Some p.1 /\ l !! (S i) = Some p.2.
Proof.
  revert i. induction l as [|x l IH]; intros i.
  - cbn. rewrite lookup_nil. naive_solver.
  - destruct l as [|y l].
    + cbn. rewrite lookup_nil. split; [discriminate|]. intros [_ H]. now destruct i.
    + change (windows2 (x :: y :: l)) with ((x, y) :: windows2 (y :: l)).
      destruct i as [|i]; [destruct p; cbn; naive_solver|]. exact (IH i).
Qed.

(** Goals on the lengths of concatenations. *)
Ltac length_lia := unfold CRLF; repeat (rewrite ?length_app; cbn [length app]); lia.

(** ** Case-insensitive names *)

(** The body of the [check_method!], [check_header_name!] and [check_range_format!] macros: the
    folded prefix of the value is the name and the lengths agree. *)
Definition check_name (fold : byte -> byte) (name value : bytes) : bool :=
  bool_decide (fold <$> take (length name) value = name)
  && Nat.eqb (length value) (length name).

Lemma check_name_spec fold name value :
  check_name fold name value = true <-> fold <$> value = name.
Proof.
  unfold check_name. rewrite andb_true_iff, bool_decide_eq_true, Nat.eqb_eq. split.
  - intros [H Hl]. now rewrite <- Hl, take_ge in H.
  - intros <-. rewrite length_fmap, take_ge by done. done.
Qed.

Lemma check_name_length fold name value n :
  length value = n -> Nat.eqb n (length name) = false -> check_name fold name value = false.
Proof. intros <- H. unfold check_name. now rewrite H, andb_false_r. Qed.

(** A [match] on the length of the value that tries the names of that length in order is a search
    through all the names: names of another length cannot match. [bucket Hn] settles the goal for
    one length [Hn : length value = n]. *)
Ltac bucket Hn :=
  match type of Hn with
  | length ?value = _ =>
      cbn [List.find];
      repeat match goal with
        | |- context [check_name ?f ?name value] =>
            rewrite (check_name_length f name value _ Hn) by reflexivity
        end;
      repeat match goal with
        | |- context [check_name ?f ?name value] => destruct (check_name f name value)
        end;
      reflexivity
  end.

(** Such a search through the standard names, whose texts are distinct, before an extension is
    tried. *)
Section NameTable.
Context {A E : Type} (fold : byte -> byte) (as_str : A -> bytes) (standard : list A)
  (extension : bytes -> Result A E).
Hypothesis standard_inj : forall m m', In m standard -> In m' standard -> as_str m = as_str m' -> m = m'.

Definition table_search (value : bytes) : Result A E :=
  match List.find (fun m => check_name fold (as_str m) value) standard with
  | Some m => Ok m
  | None => extension value
  end.

Lemma table_search_standard value m :
  In m standard -> fold <$> value = as_str m -> table_search value = Ok m.
Proof.
  intros Hin Hm. unfold table_search. destruct (List.find _ _) as [m'|] eqn:E'.
  - apply find_some in E' as [Hin' Hc%check_name_spec]. f_equal. apply standard_inj; congruence.
  - apply (find_none _ _) with (x := m) in E'; [|done]. cbn in E'.
    now rewrite (proj2 (check_name_spec _ _ _) Hm) in E'.
Qed.

Lemma table_search_iff value m :
  table_search value = Ok m <->
  (In m standard /\ fold <$> value = as_str m)
  \/ (Forall (fun m => as_str m <> fold <$> value) standard /\ extension value = Ok m).
Proof.
  split.
  - unfold table_search. destruct (List.find _ _) as [m'|] eqn:E'.
    + intros [= <-]. apply find_some in E' as [Hin Hc%check_name_spec]. now left.
    + intros He. right. split; [|done]. apply Forall_forall. intros m' Hm' Heq.
      pose proof (find_none _ _ E' m' Hm') as Hc. cbn in Hc.
      now rewrite (proj2 (check_name_spec _ _ _) (eq_sym Heq)) in Hc.
  - intros [[Hin Hm]|[Hall He]]; [now apply table_search_standard|]. unfold table_search.
    destruct (List.find _ _) as [m'|] eqn:E'; [|done].
    apply find_some in E' as [Hin Hc%check_name_spec].
    rewrite Forall_forall in Hall. now destruct (Hall m').
Qed.
End NameTable.

(** ** Machine integers *)

(** The width of [usize] on the 64-bit targets; additions wrap as in release builds. *)
Definition USIZE_MODULUS : N := 2 ^ 64.
Definition usize_add (a b : N) : N := (a + b) mod USIZE_MODULUS.
Definition len (l : bytes) : N := N.of_nat (length l).

Lemma usize_add_le a b : (usize_add a b <= a + b)%N.
Proof. apply N.Div0.mod_le. Qed.

Lemma usize_add_small a b : (a + b < USIZE_MODULUS)%N -> usize_add a b = (a + b)%N.
Proof. apply N.mod_small. Qed.

(** The index found within a limit of [m + 1] items is at most [m]. *)
Lemma limit_index (m : N) (i : nat) : i < N.to_nat (usize_add m 1) -> (N.of_nat i <= m)%N.
Proof. pose proof (usize_add_le m 1). lia. Qed.

(** [u32] arithmetic. *)
Definition U32_MODULUS : N := 2 ^ 32.
Definition u32_add (a b : N) : N := (a + b) mod U32_MODULUS.
Definition u32_sub (a b : N) : N := (a + U32_MODULUS - b) mod U32_MODULUS.

Lemma u32_add_small a b : (a + b < 2 ^ 32)%N -> u32_add a b = (a + b)%N.
Proof. intros. now apply N.mod_small. Qed.

Lemma u32_sub_small a b : (b <= a)%N -> (a < 2 ^ 32)%N -> u32_sub a b = (a - b)%N.
Proof.
  intros H1 H2. unfold u32_sub, U32_MODULUS in *.
  replace (a + 2 ^ 32 - b)%N with (a - b + 1 * 2 ^ 32)%N by lia.
  rewrite N.Div0.mod_add. apply N.mod_small. lia.
Qed.
