(* ===== verification/Text.v ===== *)
(** * Text: the parts of [str] and of integer parsing the crate relies on

    UTF-8 validation and decoding ([str::from_utf8], [str::chars]), decimal printing
    ([to_string] on integers) and decimal parsing ([str::parse] on unsigned integers, with the
    [IntErrorKind] of each failure), with the round trip between the last two. *)

From Stdlib Require Import Strings.Byte.
From stdpp Require Import base list numbers strings.
From S2P Require Import Prelude.

Local Open Scope N_scope.

(** ** UTF-8 *)

Definition byte_in (lo hi : N) (b : byte) : bool := (lo <=? Byte.to_N b) && (Byte.to_N b <=? hi).

(** The low six bits of a continuation byte. *)
Definition cont_bits (b : byte) : N := N.land (Byte.to_N b) 63.

(** The second byte a three- or four-byte sequence may have, by its first byte (the shortest form,
    no surrogates, at most U+10FFFF). *)
Definition second_byte_ok (b0 b1 : byte) : bool :=
  match Byte.to_N b0 with
  | 224 => byte_in 160 191 b1
  | 237 => byte_in 128 159 b1
  | 240 => byte_in 144 191 b1
  | 244 => byte_in 128 143 b1
  | _ => byte_in 128 191 b1
  end.

(** [str::from_utf8(s)] followed by [chars()]: [None] when [s] is not valid UTF-8. *)
Fixpoint utf8_chars (s : bytes) : option (list N) :=
  match s with
  | [] => Some []
  | b0 :: s1 =>
      if byte_in 0 127 b0 then cons (Byte.to_N b0) <$> utf8_chars s1
      else if byte_in 194 223 b0 then
        match s1 with
        | b1 :: s2 =>
            if byte_in 128 191 b1
            then cons (N.land (Byte.to_N b0) 31 * 64 + cont_bits b1) <$> utf8_chars s2
            else None
        | _ => None
        end
      else if byte_in 224 239 b0 then
        match s1 with
        | b1 :: b2 :: s3 =>
            if second_byte_ok b0 b1 && byte_in 128 191 b2
            then cons (N.land (Byte.to_N b0) 15 * 4096 + cont_bits b1 * 64 + cont_bits b2)
                   <$> utf8_chars s3
            else None
        | _ => None
        end
      else if byte_in 240 244 b0 then
        match s1 with
        | b1 :: b2 :: b3 :: s4 =>
            if second_byte_ok b0 b1 && byte_in 128 191 b2 && byte_in 128 191 b3
            then cons (N.land (Byte.to_N b0) 7 * 262144 + cont_bits b1 * 4096
                         + cont_bits b2 * 64 + cont_bits b3) <$> utf8_chars s4
            else None
        | _ => None
        end
      else None
  end.

Definition is_utf8 (s : bytes) : bool := if utf8_chars s then true else false.

Lemma is_ascii_byte_in b : is_ascii b = byte_in 0 127 b.
Proof. byte_cases b. Qed.

(** An ASCII byte string is valid UTF-8 and its characters are its bytes. *)
Lemma utf8_chars_ascii s :
  Forall (fun b => is_ascii b = true) s -> utf8_chars s = Some (Byte.to_N <$> s).
Proof.
  induction 1 as [|b s Hb _ IH]; [reflexivity|].
  cbn [utf8_chars]. rewrite <- is_ascii_byte_in, Hb, IH. reflexivity.
Qed.

(** Reading one character: an ASCII byte is a character by itself, and the bytes of any other
    character are not ASCII; they are read the same in front of anything else. *)
Lemma utf8_chars_first s c cs :
  utf8_chars s = Some (c :: cs) ->
  exists p s', s = p ++ s' /\ utf8_chars s' = Some cs
    /\ ((c < 128 /\ p = [byte_of_N c]) \/ (128 <= c /\ p <> [] /\ Forall (fun b => is_ascii b = false) p))
    /\ forall k, utf8_chars (p ++ k) = cons c <$> utf8_chars k.
Proof.
  destruct s as [|b0 s1]; [discriminate|]. cbn [utf8_chars].
  assert (Hhi : forall lo hi b, 128 <= lo -> byte_in lo hi b = true -> is_ascii b = false).
  { intros lo hi b Hlo [H _]%andb_prop. apply N.leb_le in H. apply N.ltb_ge. lia. }
  assert (H2 : forall b, second_byte_ok b0 b = true -> is_ascii b = false).
  { intros b. unfold second_byte_ok. intros H. repeat case_match; eapply Hhi; try exact H; lia. }
  destruct (byte_in 0 127 b0) eqn:E0.
  { destruct (utf8_chars s1) eqn:E; [|discriminate]. intros [= <- <-]. exists [b0], s1.
    split; [done|]. split; [done|]. split; [|intros k; cbn [app utf8_chars]; now rewrite E0].
    left. rewrite byte_of_N_to_N. apply andb_prop in E0 as [_ E0%N.leb_le]. split; [lia|done]. }
  destruct (byte_in 194 223 b0) eqn:E1.
  { destruct s1 as [|b1 s2]; [discriminate|]. destruct (byte_in 128 191 b1) eqn:E2; [|discriminate].
    destruct (utf8_chars s2) eqn:E; [|discriminate]. intros [= <- <-]. exists [b0; b1], s2.
    split; [done|]. split; [done|]. split; [|intros k; cbn [app utf8_chars]; now rewrite E0, E1, E2].
    right. repeat split; [|done|repeat constructor; by eapply Hhi; [|done]].
    clear - E1. revert E1. generalize (cont_bits b1). intros n H.
    enough (2 <= N.land (Byte.to_N b0) 31) by lia. revert H. byte_cases b0. }
  destruct (byte_in 224 239 b0) eqn:E2.
  { destruct s1 as [|b1 [|b2 s3]]; [discriminate..|].
    destruct (second_byte_ok b0 b1 && byte_in 128 191 b2) eqn:E3; [|discriminate].
    destruct (utf8_chars s3) eqn:E; [|discriminate]. intros [= <- <-]. exists [b0; b1; b2], s3.
    split; [done|]. split; [done|]. split; [|intros k; cbn [app utf8_chars]; now rewrite E0, E1, E2, E3].
    apply andb_prop in E3 as [E3 E4]. right. split; [|split; [done|]].
    - enough (2 <= N.land (Byte.to_N b0) 15 * 64 + cont_bits b1) by lia.
      destruct (decide (b0 = xe0)) as [->|Hne].
      + revert E3. clear. byte_cases b1.
      + enough (1 <= N.land (Byte.to_N b0) 15) by lia. revert E2 Hne. clear. byte_cases b0.
    - repeat constructor; [now eapply Hhi; [|done]|by apply H2|now eapply Hhi; [|done]]. }
  destruct (byte_in 240 244 b0) eqn:E3; [|discriminate].
  destruct s1 as [|b1 [|b2 [|b3 s4]]]; [discriminate..|].
  destruct (second_byte_ok b0 b1 && byte_in 128 191 b2 && byte_in 128 191 b3) eqn:E4; [|discriminate].
  destruct (utf8_chars s4) eqn:E; [|discriminate]. intros [= <- <-]. exists [b0; b1; b2; b3], s4.
  split; [done|]. split; [done|]. split; [|intros k; cbn [app utf8_chars]; now rewrite E0, E1, E2, E3, E4].
  apply andb_prop in E4 as [[E4 E5]%andb_prop E6]. right. split; [|split; [done|]].
  - enough (1 <= N.land (Byte.to_N b0) 7 * 64 + cont_bits b1) by lia.
    destruct (decide (b0 = xf0)) as [->|Hne].
    + revert E4. clear. byte_cases b1.
    + enough (1 <= N.land (Byte.to_N b0) 7) by lia. revert E3 Hne. clear. byte_cases b0.
  - repeat constructor; [now eapply Hhi; [|done]|by apply H2|now eapply Hhi; [|done]..].
Qed.

Lemma utf8_chars_cons s c cs :
  utf8_chars s = Some (c :: cs) ->
  exists p s', s = p ++ s' /\ utf8_chars s' = Some cs
    /\ ((c < 128 /\ p = [byte_of_N c]) \/ (128 <= c /\ p <> [] /\ Forall (fun b => is_ascii b = false) p)).
Proof. intros (p & s' & ? & ? & ? & _)%utf8_chars_first. now exists p, s'. Qed.

Lemma utf8_chars_nil s : utf8_chars s = Some [] -> s = [].
Proof.
  destruct s as [|b0 s]; [done|]. cbn [utf8_chars].
  repeat case_match; try discriminate; destruct (utf8_chars _); discriminate.
Qed.

(** An ASCII byte cuts a string into strings. *)
Lemma utf8_chars_cut a b s cs :
  is_ascii b = true -> utf8_chars (a ++ b :: s) = Some cs ->
  exists ca cs', utf8_chars a = Some ca /\ utf8_chars s = Some cs'.
Proof.
  intros Hb. remember (length a) as n eqn:Hn. revert a cs Hn.
  induction (lt_wf n) as [n _ IH]; intros a cs -> Hs. destruct a as [|x a].
  - exists []. revert Hs. cbn [app utf8_chars]. rewrite <- is_ascii_byte_in, Hb.
    destruct (utf8_chars s) as [cs'|]; [|done]. now exists cs'.
  - destruct cs as [|c cs]; [now apply utf8_chars_nil in Hs|].
    apply utf8_chars_first in Hs as (p & s' & E & Hs & Hp & Hk).
    assert (Hcut : exists k, x :: a = p ++ k /\ s' = k ++ b :: s).
    { apply app_eq_app in E as (k & [[E1 E2]|[E1 E2]]); [now exists k|]. exists []. rewrite app_nil_r.
      destruct k as [|y k]; [now rewrite app_nil_r in E1|]. injection E2 as <- ->. exfalso.
      destruct Hp as [[_ ->]|(_ & _ & Hall)].
      - destruct a; [|discriminate E1]. now destruct k.
      - rewrite E1 in Hall. apply Forall_app in Hall as [_ Hall]. inversion Hall. congruence. }
    destruct Hcut as (k & Ek & ->). rewrite Ek, Hk.
    assert (Hlt : (length k < length (x :: a))%nat).
    { rewrite Ek, length_app. destruct p; [destruct Hp as [[_ Hp]|(_ & Hp & _)]; done|cbn; lia]. }
    destruct (IH (length k) Hlt k cs eq_refl Hs) as (ca & cs' & -> & ->). now exists (c :: ca), cs'.
Qed.

(** An ASCII byte of a string is one of its characters. *)
Lemma utf8_ascii_byte s cs b :
  utf8_chars s = Some cs -> b ∈ s -> is_ascii b = true -> Byte.to_N b ∈ cs.
Proof.
  revert s. induction cs as [|c cs IH]; intros s Hs Hb Ha.
  - apply utf8_chars_nil in Hs as ->. inversion Hb.
  - apply utf8_chars_cons in Hs as (p & s' & -> & Hs' & Hp).
    apply elem_of_app in Hb as [Hb|Hb]; [|apply list_elem_of_further; now apply (IH s')].
    destruct Hp as [[Hc ->]|(_ & _ & Hall)].
    + apply list_elem_of_singleton in Hb as ->. rewrite to_N_byte_of_N by lia.
      apply list_elem_of_here.
    + exfalso. apply list_elem_of_In in Hb. rewrite List.Forall_forall in Hall.
      specialize (Hall b Hb). congruence.
Qed.

(** ** Decimal integers *)

Definition digit (d : N) : byte := byte_of_N (48 + d).

(** [to_string] on an unsigned integer; [fuel] bounds the number of digits. *)
Fixpoint digits (fuel : nat) (n : N) (acc : bytes) : bytes :=
  match fuel with
  | O => acc
  | S fuel =>
      let acc := digit (n mod 10) :: acc in
      if n / 10 =? 0 then acc else digits fuel (n / 10) acc
  end.

Definition to_string (n : N) : bytes := digits (S (N.size_nat n)) n [].

(** [core::num::IntErrorKind], the kinds parsing an unsigned integer can report. *)
Inductive IntErrorKind := Empty | InvalidDigit | PosOverflow.

Definition to_digit (b : byte) : option N :=
  if is_ascii_digit b then Some (Byte.to_N b - 48) else None.

(** The digit loop of [from_str_radix(_, 10)] for an unsigned type whose largest value is [max]:
    the next digit is read before the overflow of the multiplication is reported. *)
Fixpoint parse_digits (max : N) (acc : N) (s : bytes) : Result N IntErrorKind :=
  match s with
  | [] => Ok acc
  | b :: s =>
      match to_digit b with
      | None => Err InvalidDigit
      | Some d =>
          if max <? acc * 10 then Err PosOverflow
          else if max <? acc * 10 + d then Err PosOverflow
          else parse_digits max (acc * 10 + d) s
      end
  end.

(** [str::parse::<u32>()], [::<u64>()] and [::<usize>()]: an optional leading [+] is accepted, a
    lone sign is an invalid digit, and so is a [-]. *)
Definition parse_unsigned (max : N) (s : bytes) : Result N IntErrorKind :=
  match s with
  | [] => Err Empty
  | [b] => if bool_decide (b = "+"%byte) || bool_decide (b = "-"%byte) then Err InvalidDigit
           else parse_digits max 0 s
  | b :: s' => if bool_decide (b = "+"%byte) then parse_digits max 0 s'
               else parse_digits max 0 s
  end.

(** [Ord] of [str]: the order of the bytes. *)
Fixpoint str_cmp (s t : bytes) : comparison :=
  match s, t with
  | [], [] => Eq
  | [], _ :: _ => Lt
  | _ :: _, [] => Gt
  | b :: s, c :: t =>
      match Byte.to_N b ?= Byte.to_N c with
      | Eq => str_cmp s t
      | o => o
      end
  end.

Definition U8_MAX : N := 2 ^ 8 - 1.
Definition U16_MAX : N := 2 ^ 16 - 1.
Definition U32_MAX : N := 2 ^ 32 - 1.
Definition U64_MAX : N := 2 ^ 64 - 1.
Definition USIZE_MAX : N := USIZE_MODULUS - 1.

Example to_string_ex : to_string 1205 = bs "1205".
Proof. reflexivity. Qed.

Example parse_unsigned_ex :
  parse_unsigned U32_MAX (bs "4294967296") = Err PosOverflow
  /\ parse_unsigned U32_MAX (bs "+17") = Ok 17
  /\ parse_unsigned U32_MAX (bs "-1") = Err InvalidDigit
  /\ parse_unsigned U32_MAX (bs "+") = Err InvalidDigit.
Proof. now vm_compute. Qed.

(** ** The order of strings *)

Lemma str_cmp_eq s t : str_cmp s t = Eq <-> s = t.
Proof.
  revert t. induction s as [|b s IH]; intros [|c t]; cbn [str_cmp]; try done.
  destruct (N.compare_spec (Byte.to_N b) (Byte.to_N c)) as [E|E|E].
  - rewrite IH. apply to_N_inj in E as ->. split; [now intros ->|now intros [= ->]].
  - split; [done|]. intros [= -> ->]. lia.
  - split; [done|]. intros [= -> ->]. lia.
Qed.

Lemma str_cmp_antisym s t : str_cmp t s = CompOpp (str_cmp s t).
Proof.
  revert t. induction s as [|b s IH]; intros [|c t]; cbn [str_cmp]; try done.
  rewrite N.compare_antisym. destruct (Byte.to_N b ?= Byte.to_N c); cbn; [apply IH|done..].
Qed.

Lemma str_cmp_trans s t u : str_cmp s t = Lt -> str_cmp t u = Lt -> str_cmp s u = Lt.
Proof.
  revert t u. induction s as [|b s IH]; intros [|c t] [|d u]; cbn [str_cmp]; try done.
  destruct (N.compare_spec (Byte.to_N b) (Byte.to_N c)) as [E1|E1|E1], (N.compare_spec (Byte.to_N c) (Byte.to_N d)) as [E2|E2|E2];
    try done; destruct (N.compare_spec (Byte.to_N b) (Byte.to_N d)); try done; try lia. apply IH.
Qed.

(** ** Printing then parsing *)

Lemma digit_lt d : d < 10 -> Byte.to_N (digit d) = 48 + d.
Proof. intros. apply to_N_byte_of_N. lia. Qed.

Lemma to_digit_digit d : d < 10 -> to_digit (digit d) = Some d.
Proof.
  intros Hd. unfold to_digit, is_ascii_digit. rewrite digit_lt by done.
  rewrite !(proj2 (N.leb_le _ _)) by lia. cbn [andb]. f_equal; lia.
Qed.

Lemma is_ascii_digit_digit d : d < 10 -> is_ascii_digit (digit d) = true.
Proof.
  intros Hd. unfold is_ascii_digit. rewrite digit_lt by done.
  now rewrite !(proj2 (N.leb_le _ _)) by lia.
Qed.

(** What the digits of [n] are worth when they are read after [k], and that reading does not
    overflow as long as the result does not. *)
Fixpoint pow10 (fuel : nat) (n : N) : N :=
  match fuel with
  | O => 1
  | S fuel => if n / 10 =? 0 then 10 else 10 * pow10 fuel (n / 10)
  end.

Lemma parse_digits_digits max fuel n acc k :
  n < 2 ^ N.of_nat fuel ->
  k * pow10 fuel n + n <= max ->
  parse_digits max k (digits fuel n acc) = parse_digits max (k * pow10 fuel n + n) acc.
Proof.
  revert n acc k. induction fuel as [|fuel IH]; intros n acc k Hn Hmax.
  - cbn in *. f_equal; lia.
  - cbn [digits pow10] in *. pose proof (N.mod_lt n 10 ltac:(lia)) as Hlt.
    pose proof (N.div_mod n 10 ltac:(lia)) as Hdiv.
    assert (Hsmall : n / 10 < 2 ^ N.of_nat fuel).
    { apply N.Div0.div_lt_upper_bound. rewrite Nat2N.inj_succ, N.pow_succ_r' in Hn. lia. }
    clear Hn. set (q := n / 10) in *. set (r := n mod 10) in *. clearbody q r. subst n.
    destruct (N.eqb_spec q 0) as [->|H0].
    + cbn [parse_digits]. rewrite to_digit_digit by done.
      destruct (N.ltb_spec max (k * 10)); [lia|].
      destruct (N.ltb_spec max (k * 10 + r)); [lia|]. f_equal; lia.
    + rewrite (N.mul_assoc k 10), (N.mul_comm k 10), <- N.mul_assoc in Hmax |- *.
      specialize (IH q (digit r :: acc) k Hsmall). set (v := k * pow10 fuel q) in *.
      clearbody v. rewrite IH by lia. cbn [parse_digits]. rewrite to_digit_digit by done.
      destruct (N.ltb_spec max ((v + q) * 10)); [lia|].
      destruct (N.ltb_spec max ((v + q) * 10 + r)); [lia|]. f_equal; lia.
Qed.

Lemma pos_size_nat_bound p : N.pos p < 2 ^ N.of_nat (Pos.size_nat p).
Proof.
  induction p as [p IH|p IH|]; cbn [Pos.size_nat]; [..|now vm_compute];
    rewrite Nat2N.inj_succ, N.pow_succ_r'; lia.
Qed.

Lemma to_string_bound n : n < 2 ^ N.of_nat (S (N.size_nat n)).
Proof.
  rewrite Nat2N.inj_succ, N.pow_succ_r'. destruct n as [|p]; [now vm_compute|].
  pose proof (pos_size_nat_bound p). cbn [N.size_nat]. lia.
Qed.

(** The printed form: decimal digits, at least one of them. *)
Lemma digits_Forall fuel n acc :
  Forall (fun b => is_ascii_digit b = true) acc ->
  Forall (fun b => is_ascii_digit b = true) (digits fuel n acc).
Proof.
  revert n acc. induction fuel as [|fuel IH]; intros n acc Hacc; [exact Hacc|].
  assert (is_ascii_digit (digit (n mod 10)) = true).
  { apply is_ascii_digit_digit, N.mod_lt. lia. }
  cbn [digits]. destruct (n / 10 =? 0); [|apply IH]; now constructor.
Qed.

Lemma to_string_digits n : Forall (fun b => is_ascii_digit b = true) (to_string n).
Proof. apply digits_Forall. constructor. Qed.

Lemma digits_length fuel n acc : (length (digits fuel n acc) <= fuel + length acc)%nat.
Proof.
  revert n acc. induction fuel as [|fuel IH]; intros n acc; cbn [digits]; [lia|].
  destruct (n / 10 =? 0); [cbn; lia|]. specialize (IH (n / 10) (digit (n mod 10) :: acc)). cbn in IH. lia.
Qed.

(** The text is not longer than the binary form, plus one. *)
Lemma to_string_length p n : n < N.pos p -> (length (to_string n) <= S (Pos.size_nat p))%nat.
Proof.
  intros Hn. unfold to_string. pose proof (digits_length (S (N.size_nat n)) n []) as Hl. cbn [length] in Hl.
  assert (N.size_nat n <= Pos.size_nat p)%nat; [|lia].
  destruct n as [|q]; cbn; [lia|]. now apply Pos.size_nat_monotone.
Qed.

Lemma digits_cons fuel n acc : acc <> [] \/ fuel <> O -> digits fuel n acc <> [].
Proof.
  revert n acc. induction fuel as [|fuel IH]; intros n acc; cbn [digits]; [naive_solver|].
  intros _. destruct (n / 10 =? 0); [done|]. apply IH. now left.
Qed.

Lemma to_string_nonempty n : to_string n <> [].
Proof. apply digits_cons. now right. Qed.

Lemma parse_unsigned_digits max b s :
  is_ascii_digit b = true -> parse_unsigned max (b :: s) = parse_digits max 0 (b :: s).
Proof.
  intros Hb. unfold parse_unsigned.
  rewrite !(bool_decide_eq_false_2 (b = _)) by (intros ->; discriminate).
  now destruct s.
Qed.

(** Parsing reads back what printing wrote, for every value of the type. *)
Lemma parse_digits_to_string max n : n <= max -> parse_digits max 0 (to_string n) = Ok n.
Proof.
  intros Hn. unfold to_string. rewrite parse_digits_digits; [|apply to_string_bound|lia].
  cbn [parse_digits]. f_equal; lia.
Qed.

Lemma parse_unsigned_to_string max n : n <= max -> parse_unsigned max (to_string n) = Ok n.
Proof.
  intros Hn. pose proof (to_string_digits n) as Hd. pose proof (to_string_nonempty n) as Hne.
  rewrite <- (parse_digits_to_string max n Hn).
  destruct (to_string n) as [|b s]; [done|]. inversion Hd; subst. now apply parse_unsigned_digits.
Qed.

(** A successful parse stays within the type. *)
Lemma parse_digits_bound max acc s n : acc <= max -> parse_digits max acc s = Ok n -> n <= max.
Proof.
  revert acc. induction s as [|b s IH]; intros acc Hacc; cbn [parse_digits].
  - now intros [= ->].
  - destruct (to_digit b) as [d|]; [|discriminate].
    destruct (N.ltb_spec max (acc * 10)); [discriminate|].
    destruct (N.ltb_spec max (acc * 10 + d)); [discriminate|]. now apply IH.
Qed.

Lemma parse_unsigned_bound max s n : parse_unsigned max s = Ok n -> n <= max.
Proof.
  unfold parse_unsigned. destruct s as [|b [|b' s]]; [discriminate|..];
    repeat case_match; try discriminate; apply parse_digits_bound; lia.
Qed.
