(* ===== verification/Fairness.v ===== *)
(** * Runs without end

    What holds from some time on, in a run that is a function of time: the rules by which a measure
    that never grows, and an action that is taken again and again, lead somewhere. Used for the
    progress of the tasks of a connection, under any fair schedule. *)

From stdpp Require Import base numbers.
From S2P Require Import Prelude.

Section Fairness.
Context {State : Type} (run : nat -> State).

Implicit Types P Q R : State -> Prop.

(** Whenever [P] holds, [Q] holds then or later. *)
Definition leads_to P Q : Prop := forall i, P (run i) -> exists j, i <= j /\ Q (run j).

(** The steps with [act] never stop. *)
Definition infinitely_often (act : nat -> Prop) : Prop := forall i, exists j, i <= j /\ act j.

#[export] Instance leads_to_preorder : PreOrder leads_to.
Proof.
  split.
  - intros P i Hi. now exists i.
  - intros P Q R HPQ HQR i Hi. destruct (HPQ i Hi) as (j & Hij & Hj). destruct (HQR j Hj) as (k & Hjk & Hk).
    exists k. split; [lia|done].
Qed.

Lemma leads_to_mono P P' Q Q' :
  leads_to P Q -> (forall s, P' s -> P s) -> (forall s, Q s -> Q' s) -> leads_to P' Q'.
Proof. intros HPQ HP HQ i Hi%HP. destruct (HPQ i Hi) as (j & ? & ?%HQ). now exists j. Qed.

Lemma leads_to_now P Q : (forall i, P (run i) -> Q (run i)) -> leads_to P Q.
Proof. intros HPQ i Hi. exists i. split; [done|now apply HPQ]. Qed.

(** A state in which one of two things holds. *)
Lemma leads_to_case P Q R : leads_to P R -> leads_to Q R -> leads_to (fun s => P s \/ Q s) R.
Proof. intros HP HQ i [Hi|Hi]; auto. Qed.

(** [P] lasts until [Q], and a step that never stops to be taken makes it end there. *)
Lemma leads_to_step (act : nat -> Prop) P Q :
  infinitely_often act ->
  (forall i, P (run i) -> P (run (i + 1)) \/ Q (run (i + 1))) ->
  (forall i, act i -> P (run i) -> Q (run (i + 1))) ->
  leads_to P Q.
Proof.
  intros Hact Hstays Hends i Hi. destruct (Hact i) as (j & Hij & Hj).
  assert (Hgoes : forall n, P (run (i + n)) \/ exists k, i <= k /\ Q (run k)).
  { intros n. induction n as [|n [IH|IH]]; [left; now rewrite Nat.add_0_r| |now right].
    destruct (Hstays _ IH) as [Hn|Hn]; rewrite <- Nat.add_assoc, Nat.add_1_r in Hn; [now left|].
    right. exists (i + S n). split; [lia|done]. }
  destruct (Hgoes (j - i)) as [Hn|Hn]; [|exact Hn]. replace (i + (j - i)) with j in Hn by lia.
  exists (j + 1). split; [lia|]. now apply Hends.
Qed.

(** A measure that goes down until [Q]. *)
Lemma leads_to_measure (m : State -> nat) P Q :
  (forall n, leads_to (fun s => P s /\ m s = n) (fun s => Q s \/ (P s /\ m s < n))) -> leads_to P Q.
Proof.
  intros Hdown i Hi. remember (m (run i)) as n eqn:En. revert i Hi En.
  induction (lt_wf n) as [n _ IH]. intros i Hi En.
  destruct (Hdown n i) as (j & Hij & [Hj|[Hj Hlt]]); [done|now exists j|].
  destruct (IH _ Hlt j Hj eq_refl) as (k & Hjk & Hk). exists k. split; [lia|done].
Qed.

(** What every step preserves holds ever after. *)
Lemma always_after P : (forall i, P (run i) -> P (run (i + 1))) -> forall i j, i <= j -> P (run i) -> P (run j).
Proof.
  intros Hstep i j Hij Hi. replace j with (i + (j - i)) by lia. induction (j - i) as [|n IH].
  - now rewrite Nat.add_0_r.
  - replace (i + S n) with (i + n + 1) by lia. now apply Hstep.
Qed.

(** A quantity that never decreases. *)
Lemma never_decreases (m : State -> nat) :
  (forall i, m (run i) <= m (run (i + 1))) -> forall i j, i <= j -> m (run i) <= m (run j).
Proof.
  intros Hm i j Hij. apply (always_after (fun s => m (run i) <= m s)) with i; [|done..].
  intros k Hk. specialize (Hm k). lia.
Qed.
End Fairness.
