(* ===== verification/Syntax.v ===== *)
(** * Syntax: tokens, quoted text and whitespace

    Model of [rtsp-2/src/syntax.rs]: the token table and [is_token], the quoted-text test
    [is_qdtext], and the trimming loops on byte slices and on strings, which are shown to compute
    the same structural function. *)

From Stdlib Require Import Strings.Byte.
From stdpp Require Import base list numbers strings.
From S2P Require Import Prelude Text.

Local Open Scope nat_scope.

(** ** Tokens *)

(** [TOKEN_CHAR_MAP]: the byte itself when it may occur in a token, zero otherwise. *)
Definition TOKEN_CHAR_MAP : list byte :=
  [x00; x00; x00; x00; x00; x00; x00; x00; x00; x00; x00; x00; x00; x00; x00; x00;
   x00; x00; x00; x00; x00; x00; x00; x00; x00; x00; x00; x00; x00; x00; x00; x00;
   x00; x21; x00; x23; x24; x25; x26; x27; x00; x00; x2a; x2b; x00; x2d; x2e; x00;
   x30; x31; x32; x33; x34; x35; x36; x37; x38; x39; x00; x00; x00; x00; x00; x00;
   x00; x41; x42; x43; x44; x45; x46; x47; x48; x49; x4a; x4b; x4c; x4d; x4e; x4f;
   x50; x51; x52; x53; x54; x55; x56; x57; x58; x59; x5a; x00; x00; x00; x5e; x5f;
   x00; x61; x62; x63; x64; x65; x66; x67; x68; x69; x6a; x6b; x6c; x6d; x6e; x6f;
   x70; x71; x72; x73; x74; x75; x76; x77; x78; x79; x7a; x00; x7c; x00; x7e; x00;
   x00; x00; x00; x00; x00; x00; x00; x00; x00; x00; x00; x00; x00; x00; x00; x00;
   x00; x00; x00; x00; x00; x00; x00; x00; x00; x00; x00; x00; x00; x00; x00; x00;
   x00; x00; x00; x00; x00; x00; x00; x00; x00; x00; x00; x00; x00; x00; x00; x00;
   x00; x00; x00; x00; x00; x00; x00; x00; x00; x00; x00; x00; x00; x00; x00; x00;
   x00; x00; x00; x00; x00; x00; x00; x00; x00; x00; x00; x00; x00; x00; x00; x00;
   x00; x00; x00; x00; x00; x00; x00; x00; x00; x00; x00; x00; x00; x00; x00; x00;
   x00; x00; x00; x00; x00; x00; x00; x00; x00; x00; x00; x00; x00; x00; x00; x00;
   x00; x00; x00; x00; x00; x00; x00; x00; x00; x00; x00; x00; x00; x00; x00; x00].

Definition token_char (b : byte) : bool :=
  negb (bool_decide (default x00 (TOKEN_CHAR_MAP !! N.to_nat (Byte.to_N b)) = x00)).

Definition is_token (token : bytes) : bool :=
  if bool_decide (token = []) then false else forallb token_char token.

(** ** Quoted text *)

(** One repetition of [QDTEXT_REGEX] on the characters of the value: a printable character other
    than the double quote and the backslash, a non-ASCII character, or an escaped quote or
    backslash. The alternatives start with different characters, so the match is deterministic. *)
Fixpoint qdtext_chars (cs : list N) : bool :=
  match cs with
  | [] => true
  | (92 :: c :: cs)%N => (bool_decide (c = 34%N) || bool_decide (c = 92%N)) && qdtext_chars cs
  | c :: cs =>
      ((bool_decide (c = 32%N) || bool_decide (c = 33%N)
        || ((35 <=? c)%N && (c <=? 91)%N) || ((93 <=? c)%N && (c <=? 126)%N)
        || (128 <=? c)%N)) && qdtext_chars cs
  end.

(** The expression is anchored at both ends and [[^[:ascii:]]] matches whole UTF-8 characters, so
    a value that is not UTF-8 does not match. *)
Definition is_qdtext (value : bytes) : bool :=
  match utf8_chars value with
  | Some cs => qdtext_chars cs
  | None => false
  end.

(** ** Whitespace *)

Definition is_space (b : byte) : bool := bool_decide (b = SP) || bool_decide (b = HT).

(** The [while value.len() != old] loop the four trimming functions share, around the body
    [body]. The fuel bounds the iterations: every one but the last shortens the value. *)
Fixpoint trim_loop (body : bytes -> bytes) (fuel : nat) (old : nat) (value : bytes) : bytes :=
  if length value =? old then value
  else match fuel with
       | O => value
       | S fuel => trim_loop body fuel (length value) (body value)
       end.

(** The bodies on byte slices remove at most one line break and one blank at a time. *)
Definition trim_bytes_left_body (value : bytes) : bytes :=
  let value := if starts_with CRLF value then drop 2 value else value in
  if starts_with [SP] value || starts_with [HT] value then drop 1 value else value.

Definition trim_bytes_whitespace_left (value : bytes) : bytes :=
  trim_loop trim_bytes_left_body (S (length value)) 0 value.

Definition trim_bytes_right_body (value : bytes) : bytes :=
  let value := if ends_with CRLF value then take (length value - 2) value else value in
  if ends_with [SP] value || ends_with [HT] value then take (length value - 1) value else value.

Definition trim_bytes_whitespace_right (value : bytes) : bytes :=
  trim_loop trim_bytes_right_body (S (length value)) 0 value.

Definition trim_bytes_whitespace (value : bytes) : bytes :=
  trim_bytes_whitespace_right (trim_bytes_whitespace_left value).

(** [str::trim_start_matches("\r\n")] and [str::trim_start_matches(' ' or '\t')]: they remove
    every leading repetition. *)
Fixpoint trim_start_crlf (s : bytes) : bytes :=
  match s with
  | b0 :: ((b1 :: s') as s1) =>
      if bool_decide (b0 = CR) && bool_decide (b1 = LF) then trim_start_crlf s' else b0 :: s1
  | _ => s
  end.

Fixpoint trim_start_blanks (s : bytes) : bytes :=
  match s with
  | b :: s' => if is_space b then trim_start_blanks s' else s
  | [] => []
  end.

Definition trim_left_body (s : bytes) : bytes := trim_start_blanks (trim_start_crlf s).

Definition trim_whitespace_left (s : bytes) : bytes :=
  trim_loop trim_left_body (S (length s)) 0 s.

(** The [trim_end_matches] counterparts, on the reversed string. *)
Fixpoint trim_end_crlf_rev (s : bytes) : bytes :=
  match s with
  | b0 :: ((b1 :: s') as s1) =>
      if bool_decide (b0 = LF) && bool_decide (b1 = CR) then trim_end_crlf_rev s' else b0 :: s1
  | _ => s
  end.

Definition trim_right_body (s : bytes) : bytes :=
  reverse (trim_start_blanks (trim_end_crlf_rev (reverse s))).

Definition trim_whitespace_right (s : bytes) : bytes :=
  trim_loop trim_right_body (S (length s)) 0 s.

Definition trim_whitespace (s : bytes) : bytes :=
  trim_whitespace_right (trim_whitespace_left s).

Example trim_bytes_ex :
  trim_bytes_whitespace (bs "   this is" ++ [HT] ++ CRLF) = bs "this is"
  /\ trim_bytes_whitespace (bs "a" ++ [LF]) = bs "a" ++ [LF]
  /\ is_token (bs "this-is_a_~token~") = true /\ is_token (bs "not a token") = false
  /\ is_qdtext (bs "this is \\ a") = true.
Proof. now vm_compute. Qed.

(** ** What the loops compute *)

(** Removing every leading line break [c1 c2] and blank, by structural recursion. *)
Fixpoint strip (c1 c2 : byte) (s : bytes) : bytes :=
  match s with
  | b0 :: s1 =>
      if is_space b0 then strip c1 c2 s1
      else match s1 with
           | b1 :: s2 =>
               if bool_decide (b0 = c1) && bool_decide (b1 = c2) then strip c1 c2 s2 else s
           | [] => s
           end
  | [] => []
  end.

Definition strip_left (s : bytes) : bytes := strip CR LF s.
Definition strip_right (s : bytes) : bytes := reverse (strip LF CR (reverse s)).

(** A loop whose body preserves the stripped form, and is the identity only on stripped values,
    computes the stripped form; the fuel [S (length value)] is enough. *)
Section TrimLoop.
Context (body ref : bytes -> bytes).
Hypothesis body_ref : forall s, ref (body s) = ref s.
Hypothesis body_shrinks : forall s, body s = s \/ length (body s) < length s.
Hypothesis body_fixed : forall s, body s = s -> ref s = s.

Lemma trim_loop_ref fuel old s :
  length s < fuel -> (old = length s -> ref s = s) -> trim_loop body fuel old s = ref s.
Proof.
  revert old s. induction fuel as [|fuel IH]; intros old s Hfuel Hold; [lia|].
  cbn [trim_loop]. destruct (Nat.eqb_spec (length s) old) as [Heq|Hne]; [symmetry; auto|].
  destruct (body_shrinks s) as [Hfix|Hlt].
  - rewrite Hfix. rewrite (body_fixed s Hfix).
    destruct fuel; cbn; now rewrite Nat.eqb_refl.
  - rewrite IH, body_ref; [done|lia|lia].
Qed.
End TrimLoop.

Lemma strip_cons2 c1 c2 b0 b1 s :
  strip c1 c2 (b0 :: b1 :: s)
  = if is_space b0 then strip c1 c2 (b1 :: s)
    else if bool_decide (b0 = c1) && bool_decide (b1 = c2) then strip c1 c2 s
    else b0 :: b1 :: s.
Proof. reflexivity. Qed.

(** Induction over the two ways [strip] recurses. *)
Lemma strip_ind (P : bytes -> Prop) :
  P [] -> (forall b, P [b]) ->
  (forall b0 b1 s, P (b1 :: s) -> P s -> P (b0 :: b1 :: s)) -> forall s, P s.
Proof.
  intros H0 H1 H2 s. enough (P s /\ forall b, P (b :: s)) by tauto.
  induction s as [|b s [IH1 IH2]]; split; eauto.
Qed.

Lemma strip_length c1 c2 s : length (strip c1 c2 s) <= length s.
Proof.
  induction s as [|b|b0 b1 s IH1 IH2] using strip_ind; [done|cbn; case_match; cbn; lia|].
  rewrite strip_cons2. cbn [length] in *.
  destruct (is_space b0); [lia|]. destruct (bool_decide _ && bool_decide _); cbn [length]; lia.
Qed.

(** One iteration of the byte loops, at either end. *)
Definition bytes_body (c1 c2 : byte) (value : bytes) : bytes :=
  let value := if starts_with [c1; c2] value then drop 2 value else value in
  if starts_with [SP] value || starts_with [HT] value then drop 1 value else value.

Lemma starts_with_1 c b s : starts_with [c] (b :: s) = bool_decide (b = c).
Proof.
  unfold starts_with. apply bool_decide_ext. split.
  - now intros [k [= ->]].
  - intros ->. now exists s.
Qed.

Lemma starts_with_2 c1 c2 b0 b1 s :
  starts_with [c1; c2] (b0 :: b1 :: s) = bool_decide (b0 = c1) && bool_decide (b1 = c2).
Proof.
  unfold starts_with. rewrite <- bool_decide_and. apply bool_decide_ext. split.
  - now intros [k [= -> ->]].
  - intros [-> ->]. now exists s.
Qed.

Lemma starts_with_short p s : length s < length p -> starts_with p s = false.
Proof.
  intros Hlt. apply bool_decide_eq_false. intros H%prefix_length. lia.
Qed.

Lemma starts_with_app p s k : starts_with p s = true -> starts_with p (s ++ k) = true.
Proof.
  unfold starts_with. rewrite !bool_decide_eq_true. apply prefix_app_r.
Qed.

Lemma starts_blank s :
  starts_with [SP] s || starts_with [HT] s = match s with b :: _ => is_space b | [] => false end.
Proof. destruct s; [done|]. now rewrite !starts_with_1. Qed.

Lemma drop_if_shrinks (c : bool) n (s s0 : bytes) :
  s = s0 \/ length s < length s0 ->
  (if c then drop n s else s) = s0 \/ length (if c then drop n s else s) < length s0.
Proof.
  destruct c; [|done]. destruct n as [|n]; [done|].
  destruct s as [|b s]; [done|]. rewrite length_drop. intros [<-|H]; right; cbn [length] in *; lia.
Qed.

Lemma bytes_body_shrinks c1 c2 s : bytes_body c1 c2 s = s \/ length (bytes_body c1 c2 s) < length s.
Proof. apply drop_if_shrinks, drop_if_shrinks. now left. Qed.

Section BytesBody.
Context (c1 c2 : byte) (Hc1 : is_space c1 = false).

Lemma strip_blank s : match s with b :: _ => is_space b | [] => false end = true ->
  strip c1 c2 (drop 1 s) = strip c1 c2 s.
Proof. destruct s as [|b s]; [done|]. cbn. now intros ->. Qed.

Lemma bytes_body_strip s : strip c1 c2 (bytes_body c1 c2 s) = strip c1 c2 s.
Proof.
  unfold bytes_body. rewrite starts_blank.
  set (s' := if starts_with [c1; c2] s then drop 2 s else s).
  assert (Hs' : strip c1 c2 s' = strip c1 c2 s).
  { unfold s'. destruct s as [|b0 [|b1 s]];
      [now rewrite starts_with_short by (cbn; lia)..|].
    rewrite starts_with_2.
    destruct (bool_decide (b0 = c1) && bool_decide (b1 = c2)) eqn:E; [|done].
    rewrite strip_cons2, E. apply andb_prop in E as [->%bool_decide_eq_true _]. now rewrite Hc1. }
  destruct (match s' with b :: _ => is_space b | [] => false end) eqn:E; [|done].
  now rewrite strip_blank.
Qed.

Lemma bytes_body_fixed s : bytes_body c1 c2 s = s -> strip c1 c2 s = s.
Proof.
  intros Hfix. unfold bytes_body in Hfix. rewrite starts_blank in Hfix.
  destruct s as [|b0 [|b1 s]]; [done| |].
  - rewrite starts_with_short in Hfix by (cbn; lia). cbn in *. now destruct (is_space b0).
  - rewrite starts_with_2 in Hfix. rewrite strip_cons2.
    destruct (bool_decide (b0 = c1) && bool_decide (b1 = c2)).
    + exfalso. apply (f_equal length) in Hfix. cbn [drop] in Hfix.
      revert Hfix. case_match; rewrite ?length_drop; cbn [length]; lia.
    + cbn in Hfix. destruct (is_space b0); [|done].
      apply (f_equal length) in Hfix. cbn in Hfix. lia.
Qed.
End BytesBody.

Lemma take_reverse_drop (s : bytes) n : take (length s - n) s = reverse (drop n (reverse s)).
Proof.
  rewrite <- (reverse_involutive (take (length s - n) s)). f_equal.
  rewrite <- (take_drop (length s - n) s) at 3. rewrite reverse_app, drop_app.
  rewrite length_reverse, length_drop.
  destruct (le_lt_dec n (length s)).
  - replace (n - (length s - (length s - n))) with 0 by lia.
    rewrite drop_ge; [done|]. rewrite length_reverse, length_drop. lia.
  - replace (length s - n) with 0 by lia.
    rewrite drop_0, take_0, reverse_nil, drop_nil, app_nil_r.
    now rewrite drop_ge by (rewrite length_reverse; lia).
Qed.

Lemma ends_with_reverse p s : ends_with p s = starts_with (reverse p) (reverse s).
Proof.
  unfold ends_with, starts_with. apply bool_decide_ext.
  rewrite suffix_prefix_reverse. done.
Qed.

Lemma trim_bytes_right_body_reverse s :
  trim_bytes_right_body s = reverse (bytes_body LF CR (reverse s)).
Proof.
  unfold trim_bytes_right_body, bytes_body. cbv zeta.
  rewrite (ends_with_reverse CRLF). change (reverse CRLF) with [LF; CR].
  set (s1 := if starts_with [LF; CR] (reverse s) then take (length s - 2) s else s).
  set (r1 := if starts_with [LF; CR] (reverse s) then drop 2 (reverse s) else reverse s).
  assert (Hr1 : s1 = reverse r1).
  { unfold s1, r1. case_match; [apply take_reverse_drop|]. now rewrite reverse_involutive. }
  clearbody s1 r1. subst s1. rewrite !ends_with_reverse, reverse_involutive.
  change (reverse [SP]) with [SP]. change (reverse [HT]) with [HT].
  case_match; [|done]. now rewrite take_reverse_drop, reverse_involutive.
Qed.

(** The string bodies remove whole runs. *)
Lemma trim_start_blanks_strip c1 c2 s : strip c1 c2 (trim_start_blanks s) = strip c1 c2 s.
Proof.
  induction s as [|b s IH]; [done|]. cbn [trim_start_blanks].
  destruct (is_space b) eqn:E; [|done]. rewrite IH. cbn. now rewrite E.
Qed.

Lemma trim_start_blanks_shrinks s :
  trim_start_blanks s = s \/ length (trim_start_blanks s) < length s.
Proof.
  induction s as [|b s IH]; [now left|]. cbn [trim_start_blanks].
  destruct (is_space b); [right|now left]. cbn [length]. destruct IH as [->|]; lia.
Qed.

(** [trim_start_crlf] and [trim_end_crlf_rev] are one function of the pair they look for. *)
Fixpoint trim_pairs (c1 c2 : byte) (s : bytes) : bytes :=
  match s with
  | b0 :: ((b1 :: s') as s1) =>
      if bool_decide (b0 = c1) && bool_decide (b1 = c2) then trim_pairs c1 c2 s' else b0 :: s1
  | _ => s
  end.

Lemma trim_start_crlf_pairs s : trim_start_crlf s = trim_pairs CR LF s.
Proof.
  induction s as [|b|b0 b1 s _ IH] using strip_ind; [done..|].
  cbn. rewrite IH. done.
Qed.

Lemma trim_end_crlf_pairs s : trim_end_crlf_rev s = trim_pairs LF CR s.
Proof.
  induction s as [|b|b0 b1 s _ IH] using strip_ind; [done..|].
  cbn. rewrite IH. done.
Qed.

Lemma trim_pairs_cons2 c1 c2 b0 b1 s :
  trim_pairs c1 c2 (b0 :: b1 :: s)
  = if bool_decide (b0 = c1) && bool_decide (b1 = c2) then trim_pairs c1 c2 s else b0 :: b1 :: s.
Proof. reflexivity. Qed.

Lemma trim_pairs_strip c1 c2 s :
  is_space c1 = false -> strip c1 c2 (trim_pairs c1 c2 s) = strip c1 c2 s.
Proof.
  intros Hc1. induction s as [|b|b0 b1 s _ IH] using strip_ind; [done..|].
  rewrite trim_pairs_cons2, strip_cons2.
  destruct (bool_decide (b0 = c1) && bool_decide (b1 = c2)) eqn:E.
  - apply andb_prop in E as [->%bool_decide_eq_true _]. now rewrite Hc1.
  - now rewrite strip_cons2, E.
Qed.

Lemma trim_pairs_shrinks c1 c2 s :
  trim_pairs c1 c2 s = s \/ length (trim_pairs c1 c2 s) < length s.
Proof.
  induction s as [|b|b0 b1 s _ IH] using strip_ind; [now left..|].
  rewrite trim_pairs_cons2. destruct (_ && _); [right|now left].
  cbn [length]. destruct IH as [->|]; lia.
Qed.

Definition str_body (c1 c2 : byte) (s : bytes) : bytes := trim_start_blanks (trim_pairs c1 c2 s).

Lemma str_body_strip c1 c2 s :
  is_space c1 = false -> strip c1 c2 (str_body c1 c2 s) = strip c1 c2 s.
Proof. intros. unfold str_body. now rewrite trim_start_blanks_strip, trim_pairs_strip. Qed.

Lemma str_body_shrinks c1 c2 s : str_body c1 c2 s = s \/ length (str_body c1 c2 s) < length s.
Proof.
  unfold str_body. pose proof (trim_start_blanks_shrinks (trim_pairs c1 c2 s)) as [->|];
    pose proof (trim_pairs_shrinks c1 c2 s) as [E|]; rewrite ?E in *; auto; right; lia.
Qed.

Lemma str_body_fixed c1 c2 s : str_body c1 c2 s = s -> strip c1 c2 s = s.
Proof.
  unfold str_body. intros Hfix.
  destruct (trim_pairs_shrinks c1 c2 s) as [E|Hlt].
  2: { destruct (trim_start_blanks_shrinks (trim_pairs c1 c2 s)) as [E|];
       apply (f_equal length) in Hfix; [rewrite E in Hfix|]; lia. }
  rewrite E in Hfix. destruct s as [|b0 [|b1 s]]; [done|cbn in *; now destruct (is_space b0)|].
  rewrite strip_cons2. cbn [trim_start_blanks] in Hfix. destruct (is_space b0).
  - destruct (trim_start_blanks_shrinks (b1 :: s)) as [E'|]; cbn [trim_start_blanks] in *;
      apply (f_equal length) in Hfix; [rewrite E' in Hfix|]; cbn [length] in *; lia.
  - rewrite trim_pairs_cons2 in E. destruct (_ && _); [|done].
    destruct (trim_pairs_shrinks c1 c2 s) as [E'|]; apply (f_equal length) in E;
      [rewrite E' in E|]; cbn [length] in *; lia.
Qed.

Lemma trim_loop_strip c1 c2 body s :
  is_space c1 = false ->
  (forall s, body s = bytes_body c1 c2 s) \/ (forall s, body s = str_body c1 c2 s) ->
  trim_loop body (S (length s)) 0 s = strip c1 c2 s.
Proof.
  intros Hc1 Hbody.
  apply trim_loop_ref; [intros k..| |].
  - destruct Hbody as [->| ->]; [now apply bytes_body_strip|now apply str_body_strip].
  - destruct Hbody as [->| ->]; [apply bytes_body_shrinks|apply str_body_shrinks].
  - destruct Hbody as [->| ->]; [now apply bytes_body_fixed|apply str_body_fixed].
  - lia.
  - now destruct s.
Qed.

(** Running the loop on the reversed string. *)
Lemma trim_loop_reverse body body' fuel old s :
  (forall s, body s = reverse (body' (reverse s))) ->
  trim_loop body fuel old s = reverse (trim_loop body' fuel old (reverse s)).
Proof.
  intros Hbody. revert old s. induction fuel as [|fuel IH]; intros old s; cbn [trim_loop];
    rewrite length_reverse; destruct (length s =? old); rewrite ?reverse_involutive; try done.
  now rewrite IH, Hbody, reverse_involutive.
Qed.

Lemma trim_bytes_whitespace_left_strip s : trim_bytes_whitespace_left s = strip_left s.
Proof. apply trim_loop_strip; [done|now left]. Qed.

Lemma trim_whitespace_left_strip s : trim_whitespace_left s = strip_left s.
Proof.
  apply trim_loop_strip; [done|right]. intros k. unfold trim_left_body, str_body.
  now rewrite trim_start_crlf_pairs.
Qed.

Lemma trim_bytes_whitespace_right_strip s : trim_bytes_whitespace_right s = strip_right s.
Proof.
  unfold trim_bytes_whitespace_right, strip_right.
  rewrite (trim_loop_reverse _ (bytes_body LF CR)) by apply trim_bytes_right_body_reverse.
  rewrite <- (length_reverse s). f_equal. apply trim_loop_strip; [done|now left].
Qed.

Lemma trim_whitespace_right_strip s : trim_whitespace_right s = strip_right s.
Proof.
  unfold trim_whitespace_right, strip_right.
  rewrite (trim_loop_reverse _ (str_body LF CR)).
  - rewrite <- (length_reverse s). f_equal. apply trim_loop_strip; [done|now right].
  - intros k. unfold trim_right_body, str_body. now rewrite trim_end_crlf_pairs.
Qed.

(** The whitespace of RFC 7826 the functions remove: any sequence of line breaks, spaces, tabs. *)
Inductive Whitespace : bytes -> Prop :=
  | ws_nil : Whitespace []
  | ws_blank b s : is_space b = true -> Whitespace s -> Whitespace (b :: s)
  | ws_crlf s : Whitespace s -> Whitespace (CR :: LF :: s).
#[export] Hint Constructors Whitespace : rtsp.

Lemma Whitespace_app s t : Whitespace s -> Whitespace t -> Whitespace (s ++ t).
Proof. induction 1; cbn; auto with rtsp. Qed.

(** No whitespace at the front, where whitespace is a blank or the pair [c1 c2]. *)
Definition stripped (c1 c2 : byte) (s : bytes) : bool :=
  match s with
  | b0 :: s1 =>
      negb (is_space b0)
      && match s1 with
         | b1 :: _ => negb (bool_decide (b0 = c1) && bool_decide (b1 = c2))
         | [] => true
         end
  | [] => true
  end.

Lemma strip_stripped c1 c2 s : stripped c1 c2 (strip c1 c2 s) = true.
Proof.
  induction s as [|b|b0 b1 s IH1 IH2] using strip_ind; [done| |].
  - cbn. destruct (is_space b) eqn:E; cbn; [done|now rewrite E].
  - rewrite strip_cons2. destruct (is_space b0) eqn:E0; [done|].
    destruct (bool_decide (b0 = c1) && bool_decide (b1 = c2)) eqn:E; [done|].
    cbn. now rewrite E0, E.
Qed.

Lemma strip_of_stripped c1 c2 s : stripped c1 c2 s = true -> strip c1 c2 s = s.
Proof.
  destruct s as [|b0 [|b1 s]]; [done|cbn; now destruct (is_space b0)|].
  rewrite strip_cons2. unfold stripped. destruct (is_space b0); [done|].
  now destruct (bool_decide (b0 = c1) && bool_decide (b1 = c2)).
Qed.

Lemma strip_left_prefix s : exists pre, s = pre ++ strip_left s /\ Whitespace pre.
Proof.
  unfold strip_left. induction s as [|b|b0 b1 s [p1 [E1 W1]] [p2 [E2 W2]]] using strip_ind.
  - exists []. auto with rtsp.
  - cbn. destruct (is_space b) eqn:E; [exists [b]|exists []]; auto with rtsp.
  - rewrite strip_cons2. destruct (is_space b0) eqn:E.
    + exists (b0 :: p1). cbn. split; [now f_equal|auto with rtsp].
    + destruct (bool_decide (b0 = CR) && bool_decide (b1 = LF)) eqn:Ec.
      * apply andb_prop in Ec as [->%bool_decide_eq_true ->%bool_decide_eq_true].
        exists (CR :: LF :: p2). cbn. split; [now do 2 f_equal|auto with rtsp].
      * exists []. auto with rtsp.
Qed.

Lemma strip_rev_prefix s : exists post, s = post ++ strip LF CR s /\ Whitespace (reverse post).
Proof.
  induction s as [|b|b0 b1 s [p1 [E1 W1]] [p2 [E2 W2]]] using strip_ind.
  - exists []. auto with rtsp.
  - cbn. destruct (is_space b) eqn:E; [exists [b]|exists []]; split; cbn; auto with rtsp.
  - rewrite strip_cons2. destruct (is_space b0) eqn:E.
    + exists (b0 :: p1). split; [cbn; now f_equal|].
      rewrite reverse_cons. apply Whitespace_app; auto with rtsp.
    + destruct (bool_decide (b0 = LF) && bool_decide (b1 = CR)) eqn:Ec.
      * apply andb_prop in Ec as [->%bool_decide_eq_true ->%bool_decide_eq_true].
        exists (LF :: CR :: p2). split; [cbn; now do 2 f_equal|].
        rewrite !reverse_cons, <- app_assoc. apply Whitespace_app; cbn; auto with rtsp.
      * exists []. auto with rtsp.
Qed.

Lemma strip_right_suffix s : exists post, s = strip_right s ++ post /\ Whitespace post.
Proof.
  destruct (strip_rev_prefix (reverse s)) as [post [E W]]. exists (reverse post). split; [|done].
  unfold strip_right. now rewrite <- reverse_app, <- E, reverse_involutive.
Qed.

(** Whitespace around a value does not change what is stripped of it. *)
Lemma strip_left_whitespace pre s : Whitespace pre -> strip_left (pre ++ s) = strip_left s.
Proof.
  unfold strip_left. induction 1 as [|b pre Hb _ IH|pre _ IH]; [done| |]; cbn [app].
  - rewrite <- IH. cbn [strip]. now rewrite Hb.
  - rewrite <- IH. reflexivity.
Qed.

Lemma strip_right_whitespace s post : Whitespace post -> strip_right (s ++ post) = strip_right s.
Proof.
  intros Hpost. unfold strip_right. f_equal. rewrite reverse_app. generalize (reverse s). clear s.
  induction Hpost as [|b post Hb _ IH|post _ IH]; intros t; [done| |];
    rewrite !reverse_cons, <- !app_assoc, IH; cbn [app]; [|reflexivity].
  cbn [strip]. now rewrite Hb.
Qed.

(** A word without blanks or line breaks is what trimming leaves of it and what surrounds it. *)
Definition no_blank (b : byte) : bool :=
  negb (is_space b) && negb (bool_decide (b = CR)) && negb (bool_decide (b = LF)).

Lemma stripped_no_blank c1 c2 b w :
  c1 = CR \/ c1 = LF -> no_blank b = true -> stripped c1 c2 (b :: w) = true.
Proof.
  intros Hc Hb. unfold stripped. apply andb_prop in Hb as [[Hs Hr]%andb_prop Hl]. rewrite Hs. cbn.
  apply negb_true_iff, bool_decide_eq_false in Hr. apply negb_true_iff, bool_decide_eq_false in Hl.
  rewrite (bool_decide_eq_false_2 (b = c1)); [now destruct w|]. destruct Hc as [-> | ->]; congruence.
Qed.

#[global] Arguments trim_whitespace : simpl never.

Lemma trim_surrounded pre w post :
  Whitespace pre -> Whitespace post -> Forall (fun b => no_blank b = true) w ->
  trim_whitespace (pre ++ w ++ post) = w.
Proof.
  intros Hpre Hpost Hw. unfold trim_whitespace.
  rewrite trim_whitespace_left_strip, trim_whitespace_right_strip, strip_left_whitespace by done.
  destruct Hw as [|b w Hb Hw].
  - cbn [app]. rewrite <- (app_nil_r post), strip_left_whitespace by done. reflexivity.
  - unfold strip_left. cbn [app]. rewrite strip_of_stripped by (now apply stripped_no_blank; [left|]).
    rewrite app_comm_cons, strip_right_whitespace by done. unfold strip_right.
    assert (Hrev : Forall (fun b => no_blank b = true) (reverse (b :: w)))
      by (apply Forall_reverse; now constructor).
    destruct (reverse (b :: w)) as [|b' w'] eqn:E; inversion Hrev; subst.
    + rewrite <- (reverse_involutive (b :: w)). now rewrite E.
    + rewrite strip_of_stripped by (now apply stripped_no_blank; [right|]).
      now rewrite <- E, reverse_involutive.
Qed.

Lemma trim_word w : Forall (fun b => no_blank b = true) w -> trim_whitespace w = w.
Proof.
  intros Hw. rewrite <- (trim_surrounded [] w []) at 2 by (done || constructor).
  now rewrite app_nil_r.
Qed.

(** Nothing is trimmed between two bytes that are not blank. *)
Lemma trim_enclosed b w c :
  no_blank b = true -> no_blank c = true -> trim_whitespace (b :: w ++ [c]) = b :: w ++ [c].
Proof.
  intros Hb Hc. unfold trim_whitespace.
  rewrite trim_whitespace_left_strip, trim_whitespace_right_strip. unfold strip_left, strip_right.
  rewrite (strip_of_stripped CR LF) by (now apply stripped_no_blank; [left|]).
  rewrite app_comm_cons, reverse_app. cbn [reverse rev_append app].
  rewrite strip_of_stripped by (now apply stripped_no_blank; [right|]).
  change (reverse (reverse [c] ++ reverse (b :: w)) = (b :: w) ++ [c]).
  now rewrite <- reverse_app, reverse_involutive.
Qed.

(** What is trimmed was surrounded by whitespace. *)
Lemma trim_whitespace_inv s :
  exists pre post, s = pre ++ trim_whitespace s ++ post /\ Whitespace pre /\ Whitespace post.
Proof.
  unfold trim_whitespace. rewrite trim_whitespace_left_strip, trim_whitespace_right_strip.
  destruct (strip_left_prefix s) as [pre [E1 W1]].
  destruct (strip_right_suffix (strip_left s)) as [post [E2 W2]].
  exists pre, post. now rewrite <- E2.
Qed.

Lemma whitespace_not_elem c s : Whitespace s -> is_space c = false -> c <> CR -> c <> LF -> c ∉ s.
Proof.
  induction 1 as [|b s Hb _ IH|s _ IH]; intros Hc Hr Hl; [apply not_elem_of_nil| |];
    rewrite !not_elem_of_cons; repeat split; auto. congruence.
Qed.

(** ** Properties *)

(** The string loops and the byte-slice loops agree, although one removes whole runs per
    iteration and the other single occurrences. The result is the input without a prefix and a
    suffix of whitespace, and neither end of it is whitespace. *)
Theorem trim_whitespace_spec s :
  trim_whitespace s = trim_bytes_whitespace s
  /\ exists pre post,
       s = pre ++ trim_whitespace s ++ post /\ Whitespace pre /\ Whitespace post
       /\ stripped LF CR (reverse (trim_whitespace s)) = true
       /\ (trim_whitespace s <> [] -> stripped CR LF (trim_whitespace s) = true).
Proof.
  unfold trim_whitespace, trim_bytes_whitespace.
  rewrite trim_whitespace_left_strip, trim_bytes_whitespace_left_strip,
    trim_whitespace_right_strip, trim_bytes_whitespace_right_strip.
  split; [done|].
  destruct (strip_left_prefix s) as [pre [E1 W1]].
  destruct (strip_right_suffix (strip_left s)) as [post [E2 W2]].
  exists pre, post. rewrite <- E2. repeat split; try done.
  - unfold strip_right at 1. rewrite reverse_involutive. apply strip_stripped.
  - pose proof (strip_stripped CR LF s) as Hs. fold (strip_left s) in Hs. rewrite E2 in Hs.
    destruct (strip_right (strip_left s)) as [|b0 [|b1 r]]; [done| |exact (fun _ => Hs)].
    intros _. cbn in *. now apply andb_prop in Hs as [-> _].
Qed.

(** The RFC 7826 grammar of token characters:
    [%x21 / %x23-27 / %x2A-2B / %x2D-2E / %x30-39 / %x41-5A / %x5E-7A / %x7C / %x7E]. *)
Definition abnf_token_char (b : byte) : bool :=
  let n := Byte.to_N b in
  (n =? 33)%N || ((35 <=? n)%N && (n <=? 39)%N) || ((42 <=? n)%N && (n <=? 43)%N)
  || ((45 <=? n)%N && (n <=? 46)%N) || ((48 <=? n)%N && (n <=? 57)%N)
  || ((65 <=? n)%N && (n <=? 90)%N) || ((94 <=? n)%N && (n <=? 122)%N)
  || (n =? 124)%N || (n =? 126)%N.

(** [is_token] accepts exactly the non-empty sequences of token characters of the grammar, except
    that the table leaves out the grave accent (0x60), which the grammar allows. *)
Theorem is_token_abnf token :
  is_token token = true <->
  token <> [] /\ Forall (fun b => abnf_token_char b = true /\ b <> "`"%byte) token.
Proof.
  unfold is_token. assert (Hc : forall b, token_char b = true <->
    abnf_token_char b = true /\ b <> "`"%byte).
  { intros b. destruct b; vm_compute; intuition congruence. }
  case_bool_decide as Hnil; [intuition congruence|].
  split.
  - intros H. split; [done|]. apply Forall_forall. intros b Hb.
    apply Hc. rewrite forallb_forall in H. apply H. now apply list_elem_of_In.
  - intros [_ H]. apply forallb_forall. intros b Hb%list_elem_of_In. apply Hc.
    now rewrite Forall_forall in H; apply H.
Qed.
