(* ===== verification/Version.v ===== *)
(** * Version

    Model of [rtsp-common/src/version.rs]: the protocol versions, their encoding, and the decoder
    with its two kinds of failure. *)

From Stdlib Require Import Strings.Byte.
From stdpp Require Import base list numbers strings.
From S2P Require Import Prelude.

Local Open Scope N_scope.

Inductive Version := Rtsp1_0 | Rtsp2_0.

#[export] Instance version_eq_dec : EqDecision Version.
Proof. solve_decision. Defined.

(** [version::DecodeError]. *)
Inductive DecodeError := Invalid | Unknown (major minor : N).

#[export] Instance decode_error_eq_dec : EqDecision DecodeError.
Proof. solve_decision. Defined.

Definition as_encoded (v : Version) : bytes :=
  match v with
  | Rtsp1_0 => bs "RTSP/1.0"
  | Rtsp2_0 => bs "RTSP/2.0"
  end.

(** [u8::checked_sub]. *)
Definition checked_sub (a b : N) : option N := if a <? b then None else Some (a - b).

Definition byte_at (value : bytes) (i : nat) : byte := default x00 (value !! i).

(** The slice is only indexed after its length has been found to be 8. *)
Definition try_decode (value : bytes) : Result Version DecodeError :=
  if negb (Nat.eqb (length value) 8)
     || negb (bool_decide (to_ascii_uppercase <$> take 5 value = bs "RTSP/"))
     || negb (bool_decide (byte_at value 6 = "."%byte))
  then Err Invalid
  else
    match checked_sub (Byte.to_N (byte_at value 5)) 48 with
    | None => Err Invalid
    | Some major =>
        match checked_sub (Byte.to_N (byte_at value 7)) 48 with
        | None => Err Invalid
        | Some minor =>
            if (major =? 1) && (minor =? 0) then Ok Rtsp1_0
            else if (major =? 2) && (minor =? 0) then Ok Rtsp2_0
            else if (9 <? major) || (9 <? minor) then Err Invalid
            else Err (Unknown major minor)
        end
    end.

Definition default_version : Version := Rtsp2_0.

Example try_decode_ex :
  try_decode (bs "RtSp/1.0") = Ok Rtsp1_0 /\ try_decode (bs "RTSP/2") = Err Invalid
  /\ try_decode (bs "RTSP/a.b") = Err Invalid /\ try_decode (bs "rtsp/0.0") = Err (Unknown 0 0)
  /\ try_decode (bs "RTSP/9.9") = Err (Unknown 9 9).
Proof. now vm_compute. Qed.

Lemma try_decode_encoded v : try_decode (as_encoded v) = Ok v.
Proof. now destruct v; vm_compute. Qed.

Lemma length_as_encoded v : length (as_encoded v) = 8%nat.
Proof. now destruct v. Qed.

(** A byte whose upper case is not a letter is that byte. *)
Lemma to_ascii_uppercase_inv b c :
  to_ascii_uppercase b = c -> is_ascii_uppercase c = false -> b = c.
Proof. intros <-. byte_cases b. Qed.

Lemma checked_sub_Some a b c : checked_sub a b = Some c <-> b <= a /\ a = b + c.
Proof.
  unfold checked_sub. destruct (N.ltb_spec a b); split; intros; simplify_eq; try lia.
  f_equal. lia.
Qed.

Lemma byte_by_N b n : Byte.to_N b = n -> b = byte_of_N n.
Proof. intros <-. now rewrite byte_of_N_to_N. Qed.

Lemma upper_RTSP b0 b1 b2 b3 b4 :
  [to_ascii_uppercase b0; to_ascii_uppercase b1; to_ascii_uppercase b2; to_ascii_uppercase b3;
   to_ascii_uppercase b4] = bs "RTSP/" <->
  to_ascii_uppercase b0 = "R"%byte /\ to_ascii_uppercase b1 = "T"%byte
  /\ to_ascii_uppercase b2 = "S"%byte /\ to_ascii_uppercase b3 = "P"%byte
  /\ to_ascii_uppercase b4 = "/"%byte.
Proof.
  change (bs "RTSP/") with ["R"%byte; "T"%byte; "S"%byte; "P"%byte; "/"%byte].
  split; [now intros [= -> -> -> -> ->]|now intros (-> & -> & -> & -> & ->)].
Qed.

(** What the tests of the decoder establish about an accepted value. *)
Lemma try_decode_Ok value v :
  try_decode value = Ok v ->
  exists b0 b1 b2 b3 b4 b5,
    value = [b0; b1; b2; b3; b4; b5; "."%byte; "0"%byte]
    /\ to_ascii_uppercase <$> [b0; b1; b2; b3; b4] = bs "RTSP/"
    /\ (v = Rtsp1_0 /\ b5 = "1"%byte \/ v = Rtsp2_0 /\ b5 = "2"%byte).
Proof.
  unfold try_decode.
  destruct (Nat.eqb_spec (length value) 8) as [Hl|]; cbn [negb orb]; [|done].
  destruct value as [|b0 [|b1 [|b2 [|b3 [|b4 [|b5 [|b6 [|b7 [|]]]]]]]]]; try discriminate Hl.
  case_bool_decide as Hname; cbn [negb orb]; [|done].
  case_bool_decide as Hdot; cbn [negb orb]; [|done].
  change (byte_at _ 6) with b6 in Hdot. change (byte_at _ 5) with b5. change (byte_at _ 7) with b7.
  destruct (checked_sub (Byte.to_N b5) 48) as [major|] eqn:Hma; [|done].
  destruct (checked_sub (Byte.to_N b7) 48) as [minor|] eqn:Hmi; [|done].
  apply checked_sub_Some in Hma as [_ Hma%byte_by_N], Hmi as [_ Hmi%byte_by_N]. subst b6.
  intros H. exists b0, b1, b2, b3, b4, b5.
  destruct (N.eqb_spec minor 0) as [->|];
    [|rewrite !andb_false_r in H; now destruct (_ || _)].
  rewrite !andb_true_r in H.
  destruct (N.eqb_spec major 1) as [->|]; [|destruct (N.eqb_spec major 2) as [->|]];
    [..|now destruct (_ || _)]; injection H as <-; subst; auto.
Qed.

(** ** Properties *)

(** Decoding inverts encoding, ignores the case of the protocol name, and accepts nothing else: a
    value decodes to [v] exactly when its upper-case form is the encoding of [v]; an [Unknown]
    version is reported with two decimal digits. *)
Theorem version_try_decode_spec value :
  (forall v, try_decode value = Ok v <-> to_ascii_uppercase <$> value = as_encoded v)
  /\ (forall major minor, try_decode value = Err (Unknown major minor) -> major <= 9 /\ minor <= 9).
Proof.
  split; [intros v; split|].
  - intros H. apply try_decode_Ok in H as (b0 & b1 & b2 & b3 & b4 & b5 & -> & Hname & Hv).
    cbn [fmap list_fmap] in *. rewrite upper_RTSP in Hname.
    destruct Hname as (-> & -> & -> & -> & ->). destruct Hv as [[-> ->]|[-> ->]]; now vm_compute.
  - intros H. assert (Hl : length value = 8%nat).
    { rewrite <- (length_as_encoded v), <- H. now rewrite length_fmap. }
    destruct value as [|b0 [|b1 [|b2 [|b3 [|b4 [|b5 [|b6 [|b7 [|]]]]]]]]]; try discriminate Hl.
    assert (Hpre : to_ascii_uppercase <$> [b0; b1; b2; b3; b4] = bs "RTSP/").
    { apply (f_equal (take 5)) in H. cbn [fmap list_fmap take] in *. rewrite H. now destruct v. }
    assert (H6 : b6 = "."%byte /\ b7 = "0"%byte /\
                 b5 = match v with Rtsp1_0 => "1"%byte | Rtsp2_0 => "2"%byte end).
    { destruct v; injection H as _ _ _ _ _ H5 H6 H7; repeat split;
        now apply to_ascii_uppercase_inv. }
    destruct H6 as (-> & -> & ->). unfold try_decode. cbn [length Nat.eqb negb orb take].
    rewrite bool_decide_eq_true_2 by exact Hpre. now destruct v.
  - intros major minor. unfold try_decode. case_match; [done|]. do 2 (case_match; [|done]).
    do 2 (case_match; [done|]). case_match eqn:E; [done|]. intros [= -> ->].
    apply orb_false_iff in E as [?%N.ltb_ge ?%N.ltb_ge]. done.
Qed.
