(* ===== verification/Method.v ===== *)
(** * Method

    Model of [rtsp-2/src/method.rs]: request methods, their textual form and the decoder that
    recognises the standard names in any case and upper-cases extension methods. *)

From Stdlib Require Import Strings.Byte.
From stdpp Require Import base list numbers strings.
From S2P Require Import Prelude Text Syntax.

Local Open Scope nat_scope.

Inductive Method :=
  | Describe | GetParameter | Options | Pause | Play | PlayNotify | Redirect | SetParameter
  | Setup | Teardown
  | Extension (name : bytes).

#[export] Instance method_eq_dec : EqDecision Method.
Proof. solve_decision. Defined.

Inductive MethodError := Empty | InvalidCharacter | StartsWithDollarSign.

#[export] Instance method_error_eq_dec : EqDecision MethodError.
Proof. solve_decision. Defined.

Definition as_str (m : Method) : bytes :=
  match m with
  | Describe => bs "DESCRIBE"
  | GetParameter => bs "GET_PARAMETER"
  | Options => bs "OPTIONS"
  | Pause => bs "PAUSE"
  | Play => bs "PLAY"
  | PlayNotify => bs "PLAY_NOTIFY"
  | Redirect => bs "REDIRECT"
  | SetParameter => bs "SET_PARAMETER"
  | Setup => bs "SETUP"
  | Teardown => bs "TEARDOWN"
  | Extension name => name
  end.

Definition extension (value : bytes) : Result Method MethodError :=
  match value with
  | [] => Err Empty
  | b :: _ =>
      if bool_decide (b = "$"%byte) then Err StartsWithDollarSign
      else if negb (is_token value) then Err InvalidCharacter
      else Ok (Extension (to_ascii_uppercase <$> value))
  end.

(** The [check_method!] macro. *)
Definition check_method (m : Method) (value : bytes) : bool :=
  check_name to_ascii_uppercase (as_str m) value.

Definition try_from (value : bytes) : Result Method MethodError :=
  match length value with
  | 4 => if check_method Play value then Ok Play else extension value
  | 5 => if check_method Pause value then Ok Pause
         else if check_method Setup value then Ok Setup
         else extension value
  | 7 => if check_method Options value then Ok Options else extension value
  | 8 => if check_method Describe value then Ok Describe
         else if check_method Redirect value then Ok Redirect
         else if check_method Teardown value then Ok Teardown
         else extension value
  | 11 => if check_method PlayNotify value then Ok PlayNotify else extension value
  | 13 => if check_method GetParameter value then Ok GetParameter
          else if check_method SetParameter value then Ok SetParameter
          else extension value
  | _ => extension value
  end.

Example method_ex :
  try_from (bs "play") = Ok Play /\ try_from (bs "extension") = Ok (Extension (bs "EXTENSION"))
  /\ try_from (bs "$GET") = Err StartsWithDollarSign /\ try_from (bs "GET/") = Err InvalidCharacter.
Proof. now vm_compute. Qed.

Definition standard_methods : list Method :=
  [Describe; GetParameter; Options; Pause; Play; PlayNotify; Redirect; SetParameter; Setup;
   Teardown].

Lemma method_try_from_find value :
  try_from value
  = match List.find (fun m => check_method m value) standard_methods with
    | Some m => Ok m
    | None => extension value
    end.
Proof.
  unfold try_from, standard_methods, check_method.
  destruct (length value) as [|n] eqn:Hn; [bucket Hn|].
  do 13 (destruct n as [|n]; [bucket Hn|]). bucket Hn.
Qed.

(** ** The valid methods *)

(** An extension method is a non-empty upper-case token that does not start with a dollar sign and
    is not one of the standard names. *)
Definition method_wf (m : Method) : Prop :=
  match m with
  | Extension name =>
      is_token name = true /\ head name <> Some "$"%byte
      /\ to_ascii_uppercase <$> name = name
      /\ Forall (fun m => as_str m <> name) standard_methods
  | _ => True
  end.

Lemma token_char_uppercase b : token_char (to_ascii_uppercase b) = token_char b.
Proof. byte_cases b. Qed.

Lemma is_token_uppercase (value : bytes) : is_token (to_ascii_uppercase <$> value) = is_token value.
Proof.
  unfold is_token. destruct value as [|b value]; [done|]. cbn [fmap list_fmap].
  rewrite !bool_decide_eq_false_2 by done. cbn [forallb]. rewrite token_char_uppercase. f_equal.
  induction value as [|c value IH]; [done|]. cbn. now rewrite token_char_uppercase, IH.
Qed.

Lemma uppercase_idemp (value : bytes) :
  to_ascii_uppercase <$> (to_ascii_uppercase <$> value) = to_ascii_uppercase <$> value.
Proof.
  rewrite <- list_fmap_compose. apply list_fmap_ext. intros. apply to_ascii_uppercase_idemp.
Qed.

Lemma standard_methods_all m : (forall name, m <> Extension name) -> In m standard_methods.
Proof. destruct m; intros H; cbn; try tauto. now destruct (H name). Qed.

Lemma check_method_spec m value :
  check_method m value = true <-> to_ascii_uppercase <$> value = as_str m.
Proof. apply check_name_spec. Qed.

(** The standard names are pairwise distinct, upper case and not empty. *)
Lemma standard_as_str_inj m m' :
  In m standard_methods -> In m' standard_methods -> as_str m = as_str m' -> m = m'.
Proof. cbn. intros; destruct_or?; subst; done. Qed.

Lemma extension_Ok (value : bytes) m :
  extension value = Ok m <->
  is_token value = true /\ head value <> Some "$"%byte
  /\ m = Extension (to_ascii_uppercase <$> value).
Proof.
  unfold extension. destruct value as [|b value]; [naive_solver|].
  cbn [head]. case_bool_decide; [naive_solver|]. destruct (is_token _); naive_solver.
Qed.

Lemma uppercase_dollar b : to_ascii_uppercase b = "$"%byte -> b = "$"%byte.
Proof. byte_cases b. Qed.

Lemma method_try_from_iff value m :
  try_from value = Ok m <-> method_wf m /\ to_ascii_uppercase <$> value = as_str m.
Proof.
  rewrite method_try_from_find. split.
  - destruct (List.find _ _) as [m'|] eqn:E.
    + intros [= <-]. apply find_some in E as [Hin Hc]. split; [|now apply check_method_spec].
      cbn in Hin. destruct_or?; now subst.
    + intros (Htok & Hhd & ->)%extension_Ok. split; [|done]. cbn [method_wf].
      rewrite is_token_uppercase, uppercase_idemp. repeat split; [done| |].
      * destruct value as [|b value]; [done|]. intros [= Hb]. apply Hhd. cbn. f_equal.
        now apply uppercase_dollar.
      * apply Forall_forall. intros m' Hm' Heq. apply list_elem_of_In in Hm'.
        pose proof (find_none _ _ E m' Hm') as Hc. cbn in Hc.
        now rewrite (proj2 (check_method_spec m' value) (eq_sym Heq)) in Hc.
  - intros [Hwf Hval]. destruct (decide (In m standard_methods)) as [Hm|Hm].
    + destruct (List.find _ _) as [m'|] eqn:E.
      * apply find_some in E as [Hin Hc%check_method_spec]. f_equal.
        apply standard_as_str_inj; congruence.
      * apply (find_none _ _) with (x := m) in E; [|done]. cbn in E.
        now rewrite (proj2 (check_method_spec m value) Hval) in E.
    + destruct m as [| | | | | | | | | |name]; try (exfalso; apply Hm; cbn; tauto).
      destruct Hwf as (Htok & Hhd & Hup & Hstd). cbn in Hval. subst name.
      destruct (List.find _ _) as [m'|] eqn:E.
      * apply find_some in E as [Hin Hc%check_method_spec]. rewrite Forall_forall in Hstd.
        destruct (Hstd m'); [now apply list_elem_of_In|done].
      * apply extension_Ok. rewrite is_token_uppercase in Htok. repeat split; [done|].
        destruct value as [|b value]; [done|]. cbn in *. intros [= ->]. now apply Hhd.
Qed.

(** ** Properties *)

(** Decoding a method: it succeeds with [m] exactly when [m] is a valid method whose text is the
    upper-case form of the input. So decoding inverts [as_str] on valid methods, ignores case, and
    never yields an extension that is really a standard name. The error is determined by the first
    byte. *)
Theorem method_try_from_spec (value : bytes) :
  (forall m, try_from value = Ok m <-> method_wf m /\ to_ascii_uppercase <$> value = as_str m)
  /\ (forall e, try_from value = Err e ->
        e = match value with
            | [] => Empty
            | b :: _ => if bool_decide (b = "$"%byte) then StartsWithDollarSign
                        else InvalidCharacter
            end).
Proof.
  split; [exact (method_try_from_iff value)|]. rewrite method_try_from_find.
  intros e. destruct (List.find _ _); [done|]. unfold extension.
  destruct value; [now intros [= <-]|]. case_bool_decide; [now intros [= <-]|].
  destruct (is_token _); [done|now intros [= <-]].
Qed.
