(* ===== verification/HeaderName.v ===== *)
(** * Header names

    Model of [rtsp-2/src/header/name.rs]: the standard header names, extension names with their
    canonical spelling, the equality that ignores the case of extensions, and the decoder that
    recognises the standard names in any case. *)

From Stdlib Require Import Strings.Byte.
From stdpp Require Import base list numbers strings.
From S2P Require Import Prelude Text Syntax.

Local Open Scope nat_scope.

(** [Extension name name_lowercase] is [Extension(ExtensionHeaderName(name, name_lowercase))]. *)
Inductive HeaderName :=
  | Accept | AcceptCredentials | AcceptEncoding | AcceptLanguage | AcceptRanges | Allow
  | AuthenticationInfo | Authorization | Bandwidth | Blocksize | CacheControl | Connection
  | ConnectionCredentials | ContentBase | ContentEncoding | ContentLanguage | ContentLength
  | ContentLocation | ContentType | CSeq | Date | Expires | From | IfMatch | IfModifiedSince
  | IfNoneMatch | LastModified | Location | MediaProperties | MediaRange | MTag | NotifyReason
  | PipelinedRequests | ProxyAuthenticate | ProxyAuthenticationInfo | ProxyAuthorization
  | ProxyRequire | ProxySupported | Public | Range | Referrer | RequestStatus | Require
  | RetryAfter | RTPInfo | Scale | SeekStyle | Server | Session | Speed | Supported
  | TerminateReason | Timestamp | Transport | Unsupported | UserAgent | Via | WWWAuthenticate
  | Extension (name name_lowercase : bytes).

Inductive HeaderNameError := Empty | InvalidCharacter.

#[export] Instance header_name_error_eq_dec : EqDecision HeaderNameError.
Proof. solve_decision. Defined.

Definition as_str (h : HeaderName) : bytes :=
  match h with
  | Accept => bs "accept"
  | AcceptCredentials => bs "accept-credentials"
  | AcceptEncoding => bs "accept-encoding"
  | AcceptLanguage => bs "accept-language"
  | AcceptRanges => bs "accept-ranges"
  | Allow => bs "allow"
  | AuthenticationInfo => bs "authentication-info"
  | Authorization => bs "authorization"
  | Bandwidth => bs "bandwidth"
  | Blocksize => bs "blocksize"
  | CacheControl => bs "cache-control"
  | Connection => bs "connection"
  | ConnectionCredentials => bs "connection-credentials"
  | ContentBase => bs "content-base"
  | ContentEncoding => bs "content-encoding"
  | ContentLanguage => bs "content-language"
  | ContentLength => bs "content-length"
  | ContentLocation => bs "content-location"
  | ContentType => bs "content-type"
  | CSeq => bs "cseq"
  | Date => bs "date"
  | Expires => bs "expires"
  | From => bs "from"
  | IfMatch => bs "if-match"
  | IfModifiedSince => bs "if-modified-since"
  | IfNoneMatch => bs "if-none-match"
  | LastModified => bs "last-modified"
  | Location => bs "location"
  | MediaProperties => bs "media-properties"
  | MediaRange => bs "media-range"
  | MTag => bs "mtag"
  | NotifyReason => bs "notify-reason"
  | PipelinedRequests => bs "pipelined-requests"
  | ProxyAuthenticate => bs "proxy-authenticate"
  | ProxyAuthenticationInfo => bs "proxy-authentication-info"
  | ProxyAuthorization => bs "proxy-authorization"
  | ProxyRequire => bs "proxy-require"
  | ProxySupported => bs "proxy-supported"
  | Public => bs "public"
  | Range => bs "range"
  | Referrer => bs "referrer"
  | RequestStatus => bs "request-status"
  | Require => bs "require"
  | RetryAfter => bs "retry-after"
  | RTPInfo => bs "rtp-info"
  | Scale => bs "scale"
  | SeekStyle => bs "seek-style"
  | Server => bs "server"
  | Session => bs "session"
  | Speed => bs "speed"
  | Supported => bs "supported"
  | TerminateReason => bs "terminate-reason"
  | Timestamp => bs "timestamp"
  | Transport => bs "transport"
  | Unsupported => bs "unsupported"
  | UserAgent => bs "user-agent"
  | Via => bs "via"
  | WWWAuthenticate => bs "www-authenticate"
  | Extension _ name_lowercase => name_lowercase
  end.

Definition canonical_name (h : HeaderName) : bytes :=
  match h with
  | Accept => bs "Accept"
  | AcceptCredentials => bs "Accept-Credentials"
  | AcceptEncoding => bs "Accept-Encoding"
  | AcceptLanguage => bs "Accept-Language"
  | AcceptRanges => bs "Accept-Ranges"
  | Allow => bs "Allow"
  | AuthenticationInfo => bs "Authentication-Info"
  | Authorization => bs "Authorization"
  | Bandwidth => bs "Bandwidth"
  | Blocksize => bs "Blocksize"
  | CacheControl => bs "Cache-Control"
  | Connection => bs "Connection"
  | ConnectionCredentials => bs "Connection-Credentials"
  | ContentBase => bs "Content-Base"
  | ContentEncoding => bs "Content-Encoding"
  | ContentLanguage => bs "Content-Language"
  | ContentLength => bs "Content-Length"
  | ContentLocation => bs "Content-Location"
  | ContentType => bs "Content-Type"
  | CSeq => bs "CSeq"
  | Date => bs "Date"
  | Expires => bs "Expires"
  | From => bs "From"
  | IfMatch => bs "If-Match"
  | IfModifiedSince => bs "If-Modified-Since"
  | IfNoneMatch => bs "If-None-Match"
  | LastModified => bs "Last-Modified"
  | Location => bs "Location"
  | MediaProperties => bs "Media-Properties"
  | MediaRange => bs "Media-Range"
  | MTag => bs "MTag"
  | NotifyReason => bs "Notify-Reason"
  | PipelinedRequests => bs "Pipelined-Requests"
  | ProxyAuthenticate => bs "Proxy-Authenticate"
  | ProxyAuthenticationInfo => bs "Proxy-Authentication-Info"
  | ProxyAuthorization => bs "Proxy-Authorization"
  | ProxyRequire => bs "Proxy-Require"
  | ProxySupported => bs "Proxy-Supported"
  | Public => bs "Public"
  | Range => bs "Range"
  | Referrer => bs "Referrer"
  | RequestStatus => bs "Request-Status"
  | Require => bs "Require"
  | RetryAfter => bs "Retry-After"
  | RTPInfo => bs "RTP-Info"
  | Scale => bs "Scale"
  | SeekStyle => bs "Seek-Style"
  | Server => bs "Server"
  | Session => bs "Session"
  | Speed => bs "Speed"
  | Supported => bs "Supported"
  | TerminateReason => bs "Terminate-Reason"
  | Timestamp => bs "Timestamp"
  | Transport => bs "Transport"
  | Unsupported => bs "Unsupported"
  | UserAgent => bs "User-Agent"
  | Via => bs "Via"
  | WWWAuthenticate => bs "WWW-Authenticate"
  | Extension name _ => name
  end.

Definition extension (name : bytes) : Result HeaderName HeaderNameError :=
  match name with
  | [] => Err Empty
  | _ :: _ =>
      if negb (is_token name) then Err InvalidCharacter
      else Ok (Extension name (to_ascii_lowercase <$> name))
  end.

(** The [check_header_name!] macro. *)
Definition check_header_name (h : HeaderName) (value : bytes) : bool :=
  check_name to_ascii_lowercase (as_str h) value.

Definition try_from (value : bytes) : Result HeaderName HeaderNameError :=
  match length value with
  | 3 =>
      if check_header_name Via value then Ok Via else
      extension value
  | 4 =>
      if check_header_name CSeq value then Ok CSeq else
      if check_header_name Date value then Ok Date else
      if check_header_name From value then Ok From else
      if check_header_name MTag value then Ok MTag else
      extension value
  | 5 =>
      if check_header_name Allow value then Ok Allow else
      if check_header_name Range value then Ok Range else
      if check_header_name Scale value then Ok Scale else
      if check_header_name Speed value then Ok Speed else
      extension value
  | 6 =>
      if check_header_name Accept value then Ok Accept else
      if check_header_name Public value then Ok Public else
      if check_header_name Server value then Ok Server else
      extension value
  | 7 =>
      if check_header_name Expires value then Ok Expires else
      if check_header_name Require value then Ok Require else
      if check_header_name Session value then Ok Session else
      extension value
  | 8 =>
      if check_header_name IfMatch value then Ok IfMatch else
      if check_header_name Location value then Ok Location else
      if check_header_name Referrer value then Ok Referrer else
      if check_header_name RTPInfo value then Ok RTPInfo else
      extension value
  | 9 =>
      if check_header_name Bandwidth value then Ok Bandwidth else
      if check_header_name Blocksize value then Ok Blocksize else
      if check_header_name Supported value then Ok Supported else
      if check_header_name Timestamp value then Ok Timestamp else
      if check_header_name Transport value then Ok Transport else
      extension value
  | 10 =>
      if check_header_name Connection value then Ok Connection else
      if check_header_name SeekStyle value then Ok SeekStyle else
      if check_header_name UserAgent value then Ok UserAgent else
      extension value
  | 11 =>
      if check_header_name MediaRange value then Ok MediaRange else
      if check_header_name RetryAfter value then Ok RetryAfter else
      if check_header_name Unsupported value then Ok Unsupported else
      extension value
  | 12 =>
      if check_header_name ContentBase value then Ok ContentBase else
      if check_header_name ContentType value then Ok ContentType else
      extension value
  | 13 =>
      if check_header_name AcceptRanges value then Ok AcceptRanges else
      if check_header_name Authorization value then Ok Authorization else
      if check_header_name CacheControl value then Ok CacheControl else
      if check_header_name IfNoneMatch value then Ok IfNoneMatch else
      if check_header_name LastModified value then Ok LastModified else
      if check_header_name NotifyReason value then Ok NotifyReason else
      if check_header_name ProxyRequire value then Ok ProxyRequire else
      extension value
  | 14 =>
      if check_header_name ContentLength value then Ok ContentLength else
      if check_header_name RequestStatus value then Ok RequestStatus else
      extension value
  | 15 =>
      if check_header_name AcceptEncoding value then Ok AcceptEncoding else
      if check_header_name AcceptLanguage value then Ok AcceptLanguage else
      if check_header_name ProxySupported value then Ok ProxySupported else
      extension value
  | 16 =>
      if check_header_name ContentEncoding value then Ok ContentEncoding else
      if check_header_name ContentLanguage value then Ok ContentLanguage else
      if check_header_name ContentLocation value then Ok ContentLocation else
      if check_header_name MediaProperties value then Ok MediaProperties else
      if check_header_name TerminateReason value then Ok TerminateReason else
      if check_header_name WWWAuthenticate value then Ok WWWAuthenticate else
      extension value
  | 17 =>
      if check_header_name IfModifiedSince value then Ok IfModifiedSince else
      extension value
  | 18 =>
      if check_header_name AcceptCredentials value then Ok AcceptCredentials else
      if check_header_name PipelinedRequests value then Ok PipelinedRequests else
      if check_header_name ProxyAuthenticate value then Ok ProxyAuthenticate else
      extension value
  | 19 =>
      if check_header_name AuthenticationInfo value then Ok AuthenticationInfo else
      if check_header_name ProxyAuthorization value then Ok ProxyAuthorization else
      extension value
  | 22 =>
      if check_header_name ConnectionCredentials value then Ok ConnectionCredentials else
      extension value
  | 25 =>
      if check_header_name ProxyAuthenticationInfo value then Ok ProxyAuthenticationInfo else
      extension value
  | _ => extension value
  end.

Definition standard_header_names : list HeaderName :=
  [Accept; AcceptCredentials; AcceptEncoding; AcceptLanguage; AcceptRanges; Allow;
   AuthenticationInfo; Authorization; Bandwidth; Blocksize; CacheControl; Connection;
   ConnectionCredentials; ContentBase; ContentEncoding; ContentLanguage; ContentLength;
   ContentLocation; ContentType; CSeq; Date; Expires; From; IfMatch; IfModifiedSince;
   IfNoneMatch; LastModified; Location; MediaProperties; MediaRange; MTag; NotifyReason;
   PipelinedRequests; ProxyAuthenticate; ProxyAuthenticationInfo; ProxyAuthorization;
   ProxyRequire; ProxySupported; Public; Range; Referrer; RequestStatus; Require; RetryAfter;
   RTPInfo; Scale; SeekStyle; Server; Session; Speed; Supported; TerminateReason; Timestamp;
   Transport; Unsupported; UserAgent; Via; WWWAuthenticate].

Example header_name_ex :
  try_from (bs "CSEQ") = Ok CSeq
  /\ try_from (bs "X-Ext") = Ok (Extension (bs "X-Ext") (bs "x-ext"))
  /\ try_from (bs "") = Err Empty /\ try_from (bs "a b") = Err InvalidCharacter.
Proof. now vm_compute. Qed.

(** ** Equality *)

#[export] Instance header_name_eq_dec : EqDecision HeaderName.
Proof. solve_decision. Defined.

(** The derived [PartialEq], which compares extensions with [ExtensionHeaderName]'s own. *)
Definition header_name_eqb (h1 h2 : HeaderName) : bool :=
  match h1, h2 with
  | Extension _ l1, Extension _ l2 => eq_ignore_ascii_case l1 l2
  | _, _ => bool_decide (h1 = h2)
  end.

(** [PartialEq] with [[u8]] and [str], in both directions. *)
Definition header_name_eq_bytes (h : HeaderName) (other : bytes) : bool :=
  eq_ignore_ascii_case (as_str h) other.

(** [HeaderName]s are equivalent when Rust's [==] says so. *)
#[export] Instance header_name_equiv : Equiv HeaderName :=
  fun h1 h2 => header_name_eqb h1 h2 = true.

Definition is_extension (h : HeaderName) : bool :=
  match h with Extension _ _ => true | _ => false end.

Lemma header_name_cases h : is_extension h = false \/ exists n l, h = Extension n l.
Proof. destruct h; cbn; eauto. Qed.

Lemma header_name_eqb_standard h1 h2 :
  is_extension h1 = false \/ is_extension h2 = false ->
  header_name_eqb h1 h2 = true <-> h1 = h2.
Proof.
  intros [H|H].
  - destruct h1; try discriminate H; apply bool_decide_eq_true.
  - destruct (header_name_cases h1) as [H1|(n & l & ->)].
    + destruct h1; try discriminate H1; apply bool_decide_eq_true.
    + destruct h2; try discriminate H; cbn; now rewrite bool_decide_eq_true.
Qed.

Lemma header_name_equiv_spec (h1 h2 : HeaderName) :
  h1 ≡ h2 <->
  h1 = h2 \/ exists n1 l1 n2 l2, h1 = Extension n1 l1 /\ h2 = Extension n2 l2
                              /\ to_ascii_lowercase <$> l1 = to_ascii_lowercase <$> l2.
Proof.
  unfold equiv, header_name_equiv.
  destruct (header_name_cases h1) as [H|(n1 & l1 & ->)];
    [rewrite header_name_eqb_standard by auto; split; [auto|]; naive_solver|].
  destruct (header_name_cases h2) as [H|(n2 & l2 & ->)];
    [rewrite header_name_eqb_standard by auto; split; [auto|]; naive_solver|].
  cbn. unfold eq_ignore_ascii_case. rewrite bool_decide_eq_true. naive_solver.
Qed.

#[export] Instance header_name_equivalence : Equivalence (≡@{HeaderName}).
Proof.
  split.
  - intros h. apply header_name_equiv_spec. now left.
  - intros h1 h2. rewrite !header_name_equiv_spec. naive_solver.
  - intros h1 h2 h3. rewrite !header_name_equiv_spec.
    intros [->|(n1 & l1 & n2 & l2 & -> & -> & E1)] [<-|(n3 & l3 & n4 & l4 & H & -> & E2)];
      eauto 10.
    right. injection H as -> ->. do 4 eexists. repeat split. congruence.
Qed.

#[export] Instance header_name_equiv_dec : RelDecision (≡@{HeaderName}).
Proof. intros h1 h2. unfold equiv, header_name_equiv. apply _. Defined.

(** ** The valid names *)

(** An extension is a token that is not a standard name in any case; its second field is the
    lower-case form of the first. *)
Definition header_name_wf (h : HeaderName) : Prop :=
  match h with
  | Extension name name_lowercase =>
      is_token name = true /\ name_lowercase = to_ascii_lowercase <$> name
      /\ Forall (fun h => as_str h <> name_lowercase) standard_header_names
  | _ => True
  end.

Lemma header_name_try_from_find value :
  try_from value
  = match List.find (fun h => check_header_name h value) standard_header_names with
    | Some h => Ok h
    | None => extension value
    end.
Proof.
  unfold try_from, standard_header_names, check_header_name.
  destruct (length value) as [|n] eqn:Hn; [bucket Hn|].
  do 25 (destruct n as [|n]; [bucket Hn|]). bucket Hn.
Qed.

Lemma standard_header_names_spec h : In h standard_header_names <-> is_extension h = false.
Proof. split; [cbn; intros; destruct_or?; now subst|]. destruct h; cbn; tauto || discriminate. Qed.

Lemma standard_header_names_as_str : NoDup (as_str <$> standard_header_names).
Proof. apply (bool_decide_unpack _). vm_compute. exact I. Qed.

Lemma header_standard_as_str_inj h h' :
  is_extension h = false -> is_extension h' = false -> as_str h = as_str h' -> h = h'.
Proof.
  intros H%standard_header_names_spec H'%standard_header_names_spec Heq.
  apply list_elem_of_In in H, H'.
  apply list_elem_of_lookup in H as [i Hi], H' as [j Hj].
  assert (i = j) as ->; [|congruence].
  apply (NoDup_lookup _ _ _ (as_str h) standard_header_names_as_str).
  - now rewrite list_lookup_fmap, Hi.
  - rewrite list_lookup_fmap, Hj. cbn. now rewrite Heq.
Qed.

Lemma header_extension_Ok (name : bytes) h :
  extension name = Ok h <->
  is_token name = true /\ h = Extension name (to_ascii_lowercase <$> name).
Proof.
  unfold extension. destruct name as [|b name]; [naive_solver|].
  destruct (is_token _); naive_solver.
Qed.

Lemma check_header_name_spec h value :
  check_header_name h value = true <-> to_ascii_lowercase <$> value = as_str h.
Proof. apply check_name_spec. Qed.

Lemma lowercase_idemp (value : bytes) :
  to_ascii_lowercase <$> (to_ascii_lowercase <$> value) = to_ascii_lowercase <$> value.
Proof.
  rewrite <- list_fmap_compose. apply list_fmap_ext. intros. apply to_ascii_lowercase_idemp.
Qed.

Lemma token_char_lowercase b : token_char (to_ascii_lowercase b) = token_char b.
Proof. byte_cases b. Qed.

Lemma is_token_lowercase (value : bytes) : is_token (to_ascii_lowercase <$> value) = is_token value.
Proof.
  unfold is_token. destruct value as [|b value]; [done|]. cbn [fmap list_fmap].
  rewrite !bool_decide_eq_false_2 by done. cbn [forallb]. rewrite token_char_lowercase. f_equal.
  induction value as [|c value IH]; [done|]. cbn. now rewrite token_char_lowercase, IH.
Qed.

(** Standard names are tokens in lower case. *)
Lemma standard_as_str h :
  is_extension h = false ->
  is_token (as_str h) = true /\ to_ascii_lowercase <$> canonical_name h = as_str h
  /\ to_ascii_lowercase <$> as_str h = as_str h.
Proof. destruct h; [now vm_compute..|discriminate]. Qed.

(** The text of a valid name is its canonical name in lower case. *)
Lemma wf_as_str h :
  header_name_wf h ->
  to_ascii_lowercase <$> canonical_name h = as_str h
  /\ to_ascii_lowercase <$> as_str h = as_str h /\ is_token (as_str h) = true
  /\ is_token (canonical_name h) = true.
Proof.
  destruct (header_name_cases h) as [H|(n & l & ->)]; cbn.
  - destruct (standard_as_str h H) as (H1 & H2 & H3). intros _. repeat split; try done.
    now rewrite <- is_token_lowercase, H2.
  - intros (H1 & -> & _). rewrite lowercase_idemp, is_token_lowercase. done.
Qed.

Lemma try_from_standard value h :
  is_extension h = false -> to_ascii_lowercase <$> value = as_str h -> try_from value = Ok h.
Proof.
  intros He Hv. rewrite header_name_try_from_find.
  destruct (List.find _ _) as [h'|] eqn:E.
  - apply find_some in E as [Hin Hc%check_header_name_spec]. f_equal.
    apply standard_header_names_spec in Hin. apply header_standard_as_str_inj; congruence.
  - apply standard_header_names_spec in He.
    apply (find_none _ _) with (x := h) in E; [|done]. cbn in E.
    now rewrite (proj2 (check_header_name_spec h value) Hv) in E.
Qed.

Lemma try_from_Ok value h :
  try_from value = Ok h ->
  header_name_wf h /\ to_ascii_lowercase <$> value = as_str h
  /\ (is_extension h = true -> canonical_name h = value).
Proof.
  rewrite header_name_try_from_find. destruct (List.find _ _) as [h'|] eqn:E.
  - intros [= <-]. apply find_some in E as [Hin Hc%check_header_name_spec].
    apply standard_header_names_spec in Hin.
    repeat split; [|done|congruence]. now destruct h'.
  - intros (Htok & ->)%header_extension_Ok. repeat split; [done|].
    apply Forall_forall. intros h' Hh' Heq. apply list_elem_of_In in Hh'.
    pose proof (find_none _ _ E h' Hh') as Hc. cbn in Hc.
    now rewrite (proj2 (check_header_name_spec h' value) (eq_sym Heq)) in Hc.
Qed.

Lemma try_from_extension value :
  header_name_wf (Extension value (to_ascii_lowercase <$> value)) ->
  try_from value = Ok (Extension value (to_ascii_lowercase <$> value)).
Proof.
  intros (Htok & _ & Hstd). rewrite header_name_try_from_find.
  destruct (List.find _ _) as [h'|] eqn:E; [|now apply header_extension_Ok].
  apply find_some in E as [Hin Hc%check_header_name_spec].
  rewrite Forall_forall in Hstd. now destruct (Hstd h'); [apply list_elem_of_In|].
Qed.

(** Decoding the canonical spelling of a valid name gives the name back. *)
Lemma try_from_canonical_name h : header_name_wf h -> try_from (canonical_name h) = Ok h.
Proof.
  intros Hwf. destruct (header_name_cases h) as [H|(n & l & ->)].
  - now apply try_from_standard, standard_as_str.
  - destruct Hwf as (Htok & -> & Hstd). now apply try_from_extension.
Qed.
#[export] Hint Resolve try_from_canonical_name : rtsp.

(** Every token is a name. *)
Lemma header_name_parses value : is_token value = true -> exists h, try_from value = Ok h.
Proof.
  intros Ht. rewrite header_name_try_from_find. destruct (List.find _ _) as [h|]; [now exists h|].
  exists (Extension value (to_ascii_lowercase <$> value)). now apply header_extension_Ok.
Qed.

(** On valid names [==] compares the lower-case text, which makes it a key for maps. *)
Lemma header_name_equiv_as_str h1 h2 :
  header_name_wf h1 -> header_name_wf h2 -> h1 ≡ h2 <-> as_str h1 = as_str h2.
Proof.
  intros W1 W2. rewrite header_name_equiv_spec.
  destruct (header_name_cases h1) as [H1|(n1 & l1 & ->)];
    destruct (header_name_cases h2) as [H2|(n2 & l2 & ->)]; cbn [as_str].
  - split; [naive_solver|]. left. now apply header_standard_as_str_inj.
  - destruct W2 as (_ & _ & Hs). rewrite Forall_forall in Hs.
    split; [naive_solver|]. intros Heq. destruct (Hs h1); [|done].
    now apply list_elem_of_In, standard_header_names_spec.
  - destruct W1 as (_ & _ & Hs). rewrite Forall_forall in Hs.
    split; [naive_solver|]. intros Heq. destruct (Hs h2); [|done].
    now apply list_elem_of_In, standard_header_names_spec.
  - destruct W1 as (_ & -> & _), W2 as (_ & -> & _). split.
    + intros [[= <-]|(n & l & n' & l' & [= <- <-] & [= <- <-] & H)]; [done|].
      now rewrite !lowercase_idemp in H.
    + intros H. right. do 4 eexists. split; [done|]. split; [done|]. now rewrite !lowercase_idemp.
Qed.

(** ** Properties *)

(** Decoding a header name. It succeeds exactly on tokens; the result is a valid name whose text is
    the lower-case form of the input, an extension keeps the spelling of the input, and the result
    is the only such name. The canonical spelling of every valid name decodes to the name, and two
    inputs decode to equal names exactly when they agree up to case. *)
Theorem header_name_try_from_spec (value : bytes) :
  (forall h, try_from value = Ok h <->
     header_name_wf h /\ to_ascii_lowercase <$> value = as_str h
     /\ (is_extension h = true -> canonical_name h = value))
  /\ (forall e, try_from value = Err e <->
       is_token value = false /\ e = match value with [] => Empty | _ => InvalidCharacter end)
  /\ (forall value' h h', try_from value = Ok h -> try_from value' = Ok h' ->
       h ≡ h' <-> eq_ignore_ascii_case value value' = true).
Proof.
  split; [|split].
  - intros h. split; [apply try_from_Ok|]. intros (Hwf & Hval & Hc).
    destruct (header_name_cases h) as [H|(n & l & ->)]; [now apply try_from_standard|].
    specialize (Hc eq_refl). cbn in Hval, Hc. subst. now apply try_from_extension.
  - intros e. split.
    + rewrite header_name_try_from_find. destruct (List.find _ _); [done|]. unfold extension.
      destruct value; [now intros [= <-]|]. destruct (is_token _); [done|now intros [= <-]].
    + intros [Hn ->]. destruct (try_from value) as [h|e'] eqn:E.
      * apply try_from_Ok in E as (Hwf & Hval & _). destruct (wf_as_str h Hwf) as (_ & _ & Ht & _).
        rewrite <- Hval, is_token_lowercase in Ht. congruence.
      * revert E. rewrite header_name_try_from_find. destruct (List.find _ _); [done|].
        unfold extension. destruct value; [now intros [= <-]|].
        destruct (is_token _); [done|now intros [= <-]].
  - intros value' h h' (W & V & _)%try_from_Ok (W' & V' & _)%try_from_Ok.
    rewrite header_name_equiv_as_str by done. unfold eq_ignore_ascii_case.
    now rewrite bool_decide_eq_true, V, V'.
Qed.
