(* ===== verification/HeaderValue.v ===== *)
(** * Header values

    Model of [rtsp-2/src/header/value.rs]: a header value is a UTF-8 string whose ASCII characters
    are printable or tabs, except for folded line breaks, which a blank must follow. *)

From Stdlib Require Import Strings.Byte.
From stdpp Require Import base list numbers strings.
From S2P Require Import Prelude Text Syntax.

Local Open Scope nat_scope.

(** The single field of the struct: the UTF-8 content of the string. *)
Record HeaderValue := mkHeaderValue { as_str : bytes }.

Inductive HeaderValueError := InvalidASCII | InvalidLineBreak | InvalidUTF8.

#[export] Instance header_value_eq_dec : EqDecision HeaderValue.
Proof. solve_decision. Defined.
#[export] Instance header_value_error_eq_dec : EqDecision HeaderValueError.
Proof. solve_decision. Defined.

Definition value_len (v : HeaderValue) : N := len (as_str v).
Definition is_empty (v : HeaderValue) : bool := N.eqb (value_len v) 0.

Inductive ExpectState := Any | ExpectLF | SpaceOrTab.

#[export] Instance expect_state_eq_dec : EqDecision ExpectState.
Proof. solve_decision. Defined.

(** The body of the loop for one character. *)
Definition expect_char (expect_state : ExpectState) (c : N) : Result ExpectState HeaderValueError :=
  match expect_state with
  | Any =>
      if N.ltb c 128 then
        if N.eqb c 13 then Ok ExpectLF
        else if (N.ltb c 32 || N.ltb 126 c) && negb (N.eqb c 9) then Err InvalidASCII
        else Ok Any
      else Ok Any
  | ExpectLF => if N.eqb c 10 then Ok SpaceOrTab else Err InvalidLineBreak
  | SpaceOrTab => if N.eqb c 32 || N.eqb c 9 then Ok Any else Err InvalidLineBreak
  end.

(** The loop over the characters. *)
Fixpoint expect_chars (expect_state : ExpectState) (cs : list N) :
    Result ExpectState HeaderValueError :=
  match cs with
  | [] => Ok expect_state
  | c :: cs =>
      match expect_char expect_state c with
      | Ok expect_state => expect_chars expect_state cs
      | Err e => Err e
      end
  end.

(** [TryFrom<&str>], on a string given with its characters. *)
Definition try_from_str (value : bytes) (chars : list N) : Result HeaderValue HeaderValueError :=
  match expect_chars Any chars with
  | Ok expect_state =>
      if negb (bool_decide (expect_state = Any)) then Err InvalidLineBreak
      else Ok (mkHeaderValue value)
  | Err e => Err e
  end.

(** [TryFrom<&[u8]>]. *)
Definition try_from (value : bytes) : Result HeaderValue HeaderValueError :=
  match utf8_chars value with
  | None => Err InvalidUTF8
  | Some chars => try_from_str value chars
  end.

Example header_value_ex :
  try_from (bs "value") = Ok (mkHeaderValue (bs "value"))
  /\ try_from (bs "a" ++ CRLF ++ bs " b") = Ok (mkHeaderValue (bs "a" ++ CRLF ++ bs " b"))
  /\ try_from (bs "a" ++ CRLF ++ bs "b") = Err InvalidLineBreak
  /\ try_from [LF] = Err InvalidASCII /\ try_from [xff] = Err InvalidUTF8.
Proof. now vm_compute. Qed.

(** ** The grammar of values *)

(** A character a value may hold outside a line break: not ASCII, printable, or a tab. *)
Definition value_char (c : N) : Prop := (128 <= c \/ 32 <= c <= 126 \/ c = 9)%N.

Inductive ValueText : list N -> Prop :=
  | vt_nil : ValueText []
  | vt_char c cs : value_char c -> ValueText cs -> ValueText (c :: cs)
  | vt_fold b cs : b = 32%N \/ b = 9%N -> ValueText cs -> ValueText (13 :: 10 :: b :: cs)%N.
#[export] Hint Constructors ValueText : rtsp.

(** The characters before the error, and the error, of an invalid value. *)
Inductive ValueError : list N -> HeaderValueError -> Prop :=
  | ve_ascii c cs : ~ value_char c -> c <> 13%N -> ValueError (c :: cs) InvalidASCII
  | ve_break cs :
      (forall b cs', cs = (10 :: b :: cs')%N -> b <> 32%N /\ b <> 9%N) ->
      ValueError (13%N :: cs) InvalidLineBreak
  | ve_char c cs e : value_char c -> ValueError cs e -> ValueError (c :: cs) e
  | ve_fold b cs e :
      b = 32%N \/ b = 9%N -> ValueError cs e -> ValueError (13 :: 10 :: b :: cs)%N e.
#[export] Hint Constructors ValueError : rtsp.

Lemma value_char_13 : ~ value_char 13.
Proof. unfold value_char. lia. Qed.

Lemma expect_char_Any c :
  (value_char c /\ expect_char Any c = Ok Any)
  \/ (c = 13%N /\ expect_char Any c = Ok ExpectLF)
  \/ (~ value_char c /\ c <> 13%N /\ expect_char Any c = Err InvalidASCII).
Proof.
  unfold expect_char, value_char.
  destruct (N.ltb_spec c 128); [|left; split; [lia|done]].
  destruct (N.eqb_spec c 13); [right; left; done|].
  destruct (N.ltb_spec c 32), (N.ltb_spec 126 c), (N.eqb_spec c 9); cbn;
    first [left; split; [lia|done] | right; right; repeat split; done || lia].
Qed.

Lemma ValueText_ValueError cs e : ValueText cs -> ValueError cs e -> False.
Proof.
  intros H. revert e. induction H as [|c cs Hc _ IH|b cs Hb _ IH]; intros e He;
    inversion He; subst; solve [eauto using value_char_13 | naive_solver].
Qed.

(** What [try_from_str] computes, without the state of the loop. *)
Definition scan (cs : list N) : option HeaderValueError :=
  match expect_chars Any cs with
  | Ok Any => None
  | Ok _ => Some InvalidLineBreak
  | Err e => Some e
  end.

Lemma try_from_str_scan value cs :
  try_from_str value cs
  = match scan cs with None => Ok (mkHeaderValue value) | Some e => Err e end.
Proof. unfold try_from_str, scan. now destruct (expect_chars Any cs) as [[]|]. Qed.

Lemma scan_spec cs :
  match scan cs with None => ValueText cs | Some e => ValueError cs e end.
Proof.
  remember (length cs) as n eqn:Hn. revert cs Hn.
  induction n as [n IH] using lt_wf_ind. intros cs ->.
  destruct cs as [|c cs]; [constructor|]. unfold scan. cbn [expect_chars].
  destruct (expect_char_Any c) as [[Hc ->]|[[-> ->]|(Hc & Hne & ->)]]; [| |auto with rtsp].
  - specialize (IH (length cs) (Nat.lt_succ_diag_r _) cs eq_refl). unfold scan in IH.
    destruct (expect_chars Any cs) as [[]|]; auto with rtsp.
  - destruct cs as [|c1 cs]; [constructor; done|]. cbn [expect_chars expect_char].
    destruct (N.eqb_spec c1 10) as [->|]; [|constructor; naive_solver].
    destruct cs as [|c2 cs]; [constructor; done|]. cbn [expect_chars expect_char].
    destruct (N.eqb_spec c2 32), (N.eqb_spec c2 9); cbn [orb]; try (constructor; naive_solver);
      specialize (IH (length cs) ltac:(cbn; lia) cs eq_refl); unfold scan in IH;
      destruct (expect_chars Any cs) as [[]|]; auto with rtsp.
Qed.

Lemma scan_ValueText cs : ValueText cs -> scan cs = None.
Proof.
  intros H. pose proof (scan_spec cs) as Hs. destruct (scan cs); [|done].
  now destruct (ValueText_ValueError _ _ H Hs).
Qed.

(** ** Consequences for the encoded text *)

(** In the bytes of a value every line break is followed by a blank: the encoder cannot emit a
    value that the decoder would cut. *)
Lemma ValueText_fold_bytes v cs i :
  utf8_chars v = Some cs -> ValueText cs -> v !! i = Some CR ->
  v !! (S i) = Some LF /\ exists b, v !! (2 + i) = Some b /\ is_space b = true.
Proof.
  intros Hv H. revert v i Hv. induction H as [|c cs Hc H IH|b cs Hb H IH]; intros v i Hv Hi.
  - destruct v as [|b0 v]; [now destruct i|].
    destruct (utf8_chars (b0 :: v)) as [[|]|] eqn:E; try discriminate.
    exfalso. revert E. cbn [utf8_chars].
    repeat case_match; try discriminate; destruct (utf8_chars _); discriminate.
  - apply utf8_chars_cons in Hv as (p & v' & -> & Hv' & Hp).
    destruct (decide (i < length p)) as [Hlt|Hge].
    + exfalso. rewrite lookup_app_l in Hi by done.
      destruct Hp as [[Hlt' ->]|(Hge & Hne & Hall)].
      * destruct i as [|i]; [|cbn in Hlt; lia]. injection Hi as Hi.
        apply value_char_13. replace 13%N with c; [done|].
        rewrite <- (to_N_byte_of_N c), Hi by lia. reflexivity.
      * rewrite Forall_lookup in Hall. now specialize (Hall _ _ Hi).
    + rewrite lookup_app_r in Hi by lia. apply IH in Hi as (H1 & b & H2 & H3); [|done].
      rewrite !lookup_app_r by lia.
      replace (S i - length p) with (S (i - length p)) by lia.
      replace (2 + i - length p) with (2 + (i - length p)) by lia. eauto.
  - assert (Hascii : forall s c cs', (c < 128)%N -> utf8_chars s = Some (c :: cs') ->
                       exists s', s = byte_of_N c :: s' /\ utf8_chars s' = Some cs').
    { intros s c cs' Hc (p & s' & -> & Hs' & [[_ ->]|[? _]])%utf8_chars_cons; [eauto|lia]. }
    apply Hascii in Hv as (v1 & -> & Hv); [|lia]. apply Hascii in Hv as (v2 & -> & Hv); [|lia].
    apply Hascii in Hv as (v3 & -> & Hv); [|lia].
    assert (Hsp : is_space (byte_of_N b) = true) by (destruct Hb as [->| ->]; reflexivity).
    destruct i as [|[|[|i]]]; [split; [done|]; eauto|discriminate Hi| |].
    + exfalso. injection Hi as Hi. destruct Hb as [->| ->]; discriminate Hi.
    + cbn in Hi. now apply IH in Hi.
Qed.

Lemma try_from_Some value v :
  try_from value = Ok v ->
  v = mkHeaderValue value /\ exists cs, utf8_chars value = Some cs /\ ValueText cs.
Proof.
  unfold try_from. destruct (utf8_chars value) as [cs|]; [|done]. rewrite try_from_str_scan.
  pose proof (scan_spec cs) as Hs. destruct (scan cs); [done|]. intros [= <-]. eauto.
Qed.

Lemma header_value_folded value v :
  try_from value = Ok v ->
  forall i, value !! i = Some CR -> exists b, value !! (i + 2) = Some b /\ is_space b = true.
Proof.
  intros (_ & cs & Hu & Ht)%try_from_Some i Hi. replace (i + 2) with (2 + i) by lia.
  now destruct (ValueText_fold_bytes _ _ _ Hu Ht Hi).
Qed.

(** Printable ASCII text is a value, in particular every number in decimal. *)
Lemma printable_value (s : bytes) :
  Forall (fun b => 32 <= Byte.to_N b <= 126)%N s -> try_from s = Ok (mkHeaderValue s).
Proof.
  intros H. unfold try_from. rewrite utf8_chars_ascii.
  - rewrite try_from_str_scan, scan_ValueText; [done|].
    induction H as [|b s Hb _ IH]; [constructor|]. constructor; [|done].
    unfold value_char. cbn beta in Hb. lia.
  - eapply Forall_impl; [exact H|]. intros b Hb. apply N.ltb_lt. cbn beta in Hb. lia.
Qed.

Lemma to_string_value n : try_from (to_string n) = Ok (mkHeaderValue (to_string n)).
Proof.
  apply printable_value. eapply Forall_impl; [apply to_string_digits|].
  intros b Hb. unfold is_ascii_digit in Hb.
  apply andb_prop in Hb as [H1%N.leb_le H2%N.leb_le]. lia.
Qed.

(** ** Properties *)

(** C28: Decoding a header value: the value is kept as it is, and it is accepted exactly when it is
    UTF-8 and matches the grammar. Otherwise the error is the one of the first character that
    breaks the grammar. *)
Theorem header_value_try_from_spec (value : bytes) :
  match utf8_chars value with
  | None => try_from value = Err InvalidUTF8
  | Some cs =>
      (try_from value = Ok (mkHeaderValue value) <-> ValueText cs)
      /\ (forall v, try_from value = Ok v -> as_str v = value)
      /\ (forall e, try_from value = Err e <-> ValueError cs e)
  end.
Proof.
  unfold try_from. destruct (utf8_chars value) as [cs|]; [|done].
  rewrite try_from_str_scan. pose proof (scan_spec cs) as Hs. destruct (scan cs) as [e|] eqn:E.
  - repeat split; try done; [|now intros [= <-]|].
    + intros Ht%scan_ValueText. congruence.
    + intros He. f_equal.
      clear E. revert e Hs He. intros e1 H1 H2. revert e1 H1.
      induction H2; intros e1 H1; inversion H1; subst; eauto; exfalso;
        eauto using value_char_13; naive_solver.
  - repeat split; try done; [now intros v [= <-]|]. intros He.
    now destruct (ValueText_ValueError _ _ Hs He).
Qed.
