(* ===== verification/Reason.v ===== *)
(** * Reason phrases

    Model of [rtsp-2/src/reason.rs]: non-empty UTF-8 strings whose ASCII characters are printable
    or tabs. *)

From Stdlib Require Import Strings.Byte.
From stdpp Require Import base list numbers strings.
From S2P Require Import Prelude Text.

Local Open Scope nat_scope.

Record ReasonPhrase := mkReasonPhrase { as_str : bytes }.

Inductive ReasonPhraseError := Empty | InvalidASCII | InvalidUTF8.

#[export] Instance reason_phrase_eq_dec : EqDecision ReasonPhrase.
Proof. solve_decision. Defined.
#[export] Instance reason_phrase_error_eq_dec : EqDecision ReasonPhraseError.
Proof. solve_decision. Defined.

(** The test of the loop in [TryFrom<&str>]. *)
Definition bad_char (c : N) : bool :=
  N.ltb c 128 && (N.ltb c 32 || N.ltb 126 c) && negb (N.eqb c 9).

Definition try_from_str (value : bytes) (chars : list N) : Result ReasonPhrase ReasonPhraseError :=
  match value with
  | [] => Err Empty
  | _ => if existsb bad_char chars then Err InvalidASCII else Ok (mkReasonPhrase value)
  end.

Definition try_from (value : bytes) : Result ReasonPhrase ReasonPhraseError :=
  match utf8_chars value with
  | None => Err InvalidUTF8
  | Some chars => try_from_str value chars
  end.

(** A valid phrase: what [from_static_str_unchecked] expects of its argument. *)
Definition reason_wf (r : ReasonPhrase) : Prop := try_from (as_str r) = Ok r.

(** [PartialEq] with [[u8]] and [str], in both directions, ignores the case. *)
Definition reason_eq_bytes (r : ReasonPhrase) (other : bytes) : bool :=
  eq_ignore_ascii_case (as_str r) other.

Lemma reason_try_from_Ok value r :
  try_from value = Ok r <->
  r = mkReasonPhrase value /\ value <> []
  /\ exists cs, utf8_chars value = Some cs /\ Forall (fun c => bad_char c = false) cs.
Proof.
  unfold try_from, try_from_str. destruct (utf8_chars value) as [cs|]; [|naive_solver].
  destruct value as [|b value]; [naive_solver|].
  assert (existsb bad_char cs = false <-> Forall (fun c => bad_char c = false) cs) as H.
  { induction cs as [|c cs IH]; cbn; [split; constructor|].
    rewrite orb_false_iff, list.Forall_cons, IH. done. }
  destruct (existsb bad_char cs); split; try done.
  - intros (_ & _ & cs' & [= <-] & H'%H). done.
  - intros [= <-]. repeat split; [done|]. exists cs. split; [done|]. now apply H.
  - now intros (-> & _).
Qed.

(** A valid phrase has no line break. *)
Lemma reason_no_CR value r : try_from value = Ok r -> CR ∉ value.
Proof.
  intros (_ & _ & cs & Hu & Hall)%reason_try_from_Ok Hc.
  pose proof (utf8_ascii_byte _ _ _ Hu Hc eq_refl) as Hin. apply list_elem_of_In in Hin.
  rewrite List.Forall_forall in Hall. now specialize (Hall _ Hin).
Qed.
