(* ===== verification/Status.v ===== *)
(** * Status codes

    Model of [rtsp-2/src/status.rs]: the status codes, their number, class and canonical reason
    phrase, and the conversions from integers and from three bytes. *)

From Stdlib Require Import Strings.Byte.
From stdpp Require Import base list numbers strings.
From S2P Require Import Prelude Text Reason.

Local Open Scope N_scope.
Local Open Scope rust_scope.

(** [Extension code] is [Extension(ExtensionStatusCode(code))], [code : u16]. *)
Inductive StatusCode :=
  | Continue | OK | MovedPermanently | Found | NotModified | UseProxy | BadRequest
  | Unauthorized | PaymentRequired | Forbidden | NotFound | MethodNotAllowed | NotAcceptable
  | ProxyAuthenticationRequired | RequestTimeout | Gone | PreconditionFailed
  | RequestMessageBodyTooLarge | RequestURITooLong | UnsupportedMediaType
  | ParameterNotUnderstood | NotEnoughBandwidth | SessionNotFound | MethodNotValidInThisState
  | HeaderFieldNotValidForResource | InvalidRange | ParameterIsReadOnly
  | AggregateOperationNotAllowed | OnlyAggregateOperationAllowed | UnsupportedTransport
  | DestinationUnreachable | DestinationProhibited | DataTransportNotReadyYet
  | NotificationReasonUnknown | KeyManagementError | ConnectionAuthorizationRequired
  | ConnectionCredentialsNotAccepted | FailureToEstablishSecureConnection
  | InternalServerError | NotImplemented | BadGateway | ServiceUnavailable | GatewayTimeout
  | RTSPVersionNotSupported | OptionNotSupported | ProxyUnavailable
  | Extension (code : N).

Inductive StatusCodeClass := Informational | Success | Redirection | ClientError | ServerError.

Inductive StatusCodeError := Invalid | OutOfRange | Removed.

#[export] Instance status_code_eq_dec : EqDecision StatusCode.
Proof. solve_decision. Defined.
#[export] Instance status_code_class_eq_dec : EqDecision StatusCodeClass.
Proof. solve_decision. Defined.
#[export] Instance status_code_error_eq_dec : EqDecision StatusCodeError.
Proof. solve_decision. Defined.

Definition canonical_reason (s : StatusCode) : option ReasonPhrase :=
  match s with
  | Continue => Some (mkReasonPhrase (bs "Continue"))
  | OK => Some (mkReasonPhrase (bs "OK"))
  | MovedPermanently => Some (mkReasonPhrase (bs "Moved Permanently"))
  | Found => Some (mkReasonPhrase (bs "Found"))
  | NotModified => Some (mkReasonPhrase (bs "Not Modified"))
  | UseProxy => Some (mkReasonPhrase (bs "Use Proxy"))
  | BadRequest => Some (mkReasonPhrase (bs "Bad Request"))
  | Unauthorized => Some (mkReasonPhrase (bs "Unauthorized"))
  | PaymentRequired => Some (mkReasonPhrase (bs "Payment Required"))
  | Forbidden => Some (mkReasonPhrase (bs "Forbidden"))
  | NotFound => Some (mkReasonPhrase (bs "Not Found"))
  | MethodNotAllowed => Some (mkReasonPhrase (bs "Method Not Allowed"))
  | NotAcceptable => Some (mkReasonPhrase (bs "Not Acceptable"))
  | ProxyAuthenticationRequired => Some (mkReasonPhrase (bs "Proxy Authentication Required"))
  | RequestTimeout => Some (mkReasonPhrase (bs "Request Timeout"))
  | Gone => Some (mkReasonPhrase (bs "Gone"))
  | PreconditionFailed => Some (mkReasonPhrase (bs "Precondition Failed"))
  | RequestMessageBodyTooLarge => Some (mkReasonPhrase (bs "Request Message Body Too Large"))
  | RequestURITooLong => Some (mkReasonPhrase (bs "Request-URI Too Long"))
  | UnsupportedMediaType => Some (mkReasonPhrase (bs "Unsupported Media Type"))
  | ParameterNotUnderstood => Some (mkReasonPhrase (bs "Parameter Not Understood"))
  | NotEnoughBandwidth => Some (mkReasonPhrase (bs "Not Enough Bandwidth"))
  | SessionNotFound => Some (mkReasonPhrase (bs "Session Not Found"))
  | MethodNotValidInThisState => Some (mkReasonPhrase (bs "Method Not Valid in This State"))
  | HeaderFieldNotValidForResource => Some (mkReasonPhrase (bs "Header Field Not Valid for Resource"))
  | InvalidRange => Some (mkReasonPhrase (bs "Invalid Range"))
  | ParameterIsReadOnly => Some (mkReasonPhrase (bs "Parameter Is Read-Only"))
  | AggregateOperationNotAllowed => Some (mkReasonPhrase (bs "Aggregate Operation Not Allowed"))
  | OnlyAggregateOperationAllowed => Some (mkReasonPhrase (bs "Only Aggregate Operation Allowed"))
  | UnsupportedTransport => Some (mkReasonPhrase (bs "Unsupported Transport"))
  | DestinationUnreachable => Some (mkReasonPhrase (bs "Destination Unreachable"))
  | DestinationProhibited => Some (mkReasonPhrase (bs "Destination Prohibited"))
  | DataTransportNotReadyYet => Some (mkReasonPhrase (bs "Data Transport Not Ready Yet"))
  | NotificationReasonUnknown => Some (mkReasonPhrase (bs "Notification Reason Unknown"))
  | KeyManagementError => Some (mkReasonPhrase (bs "Key Management Error"))
  | ConnectionAuthorizationRequired => Some (mkReasonPhrase (bs "Connection Authorization Required"))
  | ConnectionCredentialsNotAccepted => Some (mkReasonPhrase (bs "Connection Credentials Not Accepted"))
  | FailureToEstablishSecureConnection => Some (mkReasonPhrase (bs "Failure to Establish Secure Connection"))
  | InternalServerError => Some (mkReasonPhrase (bs "Internal Server Error"))
  | NotImplemented => Some (mkReasonPhrase (bs "Not Implemented"))
  | BadGateway => Some (mkReasonPhrase (bs "Bad Gateway"))
  | ServiceUnavailable => Some (mkReasonPhrase (bs "Service Unavailable"))
  | GatewayTimeout => Some (mkReasonPhrase (bs "Gateway Timeout"))
  | RTSPVersionNotSupported => Some (mkReasonPhrase (bs "RTSP Version Not Supported"))
  | OptionNotSupported => Some (mkReasonPhrase (bs "Option Not Supported"))
  | ProxyUnavailable => Some (mkReasonPhrase (bs "Proxy Unavailable"))
  | Extension _ => None
  end.

(** [u16::from]. *)
Definition to_u16 (s : StatusCode) : N :=
  match s with
  | Continue => 100
  | OK => 200
  | MovedPermanently => 301
  | Found => 302
  | NotModified => 304
  | UseProxy => 305
  | BadRequest => 400
  | Unauthorized => 401
  | PaymentRequired => 402
  | Forbidden => 403
  | NotFound => 404
  | MethodNotAllowed => 405
  | NotAcceptable => 406
  | ProxyAuthenticationRequired => 407
  | RequestTimeout => 408
  | Gone => 410
  | PreconditionFailed => 412
  | RequestMessageBodyTooLarge => 413
  | RequestURITooLong => 414
  | UnsupportedMediaType => 415
  | ParameterNotUnderstood => 451
  | NotEnoughBandwidth => 453
  | SessionNotFound => 454
  | MethodNotValidInThisState => 455
  | HeaderFieldNotValidForResource => 456
  | InvalidRange => 457
  | ParameterIsReadOnly => 458
  | AggregateOperationNotAllowed => 459
  | OnlyAggregateOperationAllowed => 460
  | UnsupportedTransport => 461
  | DestinationUnreachable => 462
  | DestinationProhibited => 463
  | DataTransportNotReadyYet => 464
  | NotificationReasonUnknown => 465
  | KeyManagementError => 466
  | ConnectionAuthorizationRequired => 470
  | ConnectionCredentialsNotAccepted => 471
  | FailureToEstablishSecureConnection => 472
  | InternalServerError => 500
  | NotImplemented => 501
  | BadGateway => 502
  | ServiceUnavailable => 503
  | GatewayTimeout => 504
  | RTSPVersionNotSupported => 505
  | OptionNotSupported => 551
  | ProxyUnavailable => 553
  | Extension code => code
  end.

(** [TryFrom<u16>]. *)
Definition try_from_u16 (value : N) : Result StatusCode StatusCodeError :=
  if (value <? 100) || (600 <=? value) then Err OutOfRange
  else if (value =? 303) || (value =? 352) then Err Removed
  else Ok match value with
          | 100 => Continue
          | 200 => OK
          | 301 => MovedPermanently
          | 302 => Found
          | 304 => NotModified
          | 305 => UseProxy
          | 400 => BadRequest
          | 401 => Unauthorized
          | 402 => PaymentRequired
          | 403 => Forbidden
          | 404 => NotFound
          | 405 => MethodNotAllowed
          | 406 => NotAcceptable
          | 407 => ProxyAuthenticationRequired
          | 408 => RequestTimeout
          | 410 => Gone
          | 412 => PreconditionFailed
          | 413 => RequestMessageBodyTooLarge
          | 414 => RequestURITooLong
          | 415 => UnsupportedMediaType
          | 451 => ParameterNotUnderstood
          | 453 => NotEnoughBandwidth
          | 454 => SessionNotFound
          | 455 => MethodNotValidInThisState
          | 456 => HeaderFieldNotValidForResource
          | 457 => InvalidRange
          | 458 => ParameterIsReadOnly
          | 459 => AggregateOperationNotAllowed
          | 460 => OnlyAggregateOperationAllowed
          | 461 => UnsupportedTransport
          | 462 => DestinationUnreachable
          | 463 => DestinationProhibited
          | 464 => DataTransportNotReadyYet
          | 465 => NotificationReasonUnknown
          | 466 => KeyManagementError
          | 470 => ConnectionAuthorizationRequired
          | 471 => ConnectionCredentialsNotAccepted
          | 472 => FailureToEstablishSecureConnection
          | 500 => InternalServerError
          | 501 => NotImplemented
          | 502 => BadGateway
          | 503 => ServiceUnavailable
          | 504 => GatewayTimeout
          | 505 => RTSPVersionNotSupported
          | 551 => OptionNotSupported
          | 553 => ProxyUnavailable
          | _ => Extension value
          end.

Definition standard_status_codes : list StatusCode :=
  [Continue; OK; MovedPermanently; Found; NotModified; UseProxy; BadRequest; Unauthorized;
   PaymentRequired; Forbidden; NotFound; MethodNotAllowed; NotAcceptable;
   ProxyAuthenticationRequired; RequestTimeout; Gone; PreconditionFailed;
   RequestMessageBodyTooLarge; RequestURITooLong; UnsupportedMediaType;
   ParameterNotUnderstood; NotEnoughBandwidth; SessionNotFound; MethodNotValidInThisState;
   HeaderFieldNotValidForResource; InvalidRange; ParameterIsReadOnly;
   AggregateOperationNotAllowed; OnlyAggregateOperationAllowed; UnsupportedTransport;
   DestinationUnreachable; DestinationProhibited; DataTransportNotReadyYet;
   NotificationReasonUnknown; KeyManagementError; ConnectionAuthorizationRequired;
   ConnectionCredentialsNotAccepted; FailureToEstablishSecureConnection; InternalServerError;
   NotImplemented; BadGateway; ServiceUnavailable; GatewayTimeout; RTSPVersionNotSupported;
   OptionNotSupported; ProxyUnavailable].

(** [u8::wrapping_sub(b'0')], widened to [u16]. *)
Definition wrapping_digit (b : byte) : N := (Byte.to_N b + 256 - 48) mod 256.

(** [TryFrom<&[u8]>]. The largest sum, 255 * 111, fits in a [u16]. *)
Definition try_from (value : bytes) : Result StatusCode StatusCodeError :=
  match value with
  | [v0; v1; v2] =>
      try_from_u16 (wrapping_digit v0 * 100 + wrapping_digit v1 * 10 + wrapping_digit v2)
  | _ => Err Invalid
  end.

(** [TryFrom] for the wider and the signed integers. *)
Definition try_from_integer (value : Z) : Result StatusCode StatusCodeError :=
  if (0 <=? value)%Z && (value <=? Z.of_N U16_MAX)%Z then try_from_u16 (Z.to_N value)
  else Err OutOfRange.

Definition in_class (lo : N) (value : N) : bool := (lo <=? value) && (value <=? lo + 99).

Definition class (s : StatusCode) : Outcome StatusCodeClass :=
  let value := to_u16 s in
  if in_class 100 value then Return Informational
  else if in_class 200 value then Return Success
  else if in_class 300 value then Return Redirection
  else if in_class 400 value then Return ClientError
  else if in_class 500 value then Return ServerError
  else Panic.

Definition is_client_error (s : StatusCode) : Outcome bool :=
  let! c := class s in Return (bool_decide (c = ClientError)).
Definition is_informational (s : StatusCode) : Outcome bool :=
  let! c := class s in Return (bool_decide (c = Informational)).
Definition is_redirection (s : StatusCode) : Outcome bool :=
  let! c := class s in Return (bool_decide (c = Redirection)).
Definition is_server_error (s : StatusCode) : Outcome bool :=
  let! c := class s in Return (bool_decide (c = ServerError)).
Definition is_success (s : StatusCode) : Outcome bool :=
  let! c := class s in Return (bool_decide (c = Success)).

Definition default_status_code : StatusCode := OK.

Example status_ex :
  try_from (bs "200") = Ok OK /\ try_from (bs "299") = Ok (Extension 299)
  /\ try_from (bs "352") = Err Removed /\ try_from (bs "600") = Err OutOfRange
  /\ try_from (bs "20") = Err Invalid.
Proof. now vm_compute. Qed.

(** A valid status code: extensions are in range and not a standard or removed number. *)
Definition status_wf (s : StatusCode) : Prop :=
  match s with
  | Extension code =>
      100 <= code < 600 /\ code <> 303 /\ code <> 352
      /\ Forall (fun s => to_u16 s <> code) standard_status_codes
  | _ => True
  end.

#[export] Instance status_wf_dec s : Decision (status_wf s).
Proof. destruct s; apply _. Defined.

(** The conversion of the numbers in range is checked on each of them. *)
Definition status_number_ok (n : N) : bool :=
  match try_from_u16 n with
  | Ok s => bool_decide (to_u16 s = n /\ status_wf s)
  | Err e => ((n =? 303) || (n =? 352)) && bool_decide (e = Removed)
  end.

Lemma status_number n : 100 <= n < 600 -> status_number_ok n = true.
Proof.
  intros Hn. assert (H : forallb status_number_ok (N.of_nat <$> seq 100 500) = true)
    by now vm_compute.
  rewrite List.forallb_forall in H. apply H. apply list_elem_of_In, list_elem_of_fmap.
  exists (N.to_nat n). rewrite N2Nat.id, elem_of_seq. split; [done|lia].
Qed.

Lemma status_range s : status_wf s -> 100 <= to_u16 s < 600.
Proof. destruct s; cbn; [lia..|]. now intros [? _]. Qed.

Lemma standard_status_codes_all s : (forall code, s <> Extension code) -> In s standard_status_codes.
Proof. destruct s; intros H; cbn; try tauto. now destruct (H code). Qed.

Lemma standard_to_u16 s :
  In s standard_status_codes -> try_from_u16 (to_u16 s) = Ok s.
Proof. cbn. intros; destruct_or?; subst; done. Qed.

(** The number determines a valid status code. *)
Lemma to_u16_inj s1 s2 : status_wf s1 -> status_wf s2 -> to_u16 s1 = to_u16 s2 -> s1 = s2.
Proof.
  intros W1 W2 H.
  destruct (decide (In s1 standard_status_codes)) as [H1|H1];
    destruct (decide (In s2 standard_status_codes)) as [H2|H2].
  - apply standard_to_u16 in H1, H2. congruence.
  - destruct s2; try (destruct H2; cbn; tauto). destruct W2 as (_ & _ & _ & Hs).
    rewrite Forall_forall in Hs. now destruct (Hs s1); [apply list_elem_of_In|].
  - destruct s1; try (destruct H1; cbn; tauto). destruct W1 as (_ & _ & _ & Hs).
    rewrite Forall_forall in Hs. now destruct (Hs s2); [apply list_elem_of_In|].
  - destruct s1; try (destruct H1; cbn; tauto). destruct s2; try (destruct H2; cbn; tauto).
    cbn in H. now subst.
Qed.

Lemma try_from_u16_Ok n s : try_from_u16 n = Ok s <-> status_wf s /\ to_u16 s = n.
Proof.
  split.
  - intros H. assert (100 <= n < 600) as Hn.
    { unfold try_from_u16 in H. destruct (N.ltb_spec n 100); [done|].
      destruct (N.leb_spec 600 n); [done|]. lia. }
    apply status_number in Hn. unfold status_number_ok in Hn. rewrite H in Hn.
    now apply bool_decide_eq_true in Hn as [? ?].
  - intros [W <-]. pose proof (status_number _ (status_range s W)) as H.
    unfold status_number_ok in H. destruct (try_from_u16 (to_u16 s)) as [s'|e].
    + apply bool_decide_eq_true in H as [H1 H2]. f_equal. now apply to_u16_inj.
    + apply andb_prop in H as [H _]. exfalso.
      assert (to_u16 s <> 303 /\ to_u16 s <> 352) as [H1 H2].
      { destruct s; cbn; try lia. now destruct W as (_ & ? & ? & _). }
      apply orb_prop in H as [H%N.eqb_eq|H%N.eqb_eq]; congruence.
Qed.

Lemma to_string_3 n :
  100 <= n < 600 ->
  exists a b c, to_string n = [a; b; c]
    /\ wrapping_digit a * 100 + wrapping_digit b * 10 + wrapping_digit c = n.
Proof.
  intros Hn.
  assert (H : forallb (fun n => match to_string n with
                | [a; b; c] =>
                    wrapping_digit a * 100 + wrapping_digit b * 10 + wrapping_digit c =? n
                | _ => false end) (N.of_nat <$> seq 100 500) = true) by now vm_compute.
  rewrite List.forallb_forall in H. specialize (H n).
  destruct (to_string n) as [|a [|b [|c [|]]]]; try (exfalso;
    enough (false = true) by done; apply H, list_elem_of_In, list_elem_of_fmap;
    exists (N.to_nat n); rewrite N2Nat.id, elem_of_seq; split; [done|lia]).
  exists a, b, c. split; [done|]. apply N.eqb_eq, H, list_elem_of_In, list_elem_of_fmap.
  exists (N.to_nat n). rewrite N2Nat.id, elem_of_seq. split; [done|lia].
Qed.

Lemma try_from_to_string s : status_wf s -> try_from (to_string (to_u16 s)) = Ok s.
Proof.
  intros W. destruct (to_string_3 _ (status_range s W)) as (a & b & c & -> & Hn).
  unfold try_from. rewrite Hn. now apply try_from_u16_Ok.
Qed.

Lemma canonical_reason_wf s r : canonical_reason s = Some r -> reason_wf r.
Proof. destruct s; cbn; intros [= <-]; now vm_compute. Qed.

(** ** Properties *)

(** Status codes and their numbers. A conversion from a number succeeds with [s] exactly when [s]
    is valid and has that number, and fails with [Removed] on 303 and 352 and with [OutOfRange]
    outside 100 to 599. Every valid status code is decoded back from its three decimal digits, has
    a class, which is the first of those digits, and its canonical reason, present exactly on the
    standard codes, is a valid reason phrase. *)
Theorem status_code_spec :
  (forall n s, try_from_u16 n = Ok s <-> status_wf s /\ to_u16 s = n)
  /\ (forall n, try_from_u16 n = Err Removed <-> n = 303 \/ n = 352)
  /\ (forall n, try_from_u16 n = Err OutOfRange <-> n < 100 \/ 600 <= n)
  /\ (forall s, status_wf s ->
        try_from (to_string (to_u16 s)) = Ok s
        /\ class s = Return match to_u16 s / 100 with
                            | 1 => Informational | 2 => Success | 3 => Redirection
                            | 4 => ClientError | _ => ServerError
                            end)
  /\ (forall s r, canonical_reason s = Some r -> reason_wf r).
Proof.
  split; [exact try_from_u16_Ok|]. split; [|split; [|split; [split|]]].
  - intros n. unfold try_from_u16. destruct (N.ltb_spec n 100), (N.leb_spec 600 n); cbn [orb];
      try (split; [done|lia]).
    destruct (N.eqb_spec n 303), (N.eqb_spec n 352); cbn [orb]; split; done || tauto || lia.
  - intros n. unfold try_from_u16. destruct (N.ltb_spec n 100), (N.leb_spec 600 n); cbn [orb];
      try (split; [lia|done]).
    destruct (N.eqb_spec n 303), (N.eqb_spec n 352); cbn [orb]; split; done || lia.
  - now apply try_from_to_string.
  - destruct s; cbn [to_u16]; try reflexivity. destruct H as [H _]. unfold class; cbn [to_u16].
    unfold in_class. pose proof (N.div_mod code 100 ltac:(done)) as E.
    pose proof (N.mod_lt code 100 ltac:(done)) as L.
    set (q := code / 100) in *. set (r := code mod 100) in *. clearbody q r. subst code.
    assert (q = 1 \/ q = 2 \/ q = 3 \/ q = 4 \/ q = 5) as [-> | [-> | [-> | [-> | ->]]]] by lia;
      repeat match goal with |- context [?a <=? ?b] => destruct (N.leb_spec a b); try lia end;
      reflexivity.
  - exact canonical_reason_wf.
Qed.

(** The decoder of three bytes: it decodes the number that three digits spell, and fails with
    [Invalid] exactly on the other lengths. The bytes are not checked to be digits, although
    [Invalid] is documented for that case: a text that is no number can denote a status code. *)
Theorem status_try_from_bytes_spec :
  (forall a b c, a < 10 -> b < 10 -> c < 10 ->
     try_from [digit a; digit b; digit c] = try_from_u16 (a * 100 + b * 10 + c))
  /\ (forall value, try_from value = Err Invalid <-> length value <> 3%nat)
  /\ try_from (bs "1:0") = Ok OK.
Proof.
  split; [|split; [|reflexivity]].
  - assert (H : forall d, d < 10 -> wrapping_digit (digit d) = d).
    { intros d Hd. unfold wrapping_digit. rewrite digit_lt by done.
      replace (48 + d + 256 - 48) with (d + 1 * 256) by lia.
      rewrite N.Div0.mod_add. apply N.mod_small. lia. }
    intros a b c Ha Hb Hc. unfold try_from. now rewrite !H.
  - intros value. unfold try_from.
    assert (Hu : forall n, try_from_u16 n <> Err Invalid).
    { intros n. unfold try_from_u16. repeat case_match; done. }
    destruct value as [|v0 [|v1 [|v2 [|]]]]; cbn [length]; split; try done; try lia.
    now intros ?%Hu.
Qed.
