(* ===== verification/HeaderMap.v ===== *)
(** * Header maps and typed headers

    Model of [rtsp-2/src/header/map.rs]. The map itself is the [ListOrderedMultimap] of the
    [ordered-multimap] crate: its operations are the class [HeaderMapOps] and the behaviour its
    documentation promises is the class [HeaderMapLaws]. On top of it the file models the
    [TypedHeader] trait and the three operations of [HeaderMapExtension]. *)

From Stdlib Require Import Strings.Byte.
From stdpp Require Import base list numbers strings.
From S2P Require Import Prelude HeaderName HeaderValue.

Local Open Scope nat_scope.

#[export] Instance header_value_equiv : Equiv HeaderValue := (=).
#[export] Instance header_value_equivalence : Equivalence (≡@{HeaderValue}).
Proof. apply _. Qed.

(** The key-value pairs of a map, compared by name up to the case of extensions. *)
Notation Headers := (list (HeaderName * HeaderValue)).

(** ** The multimap of the [ordered-multimap] crate *)

Class HeaderMapOps := {
  HeaderMap : Type;
  (** [HeaderMap::default()]. *)
  map_default : HeaderMap;
  (** [append(name, value)]. *)
  map_append : HeaderName -> HeaderValue -> HeaderMap -> HeaderMap;
  (** [OccupiedEntry::insert(value)] or [VacantEntry::insert_entry(value)] on [entry(name)]. *)
  entry_insert : HeaderName -> HeaderValue -> HeaderMap -> HeaderMap;
  (** [iter()], in insertion order. *)
  map_iter : HeaderMap -> Headers;
  (** [get_all(name)]. *)
  get_all : HeaderName -> HeaderMap -> list HeaderValue;
  (** [values_len()]. *)
  values_len : HeaderMap -> N;
  (** [contains_key(name)]. *)
  contains_key : HeaderName -> HeaderMap -> bool;
}.

(** The pairs whose key is, or is not, the given name. *)
Definition with_name (name : HeaderName) (l : Headers) : Headers :=
  filter (fun p => p.1 ≡ name) l.
Definition without_name (name : HeaderName) (l : Headers) : Headers :=
  filter (fun p => ¬ p.1 ≡ name) l.
#[global] Arguments with_name : simpl never.
#[global] Arguments without_name : simpl never.

(** The documented behaviour. Keys are compared with [==]; which of several equal keys [iter]
    returns, and where [insert] puts the new value, is left open. *)
Class HeaderMapLaws `{HeaderMapOps} : Prop := {
  iter_default : map_iter map_default = [];
  iter_append name value m : map_iter (map_append name value m) ≡ map_iter m ++ [(name, value)];
  get_all_iter name m : get_all name m = (with_name name (map_iter m)).*2;
  values_len_iter m : values_len m = N.of_nat (length (map_iter m));
  contains_key_iter name m :
    contains_key name m = true <-> with_name name (map_iter m) <> [];
  insert_get name value m : get_all name (entry_insert name value m) = [value];
  insert_other name value m :
    without_name name (map_iter (entry_insert name value m)) ≡ without_name name (map_iter m);
}.

#[export] Instance with_name_proper : Proper ((≡) ==> (≡) ==> (≡)) with_name.
Proof.
  intros n n' Hn l l' Hl. unfold with_name.
  induction Hl as [|[x v] [y w] l l' [Hx Hv] Hl IH]; [constructor|]. cbn in Hx, Hv.
  rewrite !filter_cons. cbn. assert (x ≡ n <-> y ≡ n') by (now rewrite Hx, Hn).
  destruct (decide (x ≡ n)), (decide (y ≡ n')); try tauto. now constructor.
Qed.

#[export] Instance without_name_proper : Proper ((≡) ==> (≡) ==> (≡)) without_name.
Proof.
  intros n n' Hn l l' Hl. unfold without_name.
  induction Hl as [|[x v] [y w] l l' [Hx Hv] Hl IH]; [constructor|]. cbn in Hx, Hv.
  rewrite !filter_cons. cbn. assert (x ≡ n <-> y ≡ n') by (now rewrite Hx, Hn).
  destruct (decide (¬ x ≡ n)), (decide (¬ y ≡ n')); try tauto. now constructor.
Qed.

Lemma headers_snd (l l' : Headers) : l ≡ l' -> l.*2 = l'.*2.
Proof. induction 1 as [|[x v] [y w] l l' [_ Hv] _ IH]; [done|]. cbn in *. now rewrite Hv, IH. Qed.

Lemma with_name_app n l k : with_name n (l ++ k) = with_name n l ++ with_name n k.
Proof. apply filter_app. Qed.

Lemma without_name_app n l k : without_name n (l ++ k) = without_name n l ++ without_name n k.
Proof. apply filter_app. Qed.

Lemma with_name_single n v : with_name n [(n, v)] = [(n, v)].
Proof. unfold with_name. now rewrite filter_cons_True. Qed.

Lemma without_name_single n v : without_name n [(n, v)] = [].
Proof. unfold without_name. now rewrite filter_cons_False by (cbn; naive_solver). Qed.

Lemma without_name_idemp n l : without_name n (without_name n l) = without_name n l.
Proof. unfold without_name. now rewrite list_filter_filter_l. Qed.

Lemma with_without_name n l : with_name n (without_name n l) = [].
Proof.
  unfold with_name, without_name. induction l as [|p l IH]; [done|].
  rewrite filter_cons. case_decide; [|done]. now rewrite filter_cons_False.
Qed.

(** Another name's values are among the pairs that do not have the name. *)
Lemma with_name_without n n' l : ¬ n' ≡ n -> with_name n' (without_name n l) = with_name n' l.
Proof.
  intros Hn. unfold with_name, without_name. rewrite list_filter_filter_l; [done|].
  intros [x v] Hx. cbn in *. now rewrite Hx.
Qed.

Section Laws.
Context `{HeaderMapLaws}.

Lemma get_all_proper n n' m : n ≡ n' -> get_all n m = get_all n' m.
Proof. intros Hn. rewrite !get_all_iter. apply headers_snd. now rewrite Hn. Qed.

Lemma get_all_append name value m :
  get_all name (map_append name value m) = get_all name m ++ [value].
Proof.
  rewrite !get_all_iter, (headers_snd _ (with_name name (map_iter m ++ [(name, value)])))
    by now rewrite iter_append.
  now rewrite with_name_app, fmap_app, with_name_single.
Qed.

Lemma without_append name value m :
  without_name name (map_iter (map_append name value m)) ≡ without_name name (map_iter m).
Proof.
  now rewrite iter_append, without_name_app, without_name_single, app_nil_r.
Qed.

Lemma get_all_default name : get_all name map_default = [].
Proof. now rewrite get_all_iter, iter_default. Qed.

Lemma values_len_append name value m :
  values_len (map_append name value m) = (values_len m + 1)%N.
Proof.
  rewrite !values_len_iter, (iter_append name value m), length_app.
  cbn. lia.
Qed.

Lemma values_len_default : values_len map_default = 0%N.
Proof. now rewrite values_len_iter, iter_default. Qed.
End Laws.

(** ** Typed headers *)

(** The [TypedHeader] trait. [encode] is the sequence of values the target is extended with. *)
Class TypedHeader (Header : Type) := {
  HeaderDecodeError : Type;
  typed_decode : list HeaderValue -> Result (option Header) HeaderDecodeError;
  typed_encode : Header -> list HeaderValue;
  header_name : HeaderName;
}.

(** What a typed header promises for its [valid] values. The values it encodes are built with
    [from_string_unchecked], so they must be valid header values, which is the condition stated
    on that function. *)
Class TypedHeaderLaws (Header : Type) `{TypedHeader Header} (valid : Header -> Prop) : Prop := {
  typed_decode_none : typed_decode [] = Ok None;
  typed_decode_encode h : valid h -> typed_decode (typed_encode h) = Ok (Some h);
  typed_encode_valid h :
    valid h -> Forall (fun v => HeaderValue.try_from (as_str v) = Ok v) (typed_encode h);
  typed_decode_valid vs h : typed_decode vs = Ok (Some h) -> valid h;
}.

Section TypedHeaders.
Context `{HeaderMapOps}.

(** [ExtendState]: [Temporary] only exists inside the body of the loop. *)
Inductive ExtendState := Initial | Rest.

(** One iteration of the loop of [ExtendWrapper::extend]. *)
Definition extend_one (name : HeaderName) (s : ExtendState * HeaderMap) (value : HeaderValue) :
    ExtendState * HeaderMap :=
  match s with
  | (Initial, m) => (Rest, entry_insert name value m)
  | (Rest, m) => (Rest, map_append name value m)
  end.

Definition typed_insert `{TypedHeader Header} (header : Header) (m : HeaderMap) : HeaderMap :=
  (fold_left (extend_one header_name) (typed_encode header) (Initial, m)).2.

Definition typed_try_get (Header : Type) `{TypedHeader Header} (m : HeaderMap) :
    Result (option Header) HeaderDecodeError :=
  typed_decode (get_all header_name m).

Definition typed_get (Header : Type) `{TypedHeader Header} (m : HeaderMap) : option Header :=
  match typed_try_get Header m with
  | Ok h => h
  | Err _ => None
  end.
End TypedHeaders.
#[global] Arguments typed_insert : simpl never.
#[global] Arguments typed_try_get : simpl never.
#[global] Arguments typed_get : simpl never.

Section TypedInsert.
Context `{HeaderMapLaws}.

Lemma fold_extend_rest name vs m :
  get_all name (fold_left (extend_one name) vs (Rest, m)).2 = get_all name m ++ vs
  /\ without_name name (map_iter (fold_left (extend_one name) vs (Rest, m)).2)
     ≡ without_name name (map_iter m).
Proof.
  revert m. induction vs as [|v vs IH]; intros m; cbn; [now rewrite app_nil_r|].
  destruct (IH (map_append name v m)) as [H1 H2]. split.
  - now rewrite H1, get_all_append, <- app_assoc.
  - now rewrite H2, without_append.
Qed.

Lemma typed_insert_nil `{TypedHeader Header} (h : Header) m :
  typed_encode h = [] -> typed_insert h m = m.
Proof. unfold typed_insert. now intros ->. Qed.

Lemma typed_insert_get_all `{TypedHeader Header} (h : Header) m :
  typed_encode h <> [] -> get_all header_name (typed_insert h m) = typed_encode h.
Proof.
  unfold typed_insert. destruct (typed_encode h) as [|v vs]; [done|]. intros _. cbn.
  destruct (fold_extend_rest header_name vs (entry_insert header_name v m)) as [-> _].
  now rewrite insert_get.
Qed.

Lemma typed_insert_without `{TypedHeader Header} (h : Header) m :
  without_name header_name (map_iter (typed_insert h m)) ≡ without_name header_name (map_iter m).
Proof.
  unfold typed_insert. destruct (typed_encode h) as [|v vs]; [done|]. cbn.
  destruct (fold_extend_rest header_name vs (entry_insert header_name v m)) as [_ ->].
  apply insert_other.
Qed.

(** The other headers keep their values. *)
Lemma typed_insert_get_other `{TypedHeader Header} (h : Header) name m :
  ¬ name ≡ header_name -> get_all name (typed_insert h m) = get_all name m.
Proof.
  intros Hn. rewrite !get_all_iter.
  rewrite <- (with_name_without header_name), <- (with_name_without header_name _ (map_iter m)) by done.
  apply headers_snd. now rewrite typed_insert_without.
Qed.

Lemma contains_key_get_all name m m' :
  get_all name m' = get_all name m -> contains_key name m' = contains_key name m.
Proof.
  rewrite !get_all_iter. intros E. apply Bool.eq_iff_eq_true. rewrite !contains_key_iter.
  destruct (with_name name (map_iter m')), (with_name name (map_iter m)); done.
Qed.

Lemma with_name_In (n : HeaderName) p (l : Headers) : In p l -> p.1 ≡ n -> In p (with_name n l).
Proof. rewrite <- !list_elem_of_In. intros Hp Hn. now apply list_elem_of_filter. Qed.

Lemma without_name_In (n : HeaderName) p (l : Headers) : In p l -> ¬ p.1 ≡ n -> In p (without_name n l).
Proof. rewrite <- !list_elem_of_In. intros Hp Hn. now apply list_elem_of_filter. Qed.

Lemma with_without_length n (l : Headers) : length l = length (with_name n l) + length (without_name n l).
Proof.
  unfold with_name, without_name. induction l as [|p l IH]; [done|]. rewrite !filter_cons.
  destruct (decide (p.1 ≡ n)), (decide (¬ p.1 ≡ n)); cbn; try tauto; lia.
Qed.

(** What a map has after a header of one value was inserted: that value, and what it had before. *)
Lemma typed_insert_entries `{TypedHeader Header} (h : Header) v m :
  typed_encode h = [v] ->
  (forall p, In p (map_iter (typed_insert h m)) ->
     (p.1 ≡ header_name /\ p.2 = v) \/ exists p', In p' (map_iter m) /\ p ≡ p')
  /\ length (map_iter (typed_insert h m)) <= S (length (map_iter m)).
Proof.
  intros Hv. pose proof (typed_insert_get_all h m ltac:(now rewrite Hv)) as Hg.
  rewrite get_all_iter, Hv in Hg. pose proof (typed_insert_without h m) as Hw. split.
  - intros p Hp. destruct (decide (p.1 ≡ header_name)) as [Hn|Hn].
    + left. split; [done|]. apply (with_name_In _ _ _ Hp), (in_map snd) in Hn.
      change (In p.2 (with_name header_name (map_iter (typed_insert h m))).*2) in Hn.
      rewrite Hg in Hn. now destruct Hn.
    + right. apply (without_name_In _ _ _ Hp) in Hn. apply list_elem_of_In, list_elem_of_lookup in Hn as [i Hi].
      apply list_equiv_lookup with (i := i) in Hw. rewrite Hi in Hw.
      destruct (without_name header_name (map_iter m) !! i) as [p'|] eqn:Hi'; inversion Hw; subst.
      exists p'. split; [|done]. apply list_elem_of_lookup_2, list_elem_of_filter in Hi' as [_ Hi'].
      now apply list_elem_of_In.
  - rewrite (with_without_length header_name), (with_without_length header_name (map_iter m)).
    apply (f_equal length) in Hg. rewrite length_fmap in Hg. rewrite Hg.
    apply length_proper in Hw. cbn in Hw. rewrite Hw. cbn. lia.
Qed.

Lemma typed_insert_try_get `{TypedHeaderLaws Header valid} (h : Header) m :
  valid h -> typed_encode h <> [] -> typed_try_get Header (typed_insert h m) = Ok (Some h).
Proof.
  intros Hv Hne. unfold typed_try_get. rewrite typed_insert_get_all by done.
  now apply typed_decode_encode.
Qed.

Lemma typed_get_valid `{TypedHeaderLaws Header valid} m (h : Header) :
  typed_get Header m = Some h -> valid h.
Proof.
  unfold typed_get, typed_try_get. destruct (typed_decode _) as [o|] eqn:E; [|done].
  intros ->. exact (typed_decode_valid _ _ E).
Qed.
End TypedInsert.

(** ** A concrete multimap *)

(** A list of pairs meets the laws; concrete runs of the model use it. *)
Definition list_entry_insert (name : HeaderName) (value : HeaderValue) (m : Headers) : Headers :=
  without_name name m ++ [(name, value)].

Definition list_contains_key (name : HeaderName) (m : Headers) : bool :=
  match with_name name m with [] => false | _ => true end.

#[export] Instance list_header_map : HeaderMapOps := {|
  HeaderMap := Headers;
  map_default := [];
  map_append name value m := m ++ [(name, value)];
  entry_insert := list_entry_insert;
  map_iter m := m;
  get_all name m := (with_name name m).*2;
  values_len m := N.of_nat (length m);
  contains_key := list_contains_key;
|}.

#[export] Instance list_header_map_laws : HeaderMapLaws.
Proof.
  split; try reflexivity; cbn.
  - intros name m. unfold list_contains_key. destruct (with_name name m); naive_solver.
  - intros name value m. unfold list_entry_insert.
    now rewrite with_name_app, with_without_name, with_name_single.
  - intros name value m. unfold list_entry_insert.
    now rewrite without_name_app, without_name_single, without_name_idemp, app_nil_r.
Qed.

(** ** Properties *)

(** Inserting a typed header and reading it back, for any header that keeps its promises and any
    map: the header is read back, whatever the map held under the name before, it occupies exactly
    the values it was encoded to, and every other header keeps its values and its order. *)
Theorem typed_insert_get `{HeaderMapLaws} `{TypedHeaderLaws Header valid} (h : Header) m :
  valid h -> typed_encode h <> [] ->
  typed_try_get Header (typed_insert h m) = Ok (Some h)
  /\ typed_get Header (typed_insert h m) = Some h
  /\ get_all header_name (typed_insert h m) = typed_encode h
  /\ (forall name, ¬ name ≡ header_name -> get_all name (typed_insert h m) = get_all name m)
  /\ without_name header_name (map_iter (typed_insert h m))
     ≡ without_name header_name (map_iter m).
Proof.
  intros Hv Hne.
  pose proof (typed_insert_try_get h m Hv Hne) as Ht.
  split; [done|]. split; [unfold typed_get; now rewrite Ht|].
  split; [now apply typed_insert_get_all|]. split; [|apply typed_insert_without].
  intros name Hn. now apply typed_insert_get_other.
Qed.
