(* ===== verification/CSeq.v ===== *)
(** * The CSeq header

    Model of [rtsp-2/src/header/types/cseq.rs]: sequence numbers from 0 to 999,999,999, their
    arithmetic, and the header that carries one. *)

From Stdlib Require Import Strings.Byte.
From stdpp Require Import base list numbers strings countable.
From S2P Require Import Prelude Text HeaderName HeaderValue HeaderMap.

Local Open Scope N_scope.

Definition MAX_CSEQ : N := 999999999.

(** [CSeq(u32)]. *)
Record CSeq := mkCSeq { cseq_number : N }.

#[export] Instance cseq_eq_dec : EqDecision CSeq.
Proof. solve_decision. Defined.
#[export] Program Instance cseq_countable : Countable CSeq :=
  inj_countable' cseq_number mkCSeq _.
Next Obligation. now intros []. Qed.

(** The field is private: every constructor of the type keeps it in range. *)
Definition cseq_valid (c : CSeq) : Prop := cseq_number c <= MAX_CSEQ.

Inductive CSeqError := Empty | ExceedsMaximumLength | InvalidDigit | MoreThanOneHeader | Overflow.

#[export] Instance cseq_error_eq_dec : EqDecision CSeqError.
Proof. solve_decision. Defined.

Definition cseq_default : CSeq := mkCSeq 0.

(** [random]: [gen_range] draws a number from the first bound up to below the second. *)
Definition random (gen_range : N -> N -> N) : CSeq := mkCSeq (gen_range 0 (u32_add MAX_CSEQ 1)).

Definition wrapping_increment (self : CSeq) : CSeq :=
  mkCSeq (u32_add (cseq_number self) 1 mod (MAX_CSEQ + 1)).

(** [Add] and [Sub]. *)
Definition add (self other : CSeq) : CSeq :=
  mkCSeq (u32_add (cseq_number self) (cseq_number other) mod (MAX_CSEQ + 1)).

Definition sub (self other : CSeq) : CSeq :=
  mkCSeq (if cseq_number other <=? cseq_number self
          then u32_sub (cseq_number self) (cseq_number other)
          else u32_sub MAX_CSEQ (u32_sub (cseq_number other) (cseq_number self))).

(** [TryFrom<u32>]. *)
Definition try_from (value : N) : Result CSeq CSeqError :=
  if MAX_CSEQ <? value then Err ExceedsMaximumLength else Ok (mkCSeq value).

(** [TryFrom<IntErrorKind>] on the kinds that parsing an unsigned integer produces. *)
Definition from_int_error (value : IntErrorKind) : CSeqError :=
  match value with
  | Text.Empty => Empty
  | Text.InvalidDigit => InvalidDigit
  | PosOverflow => Overflow
  end.

Definition decode (values : list HeaderValue) : Result (option CSeq) CSeqError :=
  match values with
  | [] => Ok None
  | value :: rest =>
      match rest with
      | _ :: _ => Err MoreThanOneHeader
      | [] =>
          match result_map_err from_int_error (parse_unsigned U32_MAX (as_str value)) with
          | Ok cseq => result_map Some (try_from cseq)
          | Err e => Err e
          end
      end
  end.

Definition encode (self : CSeq) : list HeaderValue :=
  [mkHeaderValue (to_string (cseq_number self))].

#[export] Instance typed_header_cseq : TypedHeader CSeq := {|
  HeaderDecodeError := CSeqError;
  typed_decode := decode;
  typed_encode := encode;
  header_name := HeaderName.CSeq;
|}.

Example cseq_ex :
  decode [mkHeaderValue (bs "10")] = Ok (Some (mkCSeq 10))
  /\ decode [mkHeaderValue (bs "1000000000")] = Err ExceedsMaximumLength
  /\ decode [mkHeaderValue (bs "invalid cseq")] = Err InvalidDigit
  /\ wrapping_increment (mkCSeq MAX_CSEQ) = mkCSeq 0
  /\ sub (mkCSeq 50) (mkCSeq 100) = mkCSeq (MAX_CSEQ - 50).
Proof. now vm_compute. Qed.

(** ** Arithmetic *)

(** The [u32] additions and subtractions do not overflow on valid numbers. *)
Lemma cseq_u32 c : cseq_valid c -> cseq_number c + MAX_CSEQ < 2 ^ 32.
Proof. unfold cseq_valid, MAX_CSEQ. lia. Qed.

Lemma add_number a b :
  cseq_valid a -> cseq_valid b ->
  cseq_number (add a b) = (cseq_number a + cseq_number b) mod (MAX_CSEQ + 1).
Proof.
  intros Ha Hb. cbn. rewrite u32_add_small; [done|].
  apply cseq_u32 in Ha. unfold cseq_valid in Hb. lia.
Qed.

Lemma wrapping_increment_number c :
  cseq_valid c ->
  cseq_number (wrapping_increment c) = (cseq_number c + 1) mod (MAX_CSEQ + 1).
Proof.
  intros Hc. cbn. rewrite u32_add_small; [done|].
  apply cseq_u32 in Hc. unfold MAX_CSEQ in Hc. lia.
Qed.

Lemma sub_number a b :
  cseq_valid a -> cseq_valid b ->
  cseq_number (sub a b)
  = if cseq_number b <=? cseq_number a then cseq_number a - cseq_number b
    else MAX_CSEQ - (cseq_number b - cseq_number a).
Proof.
  unfold cseq_valid, MAX_CSEQ. intros Ha Hb. cbn.
  destruct (N.leb_spec (cseq_number b) (cseq_number a)).
  - apply u32_sub_small; lia.
  - rewrite (u32_sub_small (cseq_number b)) by lia. apply u32_sub_small; unfold MAX_CSEQ; lia.
Qed.

Lemma sub_diag c : cseq_valid c -> cseq_number (sub c c) = 0.
Proof. intros Hc. rewrite sub_number by done. rewrite N.leb_refl. lia. Qed.

Lemma mod_cseq_valid n : cseq_valid (mkCSeq (n mod (MAX_CSEQ + 1))).
Proof.
  unfold cseq_valid. cbn [cseq_number].
  pose proof (N.mod_lt n (MAX_CSEQ + 1) ltac:(done)). lia.
Qed.

Lemma wrapping_increment_valid c : cseq_valid (wrapping_increment c).
Proof. apply mod_cseq_valid. Qed.

Lemma sub_valid a b : cseq_valid a -> cseq_valid b -> cseq_valid (sub a b).
Proof.
  intros Ha Hb. unfold cseq_valid at 1. rewrite sub_number by done. unfold cseq_valid in *.
  destruct (N.leb_spec (cseq_number b) (cseq_number a)); lia.
Qed.
#[export] Hint Resolve wrapping_increment_valid sub_valid : rtsp.

Lemma cseq_eq a b : cseq_number a = cseq_number b -> a = b.
Proof. destruct a, b; cbn. now intros ->. Qed.

(** Incrementing [n] times. *)
Lemma increments_number n c :
  cseq_valid c ->
  cseq_number (Nat.iter n wrapping_increment c) = (cseq_number c + N.of_nat n) mod (MAX_CSEQ + 1).
Proof.
  intros Hc. induction n as [|n IH].
  - rewrite N.add_0_r. symmetry. apply N.mod_small. unfold cseq_valid in Hc. cbn. lia.
  - change (Nat.iter (S n) wrapping_increment c)
      with (wrapping_increment (Nat.iter n wrapping_increment c)).
    assert (Hv : cseq_valid (Nat.iter n wrapping_increment c)).
    { destruct n; [done|apply wrapping_increment_valid]. }
    rewrite (wrapping_increment_number _ Hv), IH, N.Div0.add_mod_idemp_l. f_equal. lia.
Qed.

(** ** The header *)

Lemma cseq_decode_Ok vs c :
  decode vs = Ok (Some c) <->
  exists v, vs = [v] /\ parse_unsigned U32_MAX (as_str v) = Ok (cseq_number c) /\ cseq_valid c.
Proof.
  unfold decode, try_from, cseq_valid.
  destruct vs as [|v [|]]; [split; [done|]; naive_solver| |split; [done|]; naive_solver].
  destruct (parse_unsigned U32_MAX (as_str v)) as [n|e] eqn:E; cbn.
  - destruct (N.ltb_spec MAX_CSEQ n); cbn; split.
    + done.
    + intros (? & [= <-] & H' & ?). rewrite E in H'. injection H' as ->. lia.
    + intros [= <-]. eauto.
    + intros (? & [= <-] & H' & ?). rewrite E in H'. injection H' as ->. now destruct c.
  - split; [done|]. intros (? & [= <-] & H' & ?). congruence.
Qed.

Lemma random_valid gen_range :
  (forall low high, low < high -> low <= gen_range low high < high) -> cseq_valid (random gen_range).
Proof.
  intros Hr. unfold cseq_valid, random. cbn [cseq_number].
  change (u32_add MAX_CSEQ 1) with (MAX_CSEQ + 1). pose proof (Hr 0 (MAX_CSEQ + 1) ltac:(unfold MAX_CSEQ; lia)). lia.
Qed.

#[export] Instance cseq_laws : TypedHeaderLaws CSeq cseq_valid.
Proof.
  split.
  - reflexivity.
  - intros c Hc. apply cseq_decode_Ok. eexists. split; [reflexivity|]. split; [|done].
    apply parse_unsigned_to_string. apply cseq_u32 in Hc. unfold U32_MAX, MAX_CSEQ in *. lia.
  - intros c _. constructor; [apply to_string_value|constructor].
  - intros vs c (v & _ & _ & Hv)%cseq_decode_Ok. exact Hv.
Qed.

(** ** Properties *)

(** C39: Sequence numbers count modulo MAX_CSEQ + 1: increments and sums stay in range and wrap to zero,
    an increment is the sum with one, and the full cycle of increments is the identity. The
    difference is exact when it does not wrap; when it wraps it is one less than the modular
    difference, so adding it back misses by one. No [u32] operation overflows. *)
Theorem cseq_arithmetic (a b : CSeq) :
  cseq_valid a -> cseq_valid b ->
  cseq_valid (add a b) /\ cseq_valid (sub a b)
  /\ cseq_number (add a b) = (cseq_number a + cseq_number b) mod (MAX_CSEQ + 1)
  /\ wrapping_increment a = add a (mkCSeq 1)
  /\ (forall n, N.of_nat n = MAX_CSEQ + 1 -> Nat.iter n wrapping_increment a = a)
  /\ (cseq_number b <= cseq_number a -> add (sub a b) b = a)
  /\ (cseq_number a < cseq_number b -> wrapping_increment (add (sub a b) b) = a).
Proof.
  intros Ha Hb. pose proof (sub_valid a b Ha Hb) as Hs.
  split; [apply mod_cseq_valid|]. split; [done|]. split; [now apply add_number|].
  split; [reflexivity|]. split; [|split].
  - intros n Hn. apply cseq_eq. rewrite increments_number, Hn by done.
    rewrite <- (N.mul_1_l (MAX_CSEQ + 1)) at 1. rewrite N.Div0.mod_add. apply N.mod_small.
    unfold cseq_valid in Ha. lia.
  - intros Hle. apply cseq_eq. rewrite add_number, sub_number by done. unfold cseq_valid in *.
    destruct (N.leb_spec (cseq_number b) (cseq_number a)); [|lia].
    rewrite N.mod_small; lia.
  - intros Hlt. apply cseq_eq. rewrite wrapping_increment_number by apply mod_cseq_valid.
    rewrite add_number, sub_number by done. unfold cseq_valid in *.
    destruct (N.leb_spec (cseq_number b) (cseq_number a)); [lia|].
    replace (MAX_CSEQ - (cseq_number b - cseq_number a) + cseq_number b)
      with (MAX_CSEQ + cseq_number a) by lia.
    rewrite N.Div0.add_mod_idemp_l.
    replace (MAX_CSEQ + cseq_number a + 1) with (cseq_number a + 1 * (MAX_CSEQ + 1)) by lia.
    rewrite N.Div0.mod_add. apply N.mod_small. lia.
Qed.

Lemma cseq_arithmetic_witness :
  add (sub (mkCSeq 50) (mkCSeq 100)) (mkCSeq 100) <> mkCSeq 50
  /\ wrapping_increment (add (sub (mkCSeq 50) (mkCSeq 100)) (mkCSeq 100)) = mkCSeq 50.
Proof.
  split; [discriminate|]. apply (cseq_arithmetic (mkCSeq 50) (mkCSeq 100)); easy.
Defined.

(** Inserting a sequence number in a header map and reading it back. *)
Lemma typed_insert_get_witness :
  typed_get CSeq (typed_insert (mkCSeq 7) [(HeaderName.CSeq, mkHeaderValue (bs "3"));
                                           (Public, mkHeaderValue (bs "PLAY"));
                                           (HeaderName.CSeq, mkHeaderValue (bs "4"))])
  = Some (mkCSeq 7).
Proof. apply (typed_insert_get (valid := cseq_valid) (mkCSeq 7)); easy. Defined.
