(* ===== verification/ContentLength.v ===== *)
(** * The Content-Length header

    Model of [rtsp-2/src/header/types/content_length.rs], for a 64-bit [usize]. *)

From Stdlib Require Import Strings.Byte.
From stdpp Require Import base list numbers strings.
From S2P Require Import Prelude Text HeaderName HeaderValue HeaderMap.

Local Open Scope N_scope.

Definition MAX_CONTENT_LENGTH : N := 9999999999999999999.

(** [ContentLength(usize)]; its default is zero. *)
Record ContentLength := mkContentLength { content_length : N }.

#[export] Instance content_length_eq_dec : EqDecision ContentLength.
Proof. solve_decision. Defined.

Definition content_length_default : ContentLength := mkContentLength 0.

Definition content_length_valid (c : ContentLength) : Prop :=
  content_length c <= MAX_CONTENT_LENGTH.

Inductive ContentLengthError :=
  Empty | ExceedsMaximumLength | InvalidDigit | MoreThanOneHeader | Overflow.

#[export] Instance content_length_error_eq_dec : EqDecision ContentLengthError.
Proof. solve_decision. Defined.

(** [TryFrom<usize>]. *)
Definition try_from (value : N) : Result ContentLength ContentLengthError :=
  if MAX_CONTENT_LENGTH <? value then Err ExceedsMaximumLength else Ok (mkContentLength value).

(** [TryFrom<IntErrorKind>] on the kinds that parsing an unsigned integer produces. *)
Definition from_int_error (value : IntErrorKind) : ContentLengthError :=
  match value with
  | Text.Empty => Empty
  | Text.InvalidDigit => InvalidDigit
  | PosOverflow => Overflow
  end.

Definition decode (values : list HeaderValue) : Result (option ContentLength) ContentLengthError :=
  match values with
  | [] => Ok None
  | value :: rest =>
      match rest with
      | _ :: _ => Err MoreThanOneHeader
      | [] =>
          match result_map_err from_int_error (parse_unsigned USIZE_MAX (as_str value)) with
          | Ok content_length => result_map Some (try_from content_length)
          | Err e => Err e
          end
      end
  end.

Definition encode (self : ContentLength) : list HeaderValue :=
  [mkHeaderValue (to_string (content_length self))].

#[export] Instance typed_header_content_length : TypedHeader ContentLength := {|
  HeaderDecodeError := ContentLengthError;
  typed_decode := decode;
  typed_encode := encode;
  header_name := HeaderName.ContentLength;
|}.

Example content_length_ex :
  decode [mkHeaderValue (bs "10")] = Ok (Some (mkContentLength 10))
  /\ decode [mkHeaderValue (bs "10000000000000000000")] = Err ExceedsMaximumLength
  /\ decode [mkHeaderValue (bs "18446744073709551616")] = Err Overflow
  /\ decode [mkHeaderValue (bs "")] = Err Empty.
Proof. now vm_compute. Qed.

Lemma content_length_decode_Ok vs c :
  decode vs = Ok (Some c) <->
  exists v, vs = [v] /\ parse_unsigned USIZE_MAX (as_str v) = Ok (content_length c)
            /\ content_length_valid c.
Proof.
  unfold decode, try_from, content_length_valid.
  destruct vs as [|v [|]]; [split; [done|]; naive_solver| |split; [done|]; naive_solver].
  destruct (parse_unsigned USIZE_MAX (as_str v)) as [n|e] eqn:E; cbn.
  - destruct (N.ltb_spec MAX_CONTENT_LENGTH n); cbn; split.
    + done.
    + intros (? & [= <-] & H' & ?). rewrite E in H'. injection H' as ->. lia.
    + intros [= <-]. eauto.
    + intros (? & [= <-] & H' & ?). rewrite E in H'. injection H' as ->. now destruct c.
  - split; [done|]. intros (? & [= <-] & H' & ?). congruence.
Qed.

#[export] Instance content_length_laws : TypedHeaderLaws ContentLength content_length_valid.
Proof.
  split.
  - reflexivity.
  - intros c Hc. apply content_length_decode_Ok. eexists. split; [reflexivity|]. split; [|done].
    apply parse_unsigned_to_string.
    unfold content_length_valid, MAX_CONTENT_LENGTH in Hc. unfold USIZE_MAX, USIZE_MODULUS. lia.
  - intros c _. constructor; [apply to_string_value|constructor].
  - intros vs c (v & _ & _ & Hv)%content_length_decode_Ok. exact Hv.
Qed.

(** ** Properties *)

(** Decoding the Content-Length values of a message: no value means no header, two values are an
    error, and a single value is decoded exactly when it is an unsigned decimal number of at most
    MAX_CONTENT_LENGTH, with one error for each way it can fail. What [encode] writes is decoded
    back. *)
Theorem content_length_decode_spec (values : list HeaderValue) :
  match values with
  | [] => decode values = Ok None
  | [v] =>
      decode values
      = match parse_unsigned USIZE_MAX (as_str v) with
        | Ok n => if MAX_CONTENT_LENGTH <? n then Err ExceedsMaximumLength
                  else Ok (Some (mkContentLength n))
        | Err Text.Empty => Err Empty
        | Err Text.InvalidDigit => Err InvalidDigit
        | Err PosOverflow => Err Overflow
        end
  | _ => decode values = Err MoreThanOneHeader
  end
  /\ (forall c, decode values = Ok (Some c) -> content_length_valid c /\ content_length c < 2 ^ 64)
  /\ (forall c, content_length_valid c -> decode (encode c) = Ok (Some c)).
Proof.
  split; [|split].
  - destruct values as [|v [|]]; [done| |done]. unfold decode, try_from.
    destruct (parse_unsigned USIZE_MAX (as_str v)) as [n|[]]; cbn; try done.
    now destruct (N.ltb_spec MAX_CONTENT_LENGTH n).
  - intros c (v & _ & _ & Hv)%content_length_decode_Ok. split; [done|].
    unfold content_length_valid, MAX_CONTENT_LENGTH in Hv. lia.
  - exact typed_decode_encode.
Qed.
