(* ===== verification/Request.v ===== *)
(** * Requests

    Model of [rtsp-2/src/request.rs]: the request type, its builder and the conversions between
    them. The request URI is the interface [URIOps]: what the rest of the crate uses of
    [rtsp-2/src/uri/request.rs]. *)

From Stdlib Require Import Strings.Byte.
From stdpp Require Import base list numbers strings.
From S2P Require Import Prelude HeaderName HeaderValue HeaderMap Method Version.

Local Open Scope nat_scope.

(** The operations on request URIs the messages and the codec use: decoding and [Display]. *)
Class URIOps := {
  URI : Type;
  URIError : Type;
  uri_try_from : bytes -> Result URI URIError;
  uri_to_string : URI -> bytes;
}.

(** A concrete URI type, a non-empty text without spaces, for runs of the model. *)
Definition text_uri : URIOps := {|
  URI := bytes;
  URIError := unit;
  uri_try_from value := if bool_decide (value = [] \/ SP ∈ value) then Err tt else Ok value;
  uri_to_string value := value;
|}.

Inductive RequestError := MissingBody | MissingMethod | MissingURI | UnsupportedVersion.

#[export] Instance request_error_eq_dec : EqDecision RequestError.
Proof. solve_decision. Defined.

Section Request.
Context `{HeaderMapOps} `{URIOps}.

Record Request (TBody : Type) := mkRequest {
  body : TBody;
  headers : HeaderMap;
  method : Method;
  uri : URI;
  version : Version;
}.

Record Builder (TBody : Type) := mkBuilder {
  b_body : option TBody;
  b_headers : HeaderMap;
  b_method : option Method;
  b_uri : option URI;
  b_version : Version;
}.
End Request.

Arguments mkRequest {_ _ TBody}.
Arguments body {_ _ TBody}.
Arguments headers {_ _ TBody}.
Arguments method {_ _ TBody}.
Arguments uri {_ _ TBody}.
Arguments version {_ _ TBody}.
Arguments mkBuilder {_ _ TBody}.
Arguments b_body {_ _ TBody}.
Arguments b_headers {_ _ TBody}.
Arguments b_method {_ _ TBody}.
Arguments b_uri {_ _ TBody}.
Arguments b_version {_ _ TBody}.

(** ** The builder *)

Section Builder.
Context `{HeaderMapOps} `{URIOps}.

(** [Builder::new]. *)
Definition new (TBody : Type) : Builder TBody :=
  mkBuilder None map_default None None default_version.

(** The setters; [with_body] may change the type of the body. *)
Definition with_body {TBody TNewBody} (body : TNewBody) (self : Builder TBody) : Builder TNewBody :=
  mkBuilder (Some body) (b_headers self) (b_method self) (b_uri self) (b_version self).

Definition with_header {TBody} (name : HeaderName) (value : HeaderValue) (self : Builder TBody) :
    Builder TBody :=
  mkBuilder (b_body self) (map_append name value (b_headers self)) (b_method self) (b_uri self)
    (b_version self).

Definition with_typed_header {TBody} `{TypedHeader Header} (header : Header)
    (self : Builder TBody) : Builder TBody :=
  mkBuilder (b_body self) (typed_insert header (b_headers self)) (b_method self) (b_uri self)
    (b_version self).

Definition with_method {TBody} (method : Method) (self : Builder TBody) : Builder TBody :=
  mkBuilder (b_body self) (b_headers self) (Some method) (b_uri self) (b_version self).

Definition with_uri {TBody} (uri : URI) (self : Builder TBody) : Builder TBody :=
  mkBuilder (b_body self) (b_headers self) (b_method self) (Some uri) (b_version self).

Definition with_version {TBody} (version : Version) (self : Builder TBody) : Builder TBody :=
  mkBuilder (b_body self) (b_headers self) (b_method self) (b_uri self) version.

(** [builder.headers = headers]. *)
Definition set_headers {TBody} (headers : HeaderMap) (self : Builder TBody) : Builder TBody :=
  mkBuilder (b_body self) headers (b_method self) (b_uri self) (b_version self).

Definition build {TBody} (self : Builder TBody) : Result (Request TBody) RequestError :=
  match b_method self with
  | None => Err MissingMethod
  | Some method =>
      match b_uri self with
      | None => Err MissingURI
      | Some uri =>
          match b_body self with
          | None => Err MissingBody
          | Some body =>
              if negb (bool_decide (b_version self = Rtsp2_0)) then Err UnsupportedVersion
              else Ok (mkRequest body (b_headers self) method uri (b_version self))
          end
      end
  end.

(** ** Conversions *)

Definition from_parts {TBody} (method : Method) (uri : URI) (version : Version)
    (headers : HeaderMap) (body : TBody) : Result (Request TBody) RequestError :=
  build (set_headers headers
           (with_version version (with_body body (with_uri uri (with_method method (new unit)))))).

Definition into_builder {TBody} (self : Request TBody) : Builder TBody :=
  mkBuilder (Some (body self)) (headers self) (Some (method self)) (Some (uri self)) (version self).

Definition into_parts {TBody} (self : Request TBody) : Method * URI * Version * HeaderMap * TBody :=
  (method self, uri self, version self, headers self, body self).

Definition request_map {TBody TNewBody} (mapper : TBody -> TNewBody) (self : Request TBody) :
    Request TNewBody :=
  mkRequest (mapper (body self)) (headers self) (method self) (uri self) (version self).

(** [headers_mut], as the update of the headers by a function. *)
Definition map_headers {TBody} (f : HeaderMap -> HeaderMap) (self : Request TBody) :
    Request TBody :=
  mkRequest (body self) (f (headers self)) (method self) (uri self) (version self).

(** A request that a builder produced: the version has no setter after that. *)
Definition request_wf {TBody} (r : Request TBody) : Prop := version r = Rtsp2_0.

Lemma build_Ok {TBody} (b : Builder TBody) (r : Request TBody) :
  build b = Ok r <-> b = into_builder r /\ request_wf r.
Proof.
  unfold build, request_wf, into_builder. destruct b as [bo hs [m|] [u|] v]; cbn; try naive_solver.
  destruct bo as [bo|]; [|naive_solver]. case_bool_decide; cbn.
  - split; [intros [= <-]; cbn; now subst|]. intros [[= -> -> -> -> ->] _]. now destruct r.
  - split; [done|]. intros [[= -> -> -> -> ->] ?]. done.
Qed.

Lemma build_complete {TBody} (bo : TBody) hs m u :
  build (mkBuilder (Some bo) hs (Some m) (Some u) Rtsp2_0) = Ok (mkRequest bo hs m u Rtsp2_0).
Proof. reflexivity. Qed.

(** ** Properties *)

(** Building a request. [build] succeeds exactly when the method, the URI and the body were given
    and the version is 2.0, and returns them unchanged; the first missing part in that order is the
    error. A request is rebuilt from its builder and from its parts, and the parts can be set in
    any order. *)
Theorem request_build_spec {TBody} (b : Builder TBody) :
  (forall r, build b = Ok r <->
     b_method b = Some (method r) /\ b_uri b = Some (uri r) /\ b_body b = Some (body r)
     /\ b_headers b = headers r /\ b_version b = version r /\ version r = Rtsp2_0)
  /\ (forall e, build b = Err e <->
        match e with
        | MissingMethod => b_method b = None
        | MissingURI => b_method b <> None /\ b_uri b = None
        | MissingBody => b_method b <> None /\ b_uri b <> None /\ b_body b = None
        | UnsupportedVersion => b_method b <> None /\ b_uri b <> None /\ b_body b <> None
                                /\ b_version b <> Rtsp2_0
        end)
  /\ (forall r : Request TBody, version r = Rtsp2_0 ->
        build (into_builder r) = Ok r
        /\ (let '(m, u, v, hs, bo) := into_parts r in from_parts m u v hs bo) = Ok r)
  /\ (forall (bo : TBody) m u v,
        with_version v (with_uri u (with_method m (with_body bo b)))
        = with_body bo (with_method m (with_uri u (with_version v b)))).
Proof.
  split; [|split; [|split]].
  - intros r. rewrite build_Ok. unfold request_wf, into_builder. destruct b, r; cbn. naive_solver.
  - intros e. unfold build. destruct b as [bo hs [m|] [u|] v]; cbn; try (destruct e; naive_solver).
    destruct bo as [bo|]; cbn; [|destruct e; naive_solver].
    case_bool_decide; cbn; destruct e; naive_solver.
  - intros r Hr. split; [now apply build_Ok|]. destruct r; cbn in *. now subst.
  - reflexivity.
Qed.
End Builder.
