(* ===== verification/Response.v ===== *)
(** * Responses

    Model of [rtsp-2/src/response.rs]: the response type, its builder and the responses the
    connection sends by itself. *)

From Stdlib Require Import Strings.Byte.
From stdpp Require Import base list numbers strings.
From S2P Require Import Prelude HeaderName HeaderValue HeaderMap Version Reason Status.

Local Open Scope nat_scope.

Inductive ResponseError := MissingBody | MissingReasonPhrase | UnsupportedVersion.

#[export] Instance response_error_eq_dec : EqDecision ResponseError.
Proof. solve_decision. Defined.

Section Response.
Context `{HeaderMapOps}.

Record Response (TBody : Type) := mkResponse {
  body : TBody;
  headers : HeaderMap;
  reason_phrase : ReasonPhrase;
  status_code : StatusCode;
  version : Version;
}.

Record Builder (TBody : Type) := mkBuilder {
  b_body : option TBody;
  b_custom_reason_phrase : option ReasonPhrase;
  b_headers : HeaderMap;
  b_status_code : StatusCode;
  b_version : Version;
}.
End Response.

Arguments mkResponse {_ TBody}.
Arguments body {_ TBody}.
Arguments headers {_ TBody}.
Arguments reason_phrase {_ TBody}.
Arguments status_code {_ TBody}.
Arguments version {_ TBody}.
Arguments mkBuilder {_ TBody}.
Arguments b_body {_ TBody}.
Arguments b_custom_reason_phrase {_ TBody}.
Arguments b_headers {_ TBody}.
Arguments b_status_code {_ TBody}.
Arguments b_version {_ TBody}.

(** ** The builder *)

Section Builder.
Context `{HeaderMapOps}.

(** [Builder::new]. *)
Definition new (TBody : Type) : Builder TBody :=
  mkBuilder None None map_default default_status_code default_version.

Definition with_body {TBody TNewBody} (body : TNewBody) (self : Builder TBody) : Builder TNewBody :=
  mkBuilder (Some body) (b_custom_reason_phrase self) (b_headers self) (b_status_code self)
    (b_version self).

Definition with_header {TBody} (name : HeaderName) (value : HeaderValue) (self : Builder TBody) :
    Builder TBody :=
  mkBuilder (b_body self) (b_custom_reason_phrase self) (map_append name value (b_headers self))
    (b_status_code self) (b_version self).

Definition with_typed_header {TBody} `{TypedHeader Header} (header : Header)
    (self : Builder TBody) : Builder TBody :=
  mkBuilder (b_body self) (b_custom_reason_phrase self) (typed_insert header (b_headers self))
    (b_status_code self) (b_version self).

Definition with_reason_phrase {TBody} (reason_phrase : option ReasonPhrase)
    (self : Builder TBody) : Builder TBody :=
  mkBuilder (b_body self) reason_phrase (b_headers self) (b_status_code self) (b_version self).

Definition with_status_code {TBody} (status_code : StatusCode) (self : Builder TBody) :
    Builder TBody :=
  mkBuilder (b_body self) (b_custom_reason_phrase self) (b_headers self) status_code
    (b_version self).

Definition with_version {TBody} (version : Version) (self : Builder TBody) : Builder TBody :=
  mkBuilder (b_body self) (b_custom_reason_phrase self) (b_headers self) (b_status_code self)
    version.

(** [builder.headers = headers]. *)
Definition set_headers {TBody} (headers : HeaderMap) (self : Builder TBody) : Builder TBody :=
  mkBuilder (b_body self) (b_custom_reason_phrase self) headers (b_status_code self)
    (b_version self).

(** The reason phrase [build] chooses; [expect] on the canonical reason of a standard code. *)
Definition build_reason {TBody} (self : Builder TBody) :
    Outcome (Result ReasonPhrase ResponseError) :=
  match b_status_code self with
  | Extension _ =>
      match b_custom_reason_phrase self with
      | Some reason_phrase => Return (Ok reason_phrase)
      | None => Return (Err MissingReasonPhrase)
      end
  | status_code =>
      match canonical_reason status_code with
      | Some reason_phrase => Return (Ok reason_phrase)
      | None => Panic
      end
  end.

Definition build {TBody} (self : Builder TBody) : Outcome (Result (Response TBody) ResponseError) :=
  match build_reason self with
  | Panic => Panic
  | Return (Err e) => Return (Err e)
  | Return (Ok reason_phrase) =>
      match b_body self with
      | None => Return (Err MissingBody)
      | Some body =>
          if negb (bool_decide (b_version self = Rtsp2_0)) then Return (Err UnsupportedVersion)
          else Return (Ok (mkResponse body (b_headers self) reason_phrase (b_status_code self)
                             (b_version self)))
      end
  end.

(** ** Conversions *)

Definition from_parts {TBody} (version : Version) (status_code : StatusCode)
    (reason_phrase : ReasonPhrase) (headers : HeaderMap) (body : TBody) :
    Outcome (Result (Response TBody) ResponseError) :=
  build (set_headers headers
           (with_body body
              (with_reason_phrase (Some reason_phrase)
                 (with_status_code status_code (with_version version (new unit)))))).

Definition into_builder {TBody} (self : Response TBody) : Builder TBody :=
  mkBuilder (Some (body self)) (Some (reason_phrase self)) (headers self) (status_code self)
    (version self).

Definition into_parts {TBody} (self : Response TBody) :
    Version * StatusCode * ReasonPhrase * HeaderMap * TBody :=
  (version self, status_code self, reason_phrase self, headers self, body self).

Definition response_map {TBody TNewBody} (mapper : TBody -> TNewBody) (self : Response TBody) :
    Response TNewBody :=
  mkResponse (mapper (body self)) (headers self) (reason_phrase self) (status_code self)
    (version self).

(** [headers_mut], as the update of the headers by a function. *)
Definition map_headers {TBody} (f : HeaderMap -> HeaderMap) (self : Response TBody) :
    Response TBody :=
  mkResponse (body self) (f (headers self)) (reason_phrase self) (status_code self)
    (version self).

(** ** The canned responses *)

(** [Response::<()>::builder().with_status_code(..).with_body(BytesMut::new()).build()]. *)
Definition canned (status_code : StatusCode) : Outcome (Result (Response bytes) ResponseError) :=
  build (with_body [] (with_status_code status_code (new unit))).

(** The static of a canned response: [expect] on the result of [build]. *)
Definition canned_static (status_code : StatusCode) : Outcome (Response bytes) :=
  match canned status_code with
  | Return (Ok r) => Return r
  | _ => Panic
  end.

(** The value the statics hold. *)
Definition canned_response (status_code : StatusCode) (reason : string) : Response bytes :=
  mkResponse [] map_default (mkReasonPhrase (bs reason)) status_code Rtsp2_0.

Definition BAD_REQUEST_RESPONSE := canned_response BadRequest "Bad Request".
Definition CONTINUE_RESPONSE := canned_response Continue "Continue".
Definition INTERNAL_SERVER_ERROR_RESPONSE :=
  canned_response InternalServerError "Internal Server Error".
Definition NOT_IMPLEMENTED_RESPONSE := canned_response NotImplemented "Not Implemented".
Definition REQUEST_MESSAGE_BODY_TOO_LARGE_RESPONSE :=
  canned_response RequestMessageBodyTooLarge "Request Message Body Too Large".
Definition REQUEST_URI_TOO_LONG_RESPONSE :=
  canned_response RequestURITooLong "Request-URI Too Long".
Definition FORBIDDEN_RESPONSE := canned_response Forbidden "Forbidden".
Definition VERSION_NOT_SUPPORTED_RESPONSE :=
  canned_response RTSPVersionNotSupported "RTSP Version Not Supported".

(** Every static is the value above: none of the [expect]s fails. *)
Lemma canned_statics :
  canned_static BadRequest = Return BAD_REQUEST_RESPONSE
  /\ canned_static Continue = Return CONTINUE_RESPONSE
  /\ canned_static InternalServerError = Return INTERNAL_SERVER_ERROR_RESPONSE
  /\ canned_static NotImplemented = Return NOT_IMPLEMENTED_RESPONSE
  /\ canned_static RequestMessageBodyTooLarge = Return REQUEST_MESSAGE_BODY_TOO_LARGE_RESPONSE
  /\ canned_static RequestURITooLong = Return REQUEST_URI_TOO_LONG_RESPONSE
  /\ canned_static Forbidden = Return FORBIDDEN_RESPONSE
  /\ canned_static RTSPVersionNotSupported = Return VERSION_NOT_SUPPORTED_RESPONSE.
Proof. repeat split. Qed.

(** ** Properties *)

(** The reason phrase of a built response: the canonical one for a standard code, the custom one
    for an extension. *)
Definition final_reason (s : StatusCode) (custom : option ReasonPhrase) : option ReasonPhrase :=
  match canonical_reason s with
  | Some r => Some r
  | None => custom
  end.

Lemma build_reason_spec {TBody} (b : Builder TBody) :
  build_reason b = Return match final_reason (b_status_code b) (b_custom_reason_phrase b) with
                          | Some r => Ok r
                          | None => Err MissingReasonPhrase
                          end.
Proof. destruct b as [bo c hs [] v]; try reflexivity. now destruct c. Qed.

(** Building a response. [build] never panics: every standard code has a canonical reason. The
    reason of the result is the canonical one when there is one, whatever custom reason was given,
    and the custom one for an extension, without which the result is an error. So a response is
    rebuilt from its builder or its parts with its reason replaced by the canonical one: it is the
    same response exactly when its reason was already that one. *)
Theorem response_build_spec {TBody} (b : Builder TBody) :
  build b
  = Return match final_reason (b_status_code b) (b_custom_reason_phrase b), b_body b with
           | None, _ => Err MissingReasonPhrase
           | Some _, None => Err MissingBody
           | Some reason, Some body =>
               match b_version b with
               | Rtsp2_0 =>
                   Ok (mkResponse body (b_headers b) reason (b_status_code b) (b_version b))
               | Rtsp1_0 => Err UnsupportedVersion
               end
           end
  /\ (forall r : Response TBody, version r = Rtsp2_0 ->
        (let '(v, s, re, hs, bo) := into_parts r in from_parts v s re hs bo)
        = build (into_builder r)
        /\ (build (into_builder r) = Return (Ok r) <->
            forall re, canonical_reason (status_code r) = Some re -> reason_phrase r = re)).
Proof.
  split.
  - unfold build. rewrite build_reason_spec.
    destruct (final_reason _ _) as [re|]; [|done].
    destruct (b_body b) as [bo|]; [|done]. now destruct (b_version b).
  - intros [bo hs re s v] Hv. cbn in Hv |- *. subst v. split; [reflexivity|].
    unfold build. rewrite build_reason_spec. cbn [into_builder b_body b_version b_status_code
      b_custom_reason_phrase b_headers body headers reason_phrase status_code version].
    unfold final_reason. destruct (canonical_reason s) as [re'|]; cbn; split.
    + intros [= <-] re0 [= <-]. reflexivity.
    + intros Hre. now rewrite (Hre re' eq_refl).
    + done.
    + done.
Qed.
End Builder.
