(* ===== verification/Decoder.v ===== *)
(** * Decoding messages: the parts the request and the response decoder share

    Model of [rtsp-2/src/protocol/codec/decoder/mod.rs] and of the functions that
    [decoder/request.rs] and [decoder/response.rs] both define with the same text: the decoding of
    a header name, a header value, a header and a body, and the loop of [Decoder::decode]. The two
    decoders are instances of the class [DecoderOps], and the loop is studied once, for any
    decoder that meets [StepLaws]. *)

From Stdlib Require Import Strings.Byte.
From stdpp Require Import base list numbers strings.
From S2P Require Import Prelude Text Syntax HeaderName HeaderValue HeaderMap ContentLength.

Local Open Scope nat_scope.
Local Open Scope rust_scope.

Definition BODY_DEFAULT_MAX_LENGTH : N := 65536.
Definition HEADER_DEFAULT_MAX_COUNT : N := 64.
Definition HEADER_NAME_DEFAULT_MAX_LENGTH : N := 100.
Definition HEADER_VALUE_DEFAULT_MAX_LENGTH : N := 2000.
Definition METHOD_DEFAULT_MAX_LENGTH : N := 50.
Definition REASON_PHRASE_DEFAULT_MAX_LENGTH : N := 50.
Definition URI_DEFAULT_MAX_LENGTH : N := 2000.

Inductive DecodeResult (TResult TError : Type) : Type :=
  | Complete (value : TResult)
  | Error (error : TError)
  | Incomplete.
Arguments Complete {TResult TError} value.
Arguments Error {TResult TError} error.
Arguments Incomplete {TResult TError}.

Definition is_complete {A E} (r : DecodeResult A E) : bool :=
  match r with Complete _ => true | _ => false end.
Definition is_error {A E} (r : DecodeResult A E) : bool :=
  match r with Error _ => true | _ => false end.
Definition is_incomplete {A E} (r : DecodeResult A E) : bool :=
  match r with Incomplete => true | _ => false end.

Definition decode_result_map {A B E} (mapper : A -> B) (r : DecodeResult A E) : DecodeResult B E :=
  match r with
  | Complete value => Complete (mapper value)
  | Error error => Error error
  | Incomplete => Incomplete
  end.

Definition map_error {A E F} (mapper : E -> F) (r : DecodeResult A E) : DecodeResult A F :=
  match r with
  | Complete value => Complete value
  | Error error => Error (mapper error)
  | Incomplete => Incomplete
  end.

Definition unwrap {A E} (r : DecodeResult A E) : Outcome A :=
  match r with Complete value => Return value | _ => Panic end.
Definition unwrap_error {A E} (r : DecodeResult A E) : Outcome E :=
  match r with Error error => Return error | _ => Panic end.

(** [From<Result<..>>]. *)
Definition from_result {A E} (r : Result A E) : DecodeResult A E :=
  match r with
  | Ok value => Complete value
  | Err error => Error error
  end.

(** ** Slices that may panic *)

(** [&buffer[n..]] and [&buffer[..n]]. *)
Definition slice_from {A} (n : nat) (buffer : list A) : Outcome (list A) :=
  if n <=? length buffer then Return (drop n buffer) else Panic.
Definition slice_to {A} (n : nat) (buffer : list A) : Outcome (list A) :=
  if n <=? length buffer then Return (take n buffer) else Panic.

Lemma slice_from_le {A} n (l : list A) : n <= length l -> slice_from n l = Return (drop n l).
Proof. intros. unfold slice_from. destruct (Nat.leb_spec n (length l)); [done|lia]. Qed.

Lemma slice_to_le {A} n (l : list A) : n <= length l -> slice_to n l = Return (take n l).
Proof. intros. unfold slice_to. destruct (Nat.leb_spec n (length l)); [done|lia]. Qed.

(** ** Trimming *)

(** The loop of [trim_header_name] from [index] down. *)
Fixpoint trim_name_index (name : bytes) (index : nat) : nat :=
  match index with
  | O => O
  | S i =>
      match name !! i with
      | Some byte => if is_space byte then trim_name_index name i else S i
      | None => S i
      end
  end.

Definition trim_header_name (name : bytes) : bytes := take (trim_name_index name (length name)) name.

(** The number of iterations of the loop of [trim_header_value]. *)
Fixpoint count_blanks (value : bytes) : nat :=
  match value with
  | byte :: value => if is_space byte then S (count_blanks value) else O
  | [] => O
  end.

Definition trim_header_value (value : bytes) : bytes :=
  let has_initial_linebreak := starts_with CRLF value in
  let index := if has_initial_linebreak then 2 else 0 in
  let index := index + count_blanks (drop index value) in
  if has_initial_linebreak && (index =? 2) then value else drop index value.

Example trim_ex :
  trim_header_name (bs "test  ") = bs "test" /\ trim_header_value (bs "  test") = bs "test"
  /\ trim_header_value (CRLF ++ bs " test") = bs "test"
  /\ trim_header_value (CRLF ++ bs "test") = CRLF ++ bs "test"
  /\ trim_header_value (bs "  " ++ CRLF ++ bs " test") = CRLF ++ bs " test".
Proof. now vm_compute. Qed.

Lemma trim_name_index_blank name index :
  index <= length name ->
  trim_name_index name index <= index
  /\ Forall (fun b => is_space b = true) (drop (trim_name_index name index) (take index name))
  /\ forall b, last (take (trim_name_index name index) name) = Some b -> is_space b = false.
Proof.
  induction index as [|i IH]; intros Hi; cbn [trim_name_index].
  { split; [done|]. split; [constructor|]. intros b. now rewrite take_0. }
  destruct (lookup_lt_is_Some_2 name i ltac:(lia)) as [x Hx]. rewrite Hx.
  destruct (is_space x) eqn:E.
  - destruct (IH ltac:(lia)) as (H1 & H2 & H3). split; [lia|]. split; [|done].
    rewrite (take_S_r _ _ _ Hx), drop_app_le by (rewrite length_take; lia).
    apply Forall_app. split; [done|]. now constructor.
  - split; [done|]. split.
    + rewrite drop_ge; [constructor|]. rewrite length_take. lia.
    + intros b. rewrite (take_S_r _ _ _ Hx), last_snoc. now intros [= <-].
Qed.

(** The result is the name without its trailing blanks. *)
Lemma trim_header_name_spec name :
  exists blanks, name = trim_header_name name ++ blanks
    /\ Forall (fun b => is_space b = true) blanks
    /\ forall b, last (trim_header_name name) = Some b -> is_space b = false.
Proof.
  destruct (trim_name_index_blank name (length name) (le_n _)) as (H1 & H2 & H3).
  exists (drop (trim_name_index name (length name)) name). unfold trim_header_name.
  rewrite take_drop. repeat split; [|done]. now rewrite firstn_all in H2.
Qed.

Lemma trim_header_name_id name :
  (forall b, last name = Some b -> is_space b = false) -> trim_header_name name = name.
Proof.
  intros Hl. destruct (trim_header_name_spec name) as (blanks & E & Hb & _).
  destruct blanks as [|b blanks] using rev_ind; [now rewrite app_nil_r in E|].
  rewrite E, app_assoc, last_snoc in Hl. apply Forall_app in Hb as [_ Hb].
  inversion Hb. now rewrite Hl in *.
Qed.

(** A value that starts with neither a blank nor a line break is kept, after one blank too. *)
Lemma trim_header_value_id value :
  stripped CR LF value = true -> trim_header_value value = value.
Proof.
  intros Hs. unfold trim_header_value.
  destruct value as [|b0 value]; [reflexivity|].
  assert (starts_with CRLF (b0 :: value) = false) as ->.
  { apply bool_decide_eq_false_2. intros [k Hk]. cbn in Hk. injection Hk as -> ->.
    cbn in Hs. discriminate. }
  cbn in Hs. apply andb_prop in Hs as [Hs _]. cbn. now destruct (is_space b0).
Qed.

Lemma trim_header_value_space b value :
  is_space b = true -> stripped CR LF value = true -> trim_header_value (b :: value) = value.
Proof.
  intros Hb Hs. unfold trim_header_value.
  assert (starts_with CRLF (b :: value) = false) as ->.
  { apply bool_decide_eq_false_2. intros [k [= -> _]]. discriminate. }
  cbn. rewrite Hb. cbn. destruct value as [|b0 value]; [done|].
  cbn in Hs. apply andb_prop in Hs as [Hs _]. cbn. now destruct (is_space b0).
Qed.

(** ** What a decoder offers *)

(** The errors both decoders have. *)
Class DecodeErrors (E : Type) := {
  BodyTooLong : E;
  HeaderNameInvalid : HeaderNameError -> E;
  HeaderNameTooLong : E;
  HeaderValueInvalid : HeaderValueError -> E;
  HeaderValueTooLong : E;
  InvalidContentLength : E;
  TooManyHeaders : E;
}.

(** The fields of a decoder the shared functions read and write. *)
Class DecoderOps `{HeaderMapOps} (D : Type) := {
  body_max_length : D -> N;
  header_max_count : D -> N;
  header_name_max_length : D -> N;
  header_value_max_length : D -> N;
  builder_headers : D -> HeaderMap;
  builder_header : HeaderName -> HeaderValue -> D -> D;
  builder_body : bytes -> D -> D;
  get_content_length : D -> ContentLength;
  set_content_length : ContentLength -> D -> D;
  set_state_body : D -> D;
  set_state_end : D -> D;
}.

Section Shared.
Context `{HeaderMapOps} {D E : Type} `{!DecoderOps D} `{!DecodeErrors E}.

(** [decode_header_name]: [None] is the empty line that ends the headers. *)
Definition decode_header_name (d : D) (buffer : bytes) :
    Outcome (DecodeResult (option bytes) E) :=
  if starts_with CRLF buffer then Return (Complete None)
  else
    let max_length := usize_add (header_name_max_length d) 1 in
    match position (is_byte ":"%byte) (take (N.to_nat max_length) buffer) with
    | Some index => let! name := slice_to index buffer in Return (Complete (Some name))
    | None =>
        if (max_length <=? len buffer)%N then Return (Error HeaderNameTooLong)
        else Return Incomplete
    end.

(** The indices of the line breaks among the first [n] windows. *)
Definition line_breaks (n : nat) (buffer : bytes) : list nat :=
  omap (fun '(i, (a, b)) => if bool_decide (a = CR /\ b = LF) then Some i else None)
       (imap pair (take n (windows2 buffer))).

(** The [for index in iter] loop; [None] when it falls through. *)
Fixpoint find_value_end (buffer : bytes) (indices : list nat) :
    option (Outcome (DecodeResult bytes E)) :=
  match indices with
  | [] => None
  | index :: indices =>
      match buffer !! (index + 2) with
      | Some byte =>
          if is_space byte then find_value_end buffer indices
          else Some (let! value := slice_to index buffer in Return (Complete value))
      | None => Some (Return Incomplete)
      end
  end.

Definition decode_header_value (d : D) (buffer : bytes) : Outcome (DecodeResult bytes E) :=
  let max_length := usize_add (header_value_max_length d) 1 in
  match find_value_end buffer (line_breaks (N.to_nat max_length) buffer) with
  | Some r => r
  | None =>
      if (max_length <=? len buffer)%N then Return (Error HeaderValueTooLong)
      else Return Incomplete
  end.

(** The [None] branch of [decode_header], after the empty line. *)
Definition end_headers (d : D) (buffer : bytes) : Outcome (DecodeResult unit E * D * bytes) :=
  let! buffer := slice_from 2 buffer in
  let d := set_state_body d in
  match typed_try_get ContentLength (builder_headers d) with
  | Ok (Some c) =>
      if (body_max_length d <? content_length c)%N then Return (Error BodyTooLong, d, buffer)
      else Return (Complete tt, set_content_length c d, buffer)
  | Ok None => Return (Complete tt, set_content_length content_length_default d, buffer)
  | Err _ => Return (Error InvalidContentLength, d, buffer)
  end.

(** The [Some] branch of [decode_header]. *)
Definition decode_field (d : D) (header_name : bytes) (buffer : bytes) :
    Outcome (DecodeResult unit E * D * bytes) :=
  if (header_max_count d <=? values_len (builder_headers d))%N
  then Return (Error TooManyHeaders, d, buffer)
  else
    let! rest := slice_from (length header_name + 1) buffer in
    let! r := decode_header_value d rest in
    match r with
    | Error e => Return (Error e, d, buffer)
    | Incomplete => Return (Incomplete, d, buffer)
    | Complete header_value =>
        let header_end_index := length header_value + 2 in
        match HeaderName.try_from (trim_header_name header_name) with
        | Err error => Return (Error (HeaderNameInvalid error), d, buffer)
        | Ok name =>
            match HeaderValue.try_from (trim_header_value header_value) with
            | Err error => Return (Error (HeaderValueInvalid error), d, buffer)
            | Ok value =>
                let d := builder_header name value d in
                let! buffer := slice_from header_end_index rest in
                Return (Complete tt, d, buffer)
            end
        end
    end.

Definition decode_header (d : D) (buffer : bytes) : Outcome (DecodeResult unit E * D * bytes) :=
  let! r := decode_header_name d buffer in
  match r with
  | Error e => Return (Error e, d, buffer)
  | Incomplete => Return (Incomplete, d, buffer)
  | Complete (Some header_name) => decode_field d header_name buffer
  | Complete None => end_headers d buffer
  end.

Definition decode_body (d : D) (buffer : bytes) : Outcome (DecodeResult unit E * D * bytes) :=
  if (len buffer <? content_length (get_content_length d))%N then Return (Incomplete, d, buffer)
  else
    let n := N.to_nat (content_length (get_content_length d)) in
    Return (Complete tt, builder_body (take n buffer) (set_state_end d), drop n buffer).
End Shared.

(** ** Line breaks *)

Definition is_break (buffer : bytes) (i : nat) : bool :=
  bool_decide (buffer !! i = Some CR) && bool_decide (buffer !! S i = Some LF).

Lemma is_break_true b i : is_break b i = true <-> b !! i = Some CR /\ b !! S i = Some LF.
Proof. unfold is_break. now rewrite andb_true_iff, !bool_decide_eq_true. Qed.

Lemma is_break_app b k i : S i < length b -> is_break (b ++ k) i = is_break b i.
Proof. intros Hi. unfold is_break. now rewrite !lookup_app_l by lia. Qed.

Lemma line_breaks_filter n b :
  line_breaks n b = List.filter (is_break b) (seq 0 (n `min` (length b - 1))).
Proof.
  unfold line_breaks. induction n as [|n IH]; [done|].
  destruct (windows2 b !! n) as [[x y]|] eqn:E.
  - pose proof (lookup_lt_Some _ _ _ E) as Hn. rewrite length_windows2 in Hn.
    rewrite (take_S_r _ _ _ E), imap_app, omap_app, IH.
    replace (S n `min` (length b - 1)) with (S n) by lia.
    replace (n `min` (length b - 1)) with n by lia.
    rewrite seq_S, List.filter_app. f_equal. cbn.
    rewrite length_take, length_windows2. replace (n `min` (length b - 1) + 0) with n by lia.
    apply windows2_lookup in E as [E1 E2]. cbn in E1, E2. unfold is_break. rewrite E1, E2.
    destruct (decide (x = CR)), (decide (y = LF)); subst;
      repeat (first [rewrite bool_decide_eq_true_2 by naive_solver
                    |rewrite bool_decide_eq_false_2 by naive_solver]); done.
  - apply lookup_ge_None in E. rewrite length_windows2 in E.
    rewrite !take_ge in * by (rewrite length_windows2; lia). rewrite IH. do 2 f_equal. lia.
Qed.

Lemma line_breaks_app n b k : exists js, line_breaks n (b ++ k) = line_breaks n b ++ js.
Proof.
  rewrite !line_breaks_filter, length_app.
  replace (n `min` (length b + length k - 1))
    with (n `min` (length b - 1) + (n `min` (length b + length k - 1) - n `min` (length b - 1)))
    by lia.
  rewrite seq_app, List.filter_app. eexists. f_equal. apply List.filter_ext_in.
  intros i Hi%List.in_seq. apply is_break_app. lia.
Qed.

Lemma line_breaks_in n b i :
  In i (line_breaks n b) -> i < n /\ b !! i = Some CR /\ b !! S i = Some LF.
Proof.
  rewrite line_breaks_filter, List.filter_In, List.in_seq, is_break_true. intros [? ?].
  split; [lia|done].
Qed.

(** ** The end of a header value *)

Section Value.
Context {E : Type}.

Lemma find_value_end_app b k ixs js r :
  find_value_end (E:=E) b ixs = Some (Return r) -> is_incomplete r = false ->
  Forall (fun i => i < length b) ixs ->
  find_value_end (E:=E) (b ++ k) (ixs ++ js) = Some (Return r).
Proof.
  induction ixs as [|i ixs IH]; intros H Hr Hlt; [done|]. inversion Hlt as [|? ? Hi Hlt']; subst.
  cbn in H |- *. destruct (b !! (i + 2)) as [x|] eqn:E2; [|injection H as <-; discriminate].
  rewrite (lookup_app_l_Some _ _ _ _ E2). destruct (is_space x); [now apply IH|].
  rewrite slice_to_le in H by lia. rewrite slice_to_le by (rewrite length_app; lia).
  now rewrite take_app_le by lia.
Qed.

(** What the loop returns: the value ends at the first break that no blank follows. *)
Lemma find_value_end_Some b ixs o :
  find_value_end (E:=E) b ixs = Some o ->
  Forall (fun i => i < length b) ixs ->
  (exists i x, In i ixs /\ b !! (i + 2) = Some x /\ is_space x = false
               /\ o = Return (Complete (take i b)))
  \/ (exists i, In i ixs /\ b !! (i + 2) = None /\ o = Return Incomplete).
Proof.
  induction ixs as [|i ixs IH]; intros H Hlt; [done|]. inversion Hlt as [|? ? Hi Hlt']; subst.
  cbn in H. destruct (b !! (i + 2)) as [x|] eqn:E2.
  - destruct (is_space x) eqn:Ex.
    + destruct (IH H Hlt') as [(j & y & ? & ? & ? & ->)|(j & ? & ? & ->)]; [left|right];
        repeat eexists; try done; now right.
    + injection H as <-. left. exists i, x. rewrite slice_to_le by lia. cbn. auto.
  - injection H as <-. right. exists i. cbn. auto.
Qed.

Lemma find_value_end_skip b ixs js :
  Forall (fun i => exists x, b !! (i + 2) = Some x /\ is_space x = true) ixs ->
  find_value_end (E:=E) b (ixs ++ js) = find_value_end b js.
Proof. induction 1 as [|i ixs (x & Hx & Hs) _ IH]; [done|]. cbn. now rewrite Hx, Hs. Qed.
End Value.

Section SharedSpec.
Context `{HeaderMapOps} {D E : Type} `{!DecoderOps D} `{!DecodeErrors E}.

Lemma line_breaks_lt n b : Forall (fun i => i < length b) (line_breaks n b).
Proof.
  apply Forall_forall. intros i Hi%list_elem_of_In%line_breaks_in.
  destruct Hi as (_ & Hi & _). now apply lookup_lt_Some in Hi.
Qed.

Lemma decode_header_value_cases (d : D) b :
  (exists v x rest, b = v ++ CR :: LF :: x :: rest /\ is_space x = false
     /\ (len v <= header_value_max_length d)%N
     /\ decode_header_value (E:=E) d b = Return (Complete v)
     /\ forall k, decode_header_value (E:=E) d (b ++ k) = Return (Complete v))
  \/ decode_header_value (E:=E) d b = Return Incomplete
  \/ decode_header_value (E:=E) d b = Return (Error HeaderValueTooLong).
Proof.
  unfold decode_header_value. set (n := N.to_nat _). cbv zeta.
  destruct (find_value_end b (line_breaks n b)) as [o|] eqn:E1;
    [|destruct (_ <=? _)%N; auto].
  pose proof E1 as E2. apply find_value_end_Some in E2; [|apply line_breaks_lt].
  destruct E2 as [(i & x & Hi & Hx & Hs & ->)|(i & Hi & Hx & ->)]; [|auto].
  left. apply line_breaks_in in Hi as (Hn & H1 & H2).
  exists (take i b), x, (drop (3 + i) b). split; [|split; [done|split; [|split; [done|]]]].
  - rewrite <- (take_drop i b) at 1. f_equal. rewrite (drop_S _ _ _ H1). f_equal.
    rewrite (drop_S _ _ _ H2). f_equal. replace (i + 2) with (S (S i)) in Hx by lia.
    now rewrite (drop_S _ _ _ Hx).
  - apply limit_index in Hn. unfold len. rewrite length_take. lia.
  - intros k. destruct (line_breaks_app n b k) as [js ->].
    now rewrite (find_value_end_app b k _ js _ E1 eq_refl (line_breaks_lt n b)).
Qed.

(** A value whose own line breaks are folded, within the limit, is found again. *)
Lemma decode_header_value_complete (d : D) v x rest :
  (forall i, v !! i = Some CR -> exists y, v !! (i + 2) = Some y /\ is_space y = true) ->
  is_space x = false -> (len v <= header_value_max_length d)%N ->
  (header_value_max_length d + 1 < USIZE_MODULUS)%N ->
  decode_header_value (E:=E) d (v ++ CR :: LF :: x :: rest) = Return (Complete v).
Proof.
  intros Hv Hx Hlen Hmax. unfold decode_header_value. cbv zeta.
  set (b := v ++ CR :: LF :: x :: rest).
  assert (Hn : length v < N.to_nat (usize_add (header_value_max_length d) 1)).
  { unfold usize_add. rewrite N.mod_small by done. unfold len in Hlen. lia. }
  set (n := N.to_nat _) in *. clearbody n.
  assert (Hb : forall i, b !! (length v + i) = (CR :: LF :: x :: rest) !! i).
  { intros i. unfold b. rewrite lookup_app_r by lia. f_equal. lia. }
  assert (Hlb : length b = length v + S (S (S (length rest)))) by (unfold b; now rewrite length_app).
  rewrite line_breaks_filter.
  replace (n `min` (length b - 1)) with (length v + S (n `min` (length b - 1) - length v - 1)) by lia.
  rewrite seq_app, List.filter_app, find_value_end_skip.
  - cbn [seq List.filter]. rewrite Nat.add_0_l.
    replace (is_break b (length v)) with true.
    2:{ symmetry. apply is_break_true. pose proof (Hb 0) as Hb0. pose proof (Hb 1) as Hb1.
        rewrite Nat.add_0_r in Hb0. now replace (S (length v)) with (length v + 1) by lia. }
    cbn [find_value_end]. rewrite (Hb 2). cbn. rewrite Hx, slice_to_le by lia. cbn.
    unfold b. now rewrite take_app_length.
  - apply Forall_forall. intros i Hi%list_elem_of_In. apply List.filter_In in Hi as [Hi Hbr].
    apply List.in_seq in Hi. apply is_break_true in Hbr as [Hcr _].
    unfold b in Hcr. rewrite lookup_app_l in Hcr by lia.
    destruct (Hv i Hcr) as (y & Hy & Hs). exists y. split; [|done].
    unfold b. now apply lookup_app_l_Some.
Qed.

(** Without the byte after the carriage return, a value of the maximum length is over the limit. *)
Lemma decode_header_value_at_limit (d : D) v :
  Forall (fun b => b <> CR) v -> len v = header_value_max_length d ->
  (header_value_max_length d + 1 < USIZE_MODULUS)%N ->
  decode_header_value (E:=E) d (v ++ [CR]) = Return (Error HeaderValueTooLong).
Proof.
  intros Hv Hl Hmax. unfold decode_header_value. cbv zeta.
  rewrite usize_add_small by done. rewrite line_breaks_filter.
  destruct (List.filter _ _) as [|i l] eqn:Ef.
  - cbn. destruct (N.leb_spec (header_value_max_length d + 1) (len (v ++ [CR]))) as [|Hlt]; [done|].
    unfold len in *. rewrite length_app in Hlt. cbn in Hlt. lia.
  - exfalso. pose proof (List.in_eq i l) as Hi. rewrite <- Ef in Hi.
    apply List.filter_In in Hi as [Hi%List.in_seq [Hc _]%is_break_true].
    rewrite length_app in Hi. cbn in Hi. rewrite lookup_app_l in Hc by lia.
    rewrite Forall_lookup in Hv. now apply (Hv _ _ Hc).
Qed.

Lemma starts_with_CRLF b : starts_with CRLF b = true <-> exists rest, b = CR :: LF :: rest.
Proof. apply bool_decide_eq_true. Qed.

Lemma decode_header_name_cases (d : D) b :
  (exists rest, b = CR :: LF :: rest
     /\ forall k, decode_header_name (E:=E) d (b ++ k) = Return (Complete None))
  \/ (exists name rest, b = name ++ ":"%byte :: rest
     /\ (len name <= header_name_max_length d)%N /\ ":"%byte ∉ name
     /\ forall k, decode_header_name (E:=E) d (b ++ k) = Return (Complete (Some name)))
  \/ decode_header_name (E:=E) d b = Return Incomplete
  \/ decode_header_name (E:=E) d b = Return (Error HeaderNameTooLong).
Proof.
  unfold decode_header_name. cbv zeta. set (n := N.to_nat _).
  destruct (starts_with CRLF b) eqn:Es.
  { apply starts_with_CRLF in Es as [rest ->]. left. exists rest. split; [done|]. intros k.
    now rewrite (proj2 (starts_with_CRLF _)) by (exists (rest ++ k); reflexivity). }
  destruct (position _ (take n b)) as [i|] eqn:Ep; [|destruct (_ <=? _)%N; auto].
  right. left.
  destruct (position_word_inv _ _ _ _ Ep) as (Hi & Hin & Hb & Hc).
  exists (take i b), (drop (S i) b). split; [done|]. split; [|split; [done|]].
  - apply limit_index in Hin. unfold len. rewrite length_take. lia.
  - intros k. replace (starts_with CRLF (b ++ k)) with false.
    + rewrite (position_take_app _ _ _ k _ Ep). rewrite slice_to_le by (rewrite length_app; lia).
      cbn. now rewrite take_app_le by lia.
    + symmetry. apply not_true_is_false. intros [rest Hr]%starts_with_CRLF.
      destruct b as [|b0 [|b1 b]]; [cbn in Hi; lia| |].
      * destruct i; [|cbn in Hi; lia]. cbn in Hb, Hr. injection Hb as ->. discriminate Hr.
      * cbn in Hr. injection Hr as -> -> _.
        rewrite (proj2 (starts_with_CRLF _)) in Es by eauto. done.
Qed.
End SharedSpec.

(** ** Steps *)

(** What is asked of one decoding function, at a decoder and a buffer. It does not panic and leaves
    a suffix of the buffer. When it completes it has consumed at least [least] bytes and does the
    same whatever bytes follow; when it wants more data it has changed nothing. *)
Definition good_step {D E} (least : nat) (f : bytes -> Outcome (DecodeResult unit E * D * bytes))
    (d : D) (b : bytes) : Prop :=
  exists r d' n, n <= length b /\ f b = Return (r, d', drop n b)
    /\ match r with
       | Complete _ => least <= n /\ forall k, f (b ++ k) = Return (Complete tt, d', drop n b ++ k)
       | Incomplete => d' = d /\ n = 0
       | Error _ => True
       end.

Lemma good_step_Complete {D E} least (f : bytes -> Outcome (DecodeResult unit E * D * bytes)) d b n d' :
  n <= length b -> least <= n ->
  (forall k, f (b ++ k) = Return (Complete tt, d', drop n b ++ k)) -> good_step least f d b.
Proof.
  intros Hn Hl H. exists (Complete tt), d', n. split; [done|]. split; [|done].
  specialize (H []). now rewrite !app_nil_r in H.
Qed.

Lemma good_step_Incomplete {D E} least (f : bytes -> Outcome (DecodeResult unit E * D * bytes)) d b :
  f b = Return (Incomplete, d, b) -> good_step least f d b.
Proof. intros H. exists Incomplete, d, 0. split; [lia|]. now split. Qed.

Lemma good_step_Error {D E} least (f : bytes -> Outcome (DecodeResult unit E * D * bytes)) d b n e d' :
  n <= length b -> f b = Return (Error e, d', drop n b) -> good_step least f d b.
Proof. intros Hn H. now exists (Error e), d', n. Qed.

Lemma good_step_Error0 {D E} least (f : bytes -> Outcome (DecodeResult unit E * D * bytes)) d b e d' :
  f b = Return (Error e, d', b) -> good_step least f d b.
Proof. intros H. apply (good_step_Error _ _ _ _ 0 e d'); [lia|done]. Qed.

Lemma good_step_weaken {D E} m n (f : bytes -> Outcome (DecodeResult unit E * D * bytes)) d b :
  m <= n -> good_step n f d b -> good_step m f d b.
Proof.
  intros Hmn (r & d' & i & Hi & Hr & Hm). exists r, d', i. repeat split; try done.
  destruct r; try done. destruct Hm. split; [lia|done].
Qed.

Lemma good_step_decreases {D E} n (f : bytes -> Outcome (DecodeResult unit E * D * bytes)) d b d' b' :
  good_step n f d b -> f b = Return (Complete tt, d', b') -> length b' + n <= length b.
Proof.
  intros (r & d1 & i & Hi & Hr & Hm) Hf. rewrite Hf in Hr. injection Hr as <- <- ->.
  destruct Hm as [Hn _]. rewrite length_drop. lia.
Qed.

Section SharedSteps.
Context `{HeaderMapLaws} {D E : Type} `{!DecoderOps D} `{!DecodeErrors E}.

Lemma end_headers_good (d : D) rest :
  good_step 2 (end_headers (E:=E) d) d (CR :: LF :: rest).
Proof.
  unfold end_headers.
  destruct (typed_try_get ContentLength (builder_headers (set_state_body d))) as [[c|]|e] eqn:Et;
    [destruct (body_max_length (set_state_body d) <? content_length c)%N eqn:El|..].
  - eapply (good_step_Error _ _ _ _ 2); [cbn; lia|]. cbn. now rewrite ?Et, ?El.
  - eapply (good_step_Complete _ _ _ _ 2); [cbn; lia|done|]. intros k. cbn. now rewrite ?Et, ?El.
  - eapply (good_step_Complete _ _ _ _ 2); [cbn; lia|done|]. intros k. cbn. now rewrite ?Et.
  - eapply (good_step_Error _ _ _ _ 2); [cbn; lia|]. cbn. now rewrite ?Et.
Qed.

Lemma decode_field_good (d : D) name rest :
  good_step 3 (decode_field (E:=E) d name) d (name ++ ":"%byte :: rest).
Proof.
  assert (Hd : forall k, drop (length name + 1) ((name ++ ":"%byte :: rest) ++ k) = rest ++ k).
  { intros k. rewrite <- app_assoc. cbn. rewrite drop_app, drop_ge by lia.
    now replace (length name + 1 - length name) with 1 by lia. }
  assert (Hs : forall k, slice_from (length name + 1) ((name ++ ":"%byte :: rest) ++ k)
                         = Return (rest ++ k)).
  { intros k. rewrite slice_from_le by (rewrite !length_app; cbn; lia). now rewrite Hd. }
  pose proof (Hs []) as Hs0. rewrite !app_nil_r in Hs0.
  unfold decode_field.
  destruct (header_max_count d <=? values_len (builder_headers d))%N eqn:Ec.
  { eapply good_step_Error0. now rewrite ?Ec. }
  destruct (decode_header_value_cases (E:=E) d rest)
    as [(v & x & rest' & Er & Hx & _ & Hv & Hk)|[Hv|Hv]].
  2: { apply good_step_Incomplete. rewrite ?Ec, Hs0. cbn. now rewrite Hv. }
  2: { eapply good_step_Error0. rewrite ?Ec, Hs0. cbn. now rewrite Hv. }
  destruct (HeaderName.try_from (trim_header_name name)) as [hn|e] eqn:En.
  2: { eapply good_step_Error0. rewrite ?Ec, Hs0. cbn. rewrite Hv. cbn. now rewrite ?En. }
  destruct (HeaderValue.try_from (trim_header_value v)) as [hv|e] eqn:Ev.
  2: { eapply good_step_Error0. rewrite ?Ec, Hs0. cbn. rewrite Hv. cbn. now rewrite ?En, Ev. }
  assert (Hlen : length v + 3 <= length rest) by (rewrite Er, length_app; cbn; lia).
  apply (good_step_Complete _ _ _ _ (length name + 1 + (length v + 2)) (builder_header hn hv d)).
  - rewrite length_app. cbn. lia.
  - lia.
  - intros k. rewrite ?Ec, Hs. cbn. rewrite Hk. cbn. rewrite ?En, Ev.
    rewrite slice_from_le by (rewrite length_app; lia). cbn. do 2 f_equal.
    pose proof (Hd []) as Hd0. rewrite !app_nil_r in Hd0.
    rewrite drop_app_le by lia. f_equal. rewrite <- Hd0 at 1. rewrite drop_drop. f_equal; lia.
Qed.

Lemma decode_header_good (d : D) b : good_step 2 (decode_header (E:=E) d) d b.
Proof.
  unfold decode_header.
  destruct (decode_header_name_cases (E:=E) d b) as [(rest & Eb & Hk)|[(name & rest & Eb & _ & _ & Hk)|[Hn|Hn]]].
  - pose proof (Hk []) as H0'. rewrite app_nil_r in H0'.
    destruct (end_headers_good d rest) as (r & d' & n & Hle & Hr & Hm). rewrite <- Eb in *.
    exists r, d', n. split; [done|]. rewrite H0'. cbn. split; [done|].
    destruct r; try done. destruct Hm as [? Hm]. split; [done|]. intros k. rewrite Hk. apply Hm.
  - pose proof (Hk []) as H0'. rewrite app_nil_r in H0'.
    destruct (decode_field_good d name rest) as (r & d' & n & Hle & Hr & Hm). rewrite <- Eb in *.
    exists r, d', n. split; [done|]. rewrite H0'. cbn. split; [done|].
    destruct r; try done. destruct Hm as [? Hm]. split; [lia|]. intros k. rewrite Hk. apply Hm.
  - apply good_step_Incomplete. now rewrite Hn.
  - eapply good_step_Error0. now rewrite Hn.
Qed.

Lemma decode_body_good (d : D) b : good_step 0 (decode_body (E:=E) d) d b.
Proof.
  unfold decode_body. cbv zeta. set (c := content_length (get_content_length d)).
  destruct (N.ltb_spec (len b) c) as [Hlt|Hge].
  - apply good_step_Incomplete. destruct (N.ltb_spec (len b) c); [done|lia].
  - assert (Hc : N.to_nat c <= length b) by (unfold len in Hge; lia).
    eapply (good_step_Complete _ _ _ _ (N.to_nat c)); [done|lia|]. intros k.
    destruct (N.ltb_spec (len (b ++ k)) c) as [Hlt|_].
    { unfold len in *. rewrite length_app in Hlt. lia. }
    now rewrite take_app_le, drop_app_le by done.
Qed.
End SharedSteps.

(** ** The grammar of header sections *)

(** The limits of a decoder on its headers. *)
Record Limits := mkLimits { l_count : N; l_name : N; l_value : N; l_body : N }.

(** The limits plus one fit in a [usize]. *)
Definition limits_ok (l : Limits) : Prop :=
  (l_name l + 1 < USIZE_MODULUS)%N /\ (l_value l + 1 < USIZE_MODULUS)%N.

(** The length of the body that the headers announce. *)
Definition body_length `{HeaderMapOps} (hm : HeaderMap) : option N :=
  match typed_try_get ContentLength hm with
  | Ok (Some c) => Some (content_length c)
  | Ok None => Some 0%N
  | Err _ => None
  end.

(** One header: [name] up to a colon, a value [v] up to the line break that no blank follows. *)
Definition HeaderLine (l : Limits) (name v : bytes) (hn : HeaderName) (hv : HeaderValue) : Prop :=
  ":"%byte ∉ name
  /\ (len name <= l_name l)%N /\ (len v <= l_value l)%N
  /\ HeaderName.try_from (trim_header_name name) = Ok hn
  /\ HeaderValue.try_from (trim_header_value v) = Ok hv.

(** [HeaderText l hm text hm']: reading the lines of [text], up to and with the empty line, turns
    the headers [hm] into [hm']. *)
Inductive HeaderText `{HeaderMapOps} (l : Limits) : HeaderMap -> bytes -> HeaderMap -> Prop :=
  | ht_end hm : HeaderText l hm CRLF hm
  | ht_field hm name v text hn hv hm' :
      HeaderLine l name v hn hv ->
      (values_len hm < l_count l)%N ->
      (forall x, head text = Some x -> is_space x = false) ->
      HeaderText l (map_append hn hv hm) text hm' ->
      HeaderText l hm (name ++ ":"%byte :: v ++ CRLF ++ text) hm'.

Lemma HeaderText_cons `{HeaderMapOps} l hm text hm' :
  HeaderText l hm text hm' -> exists x t, text = x :: t.
Proof.
  destruct 1 as [hm|hm name v text hn hv hm' Hl Hc Hs Ht]; [unfold CRLF; eauto|].
  destruct name; cbn; eauto.
Qed.

(** A valid value, trimmed or not, has no line break that a blank does not follow. *)
Lemma trim_header_value_folded v hv :
  HeaderValue.try_from (trim_header_value v) = Ok hv ->
  forall i, v !! i = Some CR -> exists y, v !! (i + 2) = Some y /\ is_space y = true.
Proof.
  intros Hv i Hi.
  pose proof (header_value_folded _ _ Hv) as Hf. revert Hf. unfold trim_header_value.
  set (start := if starts_with CRLF v then 2 else 0). set (n := count_blanks (drop start v)).
  assert (Hblank : forall (w : bytes) j, j < count_blanks w -> exists y, w !! j = Some y /\ is_space y = true).
  { induction w as [|b w IH]; intros j Hj; cbn in Hj; [lia|].
    destruct (is_space b) eqn:Eb; [|lia]. destruct j as [|j]; [now exists b|]. apply IH. lia. }
  destruct (starts_with CRLF v && (start + n =? 2)) eqn:Ew; intros Hf; [now apply Hf|].
  destruct (decide (start + n <= i)) as [Hle|Hgt].
  - destruct (Hf (i - (start + n))) as (y & Hy & Hs).
    { rewrite lookup_drop. now replace (start + n + (i - (start + n))) with i by lia. }
    exists y. rewrite lookup_drop in Hy.
    now replace (start + n + (i - (start + n) + 2)) with (i + 2) in Hy by lia.
  - destruct (decide (start <= i)) as [Hs|Hs].
    + destruct (Hblank (drop start v) (i - start)) as (y & Hy & Hy'); [unfold n in *; lia|].
      rewrite lookup_drop in Hy. replace (start + (i - start)) with i in Hy by lia.
      rewrite Hi in Hy. injection Hy as <-. discriminate.
    + destruct (starts_with CRLF v) eqn:Es; [|unfold start in Hs; lia].
      apply starts_with_CRLF in Es as [w ->].
      destruct i as [|[|i]]; [|discriminate Hi|unfold start in Hs; lia].
      unfold start in n. cbn [Nat.add andb] in Ew.
      destruct (Hblank w 0) as (y & Hy & Hs'); [|exists y; now split].
      change (drop 2 (CR :: LF :: w)) with w in n. apply Nat.eqb_neq in Ew. unfold start in Ew.
      unfold n in *. lia.
Qed.

(** What a completed header step did. *)
Section HeaderSteps.
Context `{HeaderMapLaws} {D E : Type} `{!DecoderOps D} `{!DecodeErrors E}.

Definition limits_of (d : D) : Limits :=
  mkLimits (header_max_count d) (header_name_max_length d) (header_value_max_length d)
    (body_max_length d).

(** A header, after which the next line starts with [x], was added. *)
Definition added_field (d : D) (b : bytes) (d' : D) (b' : bytes) : Prop :=
  exists name v x rest hn hv,
    b = name ++ ":"%byte :: v ++ CRLF ++ x :: rest /\ b' = x :: rest /\ is_space x = false
    /\ HeaderLine (limits_of d) name v hn hv
    /\ (values_len (builder_headers d) < header_max_count d)%N
    /\ d' = builder_header hn hv d.

(** The headers ended, and the content length of the body is the one they give. *)
Definition ended_headers (d : D) (b : bytes) (d' : D) (b' : bytes) : Prop :=
  exists c, b = CRLF ++ b' /\ d' = set_content_length c (set_state_body d)
    /\ body_length (builder_headers (set_state_body d)) = Some (content_length c)
    /\ (content_length c <= body_max_length (set_state_body d))%N.

Lemma decode_header_Complete (d : D) b d' b' :
  decode_header (E:=E) d b = Return (Complete tt, d', b') ->
  added_field d b d' b' \/ ended_headers d b d' b'.
Proof.
  unfold decode_header.
  destruct (decode_header_name_cases (E:=E) d b) as [(rest & Eb & Hk)|[(name & rest & Eb & Hln & Hcn & Hk)|[Hn|Hn]]];
    [..|rewrite Hn; discriminate|rewrite Hn; discriminate].
  - pose proof (Hk []) as Hk0. rewrite app_nil_r in Hk0. rewrite Hk0. subst b. intros Hend. right.
    unfold ended_headers. revert Hend. unfold end_headers. cbn.
    unfold body_length. destruct (typed_try_get _ _) as [[c|]|] eqn:Et; [| |done].
    + destruct (N.ltb_spec (body_max_length (set_state_body d)) (content_length c)); [done|].
      intros [= <- <-]. eauto.
    + intros [= <- <-]. exists content_length_default. repeat split. cbn. lia.
  - pose proof (Hk []) as Hk0. rewrite app_nil_r in Hk0. rewrite Hk0. subst b. intros Hf. left.
    revert Hf. cbn. unfold decode_field.
    destruct (N.leb_spec (header_max_count d) (values_len (builder_headers d))); [done|].
    rewrite slice_from_le by (rewrite length_app; cbn; lia). cbn [outcome_bind].
    replace (drop (length name + 1) (name ++ ":"%byte :: rest)) with rest.
    2:{ rewrite drop_app, drop_ge by lia. now replace (length name + 1 - length name) with 1 by lia. }
    destruct (decode_header_value_cases (E:=E) d rest)
      as [(v & x & rest' & Er & Hx & Hlv & Hv & _)|[Hv|Hv]]; rewrite Hv; [|discriminate|discriminate].
    cbn. destruct (HeaderName.try_from _) as [hn|e] eqn:En; [|done].
    destruct (HeaderValue.try_from _) as [hv|e] eqn:Ev; [|done].
    rewrite slice_from_le by (rewrite Er, length_app; cbn; lia). cbn. intros [= <- <-].
    exists name, v, x, rest', hn, hv. subst rest. repeat split; try done.
    change (v ++ CR :: LF :: x :: rest') with (v ++ CRLF ++ x :: rest').
    rewrite drop_app, drop_ge by lia. now replace (length v + 2 - length v) with 2 by lia.
Qed.

(** A header name in a buffer does not start like the empty line. *)
Lemma header_name_no_CRLF name hn rest :
  HeaderName.try_from (trim_header_name name) = Ok hn -> starts_with CRLF (name ++ rest) = false.
Proof.
  intros Hn. apply not_true_is_false. intros [rest' Hr]%starts_with_CRLF.
  destruct (trim_header_name_spec name) as (blanks & Eb & _).
  apply try_from_Ok in Hn as (Hwf & Hl & _). destruct (wf_as_str hn Hwf) as (_ & _ & Ht & _).
  rewrite <- Hl, is_token_lowercase in Ht.
  destruct (trim_header_name name) as [|b t]; [discriminate|].
  rewrite Eb in Hr. cbn in Hr. injection Hr as -> _. discriminate Ht.
Qed.

Lemma header_line_complete (d : D) name v x rest hn hv :
  limits_ok (limits_of d) -> HeaderLine (limits_of d) name v hn hv ->
  (values_len (builder_headers d) < header_max_count d)%N -> is_space x = false ->
  decode_header (E:=E) d (name ++ ":"%byte :: v ++ CRLF ++ x :: rest)
  = Return (Complete tt, builder_header hn hv d, x :: rest).
Proof.
  intros [Hl1 Hl2] (Hc & Hln & Hlv & Hn & Hv) Hcount Hx. cbn in Hl1, Hl2, Hln, Hlv.
  unfold decode_header, decode_header_name. rewrite (header_name_no_CRLF _ hn) by done. cbv zeta.
  rewrite position_word;
    [|done|rewrite usize_add_small by done; unfold len in Hln; lia].
  rewrite slice_to_le, take_app_length by (rewrite length_app; lia). cbn [outcome_bind].
  unfold decode_field. destruct (N.leb_spec (header_max_count d) (values_len (builder_headers d))); [lia|].
  rewrite slice_from_le by (rewrite length_app; cbn; lia). cbn [outcome_bind].
  rewrite drop_app_add.
  change (drop 1 (":"%byte :: v ++ CRLF ++ x :: rest)) with (v ++ CRLF ++ x :: rest).
  rewrite (decode_header_value_complete d v x rest (trim_header_value_folded v hv Hv)) by done.
  cbn [outcome_bind]. rewrite Hn, Hv. rewrite slice_from_le by (rewrite !length_app; cbn; lia).
  cbn [outcome_bind]. now rewrite drop_app_add.
Qed.

Lemma end_headers_complete (d : D) rest n :
  body_length (builder_headers (set_state_body d)) = Some n ->
  (n <= body_max_length (set_state_body d))%N ->
  exists c, content_length c = n
    /\ decode_header (E:=E) d (CRLF ++ rest)
       = Return (Complete tt, set_content_length c (set_state_body d), rest).
Proof.
  intros Hb Hn. unfold decode_header, decode_header_name.
  rewrite (proj2 (starts_with_CRLF _)) by now exists rest. cbn [outcome_bind].
  unfold end_headers. rewrite slice_from_le by (cbn; lia). cbn [outcome_bind app drop CRLF].
  unfold body_length in Hb. destruct (typed_try_get _ _) as [[c|]|]; [| |done]; injection Hb as <-.
  - exists c. split; [done|].
    now destruct (N.ltb_spec (body_max_length (set_state_body d)) (content_length c)); [lia|].
  - now exists content_length_default.
Qed.

Lemma decode_header_decreases (d : D) b d' b' :
  decode_header (E:=E) d b = Return (Complete tt, d', b') -> length b' + 2 <= length b.
Proof.
  intros [(name & v & x & rest & hn & hv & -> & -> & _)|(c & -> & _)]%decode_header_Complete.
  - rewrite length_app. cbn. rewrite length_app. cbn. lia.
  - cbn. lia.
Qed.

Lemma decode_body_Complete (d : D) b d' b' :
  decode_body (E:=E) d b = Return (Complete tt, d', b') ->
  exists body, b = body ++ b' /\ len body = content_length (get_content_length d)
    /\ d' = builder_body body (set_state_end d).
Proof.
  unfold decode_body.
  destruct (N.ltb_spec (len b) (content_length (get_content_length d))); [done|].
  intros [= <- <-]. eexists. split; [symmetry; apply take_drop|]. split; [|done].
  unfold len in *. rewrite length_take. lia.
Qed.
End HeaderSteps.

(** ** The loop of [Decoder::decode] *)

(** What the [match self.state] of the loop distinguishes: a state with a decoding function, the
    [End] state, and the [Error] state. *)
Inductive Stage (E : Type) := InProgress | AtEnd | Failed (error : E).
Arguments InProgress {E}.
Arguments AtEnd {E}.
Arguments Failed {E} error.

Class LoopOps (D R E : Type) := {
  stage : D -> Stage E;
  (** The decoding function of the current state. *)
  step : D -> bytes -> Outcome (DecodeResult unit E * D * bytes);
  (** The branch for [End]: the message and the decoder ready for the next one. *)
  finish : D -> Outcome (R * D);
  (** [self.state = DecodeState::Error(error)]. *)
  set_error : E -> D -> D;
}.

Section Loop.
Context {D R E : Type} `{!LoopOps D R E}.

(** The loop; the last component of the result is the number of bytes decoded. *)
Fixpoint decode_loop (fuel buffer_size : nat) (d : D) (buffer : bytes) :
    option (Outcome (DecodeResult R E * D * nat)) :=
  match fuel with
  | O => None
  | S fuel =>
      match stage d with
      | AtEnd =>
          Some (let! r := finish d in
                Return (Complete r.1, r.2, buffer_size - length buffer))
      | Failed error => Some (Return (Error error, d, 0))
      | InProgress =>
          match step d buffer with
          | Panic => Some Panic
          | Return (Complete _, d, buffer) => decode_loop fuel buffer_size d buffer
          | Return (Error error, d, buffer) =>
              Some (Return (Error error, set_error error d, buffer_size - length buffer))
          | Return (Incomplete, d, buffer) =>
              Some (Return (Incomplete, d, buffer_size - length buffer))
          end
      end
  end.

(** [Decoder::decode]. Every iteration but one shortens the buffer, so the fuel is enough. *)
Definition decode (d : D) (buffer : bytes) : Outcome (DecodeResult R E * D * nat) :=
  match decode_loop (length buffer + 2) (length buffer) d buffer with
  | Some o => o
  | None => Panic
  end.
End Loop.

(** What the states of a decoder promise. [inv] says that the parts of the message decoded so far
    are in the builder; [rank] is one for the states that may complete on an empty buffer. *)
Class StepLaws {D R E : Type} `{!LoopOps D R E} (inv : D -> Prop) (rank : D -> nat) : Prop := {
  rank_le d : rank d <= 1;
  step_good d b : stage d = InProgress -> good_step 0 (step d) d b;
  step_decreases d b d' b' :
    stage d = InProgress -> step d b = Return (Complete tt, d', b') ->
    rank d' + length b' < rank d + length b;
  step_inv d b d' b' :
    inv d -> stage d = InProgress -> step d b = Return (Complete tt, d', b') ->
    inv d' /\ forall e, stage d' <> Failed e;
  error_stage d e : inv (set_error e d) /\ stage (set_error e d) = Failed e;
  finish_inv d :
    inv d -> stage d = AtEnd -> exists r d', finish d = Return (r, d') /\ inv d' /\ stage d' = InProgress;
}.

(** Adding to the number of bytes decoded. *)
Definition shift {A B} (n : nat) (o : Outcome (A * B * nat)) : Outcome (A * B * nat) :=
  match o with
  | Return (a, b, m) => Return (a, b, n + m)
  | Panic => Panic
  end.

Section LoopSpec.
Context {D R E : Type} `{!LoopOps D R E} {inv : D -> Prop} {rank : D -> nat} `{!StepLaws inv rank}.

Lemma step_cases d b :
  stage d = InProgress ->
  (exists d' n, n <= length b /\ step d b = Return (Complete tt, d', drop n b)
     /\ (forall k, step d (b ++ k) = Return (Complete tt, d', drop n b ++ k)))
  \/ (exists e d' n, n <= length b /\ step d b = Return (Error e, d', drop n b))
  \/ step d b = Return (Incomplete, d, b).
Proof.
  intros Hd. destruct (step_good d b Hd) as ([[]|e|] & d' & n & Hn & Hs & Hm).
  - left. exists d', n. destruct Hm as [_ Hm]. auto.
  - right. left. eauto.
  - right. right. destruct Hm as [-> ->]. exact Hs.
Qed.

Lemma decode_loop_shift fuel N d b :
  inv d -> (forall e, stage d <> Failed e) -> length b <= N ->
  decode_loop fuel N d b = shift (N - length b) <$> decode_loop fuel (length b) d b.
Proof.
  intros Hi Hf. revert N d b Hi Hf. induction fuel as [|fuel IH]; intros N d b Hi Hf HN; [done|].
  cbn [decode_loop]. destruct (stage d) as [| |e] eqn:Es; [| |now destruct (Hf e)].
  - destruct (step_cases d b Es) as [(d' & n & Hn & Hs & _)|[(e & d' & n & Hn & Hs)|Hs]]; rewrite Hs.
    + destruct (step_inv _ _ _ _ Hi Es Hs) as [Hi' Hf'].
      rewrite (IH N), (IH (length b)) by (try done; rewrite length_drop; lia).
      rewrite <- option_fmap_compose. apply option_fmap_ext. intros [[[r d''] m]|]; [|done].
      cbn. do 2 f_equal. rewrite length_drop. lia.
    + cbn. do 2 f_equal. rewrite length_drop. f_equal. lia.
    + cbn. do 3 f_equal. lia.
  - destruct (finish d) as [[r d']|]; [|done]. cbn. do 3 f_equal. lia.
Qed.

Lemma decode_loop_fuel fuel N d b :
  rank d + length b < fuel -> exists o, forall fuel', fuel <= fuel' -> decode_loop fuel' N d b = Some o.
Proof.
  revert d b. induction fuel as [|fuel IH]; intros d b Hf; [lia|].
  destruct (stage d) as [| |e] eqn:Es.
  - destruct (step_cases d b Es) as [(d' & n & Hn & Hs & _)|[(e & d' & n & Hn & Hs)|Hs]].
    + pose proof (step_decreases _ _ _ _ Es Hs).
      destruct (IH d' (drop n b)) as [o Ho]; [lia|]. exists o. intros [|fuel'] Hle; [lia|].
      cbn. rewrite Es, Hs. apply Ho. lia.
    + eexists. intros [|fuel'] Hle; [lia|]. cbn. rewrite Es, Hs. reflexivity.
    + eexists. intros [|fuel'] Hle; [lia|]. cbn. rewrite Es, Hs. reflexivity.
  - eexists. intros [|fuel'] Hle; [lia|]. cbn. rewrite Es. reflexivity.
  - eexists. intros [|fuel'] Hle; [lia|]. cbn. rewrite Es. reflexivity.
Qed.

(** The loop without its fuel. *)
Lemma decode_unfold d b :
  inv d ->
  decode d b
  = match stage d with
    | AtEnd => let! r := finish d in Return (Complete r.1, r.2, 0)
    | Failed error => Return (Error error, d, 0)
    | InProgress =>
        match step d b with
        | Panic => Panic
        | Return (Complete _, d', b') => shift (length b - length b') (decode d' b')
        | Return (Error error, d', b') =>
            Return (Error error, set_error error d', length b - length b')
        | Return (Incomplete, d', b') => Return (Incomplete, d', length b - length b')
        end
    end.
Proof.
  intros Hi. unfold decode. replace (length b + 2) with (S (length b + 1)) by lia.
  cbn [decode_loop]. destruct (stage d) as [| |e] eqn:Es; [|now rewrite Nat.sub_diag|done].
  destruct (step_cases d b Es) as [(d' & n & Hn & Hs & _)|[(e & d' & n & Hn & Hs)|Hs]]; rewrite Hs;
    [|done..].
  destruct (step_inv _ _ _ _ Hi Es Hs) as [Hi' Hf'].
  pose proof (step_decreases _ _ _ _ Es Hs) as Hdec. pose proof (rank_le d) as Hr.
  pose proof (rank_le d') as Hr'.
  rewrite decode_loop_shift by (try done; rewrite length_drop; lia).
  destruct (decode_loop_fuel (S (rank d' + length (drop n b))) (length (drop n b)) d' (drop n b)) as [o Ho];
    [lia|].
  rewrite !Ho by lia. now destruct o as [[[? ?] ?]|].
Qed.

(** Induction along the loop. *)
Lemma decode_ind (P : D -> bytes -> Prop) :
  (forall d b, inv d ->
     (forall d' n, stage d = InProgress -> n <= length b ->
        step d b = Return (Complete tt, d', drop n b) -> P d' (drop n b)) -> P d b) ->
  forall d b, inv d -> P d b.
Proof.
  intros HP d b. remember (rank d + length b) as m eqn:Hm. revert d b Hm.
  induction m as [m IH] using lt_wf_ind. intros d b -> Hi. apply HP; [done|].
  intros d' n Hs Hn Hst. pose proof (step_decreases _ _ _ _ Hs Hst).
  apply (IH (rank d' + length (drop n b))); [lia|done|]. now apply (step_inv _ _ _ _ Hi Hs Hst).
Qed.

(** [decode] never panics, the count it returns is within the buffer and the invariant is kept. *)
Lemma decode_total d b :
  inv d -> exists r d' n, decode d b = Return (r, d', n) /\ n <= length b /\ inv d'
             /\ match r with
                | Complete _ => stage d' = InProgress
                | Error e => stage d' = Failed e
                | Incomplete => stage d' = InProgress /\ step d' (drop n b) = Return (Incomplete, d', drop n b)
                end.
Proof.
  intros Hi. revert d b Hi. apply (decode_ind (fun d b => _)). intros d b Hi IH.
  rewrite decode_unfold by done. destruct (stage d) as [| |e] eqn:Es.
  - destruct (step_cases d b Es) as [(d' & n & Hn & Hs & _)|[(e & d' & n & Hn & Hs)|Hs]]; rewrite Hs.
    + destruct (IH d' n eq_refl Hn Hs) as (r & d'' & m & -> & Hm & Hi' & Hr). cbn.
      rewrite length_drop in *. exists r, d'', (length b - (length b - n) + m).
      split; [done|]. split; [lia|]. split; [done|]. destruct r; try done.
      rewrite drop_drop in Hr. now replace (length b - (length b - n) + m) with (n + m) by lia.
    + rewrite length_drop. eexists _, _, _. split; [done|]. split; [lia|]. apply error_stage.
    + rewrite Nat.sub_diag. eexists _, _, _. split; [done|]. split; [lia|]. now rewrite drop_0.
  - destruct (finish_inv d Hi Es) as (r & d' & -> & Hi' & Hs'). cbn.
    eexists _, _, _. split; [done|]. split; [lia|]. done.
  - eexists _, _, _. split; [done|]. split; [lia|]. done.
Qed.

(** Feeding the data in two pieces. *)
Lemma decode_app d b k r d' n :
  inv d -> decode d b = Return (r, d', n) ->
  match r with
  | Complete _ => decode d (b ++ k) = Return (r, d', n)
  | Incomplete => decode d (b ++ k) = shift n (decode d' (drop n b ++ k))
  | Error _ => True
  end.
Proof.
  intros Hi. revert r d' n. pattern d, b. revert d b Hi. apply decode_ind.
  intros d b Hi IH r d' n. rewrite !(decode_unfold d) by done.
  destruct (stage d) as [| |e] eqn:Es.
  - destruct (step_cases d b Es) as [(d1 & m & Hm & Hs & Hk)|[(e & d1 & m & Hm & Hs)|Hs]]; rewrite Hs.
    + destruct (step_inv _ _ _ _ Hi Es Hs) as [Hi1 _].
      specialize (IH d1 m eq_refl Hm Hs). rewrite (Hk k).
      destruct (decode d1 (drop m b)) as [[[r1 d2] n1]|] eqn:E1; [|done]. cbn.
      intros [= <- <- <-]. specialize (IH _ _ _ eq_refl).
      rewrite !length_app, !length_drop.
      replace (length b + length k - (length b - m + length k)) with m by lia.
      replace (length b - (length b - m)) with m by lia.
      destruct r1; [now rewrite IH|done|]. rewrite IH.
      replace (drop (m + n1) b) with (drop n1 (drop m b)) by (rewrite drop_drop; f_equal; lia).
      destruct (decode d2 _) as [[[? ?] ?]|]; [|done]. cbn. do 2 f_equal. lia.
    + now intros [= <- <- <-].
    + intros [= <- <- <-]. rewrite Nat.sub_diag, drop_0, (decode_unfold d) by done.
      rewrite Es. destruct (step_cases d (b ++ k) Es)
        as [(d1 & m & Hm & Hs' & Hk)|[(e & d1 & m & Hm & Hs')|Hs']]; rewrite Hs'; [|done..].
      now destruct (decode d1 _) as [[[? ?] ?]|].
  - destruct (finish d) as [[x d1]|]; [|done]. cbn. now intros [= <- <- <-].
  - now intros [= <- <- <-].
Qed.
End LoopSpec.

(** ** Data that arrives in pieces *)

Section Feed.
Context {D R E : Type} `{!LoopOps D R E}.

(** A caller that keeps the bytes not decoded, appends every piece that arrives to them and decodes
    again while the decoder asks for more. *)
Fixpoint feed (d : D) (buffer : bytes) (pieces : list bytes) :
    Outcome (DecodeResult R E * D * nat) :=
  match pieces with
  | [] => decode d buffer
  | piece :: pieces =>
      match decode d buffer with
      | Return (Incomplete, d', n) => shift n (feed d' (drop n buffer ++ piece) pieces)
      | o => o
      end
  end.

Context {inv : D -> Prop} {rank : D -> nat} `{!StepLaws inv rank}.

Lemma feed_concat d b pieces r d' n :
  inv d -> feed d b pieces = Return (r, d', n) -> is_error r = false ->
  decode d (b ++ concat pieces) = Return (r, d', n).
Proof.
  revert d b r d' n. induction pieces as [|piece pieces IH]; intros d b r d' n Hi Hf Hr.
  - cbn in *. now rewrite app_nil_r.
  - cbn [feed concat] in *.
    destruct (decode_total d b Hi) as (r1 & d1 & n1 & E1 & Hn1 & Hi1 & _). rewrite E1 in Hf.
    pose proof (decode_app d b (piece ++ concat pieces) _ _ _ Hi E1) as Happ.
    destruct r1 as [v|e|].
    + now injection Hf as <- <- <-.
    + injection Hf as <- <- <-. discriminate.
    + rewrite Happ, app_assoc.
      destruct (feed d1 (drop n1 b ++ piece) pieces) as [[[r2 d2] n2]|] eqn:E2; [|done].
      injection Hf as -> -> <-. now rewrite (IH _ _ _ _ _ Hi1 E2 Hr).
Qed.

(** Decoding pieces is total too. *)
Lemma feed_total d b pieces :
  inv d -> exists r d' n, feed d b pieces = Return (r, d', n) /\ inv d'.
Proof.
  revert d b. induction pieces as [|piece pieces IH]; intros d b Hi; cbn [feed];
    destruct (decode_total d b Hi) as (r1 & d1 & n1 & E1 & Hn1 & Hi1 & _); rewrite E1; [eauto|].
  destruct r1; [eauto..|].
  destruct (IH d1 (drop n1 b ++ piece) Hi1) as (r & d' & n & -> & Hi'). cbn. eauto.
Qed.
End Feed.


(** ** Properties *)

(** The limit on a header value depends on how the data is cut. A line whose value has exactly the
    maximum length is decoded when the byte after its line break is there; when the data ends with
    the carriage return, the same value is refused as too long, although it is not. *)
Theorem header_value_limit `{HeaderMapOps} {D E : Type} `{!DecoderOps D} `{!DecodeErrors E}
    (d : D) v x rest :
  Forall (fun b => b <> CR) v -> len v = header_value_max_length d ->
  (header_value_max_length d + 1 < USIZE_MODULUS)%N -> is_space x = false ->
  decode_header_value (E:=E) d (v ++ CR :: LF :: x :: rest) = Return (Complete v)
  /\ decode_header_value (E:=E) d (v ++ [CR]) = Return (Error HeaderValueTooLong).
Proof.
  intros Hv Hl Hmax Hx. split; [|now apply decode_header_value_at_limit].
  apply decode_header_value_complete; [|done|lia|done].
  intros i Hi. rewrite Forall_lookup in Hv. now destruct (Hv _ _ Hi).
Qed.
