(* ===== verification/RequestDecoder.v ===== *)
(** * The request decoder

    Model of [rtsp-2/src/protocol/codec/decoder/request.rs]: the incremental decoder of requests,
    its states, limits and errors. *)

From Stdlib Require Import Strings.Byte.
From stdpp Require Import base list numbers strings.
From S2P Require Import Prelude Text Syntax Version Method HeaderName HeaderValue HeaderMap.
From S2P Require Import ContentLength Request Decoder.

Local Open Scope nat_scope.
Local Open Scope rust_scope.

(** [Config], with the names of its accessors. *)
Record Config := mkConfig {
  c_body_max_length : N;
  c_header_max_count : N;
  c_header_name_max_length : N;
  c_header_value_max_length : N;
  c_method_max_length : N;
  c_uri_max_length : N;
}.

(** [ConfigBuilder], which has the same fields; the setters, which [with_...] call too. *)
Record ConfigBuilder := mkConfigBuilder { building : Config }.

Definition config_builder_new : ConfigBuilder := mkConfigBuilder {|
  c_body_max_length := BODY_DEFAULT_MAX_LENGTH;
  c_header_max_count := HEADER_DEFAULT_MAX_COUNT;
  c_header_name_max_length := HEADER_NAME_DEFAULT_MAX_LENGTH;
  c_header_value_max_length := HEADER_VALUE_DEFAULT_MAX_LENGTH;
  c_method_max_length := METHOD_DEFAULT_MAX_LENGTH;
  c_uri_max_length := URI_DEFAULT_MAX_LENGTH;
|}.

Definition config_build (self : ConfigBuilder) : Config := building self.

Definition with_body_max_length (length : N) (self : ConfigBuilder) : ConfigBuilder :=
  let c := building self in
  mkConfigBuilder (mkConfig length (c_header_max_count c) (c_header_name_max_length c)
    (c_header_value_max_length c) (c_method_max_length c) (c_uri_max_length c)).
Definition with_header_max_count (length : N) (self : ConfigBuilder) : ConfigBuilder :=
  let c := building self in
  mkConfigBuilder (mkConfig (c_body_max_length c) length (c_header_name_max_length c)
    (c_header_value_max_length c) (c_method_max_length c) (c_uri_max_length c)).
Definition with_header_name_max_length (length : N) (self : ConfigBuilder) : ConfigBuilder :=
  let c := building self in
  mkConfigBuilder (mkConfig (c_body_max_length c) (c_header_max_count c) length
    (c_header_value_max_length c) (c_method_max_length c) (c_uri_max_length c)).
Definition with_header_value_max_length (length : N) (self : ConfigBuilder) : ConfigBuilder :=
  let c := building self in
  mkConfigBuilder (mkConfig (c_body_max_length c) (c_header_max_count c) (c_header_name_max_length c)
    length (c_method_max_length c) (c_uri_max_length c)).
Definition with_method_max_length (length : N) (self : ConfigBuilder) : ConfigBuilder :=
  let c := building self in
  mkConfigBuilder (mkConfig (c_body_max_length c) (c_header_max_count c) (c_header_name_max_length c)
    (c_header_value_max_length c) length (c_uri_max_length c)).
Definition with_uri_max_length (length : N) (self : ConfigBuilder) : ConfigBuilder :=
  let c := building self in
  mkConfigBuilder (mkConfig (c_body_max_length c) (c_header_max_count c) (c_header_name_max_length c)
    (c_header_value_max_length c) (c_method_max_length c) length).

(** The default of [Config]. *)
Definition config_default : Config := config_build config_builder_new.

Section RequestDecoder.
Context `{HeaderMapOps} `{URIOps}.

Inductive DecodeError :=
  | EBodyTooLong
  | EHeaderName (e : HeaderNameError)
  | EHeaderNameTooLong
  | EHeaderValue (e : HeaderValueError)
  | EHeaderValueTooLong
  | EInvalidContentLength
  | EMethod (e : MethodError)
  | EMethodTooLong
  | ETooManyHeaders
  | EURI (e : URIError)
  | EURITooLong
  | EUnsupportedVersion
  | EVersion (e : Version.DecodeError).

(** [DecodeState]. *)
Inductive DecodeState :=
  | SBody | SEnd | SError (e : DecodeError) | SHeader | SMethod | SURI | SVersion.

Record Decoder := mkDecoder {
  builder : Builder bytes;
  config : Config;
  content_length : ContentLength;
  state : DecodeState;
}.

Definition with_config (config : Config) : Decoder :=
  mkDecoder (new bytes) config content_length_default SMethod.

Definition decoder_new : Decoder := with_config config_default.

(** [Decoder::reset] keeps the configuration. *)
Definition reset (self : Decoder) : Decoder :=
  mkDecoder (new bytes) (config self) content_length_default SMethod.

Definition set_builder (b : Builder bytes) (self : Decoder) : Decoder :=
  mkDecoder b (config self) (content_length self) (state self).
Definition set_state (s : DecodeState) (self : Decoder) : Decoder :=
  mkDecoder (builder self) (config self) (content_length self) s.

#[export] Instance request_decode_errors : DecodeErrors DecodeError := {|
  BodyTooLong := EBodyTooLong;
  HeaderNameInvalid := EHeaderName;
  HeaderNameTooLong := EHeaderNameTooLong;
  HeaderValueInvalid := EHeaderValue;
  HeaderValueTooLong := EHeaderValueTooLong;
  InvalidContentLength := EInvalidContentLength;
  TooManyHeaders := ETooManyHeaders;
|}.

#[export] Instance request_decoder_ops : DecoderOps Decoder := {|
  body_max_length d := c_body_max_length (config d);
  header_max_count d := c_header_max_count (config d);
  header_name_max_length d := c_header_name_max_length (config d);
  header_value_max_length d := c_header_value_max_length (config d);
  builder_headers d := b_headers (builder d);
  builder_header name value d := set_builder (with_header name value (builder d)) d;
  builder_body body d := set_builder (with_body body (builder d)) d;
  get_content_length := content_length;
  set_content_length c d := mkDecoder (builder d) (config d) c (state d);
  set_state_body := set_state SBody;
  set_state_end := set_state SEnd;
|}.

(** ** The decoding functions of the states *)

Notation StepResult := (Outcome (DecodeResult unit DecodeError * Decoder * bytes)).

Definition decode_method (d : Decoder) (buffer : bytes) : StepResult :=
  let max_length := usize_add (c_method_max_length (config d)) 1 in
  match position (is_byte SP) (take (N.to_nat max_length) buffer) with
  | Some index =>
      let! value := slice_to index buffer in
      match Method.try_from value with
      | Ok method =>
          let d := set_state SURI (set_builder (with_method method (builder d)) d) in
          let! buffer := slice_from (index + 1) buffer in
          Return (Complete tt, d, buffer)
      | Err error => Return (Error (EMethod error), d, buffer)
      end
  | None =>
      if (max_length <=? len buffer)%N then Return (Error EMethodTooLong, d, buffer)
      else Return (Incomplete, d, buffer)
  end.

Definition decode_uri (d : Decoder) (buffer : bytes) : StepResult :=
  let max_length := usize_add (c_uri_max_length (config d)) 1 in
  match position (is_byte SP) (take (N.to_nat max_length) buffer) with
  | Some index =>
      let! value := slice_to index buffer in
      match uri_try_from value with
      | Ok uri =>
          let d := set_state SVersion (set_builder (with_uri uri (builder d)) d) in
          let! buffer := slice_from (index + 1) buffer in
          Return (Complete tt, d, buffer)
      | Err error => Return (Error (EURI error), d, buffer)
      end
  | None =>
      if (max_length <=? len buffer)%N then Return (Error EURITooLong, d, buffer)
      else Return (Incomplete, d, buffer)
  end.

Definition decode_version (d : Decoder) (buffer : bytes) : StepResult :=
  if length buffer <? 10 then Return (Incomplete, d, buffer)
  else if negb (bool_decide (take 2 (drop 8 buffer) = CRLF))
  then Return (Error (EVersion Invalid), d, buffer)
  else
    match Version.try_decode (take 8 buffer) with
    | Ok version =>
        if bool_decide (version = Rtsp2_0)
        then Return (Complete tt,
                     set_state SHeader (set_builder (with_version version (builder d)) d),
                     drop 10 buffer)
        else Return (Error EUnsupportedVersion, d, buffer)
    | Err error => Return (Error (EVersion error), d, buffer)
    end.

Definition request_decode_header (d : Decoder) (buffer : bytes) : StepResult :=
  decode_header d buffer.

Definition request_decode_body (d : Decoder) (buffer : bytes) : StepResult :=
  decode_body d buffer.

(** The [End] branch: [expect] on the result of [build]. *)
Definition finish_request (d : Decoder) : Outcome (Request bytes * Decoder) :=
  match build (builder d) with
  | Ok request => Return (request, set_state SMethod (set_builder (new bytes) d))
  | Err _ => Panic
  end.

(** The [match self.state] of [Decoder::decode]. *)
#[export] Instance request_loop_ops : LoopOps Decoder (Request bytes) DecodeError := {|
  stage d := match state d with
             | SEnd => AtEnd
             | SError e => Failed e
             | _ => InProgress
             end;
  step d := match state d with
            | SHeader => request_decode_header d
            | SMethod => decode_method d
            | SURI => decode_uri d
            | SVersion => decode_version d
            | _ => request_decode_body d
            end;
  finish := finish_request;
  set_error e := set_state (SError e);
|}.

Definition decode_request (d : Decoder) (buffer : bytes) :
    Outcome (DecodeResult (Request bytes) DecodeError * Decoder * nat) :=
  decode d buffer.
End RequestDecoder.

(** ** The decoder meets the promises of a decoder *)

Section RequestDecoderLaws.
Context `{HeaderMapLaws} `{URIOps}.

(** The parts of the request decoded before each state. *)
Definition request_inv (d : Decoder) : Prop :=
  match state d with
  | SError _ => True
  | SMethod => builder d = new bytes
  | SURI => b_method (builder d) <> None
  | SVersion => b_method (builder d) <> None /\ b_uri (builder d) <> None
  | SHeader | SBody =>
      b_method (builder d) <> None /\ b_uri (builder d) <> None
      /\ b_version (builder d) = Rtsp2_0
  | SEnd =>
      b_method (builder d) <> None /\ b_uri (builder d) <> None
      /\ b_version (builder d) = Rtsp2_0 /\ b_body (builder d) <> None
  end.

Definition request_rank (d : Decoder) : nat := match state d with SBody => 1 | _ => 0 end.

(** The common shape of [decode_method] and [decode_uri]: a word that ends at a space. *)
Lemma word_good {A Err} (parse : bytes -> Result A Err) (set : A -> Decoder -> Decoder)
    (on_error : Err -> DecodeError) (too_long : DecodeError) (max_length : N) d b :
  good_step 1 (fun buffer =>
    match position (is_byte SP) (take (N.to_nat max_length) buffer) with
    | Some index =>
        let! value := slice_to index buffer in
        match parse value with
        | Ok a =>
            let! buffer := slice_from (index + 1) buffer in
            Return (Complete tt, set a d, buffer)
        | Err error => Return (Error (on_error error), d, buffer)
        end
    | None =>
        if (max_length <=? len buffer)%N then Return (Error too_long, d, buffer)
        else Return (Incomplete, d, buffer)
    end) d b.
Proof.
  destruct (position (is_byte SP) (take (N.to_nat max_length) b)) as [i|] eqn:Ep.
  - destruct (position_word_inv _ _ _ _ Ep) as (Hi & _).
    destruct (parse (take i b)) as [a|e] eqn:Ea.
    + apply (good_step_Complete _ _ _ _ (i + 1) (set a d)); [lia|lia|]. intros k.
      rewrite (position_take_app _ _ _ k _ Ep).
      rewrite slice_to_le by (rewrite length_app; lia). cbn [outcome_bind].
      rewrite take_app_le, Ea by lia. rewrite slice_from_le by (rewrite length_app; lia).
      cbn. now rewrite drop_app_le by lia.
    + eapply good_step_Error0. rewrite Ep, slice_to_le by lia. cbn. now rewrite Ea.
  - destruct (max_length <=? len b)%N eqn:El.
    + eapply good_step_Error0. now rewrite Ep, El.
    + apply good_step_Incomplete. now rewrite Ep, El.
Qed.

Lemma decode_version_good d b : good_step 1 (decode_version d) d b.
Proof.
  unfold decode_version. destruct (Nat.ltb_spec (length b) 10) as [Hlt|Hge].
  { apply good_step_Incomplete. now rewrite (proj2 (Nat.ltb_lt _ _)). }
  assert (Happ : forall k, (length (b ++ k) <? 10) = false /\ take 2 (drop 8 (b ++ k)) = take 2 (drop 8 b)
            /\ take 8 (b ++ k) = take 8 b /\ drop 10 (b ++ k) = drop 10 b ++ k).
  { intros k. rewrite length_app. split; [apply Nat.ltb_ge; lia|].
    rewrite !drop_app_le, !take_app_le by (rewrite ?length_drop; lia). done. }
  pose proof (Happ []) as Hb. rewrite !app_nil_r in Hb. destruct Hb as (Hb1 & _).
  destruct (bool_decide (take 2 (drop 8 b) = CRLF)) eqn:Ec.
  2:{ eapply good_step_Error0. now rewrite Hb1, Ec. }
  destruct (Version.try_decode (take 8 b)) as [v|e] eqn:Ev.
  2:{ eapply good_step_Error0. now rewrite Hb1, Ec, Ev. }
  destruct (bool_decide (v = Rtsp2_0)) eqn:E2.
  2:{ eapply good_step_Error0. now rewrite Hb1, Ec, Ev, E2. }
  eapply (good_step_Complete _ _ _ _ 10); [lia|lia|]. intros k.
  destruct (Happ k) as (-> & -> & -> & ->). now rewrite Ec, Ev, E2.
Qed.

Lemma request_step_good d b :
  stage d = InProgress -> good_step (1 - request_rank d) (step d) d b.
Proof.
  unfold request_rank. cbn [stage step request_loop_ops]. intros Hs. destruct (state d); try done.
  - apply decode_body_good.
  - apply (good_step_weaken _ 2); [lia|apply decode_header_good].
  - apply word_good with (set := fun m d => set_state SURI (set_builder (with_method m (builder d)) d)).
  - apply word_good with (set := fun u d => set_state SVersion (set_builder (with_uri u (builder d)) d)).
  - apply decode_version_good.
Qed.
(** What the completed steps did. *)
Lemma decode_method_Complete d b d' b' :
  decode_method d b = Return (Complete tt, d', b') ->
  exists w m, b = w ++ SP :: b' /\ Method.try_from w = Ok m
    /\ SP ∉ w /\ (len w <= c_method_max_length (config d))%N
    /\ d' = set_state SURI (set_builder (with_method m (builder d)) d).
Proof.
  unfold decode_method.
  destruct (position (is_byte SP) _) as [i|] eqn:Ep; [|now destruct (_ <=? _)%N].
  destruct (position_word_inv _ _ _ _ Ep) as (Hi & Hin & Hb & Hc). rewrite slice_to_le by lia. cbn.
  destruct (Method.try_from (take i b)) as [m|e] eqn:Em; [|done].
  rewrite slice_from_le by lia. cbn. intros [= <- <-]. exists (take i b), m.
  repeat split; try done; [now replace (i + 1) with (S i) by lia|].
  apply limit_index in Hin. unfold len. rewrite length_take. lia.
Qed.

Lemma decode_uri_Complete d b d' b' :
  decode_uri d b = Return (Complete tt, d', b') ->
  exists w u, b = w ++ SP :: b' /\ uri_try_from w = Ok u
    /\ SP ∉ w /\ (len w <= c_uri_max_length (config d))%N
    /\ d' = set_state SVersion (set_builder (with_uri u (builder d)) d).
Proof.
  unfold decode_uri.
  destruct (position (is_byte SP) _) as [i|] eqn:Ep; [|now destruct (_ <=? _)%N].
  destruct (position_word_inv _ _ _ _ Ep) as (Hi & Hin & Hb & Hc). rewrite slice_to_le by lia. cbn.
  destruct (uri_try_from (take i b)) as [u|e] eqn:Eu; [|done].
  rewrite slice_from_le by lia. cbn. intros [= <- <-]. exists (take i b), u.
  repeat split; try done; [now replace (i + 1) with (S i) by lia|].
  apply limit_index in Hin. unfold len. rewrite length_take. lia.
Qed.

Lemma decode_version_Complete d b d' b' :
  decode_version d b = Return (Complete tt, d', b') ->
  exists w, b = w ++ CRLF ++ b' /\ length w = 8 /\ Version.try_decode w = Ok Rtsp2_0
    /\ d' = set_state SHeader (set_builder (with_version Rtsp2_0 (builder d)) d).
Proof.
  unfold decode_version. destruct (Nat.ltb_spec (length b) 10); [done|].
  destruct (decide (take 2 (drop 8 b) = CRLF)) as [Ec|Ec];
    [rewrite bool_decide_eq_true_2 by done|rewrite bool_decide_eq_false_2 by done; done].
  cbn [negb]. destruct (Version.try_decode (take 8 b)) as [v|e] eqn:Ev; [|done].
  destruct (decide (v = Rtsp2_0)) as [->|Hv];
    [rewrite bool_decide_eq_true_2 by done|rewrite bool_decide_eq_false_2 by done; done].
  intros [= <- <-]. exists (take 8 b). split; [|split; [rewrite length_take; lia|done]].
  rewrite <- Ec, <- (take_drop 8 b) at 1. f_equal.
  rewrite <- (take_drop 2 (drop 8 b)) at 1. now rewrite drop_drop.
Qed.

Lemma request_step_inv d b d' b' :
  request_inv d -> stage d = InProgress -> step d b = Return (Complete tt, d', b') ->
  request_inv d' /\ forall e, stage d' <> Failed e.
Proof.
  unfold request_inv. cbn [stage step request_loop_ops].
  destruct (state d) eqn:Es; try done; intros Hi _ Hs.
  - apply decode_body_Complete in Hs as (bo & _ & _ & ->). cbn. naive_solver.
  - apply decode_header_Complete in Hs as [(?&?&?&?&?&?&_&_&_&_&_&->)|(?&_&->&_)]; cbn;
      rewrite ?Es; naive_solver.
  - apply decode_method_Complete in Hs as (w & m & _ & _ & _ & _ & ->). cbn. naive_solver.
  - apply decode_uri_Complete in Hs as (w & u & _ & _ & _ & _ & ->). cbn. naive_solver.
  - apply decode_version_Complete in Hs as (w & _ & _ & _ & ->). cbn. naive_solver.
Qed.

Lemma request_step_decreases d b d' b' :
  stage d = InProgress -> step d b = Return (Complete tt, d', b') ->
  request_rank d' + length b' < request_rank d + length b.
Proof.
  intros Hst Hs. pose proof (good_step_decreases _ _ _ _ _ _ (request_step_good d b Hst) Hs) as Hd.
  unfold request_rank in *. cbn [stage step request_loop_ops] in *.
  destruct (state d) eqn:Es; try done.
  - apply decode_body_Complete in Hs as (bo & _ & _ & ->). cbn. lia.
  - apply decode_header_decreases in Hs. destruct (state d'); lia.
  - apply decode_method_Complete in Hs as (w & m & _ & _ & _ & _ & ->). cbn. lia.
  - apply decode_uri_Complete in Hs as (w & u & _ & _ & _ & _ & ->). cbn. lia.
  - apply decode_version_Complete in Hs as (w & _ & _ & _ & ->). cbn. lia.
Qed.

Lemma request_finish_inv d :
  request_inv d -> stage d = AtEnd ->
  exists r d', finish d = Return (r, d') /\ request_inv d' /\ stage d' = InProgress.
Proof.
  unfold request_inv. cbn [stage finish request_loop_ops]. destruct (state d) eqn:Es; try (intros ? ?; discriminate).
  intros (Hm & Hu & Hv & Hb) _. unfold finish_request, build.
  destruct (b_method (builder d)) as [m|]; [|done]. destruct (b_uri (builder d)) as [u|]; [|done].
  destruct (b_body (builder d)) as [bo|]; [|done]. rewrite Hv. cbn.
  eexists _, _. split; [done|]. split; done.
Qed.

#[export] Instance request_step_laws : StepLaws request_inv request_rank.
Proof.
  split.
  - intros d. unfold request_rank. destruct (state d); lia.
  - intros d b Hd. apply (good_step_weaken _ (1 - request_rank d)); [lia|].
    now apply request_step_good.
  - exact request_step_decreases.
  - exact request_step_inv.
  - intros d e. done.
  - exact request_finish_inv.
Qed.
End RequestDecoderLaws.

(** ** The grammar of requests *)

Definition request_limits (c : Config) : Limits :=
  mkLimits (c_header_max_count c) (c_header_name_max_length c) (c_header_value_max_length c)
    (c_body_max_length c).

(** The limits plus one fit in a [usize]. *)
Definition config_ok (c : Config) : Prop :=
  limits_ok (request_limits c)
  /\ (c_method_max_length c + 1 < USIZE_MODULUS)%N /\ (c_uri_max_length c + 1 < USIZE_MODULUS)%N.

Section Grammar.
Context `{HeaderMapLaws} `{URIOps}.

(** [RequestText c t r]: [t] is a text of the request [r] within the limits of [c]. *)
Inductive RequestText (c : Config) : bytes -> Request bytes -> Prop :=
  | request_text mw m uw u vw text hm bo :
      Method.try_from mw = Ok m -> SP ∉ mw -> (len mw <= c_method_max_length c)%N ->
      uri_try_from uw = Ok u -> SP ∉ uw -> (len uw <= c_uri_max_length c)%N ->
      length vw = 8 -> Version.try_decode vw = Ok Rtsp2_0 ->
      HeaderText (request_limits c) map_default text hm ->
      body_length hm = Some (len bo) -> (len bo <= c_body_max_length c)%N ->
      RequestText c (mw ++ SP :: uw ++ SP :: vw ++ CRLF ++ text ++ bo)
        (mkRequest bo hm m u Rtsp2_0).

(** What remains of the text in each state, when the parts before it are in the builder. *)
Definition rest_headers (c : Config) (b : Builder bytes) (t : bytes) (r : Request bytes) : Prop :=
  exists text hm bo,
    t = text ++ bo /\ HeaderText (request_limits c) (b_headers b) text hm
    /\ body_length hm = Some (len bo) /\ (len bo <= c_body_max_length c)%N
    /\ build (with_body bo (set_headers hm b)) = Ok r.

Definition rest_version c (b : Builder bytes) t r : Prop :=
  exists vw t', t = vw ++ CRLF ++ t' /\ length vw = 8 /\ Version.try_decode vw = Ok Rtsp2_0
    /\ rest_headers c (with_version Rtsp2_0 b) t' r.

Definition rest_uri c (b : Builder bytes) t r : Prop :=
  exists uw u t', t = uw ++ SP :: t' /\ uri_try_from uw = Ok u /\ SP ∉ uw
    /\ (len uw <= c_uri_max_length c)%N /\ rest_version c (with_uri u b) t' r.

Definition rest_method c (b : Builder bytes) t r : Prop :=
  exists mw m t', t = mw ++ SP :: t' /\ Method.try_from mw = Ok m /\ SP ∉ mw
    /\ (len mw <= c_method_max_length c)%N /\ rest_uri c (with_method m b) t' r.

Definition rest_of (d : Decoder) (t : bytes) (r : Request bytes) : Prop :=
  match state d with
  | SEnd => t = [] /\ build (builder d) = Ok r
  | SBody => len t = ContentLength.content_length (content_length d)
             /\ build (with_body t (builder d)) = Ok r
  | SHeader => rest_headers (config d) (builder d) t r
  | SVersion => rest_version (config d) (builder d) t r
  | SURI => rest_uri (config d) (builder d) t r
  | SMethod => rest_method (config d) (builder d) t r
  | SError _ => False
  end.

Lemma RequestText_rest c t r : RequestText c t r <-> rest_method c (new bytes) t r.
Proof.
  split.
  - intros [mw m uw u vw text hm bo]. exists mw, m. eexists. repeat split; try done.
    exists uw, u. eexists. repeat split; try done. exists vw. eexists. repeat split; try done.
    exists text, hm, bo. done.
  - intros (mw & m & ? & -> & ? & ? & ? & uw & u & ? & -> & ? & ? & ? & vw & ? & -> & ? & ? &
      text & hm & bo & -> & ? & ? & ? & [= <-]). now constructor.
Qed.

(** The state a decoder is in before a request: what [new], [reset] and a completed [decode]
    give. *)
Definition fresh (d : Decoder) : Prop := builder d = new bytes /\ state d = SMethod.

(** A text in front of what remains after a header. *)
Lemma rest_headers_field c b name v hn hv x rest' t r rest :
  HeaderLine (request_limits c) name v hn hv ->
  (values_len (b_headers b) < c_header_max_count c)%N -> is_space x = false ->
  t ++ rest = x :: rest' -> rest_headers c (with_header hn hv b) t r ->
  rest_headers c b (name ++ ":"%byte :: v ++ CRLF ++ t) r.
Proof.
  intros Hl Hc Hx Et (text & hm & bo & -> & Ht & Hbl & Hmax & Hb).
  exists (name ++ ":"%byte :: v ++ CRLF ++ text), hm, bo. split; [|split; [|done]].
  { rewrite <- !app_assoc. cbn. now rewrite <- !app_assoc. }
  apply (ht_field _ _ _ _ _ hn hv); try done.
  destruct (HeaderText_cons _ _ _ _ Ht) as (y & t' & ->).
  cbn in Et. injection Et as -> _. now intros y' [= <-].
Qed.

(** One step backwards: the text of a state is the piece the step read and the text of the state
    after it. *)
Lemma rest_step d b d1 t rest r :
  stage d = InProgress -> step d b = Return (Complete tt, d1, t ++ rest) -> rest_of d1 t r ->
  (exists t', b = t' ++ rest /\ rest_of d t' r) /\ config d1 = config d.
Proof.
  cbn [stage step request_loop_ops]. unfold rest_of at 2. destruct (state d) eqn:Est; try done;
    intros _ Hs Hrest.
  - apply decode_body_Complete in Hs as (bo & -> & Hbo & ->). destruct Hrest as [-> Hb].
    split; [|done]. exists bo. done.
  - apply decode_header_Complete in Hs
      as [(name & v & x & rest' & hn & hv & -> & Et & Hx & Hl & Hcount & ->)
         |(c & -> & -> & Hbl & Hmax)]; (split; [|done]).
    + unfold rest_of in Hrest. cbn in Hrest. rewrite Est in Hrest.
      exists (name ++ ":"%byte :: v ++ CRLF ++ t). rewrite <- Et. split.
      * rewrite <- app_assoc. cbn. now rewrite <- !app_assoc.
      * eapply (rest_headers_field _ _ _ _ hn hv x rest' _ _ rest); done.
    + destruct Hrest as [Hlen Hb]. exists (CRLF ++ t). split; [done|].
      exists CRLF, (b_headers (builder d)), t. split; [done|]. split; [constructor|].
      cbn in Hbl, Hmax, Hlen. rewrite Hlen. split; [done|]. split; [done|].
      cbn [set_content_length set_state_body request_decoder_ops set_state builder] in Hb.
      now destruct (builder d).
  - apply decode_method_Complete in Hs as (w & me & -> & Hw1 & Hw2 & Hw3 & ->).
    split; [|done]. exists (w ++ SP :: t). rewrite <- app_assoc. split; [done|]. exists w, me, t. done.
  - apply decode_uri_Complete in Hs as (w & u & -> & Hw1 & Hw2 & Hw3 & ->).
    split; [|done]. exists (w ++ SP :: t). rewrite <- app_assoc. split; [done|]. exists w, u, t. done.
  - apply decode_version_Complete in Hs as (w & -> & Hw1 & Hw2 & ->).
    split; [|done]. exists (w ++ CRLF ++ t). rewrite <- !app_assoc. split; [done|]. exists w, t. done.
Qed.

Lemma request_sound d b :
  request_inv d -> forall r d' n, decode_request d b = Return (Complete r, d', n) ->
  (exists t rest, b = t ++ rest /\ n = length t /\ rest_of d t r)
  /\ fresh d' /\ config d' = config d.
Proof.
  intros Hi. pattern d, b. revert d b Hi. apply (decode_ind (inv := request_inv)).
  intros d b Hi IH r d' n. unfold decode_request. rewrite decode_unfold by done.
  destruct (stage d) as [| |e] eqn:Es; [| |done].
  - destruct (step_cases d b Es) as [(d1 & m & Hm & Hs & _)|[(e & d1 & m & Hm & Hs)|Hs]];
      rewrite Hs; [|done..].
    specialize (IH d1 m eq_refl Hm Hs). unfold decode_request in IH.
    destruct (decode d1 (drop m b)) as [[[r1 d2] n1]|]; [|done]. cbn.
    intros [= -> -> <-]. specialize (IH r d' n1 eq_refl) as ((t & rest & Ebt & -> & Hrest) & Hf & Hc).
    rewrite Ebt in Hs |- *. destruct (rest_step d b d1 t rest r Es Hs Hrest) as [(t' & -> & Ht') Hc'].
    split; [|split; [done|congruence]]. exists t', rest. split; [done|]. split; [|done].
    pose proof (f_equal length Ebt) as Hlen. rewrite length_drop, !length_app in *. lia.
  - cbn in Es |- *. unfold finish_request, rest_of. destruct (state d) eqn:Est; try discriminate.
    destruct (build (builder d)) eqn:Eb; [|done]. cbn. intros [= <- <- <-].
    split; [|done]. exists [], b. done.
Qed.

(** ** Every text of the grammar is decoded *)

Lemma decode_step d b d1 b1 :
  request_inv d -> stage d = InProgress -> step d b = Return (Complete tt, d1, b1) ->
  decode_request d b = shift (length b - length b1) (decode_request d1 b1).
Proof. intros Hi Hs Hst. unfold decode_request. rewrite decode_unfold by done. now rewrite Hs, Hst. Qed.

Lemma decode_word {A Er} (parse : bytes -> Result A Er) w a rest max :
  parse w = Ok a -> SP ∉ w -> (len w <= max)%N -> (max + 1 < USIZE_MODULUS)%N ->
  position (is_byte SP) (take (N.to_nat (usize_add max 1)) (w ++ SP :: rest)) = Some (length w)
  /\ slice_to (length w) (w ++ SP :: rest) = Return w
  /\ slice_from (length w + 1) (w ++ SP :: rest) = Return rest.
Proof.
  intros Hp Hsp Hl Hmax. split; [|split].
  - apply position_word; [done|]. rewrite usize_add_small by done. unfold len in Hl. lia.
  - rewrite slice_to_le by (rewrite length_app; lia). now rewrite take_app_length.
  - rewrite slice_from_le by (rewrite length_app; cbn; lia). now rewrite drop_app_add.
Qed.

Lemma decode_version_complete d w rest :
  length w = 8 -> Version.try_decode w = Ok Rtsp2_0 ->
  decode_version d (w ++ CRLF ++ rest)
  = Return (Complete tt, set_state SHeader (set_builder (with_version Rtsp2_0 (builder d)) d), rest).
Proof.
  intros Hw Hv. unfold decode_version. rewrite length_app. cbn [length app CRLF].
  destruct (Nat.ltb_spec (length w + S (S (length rest))) 10); [lia|].
  replace (drop 8 (w ++ CR :: LF :: rest)) with (CR :: LF :: rest)
    by (rewrite <- Hw; now rewrite drop_app_length).
  replace (take 8 (w ++ CR :: LF :: rest)) with w by (rewrite <- Hw; now rewrite take_app_length).
  replace (drop 10 (w ++ CR :: LF :: rest)) with rest
    by (replace 10 with (length w + 2) by lia; now rewrite drop_app_add).
  rewrite bool_decide_eq_true_2 by reflexivity. cbn [negb]. rewrite Hv.
  now rewrite bool_decide_eq_true_2.
Qed.
Lemma decode_method_complete d w m rest :
  config_ok (config d) -> Method.try_from w = Ok m -> SP ∉ w ->
  (len w <= c_method_max_length (config d))%N ->
  decode_method d (w ++ SP :: rest)
  = Return (Complete tt, set_state SURI (set_builder (with_method m (builder d)) d), rest).
Proof.
  intros (_ & Hok & _) Hm Hsp Hl. destruct (decode_word _ w m rest _ Hm Hsp Hl Hok) as (E1 & E2 & E3).
  unfold decode_method. cbv zeta. rewrite E1, E2. cbn [outcome_bind]. rewrite Hm, E3. reflexivity.
Qed.

Lemma decode_uri_complete d w u rest :
  config_ok (config d) -> uri_try_from w = Ok u -> SP ∉ w ->
  (len w <= c_uri_max_length (config d))%N ->
  decode_uri d (w ++ SP :: rest)
  = Return (Complete tt, set_state SVersion (set_builder (with_uri u (builder d)) d), rest).
Proof.
  intros (_ & _ & Hok) Hu Hsp Hl. destruct (decode_word _ w u rest _ Hu Hsp Hl Hok) as (E1 & E2 & E3).
  unfold decode_uri. cbv zeta. rewrite E1, E2. cbn [outcome_bind]. rewrite Hu, E3. reflexivity.
Qed.

Lemma shift_shift {A B} m n (o : Outcome (A * B * nat)) : shift m (shift n o) = shift (m + n) o.
Proof. destruct o as [[[a b] i]|]; cbn; [|done]. do 2 f_equal. lia. Qed.

Lemma decode_header_step d b d1 b1 :
  request_inv d -> state d = SHeader ->
  decode_header (E:=DecodeError) d b = Return (Complete tt, d1, b1) ->
  decode_request d b = shift (length b - length b1) (decode_request d1 b1).
Proof. intros Hi Hst Hd. apply decode_step; [done|cbn; now rewrite Hst|]. cbn. now rewrite Hst. Qed.

(** Reading a header section from the [Header] state. *)
Lemma header_text_complete l hm text hm' :
  HeaderText l hm text hm' ->
  forall d k n, l = request_limits (config d) -> hm = b_headers (builder d) ->
  state d = SHeader -> config_ok (config d) -> request_inv d ->
  body_length hm' = Some n -> (n <= c_body_max_length (config d))%N ->
  exists c, ContentLength.content_length c = n
    /\ decode_request d (text ++ k)
       = shift (length text)
           (decode_request (mkDecoder (set_headers hm' (builder d)) (config d) c SBody) k).
Proof.
  induction 1 as [hm|hm name v text hn hv hm' Hl Hc Hs Ht IH];
    intros d k n El Eh Est Hok Hi Hbl Hmax; subst l hm.
  - destruct (end_headers_complete (E:=DecodeError) d k n) as (c & Hcn & Hd); [done|done|].
    exists c. split; [done|].
    rewrite (decode_header_step d _ _ _ Hi Est Hd).
    rewrite length_app. replace (length CRLF + length k - length k) with (length CRLF) by lia.
    f_equal. f_equal. unfold set_state_body. cbn. now destruct d as [[] ? ? ?].
  - destruct (HeaderText_cons _ _ _ _ Ht) as (x & t & ->). specialize (Hs x eq_refl).
    pose proof (header_line_complete (E:=DecodeError) d name v x (t ++ k) hn hv (proj1 Hok) Hl Hc Hs) as Hd.
    assert (Hi' : request_inv (builder_header hn hv d)).
    { unfold request_inv in *. cbn. rewrite Est in *. exact Hi. }
    destruct (IH (builder_header hn hv d) k n) as (c & Hcn & IHd); try done.
    exists c. split; [done|].
    replace ((name ++ ":"%byte :: v ++ CRLF ++ x :: t) ++ k)
      with (name ++ ":"%byte :: v ++ CRLF ++ x :: t ++ k)
      by (rewrite <- !app_assoc; cbn; now rewrite <- !app_assoc).
    rewrite (decode_header_step d _ _ _ Hi Est Hd).
    change (x :: t ++ k) with ((x :: t) ++ k). rewrite IHd, shift_shift. f_equal.
    length_lia.
Qed.

Lemma request_complete d t r :
  fresh d -> config_ok (config d) -> RequestText (config d) t r -> forall k,
  exists d', decode_request d (t ++ k) = Return (Complete r, d', length t).
Proof.
  intros [Hb Hst] Hok [mw m uw u vw text hm bo Hm Hmsp Hml Hu Husp Hul Hvl Hv Ht Hbl Hmax] k.
  assert (Hi : request_inv d) by (unfold request_inv; now rewrite Hst).
  rewrite <- !app_assoc. cbn [app]. rewrite <- !app_assoc. cbn [app].
  set (d1 := set_state SURI (set_builder (with_method m (builder d)) d)).
  rewrite (decode_step d _ d1 (uw ++ SP :: (vw ++ CRLF ++ text ++ bo) ++ k) Hi);
    [|cbn; now rewrite Hst|cbn; rewrite Hst; now apply decode_method_complete].
  rewrite (decode_step d1 _ _ _ ltac:(done) eq_refl (decode_uri_complete d1 _ _ _ Hok Hu Husp Hul)).
  set (d2 := set_state SVersion _).
  rewrite <- !app_assoc.
  rewrite (decode_step d2 _ _ _ ltac:(done) eq_refl (decode_version_complete d2 _ _ Hvl Hv)).
  set (d3 := set_state SHeader _).
  destruct (header_text_complete _ _ _ _ Ht d3 (bo ++ k) (len bo)) as (c & Hc & ->);
    [done|cbn; now rewrite Hb|done..|].
  set (d4 := mkDecoder _ _ c SBody).
  assert (Hbody : decode_body (E:=DecodeError) d4 (bo ++ k)
                  = Return (Complete tt, builder_body bo (set_state_end d4), k)).
  { unfold decode_body. change (get_content_length d4) with c. rewrite Hc.
    destruct (N.ltb_spec (len (bo ++ k)) (len bo)) as [Hlt|_].
    { unfold len in Hlt. rewrite length_app in Hlt. lia. }
    unfold len. rewrite Nat2N.id, take_app_length, drop_app_length. reflexivity. }
  rewrite (decode_step d4 _ _ _ ltac:(done) eq_refl Hbody).
  assert (Hend : decode_request (builder_body bo (set_state_end d4)) k
    = Return (Complete (mkRequest bo hm m u Rtsp2_0),
              set_state SMethod (set_builder (new bytes) (builder_body bo (set_state_end d4))), 0)).
  { unfold decode_request. rewrite decode_unfold by done. reflexivity. }
  rewrite Hend, !shift_shift. cbn [shift]. eexists. f_equal. f_equal.
  length_lia.
Qed.
End Grammar.

(** ** Properties *)

Section Properties.
Context `{HeaderMapLaws} `{URIOps}.

(** The decoders a program can hold: new ones, and what the methods make of them. *)
Inductive reachable : Decoder -> Prop :=
  | reach_new c : reachable (with_config c)
  | reach_reset d : reachable d -> reachable (reset d)
  | reach_decode d b r d' n :
      reachable d -> decode_request d b = Return (r, d', n) -> reachable d'.

(** The configuration never changes. *)
Lemma request_step_config d b r d' b' : step d b = Return (r, d', b') -> config d' = config d.
Proof.
  cbn [step request_loop_ops]. unfold request_decode_header, request_decode_body, decode_header,
    decode_field, end_headers, decode_body, decode_method, decode_uri, decode_version.
  intros Hs. repeat first
    [ discriminate Hs
    | injection Hs as <- <- <-; reflexivity
    | apply outcome_bind_Return in Hs as (? & _ & Hs)
    | progress cbv zeta in Hs
    | case_match ].
Qed.

Lemma request_decode_config d b r d' n :
  request_inv d -> decode_request d b = Return (r, d', n) -> config d' = config d.
Proof.
  intros Hi. revert r d' n. pattern d, b. revert d b Hi. apply (decode_ind (inv := request_inv)).
  intros d b Hi IH r d' n. unfold decode_request. rewrite decode_unfold by done.
  destruct (stage d) as [| |e] eqn:Es.
  - destruct (step d b) as [[[r1 d1] b1]|] eqn:Hs; [|done].
    pose proof (request_step_config _ _ _ _ _ Hs) as Hc. destruct r1 as [[]|e|].
    + destruct (step_cases d b Es) as [(d2 & m & Hm & Hs2 & _)|[(e & d2 & m & Hm & Hs2)|Hs2]];
        rewrite Hs in Hs2; [|done..]. injection Hs2 as -> ->. specialize (IH d2 m eq_refl Hm eq_refl).
      unfold decode_request in IH. destruct (decode d2 (drop m b)) as [[[r2 d3] n2]|]; [|done].
      cbn. intros [= <- <- <-]. rewrite <- Hc. now apply (IH r2 d3 n2).
    + intros [= <- <- <-]. exact Hc.
    + intros [= <- <- <-]. exact Hc.
  - cbn. unfold finish_request. destruct (build _); [|done]. now intros [= <- <- <-].
  - now intros [= <- <- <-].
Qed.

(** A decoder that wants more data is where it was, or has started a request. *)
Lemma request_decode_incomplete d b d' n :
  request_inv d -> decode_request d b = Return (Incomplete, d', n) ->
  (d' = d /\ n = 0) \/ state d' <> SMethod.
Proof.
  intros Hi. revert d' n. pattern d, b. revert d b Hi. apply (decode_ind (inv := request_inv)).
  intros d b Hi IH d' n. unfold decode_request. rewrite decode_unfold by done.
  destruct (stage d) as [| |e] eqn:Es; [| |done].
  - destruct (step_cases d b Es) as [(d1 & m & Hm & Hs & _)|[(e & d1 & m & Hm & Hs)|Hs]];
      rewrite Hs; [|done|].
    + specialize (IH d1 m eq_refl Hm Hs). unfold decode_request in IH.
      assert (Hne : state d1 <> SMethod).
      { cbn [stage step request_loop_ops] in Es, Hs. destruct (state d) eqn:Est; try discriminate.
        - now apply decode_body_Complete in Hs as (bo & _ & _ & ->).
        - apply decode_header_Complete in Hs as [(?&?&?&?&?&?&_&_&_&_&_&->)|(?&_&->&_)];
            [cbn; now rewrite Est|done].
        - now apply decode_method_Complete in Hs as (w & me & _ & _ & _ & _ & ->).
        - now apply decode_uri_Complete in Hs as (w & u & _ & _ & _ & _ & ->).
        - now apply decode_version_Complete in Hs as (w & _ & _ & _ & ->). }
      destruct (decode d1 (drop m b)) as [[[r2 d3] n2]|]; [|done]. cbn.
      intros [= -> -> <-]. destruct (IH _ _ eq_refl) as [[-> ->]|?]; auto.
    + intros [= <- <-]. left. now rewrite Nat.sub_diag.
  - cbn. unfold finish_request. now destruct (build _).
Qed.

Lemma reachable_inv d : reachable d -> request_inv d.
Proof.
  induction 1 as [c|d _ _|d b r d' n _ IH Hd]; [done..|].
  destruct (decode_total d b IH) as (r1 & d1 & n1 & E & _ & Hi & _).
  unfold decode_request in Hd. rewrite E in Hd. now injection Hd as <- <- <-.
Qed.

(** What one call does to a well-formed decoder. *)
Lemma request_decode_outcome d b :
  request_inv d ->
  exists r d' n, decode_request d b = Return (r, d', n) /\ n <= length b /\ request_inv d'
    /\ match r with
       | Complete _ => fresh d' /\ config d' = config d
       | Error e => state d' = SError e /\ forall b', decode_request d' b' = Return (Error e, d', 0)
       | Incomplete => decode_request d' (drop n b) = Return (Incomplete, d', 0)
       end.
Proof.
  intros Hr. destruct (decode_total d b Hr) as (r & d' & n & E & Hn & Hi & Hm).
  exists r, d', n. split; [done|]. split; [done|]. split; [done|]. destruct r as [r|e|].
  - now apply (request_sound d b Hr r d' n).
  - split.
    { revert Hm. cbn. destruct (state d'); try done. now intros [= ->]. }
    intros b'. unfold decode_request. rewrite decode_unfold by done. now rewrite Hm.
  - destruct Hm as [Hs Hst]. unfold decode_request. rewrite decode_unfold by done.
    now rewrite Hs, Hst, Nat.sub_diag.
Qed.

(** Decoding with any decoder a program can hold and any buffer: it terminates without a panic (no
    slice is out of range and no part of a finished request is missing) and the number of bytes
    decoded is within the buffer. A completed request leaves the decoder as new, with its
    configuration; an error leaves it in the error state, where it returns that error again
    whatever follows; and when it asks for more data, what is left of the buffer makes no further
    progress. *)
Theorem request_decoder_total (d : Decoder) (b : bytes) :
  reachable d ->
  exists r d' n, decode_request d b = Return (r, d', n) /\ n <= length b
    /\ match r with
       | Complete _ => fresh d' /\ config d' = config d
       | Error e => forall b', decode_request d' b' = Return (Error e, d', 0)
       | Incomplete => decode_request d' (drop n b) = Return (Incomplete, d', 0)
       end.
Proof.
  intros Hr%reachable_inv. destruct (request_decode_outcome d b Hr) as (r & d' & n & E & Hn & _ & Hm).
  exists r, d', n. split; [done|]. split; [done|]. destruct r; [done|now destruct Hm|done].
Qed.

(** C21: Decoding data that arrives in pieces, as from a socket: when no piece is refused, the result is
    that of decoding all the data at once, wherever the data was cut. A request found in a prefix
    of the data is found in all of it. *)
Theorem request_decoder_pieces (d : Decoder) (b : bytes) (pieces : list bytes) r d' n :
  reachable d -> feed d b pieces = Return (r, d', n) -> is_error r = false ->
  decode_request d (b ++ concat pieces) = Return (r, d', n)
  /\ (is_complete r = true -> forall k,
        decode_request d ((b ++ concat pieces) ++ k) = Return (r, d', n)).
Proof.
  intros Hr%reachable_inv Hf He. pose proof (feed_concat d b pieces r d' n Hr Hf He) as Hd.
  split; [exact Hd|]. intros Hc k. pose proof (decode_app d _ k _ _ _ Hr Hd) as Ha.
  now destruct r.
Qed.

(** C6: What the decoder accepts: a decoder that is about to read a request completes with [r] after
    [n] bytes exactly when the first [n] bytes are a text of [r] in the grammar, within the limits
    of its configuration. The bytes that follow do not matter. *)
Theorem request_decoder_grammar (d : Decoder) (b : bytes) (r : Request bytes) (n : nat) :
  fresh d -> config_ok (config d) ->
  (exists d', decode_request d b = Return (Complete r, d', n))
  <-> n <= length b /\ RequestText (config d) (take n b) r.
Proof.
  intros Hf Hok. assert (Hi : request_inv d) by (destruct Hf as [? Hst]; unfold request_inv; now rewrite Hst).
  split.
  - intros [d' Hd]. destruct (request_sound d b Hi r d' n Hd) as [(t & rest & -> & -> & Hrest) _].
    rewrite take_app_length, length_app. split; [lia|]. apply RequestText_rest.
    destruct Hf as [Hb Hst]. unfold rest_of in Hrest. now rewrite Hst, Hb in Hrest.
  - intros [Hn Ht]. destruct (request_complete d _ r Hf Hok Ht (drop n b)) as [d' Hd].
    exists d'. rewrite take_drop in Hd. rewrite Hd, length_take. do 2 f_equal. lia.
Qed.
End Properties.

(** A run: a whole request, with a folded header and a body, and the same one in three pieces. *)
Definition example_text : bytes :=
  bs "SETUP rtsp://h/ RTSP/2.0" ++ CRLF ++ bs "content-length : 4" ++ CRLF ++
  bs "X-Folded: a" ++ CRLF ++ bs " b" ++ CRLF ++ CRLF ++ bs "Body".

Definition example_request : Request (H:=list_header_map) (H0:=text_uri) bytes :=
  mkRequest (H:=list_header_map) (H0:=text_uri) (bs "Body")
    [(HeaderName.ContentLength, mkHeaderValue (bs "4"));
     (Extension (bs "X-Folded") (bs "x-folded"), mkHeaderValue (bs "a" ++ CRLF ++ bs " b"))]
    Setup (bs "rtsp://h/") Rtsp2_0.

(** The decoder after it. *)
Definition example_decoder : Decoder (H:=list_header_map) (H0:=text_uri) :=
  mkDecoder (new bytes) config_default (mkContentLength 4) SMethod.

Example decode_request_ex :
  decode_request (H0:=text_uri) decoder_new example_text
  = Return (Complete example_request, example_decoder, length example_text).
Proof. reflexivity. Qed.

Lemma request_decoder_total_witness :
  exists r d' n, decode_request (H0:=text_uri) decoder_new (bs "B@D * RTSP/2.0") = Return (r, d', n)
                 /\ n <= 14.
Proof.
  destruct (request_decoder_total (H1:=text_uri) decoder_new (bs "B@D * RTSP/2.0"))
    as (r & d' & n & Hd & Hn & _); [exact (reach_new config_default)|].
  exists r, d', n. now split.
Defined.

Lemma request_decoder_pieces_witness :
  decode_request (H0:=text_uri) decoder_new (concat [take 5 example_text; drop 5 example_text])
  = Return (Complete example_request, example_decoder, length example_text).
Proof.
  refine (proj1 (request_decoder_pieces (H1:=text_uri) decoder_new []
                   [take 5 example_text; drop 5 example_text] _ _ _ _ _ _));
    [exact (reach_new config_default)|reflexivity|reflexivity].
Defined.

Lemma request_decoder_grammar_witness :
  RequestText (H1:=text_uri) config_default (take (length example_text) example_text)
    example_request.
Proof.
  apply (proj1 (request_decoder_grammar (H1:=text_uri) decoder_new example_text example_request
                  (length example_text) ltac:(now split) ltac:(now repeat split))
           (ex_intro _ example_decoder decode_request_ex)).
Defined.

(** With a limit of two bytes, the value [ab] is accepted or refused. *)
Lemma header_value_limit_witness :
  let d := with_config (H:=list_header_map) (H0:=text_uri) (mkConfig 9 9 9 2 9 9) in
  decode_header_value (E:=DecodeError (H0:=text_uri)) d (bs "ab" ++ CR :: LF :: LF :: []) = Return (Complete (bs "ab"))
  /\ decode_header_value (E:=DecodeError (H0:=text_uri)) d (bs "ab" ++ [CR]) = Return (Error HeaderValueTooLong).
Proof.
  cbv zeta. apply (header_value_limit _ (bs "ab") LF []); [|done..]. now repeat constructor.
Defined.
