(* ===== verification/ResponseDecoder.v ===== *)
(** * The response decoder

    Model of [rtsp-2/src/protocol/codec/decoder/response.rs]: the incremental decoder of responses,
    its states, limits and errors. *)

From Stdlib Require Import Strings.Byte.
From stdpp Require Import base list numbers strings.
From S2P Require Import Prelude Text Syntax Version Reason Status HeaderName HeaderValue.
From S2P Require Import HeaderMap ContentLength Response Decoder.

Local Open Scope nat_scope.
Local Open Scope rust_scope.

(** [Config], with the names of its accessors. *)
Record Config := mkConfig {
  c_body_max_length : N;
  c_header_max_count : N;
  c_header_name_max_length : N;
  c_header_value_max_length : N;
  c_reason_phrase_max_length : N;
}.

(** [ConfigBuilder], which has the same fields; the setters, which [with_...] call too. *)
Record ConfigBuilder := mkConfigBuilder { building : Config }.

Definition config_builder_new : ConfigBuilder := mkConfigBuilder {|
  c_body_max_length := BODY_DEFAULT_MAX_LENGTH;
  c_header_max_count := HEADER_DEFAULT_MAX_COUNT;
  c_header_name_max_length := HEADER_NAME_DEFAULT_MAX_LENGTH;
  c_header_value_max_length := HEADER_VALUE_DEFAULT_MAX_LENGTH;
  c_reason_phrase_max_length := REASON_PHRASE_DEFAULT_MAX_LENGTH;
|}.

Definition config_build (self : ConfigBuilder) : Config := building self.

Definition with_body_max_length (length : N) (self : ConfigBuilder) : ConfigBuilder :=
  let c := building self in
  mkConfigBuilder (mkConfig length (c_header_max_count c)
    (c_header_name_max_length c) (c_header_value_max_length c) (c_reason_phrase_max_length c)).
Definition with_header_max_count (length : N) (self : ConfigBuilder) : ConfigBuilder :=
  let c := building self in
  mkConfigBuilder (mkConfig (c_body_max_length c) length
    (c_header_name_max_length c) (c_header_value_max_length c) (c_reason_phrase_max_length c)).
Definition with_header_name_max_length (length : N) (self : ConfigBuilder) : ConfigBuilder :=
  let c := building self in
  mkConfigBuilder (mkConfig (c_body_max_length c) (c_header_max_count c)
    length (c_header_value_max_length c) (c_reason_phrase_max_length c)).
Definition with_header_value_max_length (length : N) (self : ConfigBuilder) : ConfigBuilder :=
  let c := building self in
  mkConfigBuilder (mkConfig (c_body_max_length c) (c_header_max_count c)
    (c_header_name_max_length c) length (c_reason_phrase_max_length c)).
Definition with_reason_phrase_max_length (length : N) (self : ConfigBuilder) : ConfigBuilder :=
  let c := building self in
  mkConfigBuilder (mkConfig (c_body_max_length c) (c_header_max_count c)
    (c_header_name_max_length c) (c_header_value_max_length c) length).

(** The default of [Config]. *)
Definition config_default : Config := config_build config_builder_new.

Section ResponseDecoder.
Context `{HeaderMapOps}.

Inductive DecodeError :=
  | EBodyTooLong
  | EHeaderName (e : HeaderNameError)
  | EHeaderNameTooLong
  | EHeaderValue (e : HeaderValueError)
  | EHeaderValueTooLong
  | EInvalidContentLength
  | EReasonPhrase (e : ReasonPhraseError)
  | EReasonPhraseTooLong
  | EStatusCode (e : StatusCodeError)
  | ETooManyHeaders
  | EUnsupportedVersion
  | EVersion (e : Version.DecodeError).

(** [DecodeState]. *)
Inductive DecodeState :=
  | SBody | SEnd | SError (e : DecodeError) | SHeader | SReasonPhrase | SStatusCode | SVersion.

Record Decoder := mkDecoder {
  builder : Builder bytes;
  config : Config;
  content_length : ContentLength;
  state : DecodeState;
}.

Definition with_config (config : Config) : Decoder :=
  mkDecoder (new bytes) config content_length_default SVersion.

Definition decoder_new : Decoder := with_config config_default.

(** [Decoder::reset] keeps the configuration. *)
Definition reset (self : Decoder) : Decoder :=
  mkDecoder (new bytes) (config self) content_length_default SVersion.

Definition set_builder (b : Builder bytes) (self : Decoder) : Decoder :=
  mkDecoder b (config self) (content_length self) (state self).
Definition set_state (s : DecodeState) (self : Decoder) : Decoder :=
  mkDecoder (builder self) (config self) (content_length self) s.

#[export] Instance response_decode_errors : DecodeErrors DecodeError := {|
  BodyTooLong := EBodyTooLong;
  HeaderNameInvalid := EHeaderName;
  HeaderNameTooLong := EHeaderNameTooLong;
  HeaderValueInvalid := EHeaderValue;
  HeaderValueTooLong := EHeaderValueTooLong;
  InvalidContentLength := EInvalidContentLength;
  TooManyHeaders := ETooManyHeaders;
|}.

#[export] Instance response_decoder_ops : DecoderOps Decoder := {|
  body_max_length d := c_body_max_length (config d);
  header_max_count d := c_header_max_count (config d);
  header_name_max_length d := c_header_name_max_length (config d);
  header_value_max_length d := c_header_value_max_length (config d);
  builder_headers d := b_headers (builder d);
  builder_header name value d := set_builder (with_header name value (builder d)) d;
  builder_body body d := set_builder (with_body body (builder d)) d;
  get_content_length := content_length;
  set_content_length c d := mkDecoder (builder d) (config d) c (state d);
  set_state_body := set_state SBody;
  set_state_end := set_state SEnd;
|}.

(** ** The decoding functions of the states *)

Notation StepResult := (Outcome (DecodeResult unit DecodeError * Decoder * bytes)).

(** The windows equal to a line break. *)
Definition is_crlf (w : byte * byte) : bool := bool_decide (w = (CR, LF)).

Definition decode_reason_phrase (d : Decoder) (buffer : bytes) : StepResult :=
  let max_length := usize_add (c_reason_phrase_max_length (config d)) 2 in
  match position is_crlf (take (N.to_nat max_length) (windows2 buffer)) with
  | Some index =>
      let! value := slice_to index buffer in
      match Reason.try_from value with
      | Ok reason_phrase =>
          let d := set_state SHeader
                     (set_builder (with_reason_phrase (Some reason_phrase) (builder d)) d) in
          let! buffer := slice_from (index + 2) buffer in
          Return (Complete tt, d, buffer)
      | Err error => Return (Error (EReasonPhrase error), d, buffer)
      end
  | None =>
      if (max_length <=? len buffer)%N then Return (Error EReasonPhraseTooLong, d, buffer)
      else Return (Incomplete, d, buffer)
  end.

Definition decode_status_code (d : Decoder) (buffer : bytes) : StepResult :=
  if length buffer <? 4 then Return (Incomplete, d, buffer)
  else if negb (bool_decide (buffer !! 3 = Some SP))
  then Return (Error (EStatusCode Status.Invalid), d, buffer)
  else
    match Status.try_from (take 3 buffer) with
    | Ok status_code =>
        Return (Complete tt,
                set_state SReasonPhrase (set_builder (with_status_code status_code (builder d)) d),
                drop 4 buffer)
    | Err error => Return (Error (EStatusCode error), d, buffer)
    end.

Definition decode_version (d : Decoder) (buffer : bytes) : StepResult :=
  if length buffer <? 9 then Return (Incomplete, d, buffer)
  else if negb (bool_decide (buffer !! 8 = Some SP))
  then Return (Error (EVersion Version.Invalid), d, buffer)
  else
    match Version.try_decode (take 8 buffer) with
    | Ok version =>
        if bool_decide (version = Rtsp2_0)
        then Return (Complete tt,
                     set_state SStatusCode (set_builder (with_version version (builder d)) d),
                     drop 9 buffer)
        else Return (Error EUnsupportedVersion, d, buffer)
    | Err error => Return (Error (EVersion error), d, buffer)
    end.

Definition response_decode_header (d : Decoder) (buffer : bytes) : StepResult :=
  decode_header d buffer.

Definition response_decode_body (d : Decoder) (buffer : bytes) : StepResult :=
  decode_body d buffer.

(** The [End] branch: [expect] on the result of [build]. *)
Definition finish_response (d : Decoder) : Outcome (Response bytes * Decoder) :=
  match build (builder d) with
  | Return (Ok response) =>
      Return (response, set_state SVersion (set_builder (new bytes) d))
  | _ => Panic
  end.

(** The [match self.state] of [Decoder::decode]. *)
#[export] Instance response_loop_ops : LoopOps Decoder (Response bytes) DecodeError := {|
  stage d := match state d with
             | SEnd => AtEnd
             | SError e => Failed e
             | _ => InProgress
             end;
  step d := match state d with
            | SHeader => response_decode_header d
            | SStatusCode => decode_status_code d
            | SReasonPhrase => decode_reason_phrase d
            | SVersion => decode_version d
            | _ => response_decode_body d
            end;
  finish := finish_response;
  set_error e := set_state (SError e);
|}.

Definition decode_response (d : Decoder) (buffer : bytes) :
    Outcome (DecodeResult (Response bytes) DecodeError * Decoder * nat) :=
  decode d buffer.
End ResponseDecoder.

(** ** The decoder meets the promises of a decoder *)

Section ResponseDecoderLaws.
Context `{HeaderMapLaws}.

(** The parts of the response decoded before each state. *)
Definition response_inv (d : Decoder) : Prop :=
  match state d with
  | SError _ => True
  | SVersion => builder d = new bytes
  | SStatusCode | SReasonPhrase => b_version (builder d) = Rtsp2_0
  | SHeader | SBody =>
      b_version (builder d) = Rtsp2_0 /\ b_custom_reason_phrase (builder d) <> None
  | SEnd =>
      b_version (builder d) = Rtsp2_0 /\ b_custom_reason_phrase (builder d) <> None
      /\ b_body (builder d) <> None
  end.

Definition response_rank (d : Decoder) : nat := match state d with SBody => 1 | _ => 0 end.

(** A piece of fixed length that ends with a space. *)
Lemma fixed_app (b k : bytes) n :
  n < length b ->
  (length (b ++ k) <? S n) = false /\ (b ++ k) !! n = b !! n
  /\ take n (b ++ k) = take n b /\ drop (S n) (b ++ k) = drop (S n) b ++ k.
Proof.
  intros Hn. rewrite length_app. split; [apply Nat.ltb_ge; lia|].
  rewrite lookup_app_l, take_app_le, drop_app_le by lia. done.
Qed.

Lemma response_decode_version_good d b : good_step 1 (decode_version d) d b.
Proof.
  unfold decode_version. destruct (Nat.ltb_spec (length b) 9) as [Hlt|Hge].
  { apply good_step_Incomplete. now rewrite (proj2 (Nat.ltb_lt _ _)). }
  pose proof (fixed_app b [] 8 Hge) as Hb. rewrite !app_nil_r in Hb. destruct Hb as (Hb1 & _).
  destruct (bool_decide (b !! 8 = Some SP)) eqn:Ec.
  2:{ eapply good_step_Error0. now rewrite Hb1, Ec. }
  destruct (Version.try_decode (take 8 b)) as [v|e] eqn:Ev.
  2:{ eapply good_step_Error0. now rewrite Hb1, Ec, Ev. }
  destruct (bool_decide (v = Rtsp2_0)) eqn:E2.
  2:{ eapply good_step_Error0. now rewrite Hb1, Ec, Ev, E2. }
  eapply (good_step_Complete _ _ _ _ 9); [lia|lia|]. intros k.
  destruct (fixed_app b k 8 Hge) as (-> & -> & -> & ->). now rewrite Ec, Ev, E2.
Qed.

Lemma decode_status_code_good d b : good_step 1 (decode_status_code d) d b.
Proof.
  unfold decode_status_code. destruct (Nat.ltb_spec (length b) 4) as [Hlt|Hge].
  { apply good_step_Incomplete. now rewrite (proj2 (Nat.ltb_lt _ _)). }
  pose proof (fixed_app b [] 3 Hge) as Hb. rewrite !app_nil_r in Hb. destruct Hb as (Hb1 & _).
  destruct (bool_decide (b !! 3 = Some SP)) eqn:Ec.
  2:{ eapply good_step_Error0. now rewrite Hb1, Ec. }
  destruct (Status.try_from (take 3 b)) as [v|e] eqn:Ev.
  2:{ eapply good_step_Error0. now rewrite Hb1, Ec, Ev. }
  eapply (good_step_Complete _ _ _ _ 4); [lia|lia|]. intros k.
  destruct (fixed_app b k 3 Hge) as (-> & -> & -> & ->). now rewrite Ec, Ev.
Qed.

(** The first line break of a buffer. *)
Lemma position_crlf_inv b n i :
  position is_crlf (take n (windows2 b)) = Some i ->
  i < n /\ i + 2 <= length b /\ b = take i b ++ CRLF ++ drop (i + 2) b.
Proof.
  intros Hp. pose proof (position_lt _ _ _ Hp) as Hi. rewrite length_take in Hi.
  apply position_Some in Hp as [(x & Hx & ->%bool_decide_eq_true) _].
  rewrite lookup_take_lt in Hx by lia. apply windows2_lookup in Hx as [H1 H2]. cbn in H1, H2.
  pose proof (lookup_lt_Some _ _ _ H2). split; [lia|]. split; [lia|].
  rewrite <- (take_drop i b) at 1. f_equal. rewrite (drop_S _ _ _ H1), (drop_S _ _ _ H2).
  now replace (i + 2) with (S (S i)) by lia.
Qed.

Lemma position_crlf_app b k n i :
  position is_crlf (take n (windows2 b)) = Some i ->
  position is_crlf (take n (windows2 (b ++ k))) = Some i.
Proof. destruct (windows2_app b k) as [m ->]. apply position_take_app. Qed.

Lemma decode_reason_phrase_good d b : good_step 1 (decode_reason_phrase d) d b.
Proof.
  unfold decode_reason_phrase. cbv zeta. set (max_length := usize_add _ 2).
  destruct (position is_crlf (take (N.to_nat max_length) (windows2 b))) as [i|] eqn:Ep.
  - destruct (position_crlf_inv _ _ _ Ep) as (_ & Hi & _).
    destruct (Reason.try_from (take i b)) as [a|e] eqn:Ea.
    + eapply (good_step_Complete _ _ _ _ (i + 2)); [lia|lia|]. intros k.
      rewrite (position_crlf_app _ k _ _ Ep).
      rewrite slice_to_le by (rewrite length_app; lia). cbn [outcome_bind].
      rewrite take_app_le, Ea by lia. rewrite slice_from_le by (rewrite length_app; lia).
      cbn [outcome_bind]. now rewrite drop_app_le by lia.
    + eapply good_step_Error0. rewrite Ep, slice_to_le by lia. cbn. now rewrite Ea.
  - destruct (max_length <=? len b)%N eqn:El.
    + eapply good_step_Error0. now rewrite Ep, El.
    + apply good_step_Incomplete. now rewrite Ep, El.
Qed.

Lemma response_step_good d b :
  stage d = InProgress -> good_step (1 - response_rank d) (step d) d b.
Proof.
  unfold response_rank. cbn [stage step response_loop_ops]. intros Hs. destruct (state d); try done.
  - apply decode_body_good.
  - apply (good_step_weaken _ 2); [lia|apply decode_header_good].
  - apply decode_reason_phrase_good.
  - apply decode_status_code_good.
  - apply response_decode_version_good.
Qed.

(** What the completed steps did. *)
Lemma response_decode_version_Complete d b d' b' :
  decode_version d b = Return (Complete tt, d', b') ->
  exists w, b = w ++ SP :: b' /\ length w = 8 /\ Version.try_decode w = Ok Rtsp2_0
    /\ d' = set_state SStatusCode (set_builder (with_version Rtsp2_0 (builder d)) d).
Proof.
  unfold decode_version. destruct (Nat.ltb_spec (length b) 9); [done|].
  destruct (decide (b !! 8 = Some SP)) as [Ec|Ec];
    [rewrite bool_decide_eq_true_2 by done|rewrite bool_decide_eq_false_2 by done; done].
  cbn [negb]. destruct (Version.try_decode (take 8 b)) as [v|e] eqn:Ev; [|done].
  destruct (decide (v = Rtsp2_0)) as [->|Hv];
    [rewrite bool_decide_eq_true_2 by done|rewrite bool_decide_eq_false_2 by done; done].
  intros [= <- <-]. exists (take 8 b). split; [|split; [rewrite length_take; lia|done]].
  rewrite <- (take_drop 8 b) at 1. f_equal. now apply drop_S.
Qed.

Lemma decode_status_code_Complete d b d' b' :
  decode_status_code d b = Return (Complete tt, d', b') ->
  exists w s, b = w ++ SP :: b' /\ length w = 3 /\ Status.try_from w = Ok s
    /\ d' = set_state SReasonPhrase (set_builder (with_status_code s (builder d)) d).
Proof.
  unfold decode_status_code. destruct (Nat.ltb_spec (length b) 4); [done|].
  destruct (decide (b !! 3 = Some SP)) as [Ec|Ec];
    [rewrite bool_decide_eq_true_2 by done|rewrite bool_decide_eq_false_2 by done; done].
  cbn [negb]. destruct (Status.try_from (take 3 b)) as [s|e] eqn:Es; [|done].
  intros [= <- <-]. exists (take 3 b), s. split; [|split; [rewrite length_take; lia|done]].
  rewrite <- (take_drop 3 b) at 1. f_equal. now apply drop_S.
Qed.

Lemma decode_reason_phrase_Complete d b d' b' :
  decode_reason_phrase d b = Return (Complete tt, d', b') ->
  exists w r, b = w ++ CRLF ++ b' /\ Reason.try_from w = Ok r
    /\ (len w <= c_reason_phrase_max_length (config d) + 1)%N
    /\ d' = set_state SHeader (set_builder (with_reason_phrase (Some r) (builder d)) d).
Proof.
  unfold decode_reason_phrase. cbv zeta.
  destruct (position is_crlf _) as [i|] eqn:Ep; [|now destruct (_ <=? _)%N].
  destruct (position_crlf_inv _ _ _ Ep) as (Hn & Hi & Hb). rewrite slice_to_le by lia. cbn.
  destruct (Reason.try_from (take i b)) as [r|e] eqn:Er; [|done].
  rewrite slice_from_le by lia. cbn. intros [= <- <-]. exists (take i b), r.
  repeat split; try done.
  pose proof (usize_add_le (c_reason_phrase_max_length (config d)) 2).
  unfold len. rewrite length_take. lia.
Qed.

Lemma response_step_inv d b d' b' :
  response_inv d -> stage d = InProgress -> step d b = Return (Complete tt, d', b') ->
  response_inv d' /\ forall e, stage d' <> Failed e.
Proof.
  unfold response_inv. cbn [stage step response_loop_ops].
  destruct (state d) eqn:Es; try done; intros Hi _ Hs.
  - apply decode_body_Complete in Hs as (bo & _ & _ & ->). cbn. naive_solver.
  - apply decode_header_Complete in Hs as [(?&?&?&?&?&?&_&_&_&_&_&->)|(?&_&->&_)]; cbn;
      rewrite ?Es; naive_solver.
  - apply decode_reason_phrase_Complete in Hs as (w & r & _ & _ & _ & ->). cbn. naive_solver.
  - apply decode_status_code_Complete in Hs as (w & s & _ & _ & _ & ->). cbn. naive_solver.
  - apply response_decode_version_Complete in Hs as (w & _ & _ & _ & ->). cbn. naive_solver.
Qed.

Lemma response_step_decreases d b d' b' :
  stage d = InProgress -> step d b = Return (Complete tt, d', b') ->
  response_rank d' + length b' < response_rank d + length b.
Proof.
  intros Hst Hs. pose proof (good_step_decreases _ _ _ _ _ _ (response_step_good d b Hst) Hs) as Hd.
  unfold response_rank in *. cbn [stage step response_loop_ops] in *.
  destruct (state d) eqn:Es; try done.
  - apply decode_body_Complete in Hs as (bo & _ & _ & ->). cbn. lia.
  - apply decode_header_decreases in Hs. destruct (state d'); lia.
  - apply decode_reason_phrase_Complete in Hs as (w & r & _ & _ & _ & ->). cbn. lia.
  - apply decode_status_code_Complete in Hs as (w & s & _ & _ & _ & ->). cbn. lia.
  - apply response_decode_version_Complete in Hs as (w & _ & _ & _ & ->). cbn. lia.
Qed.

(** A builder with every part builds the response with its final reason. *)
Lemma build_response (b : Builder bytes) re bo :
  final_reason (b_status_code b) (b_custom_reason_phrase b) = Some re ->
  b_body b = Some bo -> b_version b = Rtsp2_0 ->
  build b = Return (Ok (mkResponse bo (b_headers b) re (b_status_code b) Rtsp2_0)).
Proof. intros Hr Hb Hv. unfold build. rewrite build_reason_spec, Hr, Hb, Hv. reflexivity. Qed.

Lemma final_reason_custom s re : exists re', final_reason s (Some re) = Some re'.
Proof. unfold final_reason. destruct (canonical_reason s); eauto. Qed.

Lemma response_finish_inv d :
  response_inv d -> stage d = AtEnd ->
  exists r d', finish d = Return (r, d') /\ response_inv d' /\ stage d' = InProgress.
Proof.
  unfold response_inv. cbn [stage finish response_loop_ops].
  destruct (state d) eqn:Es; try (intros ? ?; discriminate).
  intros (Hv & Hc & Hb) _. unfold finish_response.
  destruct (b_custom_reason_phrase (builder d)) as [re|] eqn:Ec; [|done].
  destruct (b_body (builder d)) as [bo|] eqn:Eb; [|done].
  destruct (final_reason_custom (b_status_code (builder d)) re) as [re' Hre].
  rewrite (build_response _ re' bo) by (rewrite ?Ec; done).
  eexists _, _. split; [done|]. split; done.
Qed.

#[export] Instance response_step_laws : StepLaws response_inv response_rank.
Proof.
  split.
  - intros d. unfold response_rank. destruct (state d); lia.
  - intros d b Hd. apply (good_step_weaken _ (1 - response_rank d)); [lia|].
    now apply response_step_good.
  - exact response_step_decreases.
  - exact response_step_inv.
  - intros d e. done.
  - exact response_finish_inv.
Qed.
End ResponseDecoderLaws.

(** ** The grammar of responses *)

Definition response_limits (c : Config) : Limits :=
  mkLimits (c_header_max_count c) (c_header_name_max_length c) (c_header_value_max_length c)
    (c_body_max_length c).

(** The limits plus their margin fit in a [usize]. *)
Definition config_ok (c : Config) : Prop :=
  limits_ok (response_limits c) /\ (c_reason_phrase_max_length c + 2 < USIZE_MODULUS)%N.

Section Grammar.
Context `{HeaderMapLaws}.

(** [ResponseText c t r]: [t] is a text of the response [r] within the limits of [c]. The phrase
    may have one byte more than its limit, and is replaced by the canonical one of a standard
    code. *)
Inductive ResponseText (c : Config) : bytes -> Response bytes -> Prop :=
  | response_text vw sw s rw re re' text hm bo :
      length vw = 8 -> Version.try_decode vw = Ok Rtsp2_0 ->
      length sw = 3 -> Status.try_from sw = Ok s ->
      Reason.try_from rw = Ok re -> (len rw <= c_reason_phrase_max_length c + 1)%N ->
      final_reason s (Some re) = Some re' ->
      HeaderText (response_limits c) map_default text hm ->
      body_length hm = Some (len bo) -> (len bo <= c_body_max_length c)%N ->
      ResponseText c (vw ++ SP :: sw ++ SP :: rw ++ CRLF ++ text ++ bo)
        (mkResponse bo hm re' s Rtsp2_0).

(** What remains of the text in each state, when the parts before it are in the builder. *)
Definition rest_headers (c : Config) (b : Builder bytes) (t : bytes) (r : Response bytes) : Prop :=
  exists text hm bo,
    t = text ++ bo /\ HeaderText (response_limits c) (b_headers b) text hm
    /\ body_length hm = Some (len bo) /\ (len bo <= c_body_max_length c)%N
    /\ build (with_body bo (set_headers hm b)) = Return (Ok r).

Definition rest_reason c (b : Builder bytes) t r : Prop :=
  exists rw re t', t = rw ++ CRLF ++ t' /\ Reason.try_from rw = Ok re
    /\ (len rw <= c_reason_phrase_max_length c + 1)%N
    /\ rest_headers c (with_reason_phrase (Some re) b) t' r.

Definition rest_status c (b : Builder bytes) t r : Prop :=
  exists sw s t', t = sw ++ SP :: t' /\ length sw = 3 /\ Status.try_from sw = Ok s
    /\ rest_reason c (with_status_code s b) t' r.

Definition rest_version c (b : Builder bytes) t r : Prop :=
  exists vw t', t = vw ++ SP :: t' /\ length vw = 8 /\ Version.try_decode vw = Ok Rtsp2_0
    /\ rest_status c (with_version Rtsp2_0 b) t' r.

Definition rest_of (d : Decoder) (t : bytes) (r : Response bytes) : Prop :=
  match state d with
  | SEnd => t = [] /\ build (builder d) = Return (Ok r)
  | SBody => len t = ContentLength.content_length (content_length d)
             /\ build (with_body t (builder d)) = Return (Ok r)
  | SHeader => rest_headers (config d) (builder d) t r
  | SReasonPhrase => rest_reason (config d) (builder d) t r
  | SStatusCode => rest_status (config d) (builder d) t r
  | SVersion => rest_version (config d) (builder d) t r
  | SError _ => False
  end.

Lemma ResponseText_rest c t r : ResponseText c t r <-> rest_version c (new bytes) t r.
Proof.
  split.
  - intros [vw sw s rw re re' text hm bo]. exists vw. eexists. repeat split; try done.
    exists sw, s. eexists. repeat split; try done. exists rw, re. eexists. repeat split; try done.
    exists text, hm, bo. repeat split; try done.
    exact (build_response
      (with_body bo (set_headers hm (with_reason_phrase (Some re) (with_status_code s
         (with_version Rtsp2_0 (new bytes)))))) re' bo ltac:(done) eq_refl eq_refl).
  - intros (vw & ? & -> & ? & ? & sw & s & ? & -> & ? & ? & rw & re & ? & -> & ? & ? &
      text & hm & bo & -> & ? & ? & ? & Hb).
    destruct (final_reason_custom s re) as [re' Hre].
    rewrite (build_response _ re' bo) in Hb by done. injection Hb as <-.
    now apply (response_text c vw sw s rw re).
Qed.

(** The state a decoder is in before a response: what [new], [reset] and a completed [decode]
    give. *)
Definition fresh (d : Decoder) : Prop := builder d = new bytes /\ state d = SVersion.

(** A text in front of what remains after a header. *)
Lemma response_rest_headers_field c b name v hn hv x rest' t r rest :
  HeaderLine (response_limits c) name v hn hv ->
  (values_len (b_headers b) < c_header_max_count c)%N -> is_space x = false ->
  t ++ rest = x :: rest' -> rest_headers c (with_header hn hv b) t r ->
  rest_headers c b (name ++ ":"%byte :: v ++ CRLF ++ t) r.
Proof.
  intros Hl Hc Hx Et (text & hm & bo & -> & Ht & Hbl & Hmax & Hb).
  exists (name ++ ":"%byte :: v ++ CRLF ++ text), hm, bo. split; [|split; [|done]].
  { rewrite <- !app_assoc. cbn. now rewrite <- !app_assoc. }
  apply (ht_field _ _ _ _ _ hn hv); try done.
  destruct (HeaderText_cons _ _ _ _ Ht) as (y & t' & ->).
  cbn in Et. injection Et as -> _. now intros y' [= <-].
Qed.

(** One step backwards: the text of a state is the piece the step read and the text of the state
    after it. *)
Lemma response_rest_step d b d1 t rest r :
  stage d = InProgress -> step d b = Return (Complete tt, d1, t ++ rest) -> rest_of d1 t r ->
  (exists t', b = t' ++ rest /\ rest_of d t' r) /\ config d1 = config d.
Proof.
  cbn [stage step response_loop_ops]. unfold rest_of at 2. destruct (state d) eqn:Est; try done;
    intros _ Hs Hrest.
  - apply decode_body_Complete in Hs as (bo & -> & Hbo & ->). destruct Hrest as [-> Hb].
    split; [|done]. exists bo. done.
  - apply decode_header_Complete in Hs
      as [(name & v & x & rest' & hn & hv & -> & Et & Hx & Hl & Hcount & ->)
         |(c & -> & -> & Hbl & Hmax)]; (split; [|done]).
    + unfold rest_of in Hrest. cbn in Hrest. rewrite Est in Hrest.
      exists (name ++ ":"%byte :: v ++ CRLF ++ t). rewrite <- Et. split.
      * rewrite <- app_assoc. cbn. now rewrite <- !app_assoc.
      * eapply (response_rest_headers_field _ _ _ _ hn hv x rest' _ _ rest); done.
    + destruct Hrest as [Hlen Hb]. exists (CRLF ++ t). split; [done|].
      exists CRLF, (b_headers (builder d)), t. split; [done|]. split; [constructor|].
      cbn in Hbl, Hmax, Hlen. rewrite Hlen. split; [done|]. split; [done|].
      cbn [set_content_length set_state_body response_decoder_ops set_state builder] in Hb.
      now destruct (builder d).
  - apply decode_reason_phrase_Complete in Hs as (w & re & -> & Hw1 & Hw2 & ->).
    split; [|done]. exists (w ++ CRLF ++ t). rewrite <- !app_assoc. split; [done|]. exists w, re, t. done.
  - apply decode_status_code_Complete in Hs as (w & s & -> & Hw1 & Hw2 & ->).
    split; [|done]. exists (w ++ SP :: t). rewrite <- app_assoc. split; [done|]. exists w, s, t. done.
  - apply response_decode_version_Complete in Hs as (w & -> & Hw1 & Hw2 & ->).
    split; [|done]. exists (w ++ SP :: t). rewrite <- app_assoc. split; [done|]. exists w, t. done.
Qed.

Lemma response_sound d b :
  response_inv d -> forall r d' n, decode_response d b = Return (Complete r, d', n) ->
  (exists t rest, b = t ++ rest /\ n = length t /\ rest_of d t r)
  /\ fresh d' /\ config d' = config d.
Proof.
  intros Hi. pattern d, b. revert d b Hi. apply (decode_ind (inv := response_inv)).
  intros d b Hi IH r d' n. unfold decode_response. rewrite decode_unfold by done.
  destruct (stage d) as [| |e] eqn:Es; [| |done].
  - destruct (step_cases d b Es) as [(d1 & m & Hm & Hs & _)|[(e & d1 & m & Hm & Hs)|Hs]];
      rewrite Hs; [|done..].
    specialize (IH d1 m eq_refl Hm Hs). unfold decode_response in IH.
    destruct (decode d1 (drop m b)) as [[[r1 d2] n1]|]; [|done]. cbn.
    intros [= -> -> <-]. specialize (IH r d' n1 eq_refl) as ((t & rest & Ebt & -> & Hrest) & Hf & Hc).
    rewrite Ebt in Hs |- *. destruct (response_rest_step d b d1 t rest r Es Hs Hrest) as [(t' & -> & Ht') Hc'].
    split; [|split; [done|congruence]]. exists t', rest. split; [done|]. split; [|done].
    pose proof (f_equal length Ebt) as Hlen. rewrite length_drop, !length_app in *. lia.
  - cbn in Es |- *. unfold finish_response, rest_of. destruct (state d) eqn:Est; try discriminate.
    destruct (build (builder d)) as [[re|]|] eqn:Eb; [|done..]. cbn. intros [= <- <- <-].
    split; [|done]. exists [], b. done.
Qed.

(** ** Every text of the grammar is decoded *)

Lemma response_decode_step d b d1 b1 :
  response_inv d -> stage d = InProgress -> step d b = Return (Complete tt, d1, b1) ->
  decode_response d b = shift (length b - length b1) (decode_response d1 b1).
Proof.
  intros Hi Hs Hst. unfold decode_response. rewrite decode_unfold by done. now rewrite Hs, Hst.
Qed.

Lemma response_decode_header_step d b d1 b1 :
  response_inv d -> state d = SHeader ->
  decode_header (E:=DecodeError) d b = Return (Complete tt, d1, b1) ->
  decode_response d b = shift (length b - length b1) (decode_response d1 b1).
Proof. intros Hi Hst Hd. apply response_decode_step; [done|cbn; now rewrite Hst|]. cbn. now rewrite Hst. Qed.

(** Reading a word of fixed length and the space after it. *)
Lemma fixed_word (w rest : bytes) n :
  length w = n ->
  (length (w ++ SP :: rest) <? S n) = false /\ (w ++ SP :: rest) !! n = Some SP
  /\ take n (w ++ SP :: rest) = w /\ drop (S n) (w ++ SP :: rest) = rest.
Proof.
  intros <-. split; [apply Nat.ltb_ge; length_lia|]. split; [|split].
  - rewrite lookup_app_r, Nat.sub_diag by lia. done.
  - apply take_app_length.
  - replace (S (length w)) with (length w + 1) by lia. now rewrite drop_app_add.
Qed.

Lemma response_decode_version_complete d w rest :
  length w = 8 -> Version.try_decode w = Ok Rtsp2_0 ->
  decode_version d (w ++ SP :: rest)
  = Return (Complete tt, set_state SStatusCode (set_builder (with_version Rtsp2_0 (builder d)) d), rest).
Proof.
  intros Hw Hv. unfold decode_version. destruct (fixed_word w rest 8 Hw) as (-> & -> & -> & ->).
  rewrite bool_decide_eq_true_2 by reflexivity. cbn [negb]. rewrite Hv.
  now rewrite bool_decide_eq_true_2.
Qed.

Lemma decode_status_code_complete d w s rest :
  length w = 3 -> Status.try_from w = Ok s ->
  decode_status_code d (w ++ SP :: rest)
  = Return (Complete tt, set_state SReasonPhrase (set_builder (with_status_code s (builder d)) d), rest).
Proof.
  intros Hw Hs. unfold decode_status_code. destruct (fixed_word w rest 3 Hw) as (-> & -> & -> & ->).
  rewrite bool_decide_eq_true_2 by reflexivity. cbn [negb]. now rewrite Hs.
Qed.

Lemma position_crlf_complete w rest n :
  CR ∉ w -> length w < n ->
  position is_crlf (take n (windows2 (w ++ CRLF ++ rest))) = Some (length w).
Proof.
  intros Hc Hn. apply position_Some. rewrite lookup_take_lt by done. split.
  - exists (CR, LF). split; [|now apply bool_decide_eq_true]. apply windows2_lookup.
    split; rewrite lookup_app_r by (cbn; lia); [now rewrite Nat.sub_diag|].
    now replace (S (length w) - length w) with 1 by lia.
  - apply Forall_lookup. intros i [x y] Hi. apply lookup_take_Some in Hi as [Hi Hlt].
    apply lookup_take_Some in Hi as [Hi _]. apply windows2_lookup in Hi as [Hi _]. cbn in Hi.
    rewrite lookup_app_l in Hi by done. apply bool_decide_eq_false. intros [= -> ->].
    apply Hc. now apply list_elem_of_lookup_2 in Hi.
Qed.

Lemma decode_reason_phrase_complete d w r rest :
  config_ok (config d) -> Reason.try_from w = Ok r ->
  (len w <= c_reason_phrase_max_length (config d) + 1)%N ->
  decode_reason_phrase d (w ++ CRLF ++ rest)
  = Return (Complete tt, set_state SHeader (set_builder (with_reason_phrase (Some r) (builder d)) d),
            rest).
Proof.
  intros [_ Hok] Hr Hl. unfold decode_reason_phrase. cbv zeta.
  rewrite position_crlf_complete;
    [|now apply (reason_no_CR _ _ Hr)|rewrite usize_add_small by done; unfold len in Hl; lia].
  rewrite slice_to_le, take_app_length by length_lia. cbn [outcome_bind]. rewrite Hr.
  rewrite slice_from_le by length_lia. cbn [outcome_bind]. now rewrite drop_app_add.
Qed.

Lemma shift_add {A B} m n (o : Outcome (A * B * nat)) : shift m (shift n o) = shift (m + n) o.
Proof. destruct o as [[[a b] i]|]; cbn; [|done]. do 2 f_equal. lia. Qed.

(** Reading a header section from the [Header] state. *)
Lemma response_headers_complete l hm text hm' :
  HeaderText l hm text hm' ->
  forall d k n, l = response_limits (config d) -> hm = b_headers (builder d) ->
  state d = SHeader -> config_ok (config d) -> response_inv d ->
  body_length hm' = Some n -> (n <= c_body_max_length (config d))%N ->
  exists c, ContentLength.content_length c = n
    /\ decode_response d (text ++ k)
       = shift (length text)
           (decode_response (mkDecoder (set_headers hm' (builder d)) (config d) c SBody) k).
Proof.
  induction 1 as [hm|hm name v text hn hv hm' Hl Hc Hs Ht IH];
    intros d k n El Eh Est Hok Hi Hbl Hmax; subst l hm.
  - destruct (end_headers_complete (E:=DecodeError) d k n) as (c & Hcn & Hd); [done|done|].
    exists c. split; [done|].
    rewrite (response_decode_header_step d _ _ _ Hi Est Hd).
    rewrite length_app. replace (length CRLF + length k - length k) with (length CRLF) by lia.
    f_equal. f_equal. unfold set_state_body. cbn. now destruct d as [[] ? ? ?].
  - destruct (HeaderText_cons _ _ _ _ Ht) as (x & t & ->). specialize (Hs x eq_refl).
    pose proof (header_line_complete (E:=DecodeError) d name v x (t ++ k) hn hv (proj1 Hok) Hl Hc Hs) as Hd.
    assert (Hi' : response_inv (builder_header hn hv d)).
    { unfold response_inv in *. cbn. rewrite Est in *. exact Hi. }
    destruct (IH (builder_header hn hv d) k n) as (c & Hcn & IHd); try done.
    exists c. split; [done|].
    replace ((name ++ ":"%byte :: v ++ CRLF ++ x :: t) ++ k)
      with (name ++ ":"%byte :: v ++ CRLF ++ x :: t ++ k)
      by (rewrite <- !app_assoc; cbn; now rewrite <- !app_assoc).
    rewrite (response_decode_header_step d _ _ _ Hi Est Hd).
    change (x :: t ++ k) with ((x :: t) ++ k). rewrite IHd, shift_add. f_equal. length_lia.
Qed.

Lemma response_complete d t r :
  fresh d -> config_ok (config d) -> ResponseText (config d) t r -> forall k,
  exists d', decode_response d (t ++ k) = Return (Complete r, d', length t).
Proof.
  intros [Hb Hst] Hok [vw sw s rw re re' text hm bo Hvl Hv Hsl Hs Hr Hrl Hre Ht Hbl Hmax] k.
  assert (Hi : response_inv d) by (unfold response_inv; now rewrite Hst).
  rewrite <- !app_assoc. cbn [app]. rewrite <- !app_assoc. cbn [app]. rewrite <- !app_assoc.
  set (d1 := set_state SStatusCode (set_builder (with_version Rtsp2_0 (builder d)) d)).
  rewrite (response_decode_step d _ d1 (sw ++ SP :: rw ++ CRLF ++ text ++ bo ++ k) Hi);
    [|cbn; now rewrite Hst|cbn; rewrite Hst; now apply response_decode_version_complete].
  rewrite (response_decode_step d1 _ _ _ ltac:(done) eq_refl (decode_status_code_complete d1 _ _ _ Hsl Hs)).
  set (d2 := set_state SReasonPhrase _).
  rewrite (response_decode_step d2 _ _ _ ltac:(done) eq_refl (decode_reason_phrase_complete d2 _ _ _ Hok Hr Hrl)).
  set (d3 := set_state SHeader _).
  destruct (response_headers_complete _ _ _ _ Ht d3 (bo ++ k) (len bo)) as (c & Hc & ->);
    [done|cbn; now rewrite Hb|done..|].
  set (d4 := mkDecoder _ _ c SBody).
  assert (Hbody : decode_body (E:=DecodeError) d4 (bo ++ k)
                  = Return (Complete tt, builder_body bo (set_state_end d4), k)).
  { unfold decode_body. change (get_content_length d4) with c. rewrite Hc.
    destruct (N.ltb_spec (len (bo ++ k)) (len bo)) as [Hlt|_].
    { unfold len in Hlt. rewrite length_app in Hlt. lia. }
    unfold len. rewrite Nat2N.id, take_app_length, drop_app_length. reflexivity. }
  rewrite (response_decode_step d4 _ _ _ ltac:(done) eq_refl Hbody).
  assert (Hend : decode_response (builder_body bo (set_state_end d4)) k
    = Return (Complete (mkResponse bo hm re' s Rtsp2_0),
              set_state SVersion (set_builder (new bytes) (builder_body bo (set_state_end d4))), 0)).
  { unfold decode_response. rewrite decode_unfold by done. cbn. unfold finish_response.
    now rewrite (build_response _ re' bo). }
  rewrite Hend, !shift_add. cbn [shift]. eexists. f_equal. f_equal. length_lia.
Qed.
End Grammar.

(** ** Properties *)

Section Properties.
Context `{HeaderMapLaws}.

(** The decoders a program can hold: new ones, and what the methods make of them. *)
Inductive reachable : Decoder -> Prop :=
  | reach_new c : reachable (with_config c)
  | reach_reset d : reachable d -> reachable (reset d)
  | reach_decode d b r d' n :
      reachable d -> decode_response d b = Return (r, d', n) -> reachable d'.

(** The configuration never changes. *)
Lemma response_step_config d b r d' b' : step d b = Return (r, d', b') -> config d' = config d.
Proof.
  cbn [step response_loop_ops]. unfold response_decode_header, response_decode_body, decode_header,
    decode_field, end_headers, decode_body, decode_reason_phrase, decode_status_code, decode_version.
  intros Hs. repeat first
    [ discriminate Hs
    | injection Hs as <- <- <-; reflexivity
    | apply outcome_bind_Return in Hs as (? & _ & Hs)
    | progress cbv zeta in Hs
    | case_match ].
Qed.

Lemma response_decode_config d b r d' n :
  response_inv d -> decode_response d b = Return (r, d', n) -> config d' = config d.
Proof.
  intros Hi. revert r d' n. pattern d, b. revert d b Hi. apply (decode_ind (inv := response_inv)).
  intros d b Hi IH r d' n. unfold decode_response. rewrite decode_unfold by done.
  destruct (stage d) as [| |e] eqn:Es.
  - destruct (step d b) as [[[r1 d1] b1]|] eqn:Hs; [|done].
    pose proof (response_step_config _ _ _ _ _ Hs) as Hc. destruct r1 as [[]|e|].
    + destruct (step_cases d b Es) as [(d2 & m & Hm & Hs2 & _)|[(e & d2 & m & Hm & Hs2)|Hs2]];
        rewrite Hs in Hs2; [|done..]. injection Hs2 as -> ->. specialize (IH d2 m eq_refl Hm eq_refl).
      unfold decode_response in IH. destruct (decode d2 (drop m b)) as [[[r2 d3] n2]|]; [|done].
      cbn. intros [= <- <- <-]. rewrite <- Hc. now apply (IH r2 d3 n2).
    + intros [= <- <- <-]. exact Hc.
    + intros [= <- <- <-]. exact Hc.
  - cbn. unfold finish_response. destruct (build _) as [[|]|]; [|done..]. now intros [= <- <- <-].
  - now intros [= <- <- <-].
Qed.

(** A decoder that wants more data is where it was, or has started a response. *)
Lemma response_decode_incomplete d b d' n :
  response_inv d -> decode_response d b = Return (Incomplete, d', n) ->
  (d' = d /\ n = 0) \/ state d' <> SVersion.
Proof.
  intros Hi. revert d' n. pattern d, b. revert d b Hi. apply (decode_ind (inv := response_inv)).
  intros d b Hi IH d' n. unfold decode_response. rewrite decode_unfold by done.
  destruct (stage d) as [| |e] eqn:Es; [| |done].
  - destruct (step_cases d b Es) as [(d1 & m & Hm & Hs & _)|[(e & d1 & m & Hm & Hs)|Hs]];
      rewrite Hs; [|done|].
    + specialize (IH d1 m eq_refl Hm Hs). unfold decode_response in IH.
      assert (Hne : state d1 <> SVersion).
      { cbn [stage step response_loop_ops] in Es, Hs. destruct (state d) eqn:Est; try discriminate.
        - now apply decode_body_Complete in Hs as (bo & _ & _ & ->).
        - apply decode_header_Complete in Hs as [(?&?&?&?&?&?&_&_&_&_&_&->)|(?&_&->&_)];
            [cbn; now rewrite Est|done].
        - now apply decode_reason_phrase_Complete in Hs as (w & re & _ & _ & _ & ->).
        - now apply decode_status_code_Complete in Hs as (w & s & _ & _ & _ & ->).
        - now apply response_decode_version_Complete in Hs as (w & _ & _ & _ & ->). }
      destruct (decode d1 (drop m b)) as [[[r2 d3] n2]|]; [|done]. cbn.
      intros [= -> -> <-]. destruct (IH _ _ eq_refl) as [[-> ->]|?]; auto.
    + intros [= <- <-]. left. now rewrite Nat.sub_diag.
  - cbn. unfold finish_response. now destruct (build _) as [[|]|].
Qed.

Lemma response_reachable_inv d : reachable d -> response_inv d.
Proof.
  induction 1 as [c|d _ _|d b r d' n _ IH Hd]; [done..|].
  destruct (decode_total d b IH) as (r1 & d1 & n1 & E & _ & Hi & _).
  unfold decode_response in Hd. rewrite E in Hd. now injection Hd as <- <- <-.
Qed.

(** What one call does to a well-formed decoder. *)
Lemma response_decode_outcome d b :
  response_inv d ->
  exists r d' n, decode_response d b = Return (r, d', n) /\ n <= length b /\ response_inv d'
    /\ match r with
       | Complete _ => fresh d' /\ config d' = config d
       | Error e => state d' = SError e /\ forall b', decode_response d' b' = Return (Error e, d', 0)
       | Incomplete => decode_response d' (drop n b) = Return (Incomplete, d', 0)
       end.
Proof.
  intros Hr. destruct (decode_total d b Hr) as (r & d' & n & E & Hn & Hi & Hm).
  exists r, d', n. split; [done|]. split; [done|]. split; [done|]. destruct r as [r|e|].
  - now apply (response_sound d b Hr r d' n).
  - split.
    { revert Hm. cbn. destruct (state d'); try done. now intros [= ->]. }
    intros b'. unfold decode_response. rewrite decode_unfold by done. now rewrite Hm.
  - destruct Hm as [Hs Hst]. unfold decode_response. rewrite decode_unfold by done.
    now rewrite Hs, Hst, Nat.sub_diag.
Qed.

(** Decoding with any decoder a program can hold and any buffer: it terminates without a panic and
    the number of bytes decoded is within the buffer. A completed response leaves the decoder as
    new, with its configuration; an error leaves it in the error state, where it returns that error
    again whatever follows; and when it asks for more data, what is left of the buffer makes no
    further progress. *)
Theorem response_decoder_total (d : Decoder) (b : bytes) :
  reachable d ->
  exists r d' n, decode_response d b = Return (r, d', n) /\ n <= length b
    /\ match r with
       | Complete _ => fresh d' /\ config d' = config d
       | Error e => forall b', decode_response d' b' = Return (Error e, d', 0)
       | Incomplete => decode_response d' (drop n b) = Return (Incomplete, d', 0)
       end.
Proof.
  intros Hr%response_reachable_inv. destruct (response_decode_outcome d b Hr) as (r & d' & n & E & Hn & _ & Hm).
  exists r, d', n. split; [done|]. split; [done|]. destruct r; [done|now destruct Hm|done].
Qed.

(** Decoding data that arrives in pieces: when no piece is refused, the result is that of decoding
    all the data at once, wherever the data was cut. A response found in a prefix of the data is
    found in all of it. *)
Theorem response_decoder_pieces (d : Decoder) (b : bytes) (pieces : list bytes) r d' n :
  reachable d -> feed d b pieces = Return (r, d', n) -> is_error r = false ->
  decode_response d (b ++ concat pieces) = Return (r, d', n)
  /\ (is_complete r = true -> forall k,
        decode_response d ((b ++ concat pieces) ++ k) = Return (r, d', n)).
Proof.
  intros Hr%response_reachable_inv Hf He. pose proof (feed_concat d b pieces r d' n Hr Hf He) as Hd.
  split; [exact Hd|]. intros Hc k. pose proof (decode_app d _ k _ _ _ Hr Hd) as Ha.
  now destruct r.
Qed.

(** C25: What the decoder accepts: a decoder that is about to read a response completes with [r] after
    [n] bytes exactly when the first [n] bytes are a text of [r] in the grammar, within the limits
    of its configuration. The reason phrase may be one byte longer than its documented maximum. *)
Theorem response_decoder_grammar (d : Decoder) (b : bytes) (r : Response bytes) (n : nat) :
  fresh d -> config_ok (config d) ->
  (exists d', decode_response d b = Return (Complete r, d', n))
  <-> n <= length b /\ ResponseText (config d) (take n b) r.
Proof.
  intros Hf Hok. assert (Hi : response_inv d) by (destruct Hf as [? Hst]; unfold response_inv; now rewrite Hst).
  split.
  - intros [d' Hd]. destruct (response_sound d b Hi r d' n Hd) as [(t & rest & -> & -> & Hrest) _].
    rewrite take_app_length, length_app. split; [lia|]. apply ResponseText_rest.
    destruct Hf as [Hb Hst]. unfold rest_of in Hrest. now rewrite Hst, Hb in Hrest.
  - intros [Hn Ht]. destruct (response_complete d _ r Hf Hok Ht (drop n b)) as [d' Hd].
    exists d'. rewrite take_drop in Hd. rewrite Hd, length_take. do 2 f_equal. lia.
Qed.
End Properties.

(** A run: a whole response with a body, and the same one in two pieces. *)
Definition example_text : bytes :=
  bs "RTSP/2.0 200 Fine" ++ CRLF ++ bs "content-length : 4" ++ CRLF ++ bs "CSeq:7" ++ CRLF ++
  CRLF ++ bs "Body".

Definition example_response : Response (H:=list_header_map) bytes :=
  mkResponse (H:=list_header_map) (bs "Body")
    [(HeaderName.ContentLength, mkHeaderValue (bs "4")); (CSeq, mkHeaderValue (bs "7"))]
    (mkReasonPhrase (bs "OK")) OK Rtsp2_0.

(** The decoder after it. *)
Definition example_decoder : Decoder (H:=list_header_map) :=
  mkDecoder (new bytes) config_default (mkContentLength 4) SVersion.

Example decode_response_ex :
  decode_response decoder_new example_text
  = Return (Complete example_response, example_decoder, length example_text).
Proof. reflexivity. Qed.

Lemma response_decoder_total_witness :
  exists r d' n,
    decode_response (H:=list_header_map) decoder_new (bs "RTSP/2.0 2x0 OK") = Return (r, d', n)
    /\ n <= 15.
Proof.
  destruct (response_decoder_total (H:=list_header_map) decoder_new (bs "RTSP/2.0 2x0 OK"))
    as (r & d' & n & Hd & Hn & _); [exact (reach_new config_default)|].
  exists r, d', n. now split.
Defined.

Lemma response_decoder_pieces_witness :
  decode_response decoder_new (concat [take 20 example_text; drop 20 example_text])
  = Return (Complete example_response, example_decoder, length example_text).
Proof.
  refine (proj1 (response_decoder_pieces decoder_new []
                   [take 20 example_text; drop 20 example_text] _ _ _ _ _ _));
    [exact (reach_new config_default)|reflexivity|reflexivity].
Defined.

Lemma response_decoder_grammar_witness :
  ResponseText config_default (take (length example_text) example_text) example_response.
Proof.
  apply (proj1 (response_decoder_grammar decoder_new example_text example_response
                  (length example_text) ltac:(now split) ltac:(now repeat split))
           (ex_intro _ example_decoder decode_response_ex)).
Defined.
