(* ===== verification/Encoder.v ===== *)
(** * Encoding messages

    Model of [rtsp-2/src/protocol/codec/encoder/request.rs] and [encoder/response.rs], and the
    round trips through the decoders. *)

From Stdlib Require Import Strings.Byte.
From stdpp Require Import base list numbers strings.
From S2P Require Import Prelude Text Syntax Version Method Reason Status HeaderName HeaderValue.
From S2P Require Import HeaderMap ContentLength Request Response Decoder RequestDecoder.
From S2P Require Import ResponseDecoder.

Local Open Scope nat_scope.

Section Encoder.
Context `{HeaderMapOps}.

(** The body of the loop over the headers. *)
Definition encode_header (buffer : bytes) (h : HeaderName * HeaderValue) : bytes :=
  let '(name, value) := h in
  if header_name_eqb name HeaderName.ContentLength then buffer
  else buffer ++ canonical_name name ++ bs ": " ++ HeaderValue.as_str value ++ CRLF.

(** What both functions do after the first line. *)
Definition encode_rest (headers : HeaderMap) (body buffer : bytes) : bytes :=
  let body_size := len body in
  let buffer :=
    if (0 <? body_size)%N then buffer ++ bs "Content-Length: " ++ to_string body_size ++ CRLF
    else buffer in
  let buffer := fold_left encode_header (map_iter headers) buffer in
  buffer ++ CRLF ++ body.

(** [request::encode]. *)
Definition encode_request `{URIOps} (request : Request bytes) (buffer : bytes) : bytes :=
  let buffer := buffer ++ Method.as_str (method request) ++ bs " " in
  let buffer := buffer ++ uri_to_string (uri request) ++ bs " " in
  let buffer := buffer ++ as_encoded (Request.version request) ++ CRLF in
  encode_rest (Request.headers request) (Request.body request) buffer.

(** [response::encode]. *)
Definition encode_response (response : Response bytes) (buffer : bytes) : bytes :=
  let buffer := buffer ++ as_encoded (version response) ++ bs " " in
  let buffer := buffer ++ to_string (to_u16 (status_code response)) ++ bs " " in
  let buffer := buffer ++ Reason.as_str (reason_phrase response) ++ CRLF in
  encode_rest (headers response) (body response) buffer.
End Encoder.

(** ** The headers that are written *)

(** The line of one header. *)
Definition header_line (h : HeaderName * HeaderValue) : bytes :=
  canonical_name h.1 ++ ":"%byte :: (SP :: HeaderValue.as_str h.2) ++ CRLF.

Definition header_lines (l : Headers) : bytes := concat (header_line <$> l).

(** The headers of the text: the length of a body that is not empty, and the headers of the message
    without their own content length. *)
Definition sent_headers `{HeaderMapOps} (hm : HeaderMap) (body : bytes) : Headers :=
  (if (0 <? len body)%N
   then [(HeaderName.ContentLength, mkHeaderValue (to_string (len body)))] else [])
  ++ without_name HeaderName.ContentLength (map_iter hm).

Section Text.
Context `{HeaderMapOps}.

Lemma fold_encode_header l buffer :
  fold_left encode_header l buffer
  = buffer ++ header_lines (without_name HeaderName.ContentLength l).
Proof.
  revert buffer. induction l as [|[n v] l IH]; intros buffer; cbn [fold_left].
  { unfold header_lines, without_name. cbn. now rewrite app_nil_r. }
  rewrite IH. unfold without_name. rewrite filter_cons. cbn [fst].
  unfold encode_header.
  destruct (decide (¬ n ≡ HeaderName.ContentLength)) as [Hn|Hn].
  - replace (header_name_eqb n HeaderName.ContentLength) with false
      by (symmetry; now apply not_true_is_false).
    unfold header_lines. cbn [fmap list_fmap concat]. unfold header_line at 2. cbn [fst snd].
    change (bs ": ") with [":"%byte; SP]. rewrite <- !app_assoc. cbn [app].
    now rewrite <- !app_assoc.
  - apply dec_stable in Hn. now rewrite Hn.
Qed.

Lemma encode_rest_lines hm body buffer :
  encode_rest hm body buffer = buffer ++ header_lines (sent_headers hm body) ++ CRLF ++ body.
Proof.
  unfold encode_rest, sent_headers. cbv zeta. rewrite fold_encode_header.
  destruct (0 <? len body)%N; [|now rewrite <- app_assoc].
  unfold header_lines. cbn [fmap list_fmap app concat].
  rewrite <- !app_assoc. f_equal. unfold header_line at 2. cbn [fst snd canonical_name as_str].
  change (bs "Content-Length: ") with (bs "Content-Length" ++ [":"%byte; SP]).
  rewrite <- !app_assoc. cbn [app]. rewrite <- !app_assoc. reflexivity.
Qed.
End Text.

(** ** Headers that survive the encoding *)

(** A header within the limits whose value does not start with whitespace, which the decoder
    would trim. One byte of the limit is for the space after the colon. *)
Definition encodable_header (l : Limits) (h : HeaderName * HeaderValue) : Prop :=
  header_name_wf h.1 /\ (len (canonical_name h.1) <= l_name l)%N
  /\ HeaderValue.try_from (HeaderValue.as_str h.2) = Ok h.2
  /\ stripped CR LF (HeaderValue.as_str h.2) = true
  /\ (len (HeaderValue.as_str h.2) + 1 <= l_value l)%N.

(** The body and the headers of a message fit the limits. *)
Definition encodable `{HeaderMapOps} (l : Limits) (hm : HeaderMap) (body : bytes) : Prop :=
  Forall (encodable_header l) (sent_headers hm body)
  /\ (N.of_nat (length (sent_headers hm body)) <= l_count l)%N
  /\ (len body <= l_body l)%N /\ (len body <= MAX_CONTENT_LENGTH)%N.

Lemma token_char_inv b : token_char b = true -> is_space b = false /\ b <> ":"%byte /\ b <> SP /\ b <> CR.
Proof. byte_cases b; intros; repeat split; discriminate. Qed.

Lemma is_token_Forall w : is_token w = true -> w <> [] /\ Forall (fun b => token_char b = true) w.
Proof.
  unfold is_token. destruct w as [|b w]; [discriminate|].
  rewrite bool_decide_eq_false_2 by done. intros H. split; [done|].
  apply List.Forall_forall. intros x Hx. rewrite List.forallb_forall in H. auto.
Qed.

Lemma token_not_in w c : is_token w = true -> token_char c = false -> c ∉ w.
Proof.
  intros [_ Hw]%is_token_Forall Hc Hin. apply list_elem_of_In in Hin.
  rewrite List.Forall_forall in Hw. specialize (Hw c Hin). congruence.
Qed.

Lemma encodable_header_line l hn hv :
  encodable_header l (hn, hv) ->
  HeaderLine l (canonical_name hn) (SP :: HeaderValue.as_str hv) hn hv.
Proof.
  intros (Hwf & Hl & Hv & Hs & Hlv). cbn [fst snd] in *.
  destruct (wf_as_str hn Hwf) as (_ & _ & _ & Htok).
  split; [|split; [done|split; [|split]]].
  - now apply token_not_in.
  - unfold len in *. cbn [length]. lia.
  - rewrite trim_header_name_id; [now apply try_from_canonical_name|].
    intros b Hb. apply is_token_Forall in Htok as [_ Htok].
    apply last_Some_elem_of, list_elem_of_In in Hb. rewrite List.Forall_forall in Htok.
    now apply token_char_inv, Htok.
  - now rewrite trim_header_value_space.
Qed.

(** A list of headers is added in order. *)
Definition append_all `{HeaderMapOps} (l : Headers) (hm : HeaderMap) : HeaderMap :=
  fold_left (fun hm h => map_append h.1 h.2 hm) l hm.

Section Lines.
Context `{HeaderMapLaws}.

Lemma header_lines_head l (h : HeaderName * HeaderValue) :
  encodable_header l h -> forall rest x, head (header_line h ++ rest) = Some x -> is_space x = false.
Proof.
  intros (Hwf & _) rest x. destruct (wf_as_str h.1 Hwf) as (_ & _ & _ & Htok).
  apply is_token_Forall in Htok as [Hne Htok]. unfold header_line.
  destruct (canonical_name h.1) as [|b w]; [done|]. inversion Htok; subst.
  cbn. intros [= <-]. now apply token_char_inv.
Qed.

Lemma header_lines_text l hs hm :
  Forall (encodable_header l) hs ->
  (values_len hm + N.of_nat (length hs) <= l_count l)%N ->
  HeaderText l hm (header_lines hs ++ CRLF) (append_all hs hm).
Proof.
  intros Hall. revert hm. induction Hall as [|[hn hv] hs Hh Hall IH]; intros hm Hc.
  { constructor. }
  unfold header_lines. cbn [fmap list_fmap concat append_all fold_left fst snd].
  unfold header_line at 1. cbn [fst snd].
  rewrite <- !app_assoc. cbn [app]. rewrite <- !app_assoc.
  apply (ht_field _ _ _ (SP :: HeaderValue.as_str hv) _ hn hv).
  - now apply encodable_header_line.
  - cbn [length] in Hc. lia.
  - destruct hs as [|h' hs]; [now intros x [= <-]|]. inversion Hall; subst.
    cbn [fmap list_fmap concat]. rewrite <- app_assoc. now apply (header_lines_head l).
  - apply IH. rewrite values_len_append. cbn [length] in Hc. lia.
Qed.

Lemma iter_append_all hs hm : map_iter (append_all hs hm) ≡ map_iter hm ++ hs.
Proof.
  revert hm. induction hs as [|[n v] hs IH]; intros hm; cbn [append_all fold_left fst snd].
  { now rewrite app_nil_r. }
  fold (append_all hs (map_append n v hm)). rewrite IH, iter_append, <- app_assoc. reflexivity.
Qed.

(** The length that the written headers announce is that of the body. *)
Lemma sent_body_length hm body :
  (len body <= MAX_CONTENT_LENGTH)%N ->
  body_length (append_all (sent_headers hm body) map_default) = Some (len body).
Proof.
  intros Hl. unfold body_length, typed_try_get.
  rewrite get_all_iter, (headers_snd _ (with_name HeaderName.ContentLength (sent_headers hm body)))
    by now rewrite iter_append_all, iter_default.
  unfold sent_headers. rewrite with_name_app, with_without_name, app_nil_r.
  destruct (N.ltb_spec 0 (len body)) as [Hpos|Hz].
  - rewrite with_name_single. cbn [fmap list_fmap snd header_name typed_header_content_length].
    change [mkHeaderValue (to_string (len body))] with (ContentLength.encode (mkContentLength (len body))).
    pose proof (typed_decode_encode (valid:=content_length_valid) (mkContentLength (len body)) Hl) as E.
    cbn [typed_decode typed_encode typed_header_content_length] in E |- *. now rewrite E.
  - cbn. f_equal. lia.
Qed.
End Lines.

(** ** Round trips *)

(** A request that can be written and read back within the limits of a decoder. *)
Definition request_encodable `{HeaderMapOps} `{URIOps} (c : RequestDecoder.Config)
    (r : Request bytes) : Prop :=
  method_wf (method r) /\ (len (Method.as_str (method r)) <= RequestDecoder.c_method_max_length c)%N
  /\ uri_try_from (uri_to_string (uri r)) = Ok (uri r) /\ SP ∉ uri_to_string (uri r)
  /\ (len (uri_to_string (uri r)) <= RequestDecoder.c_uri_max_length c)%N
  /\ Request.version r = Rtsp2_0
  /\ encodable (request_limits c) (Request.headers r) (Request.body r).

(** A response that can be written and read back: its reason phrase is the canonical one when its
    status code has one. *)
Definition response_encodable `{HeaderMapOps} (c : ResponseDecoder.Config) (r : Response bytes) :
    Prop :=
  status_wf (status_code r) /\ reason_wf (reason_phrase r)
  /\ final_reason (status_code r) (Some (reason_phrase r)) = Some (reason_phrase r)
  /\ (len (Reason.as_str (reason_phrase r)) <= ResponseDecoder.c_reason_phrase_max_length c + 1)%N
  /\ version r = Rtsp2_0 /\ encodable (response_limits c) (headers r) (body r).

Section RoundTrip.
Context `{HeaderMapLaws}.

(** The message read back: its headers are those that were sent. *)
Definition received_headers (hm : HeaderMap) (body : bytes) : HeaderMap :=
  append_all (sent_headers hm body) map_default.

Lemma received_iter hm body : map_iter (received_headers hm body) ≡ sent_headers hm body.
Proof. unfold received_headers. now rewrite iter_append_all, iter_default. Qed.

Lemma received_text l hm body :
  encodable l hm body ->
  HeaderText l map_default (header_lines (sent_headers hm body) ++ CRLF) (received_headers hm body)
  /\ body_length (received_headers hm body) = Some (len body).
Proof.
  intros (Hall & Hc & _ & Hm). split; [|now apply sent_body_length].
  apply header_lines_text; [done|]. now rewrite values_len_default.
Qed.

Lemma method_as_str m : method_wf m -> Method.try_from (Method.as_str m) = Ok m /\ SP ∉ Method.as_str m.
Proof.
  intros Hwf. split.
  - apply method_try_from_iff. split; [done|]. destruct m; try reflexivity. now destruct Hwf as (_&_&?&_).
  - destruct m; try (apply token_not_in; reflexivity). destruct Hwf as (Ht & _). now apply token_not_in.
Qed.

Lemma encode_request_text `{URIOps} c (r : Request bytes) :
  request_encodable c r ->
  RequestText c (encode_request r [])
    (mkRequest (Request.body r) (received_headers (Request.headers r) (Request.body r)) (method r)
       (uri r) Rtsp2_0).
Proof.
  intros (Hm & Hml & Hu & Husp & Hul & Hv & He).
  destruct (method_as_str _ Hm) as [Hm1 Hm2]. destruct (received_text _ _ _ He) as [Ht Hb].
  pose proof (request_text c (Method.as_str (method r)) (method r) (uri_to_string (uri r)) (uri r)
    (as_encoded Rtsp2_0) _ _ (Request.body r) Hm1 Hm2 Hml Hu Husp Hul (length_as_encoded _)
    (try_decode_encoded _) Ht Hb (proj1 (proj2 (proj2 He)))) as Htext.
  unfold encode_request. rewrite encode_rest_lines, Hv. cbn [app].
  rewrite <- !app_assoc in Htext. rewrite <- !app_assoc. exact Htext.
Qed.

Lemma encode_response_text c (r : Response bytes) :
  response_encodable c r ->
  ResponseText c (encode_response r [])
    (mkResponse (body r) (received_headers (headers r) (body r)) (reason_phrase r) (status_code r)
       Rtsp2_0).
Proof.
  intros (Hs & Hr & Hf & Hrl & Hv & He). destruct (received_text _ _ _ He) as [Ht Hb].
  destruct (to_string_3 _ (status_range _ Hs)) as (x & y & z & Hxyz & _).
  pose proof (response_text c (as_encoded Rtsp2_0) (to_string (to_u16 (status_code r)))
    (status_code r) (Reason.as_str (reason_phrase r)) (reason_phrase r) (reason_phrase r) _ _ (body r)
    (length_as_encoded _) (try_decode_encoded _) ltac:(now rewrite Hxyz)
    (try_from_to_string _ Hs) Hr Hrl Hf Ht Hb (proj1 (proj2 (proj2 He)))) as Htext.
  unfold encode_response. rewrite encode_rest_lines, Hv. cbn [app].
  rewrite <- !app_assoc in Htext. rewrite <- !app_assoc. exact Htext.
Qed.

(** ** Properties *)

(** C26: Writing a request and reading it back with a new decoder, whatever bytes follow: for a request
    within the limits of the decoder, the decoder reads exactly the bytes written and returns the
    same method, URI, version and body. The headers it returns are, in order and up to the case of
    extension names, the length of a body that is not empty, in place of any content length the
    request had, and the other headers of the request. *)
Theorem request_roundtrip `{URIOps} (c : RequestDecoder.Config) (r : Request bytes) (k : bytes) :
  RequestDecoder.config_ok c -> request_encodable c r ->
  exists r' d', decode_request (RequestDecoder.with_config c) (encode_request r [] ++ k)
                = Return (Complete r', d', length (encode_request r []))
    /\ method r' = method r /\ uri r' = uri r /\ Request.version r' = Request.version r
    /\ Request.body r' = Request.body r
    /\ map_iter (Request.headers r') ≡ sent_headers (Request.headers r) (Request.body r).
Proof.
  intros Hok He. pose proof (encode_request_text c r He) as Ht.
  destruct (request_complete (RequestDecoder.with_config c) _ _ ltac:(now split) Hok Ht k) as [d' Hd].
  eexists _, d'. split; [exact Hd|]. cbn. destruct He as (_ & _ & _ & _ & _ & Hv & _).
  repeat split; [now rewrite Hv|apply received_iter].
Qed.

(** Writing a response and reading it back, in the same way. *)
Theorem response_roundtrip (c : ResponseDecoder.Config) (r : Response bytes) (k : bytes) :
  ResponseDecoder.config_ok c -> response_encodable c r ->
  exists r' d', decode_response (ResponseDecoder.with_config c) (encode_response r [] ++ k)
                = Return (Complete r', d', length (encode_response r []))
    /\ status_code r' = status_code r /\ reason_phrase r' = reason_phrase r
    /\ version r' = version r /\ body r' = body r
    /\ map_iter (headers r') ≡ sent_headers (headers r) (body r).
Proof.
  intros Hok He. pose proof (encode_response_text c r He) as Ht.
  destruct (response_complete (ResponseDecoder.with_config c) _ _ ltac:(now split) Hok Ht k) as [d' Hd].
  eexists _, d'. split; [exact Hd|]. cbn. destruct He as (_ & _ & _ & _ & Hv & _).
  repeat split; [now rewrite Hv|apply received_iter].
Qed.
End RoundTrip.

(** A run: a request whose own content length is wrong is sent with the right one. *)
Definition wrong_length_request : Request (H:=list_header_map) (H0:=text_uri) bytes :=
  mkRequest (H:=list_header_map) (H0:=text_uri) (bs "Body")
    [(HeaderName.ContentLength, mkHeaderValue (bs "99")); (CSeq, mkHeaderValue (bs "7"))]
    Setup (bs "rtsp://h/") Rtsp2_0.

Example encode_request_ex :
  encode_request (H0:=text_uri) wrong_length_request []
  = bs "SETUP rtsp://h/ RTSP/2.0" ++ CRLF ++ bs "Content-Length: 4" ++ CRLF ++ bs "CSeq: 7" ++ CRLF
    ++ CRLF ++ bs "Body".
Proof. reflexivity. Qed.

Lemma request_roundtrip_witness :
  exists r' d',
    decode_request (H0:=text_uri) RequestDecoder.decoder_new
      (encode_request (H0:=text_uri) wrong_length_request [] ++ bs "SETUP")
    = Return (Complete r', d', 60) /\ Request.body r' = bs "Body".
Proof.
  destruct (request_roundtrip (H1:=text_uri) RequestDecoder.config_default wrong_length_request
              (bs "SETUP")) as (r' & d' & Hd & _ & _ & _ & Hb & _).
  - now repeat split.
  - repeat split; try done.
    + intros Hin. repeat (apply elem_of_cons in Hin as [Hin|Hin]; [discriminate Hin|]). inversion Hin.
    + repeat constructor; done.
  - exists r', d'. split; [exact Hd|exact Hb].
Defined.

Definition sample_response : Response (H:=list_header_map) bytes :=
  mkResponse (H:=list_header_map) [] [(CSeq, mkHeaderValue (bs "7"))]
    (mkReasonPhrase (bs "Teapot")) (Status.Extension 418) Rtsp2_0.

Lemma response_roundtrip_witness :
  exists r' d',
    decode_response ResponseDecoder.decoder_new (encode_response sample_response [])
    = Return (Complete r', d', 32) /\ status_code r' = Status.Extension 418.
Proof.
  destruct (response_roundtrip ResponseDecoder.config_default sample_response [])
    as (r' & d' & Hd & Hs & _).
  - now repeat split.
  - split; [now apply (bool_decide_unpack _)|]. repeat split; try done. repeat constructor; done.
  - exists r', d'. rewrite app_nil_r in Hd. split; [exact Hd|exact Hs].
Defined.
