(* ===== verification/Codec.v ===== *)
(** * The codec

    Model of [rtsp-2/src/protocol/codec/mod.rs]: the codec tells requests from responses, drives
    the two decoders and the encoders, and reports the start and the end of its work as events. *)

From Stdlib Require Import Strings.Byte.
From stdpp Require Import base list numbers strings.
From S2P Require Import Prelude Text Syntax Version Method Reason Status HeaderName HeaderValue.
From S2P Require Import HeaderMap ContentLength Request Response Decoder RequestDecoder.
From S2P Require Import ResponseDecoder Encoder.

Local Open Scope nat_scope.
Local Open Scope rust_scope.

Definition MINIMUM_INFO_LINE_SIZE : nat := 5.

Inductive CodecEvent := DecodingEnded | DecodingStarted | EncodingEnded | EncodingStarted.

#[export] Instance codec_event_eq_dec : EqDecision CodecEvent.
Proof. solve_decision. Defined.

Section Codec.
Context `{HeaderMapOps} `{URIOps}.

Inductive Message :=
  | MRequest (r : Request bytes)
  | MResponse (r : Response bytes).

Inductive DecodeError :=
  | DERequest (e : RequestDecoder.DecodeError)
  | DEResponse (e : ResponseDecoder.DecodeError).

(** [IO] carries the error of the socket, which nothing in the crate looks at. *)
Inductive ProtocolError :=
  | PEDecodeError (e : DecodeError)
  | DecodingTimedOut
  | IO
  | UnexpectedEOF.

(** The event sink is the sending half of an unbounded channel: the events it has taken, oldest
    first, and whether the receiving half is still there. *)
Record EventSink := mkEventSink { sent : list CodecEvent; rx_alive : bool }.

Record Codec := mkCodec {
  request_decoder : RequestDecoder.Decoder;
  response_decoder : ResponseDecoder.Decoder;
  tx_event : option EventSink;
}.

Definition new : Codec := mkCodec RequestDecoder.decoder_new ResponseDecoder.decoder_new None.

Definition with_events (tx_event : EventSink) : Codec :=
  mkCodec RequestDecoder.decoder_new ResponseDecoder.decoder_new (Some tx_event).

(** [unbounded_send] fails exactly when the receiving half is gone; the codec then drops the
    sink. *)
Definition send_codec_event (event : CodecEvent) (self : Codec) : Codec :=
  mkCodec (request_decoder self) (response_decoder self)
    match tx_event self with
    | Some tx => if rx_alive tx then Some (mkEventSink (sent tx ++ [event]) true) else None
    | None => None
    end.

Notation CodecResult := (Outcome (Result (option Message) ProtocolError * Codec * bytes)).

(** [Codec::decode_request]. *)
Definition codec_decode_request (self : Codec) (buffer : bytes) : CodecResult :=
  let! (result, d, bytes_decoded) := decode_request (request_decoder self) buffer in
  let self := mkCodec d (response_decoder self) (tx_event self) in
  let! buffer := slice_from bytes_decoded buffer in
  Return match result with
         | Complete request =>
             (Ok (Some (MRequest request)), send_codec_event DecodingEnded self, buffer)
         | Incomplete => (Ok None, self, buffer)
         | Error error =>
             (Err (PEDecodeError (DERequest error)), send_codec_event DecodingEnded self, buffer)
         end.

(** [Codec::decode_response]. *)
Definition codec_decode_response (self : Codec) (buffer : bytes) : CodecResult :=
  let! (result, d, bytes_decoded) := decode_response (response_decoder self) buffer in
  let self := mkCodec (request_decoder self) d (tx_event self) in
  let! buffer := slice_from bytes_decoded buffer in
  Return match result with
         | Complete response =>
             (Ok (Some (MResponse response)), send_codec_event DecodingEnded self, buffer)
         | Incomplete => (Ok None, self, buffer)
         | Error error =>
             (Err (PEDecodeError (DEResponse error)), send_codec_event DecodingEnded self, buffer)
         end.

(** [while buffer.starts_with(b"\r\n") { buffer.split_to(2); }]. *)
Fixpoint skip_newlines (buffer : bytes) : bytes :=
  match buffer with
  | b0 :: ((b1 :: rest) as tl) =>
      if bool_decide (b0 = CR) && bool_decide (b1 = LF) then skip_newlines rest else b0 :: tl
  | _ => buffer
  end.

(** [state() != Method] and [state() != Version]. *)
Definition request_started (self : Codec) : bool :=
  match RequestDecoder.state (request_decoder self) with SMethod => false | _ => true end.
Definition response_started (self : Codec) : bool :=
  match ResponseDecoder.state (response_decoder self) with SVersion => false | _ => true end.

(** [Decoder::decode]. *)
Definition codec_decode (self : Codec) (buffer : bytes) : CodecResult :=
  if request_started self then codec_decode_request self buffer
  else if response_started self then codec_decode_response self buffer
  else
    let buffer := skip_newlines buffer in
    let self :=
      if bool_decide (buffer <> []) then send_codec_event DecodingStarted self else self in
    if length buffer <? MINIMUM_INFO_LINE_SIZE then Return (Ok None, self, buffer)
    else if starts_with (bs "RTSP/") buffer then codec_decode_response self buffer
    else codec_decode_request self buffer.

(** [Decoder::decode_eof]. *)
Definition decode_eof (self : Codec) (buffer : bytes) : CodecResult :=
  let! (result, self, buffer) := codec_decode self buffer in
  Return match result with
         | Err e => (Err e, self, buffer)
         | Ok (Some message) => (Ok (Some message), self, buffer)
         | Ok None =>
             if bool_decide (buffer = []) then (Ok None, self, buffer)
             else (Err UnexpectedEOF, self, buffer)
         end.

(** [Encoder::encode]. *)
Definition codec_encode (self : Codec) (message : Message) (buffer : bytes) :
    Result unit ProtocolError * Codec * bytes :=
  let self := send_codec_event EncodingStarted self in
  let buffer :=
    match message with
    | MRequest request => encode_request request buffer
    | MResponse response => encode_response response buffer
    end in
  let self := send_codec_event EncodingEnded self in
  (Ok tt, self, buffer).
End Codec.

(** ** Invariant *)

Section CodecSpec.
Context `{HeaderMapLaws} `{URIOps}.

(** Both decoders are well formed with the default configuration, and at most one of them has
    started a message. *)
Definition codec_wf (self : Codec) : Prop :=
  request_inv (request_decoder self) /\ response_inv (response_decoder self)
  /\ RequestDecoder.config (request_decoder self) = RequestDecoder.config_default
  /\ ResponseDecoder.config (response_decoder self) = ResponseDecoder.config_default
  /\ (request_started self = true -> response_started self = false).

(** A codec between two messages. *)
Definition codec_idle (self : Codec) : Prop :=
  codec_wf self /\ request_started self = false /\ response_started self = false.

Lemma request_started_spec self :
  request_started self = false <-> RequestDecoder.state (request_decoder self) = SMethod.
Proof. unfold request_started. destruct (RequestDecoder.state _); split; congruence. Qed.

Lemma response_started_spec self :
  response_started self = false <-> ResponseDecoder.state (response_decoder self) = SVersion.
Proof. unfold response_started. destruct (ResponseDecoder.state _); split; congruence. Qed.

Lemma idle_fresh self :
  codec_idle self ->
  RequestDecoder.fresh (request_decoder self) /\ ResponseDecoder.fresh (response_decoder self).
Proof.
  intros ((H1' & H2' & _) & Hr%request_started_spec & Hs%response_started_spec).
  unfold request_inv in H1'. unfold response_inv in H2'. rewrite Hr in H1'. rewrite Hs in H2'.
  now repeat split.
Qed.

Lemma send_started event self :
  request_started (send_codec_event event self) = request_started self
  /\ response_started (send_codec_event event self) = response_started self.
Proof. done. Qed.

Lemma send_wf event self : codec_wf self -> codec_wf (send_codec_event event self).
Proof. done. Qed.

(** The buffers the codec leaves are suffixes of the ones it was given. *)
Lemma skip_newlines_suffix b : exists p, b = p ++ skip_newlines b.
Proof.
  remember (length b) as m eqn:Hm. revert b Hm. induction m as [m IH] using lt_wf_ind. intros b ->.
  destruct b as [|b0 [|b1 b]]; [now exists []..|]. cbn [skip_newlines].
  destruct (bool_decide (b0 = CR) && bool_decide (b1 = LF)); [|now exists []].
  destruct (IH (length b) ltac:(cbn; lia) b eq_refl) as [p Hp]. exists (b0 :: b1 :: p). cbn.
  now rewrite <- Hp.
Qed.

(** What one call of a decoder does to the codec. *)
Lemma codec_decode_request_cases self b :
  codec_wf self -> response_started self = false ->
  exists r d n, decode_request (request_decoder self) b = Return (r, d, n) /\ n <= length b
    /\ codec_wf (mkCodec d (response_decoder self) (tx_event self))
    /\ codec_decode_request self b
       = Return (match r with
                 | Complete request => Ok (Some (MRequest request))
                 | Incomplete => Ok None
                 | Error error => Err (PEDecodeError (DERequest error))
                 end,
                 if is_incomplete r then mkCodec d (response_decoder self) (tx_event self)
                 else send_codec_event DecodingEnded (mkCodec d (response_decoder self) (tx_event self)),
                 drop n b).
Proof.
  intros (Hi & Hi2 & Hc & Hc2 & _) Hs.
  destruct (decode_total _ b Hi) as (r & d & n & E & Hn & Hi' & _).
  exists r, d, n. split; [exact E|]. split; [done|]. split.
  - split; [done|]. split; [done|]. cbn. rewrite (request_decode_config _ _ _ _ _ Hi E). done.
  - unfold codec_decode_request, decode_request. rewrite E. cbn [outcome_bind].
    rewrite slice_from_le by done. cbn [outcome_bind]. now destruct r.
Qed.

Lemma codec_decode_response_cases self b :
  codec_wf self -> request_started self = false ->
  exists r d n, decode_response (response_decoder self) b = Return (r, d, n) /\ n <= length b
    /\ codec_wf (mkCodec (request_decoder self) d (tx_event self))
    /\ codec_decode_response self b
       = Return (match r with
                 | Complete response => Ok (Some (MResponse response))
                 | Incomplete => Ok None
                 | Error error => Err (PEDecodeError (DEResponse error))
                 end,
                 if is_incomplete r then mkCodec (request_decoder self) d (tx_event self)
                 else send_codec_event DecodingEnded (mkCodec (request_decoder self) d (tx_event self)),
                 drop n b).
Proof.
  intros (Hi & Hi2 & Hc & Hc2 & _) Hs.
  destruct (decode_total _ b Hi2) as (r & d & n & E & Hn & Hi' & _).
  exists r, d, n. split; [exact E|]. split; [done|]. split.
  - split; [done|]. split; [done|]. cbn. rewrite (response_decode_config _ _ _ _ _ Hi2 E).
    split; [done|]. split; [done|]. unfold request_started in *. cbn. congruence.
  - unfold codec_decode_response, decode_response. rewrite E. cbn [outcome_bind].
    rewrite slice_from_le by done. cbn [outcome_bind]. now destruct r.
Qed.

(** The codec that reads from an idle state, after the newlines. *)
Definition idle_start (self : Codec) (buffer : bytes) : Codec :=
  if bool_decide (buffer <> []) then send_codec_event DecodingStarted self else self.

Lemma idle_start_spec self b :
  codec_idle self ->
  codec_idle (idle_start self b) /\ request_decoder (idle_start self b) = request_decoder self
  /\ response_decoder (idle_start self b) = response_decoder self.
Proof. unfold idle_start. now case_bool_decide. Qed.

Lemma codec_decode_idle self b :
  codec_idle self ->
  codec_decode self b
  = let b := skip_newlines b in
    if length b <? MINIMUM_INFO_LINE_SIZE then Return (Ok None, idle_start self b, b)
    else if starts_with (bs "RTSP/") b then codec_decode_response (idle_start self b) b
    else codec_decode_request (idle_start self b) b.
Proof. intros (_ & Hr & Hs). unfold codec_decode. now rewrite Hr, Hs. Qed.

(** ** Which decoder a message goes to *)

(** What the codec needs to see in a text to take it for a request, or for a response. *)
Definition request_head (t : bytes) : Prop :=
  5 <= length t /\ forall k, skip_newlines (t ++ k) = t ++ k /\ starts_with (bs "RTSP/") (t ++ k) = false.

Definition response_head (t : bytes) : Prop :=
  5 <= length t /\ forall k, skip_newlines (t ++ k) = t ++ k /\ starts_with (bs "RTSP/") (t ++ k) = true.

Lemma skip_newlines_id b : head b <> Some CR -> skip_newlines b = b.
Proof.
  destruct b as [|b0 [|b1 b]]; [done..|]. intros Hb. cbn [skip_newlines].
  rewrite bool_decide_eq_false_2; [done|]. intros ->. now apply Hb.
Qed.

(** A token before a space is not the start of a version. *)
Lemma token_head w rest : is_token w = true -> 3 <= length rest -> request_head (w ++ SP :: rest).
Proof.
  intros Hw Hr. destruct (is_token_Forall w Hw) as [Hne Hall].
  assert (1 <= length w) by (destruct w; [done|cbn; lia]). split; [length_lia|].
  intros k. split.
  - apply skip_newlines_id. destruct w as [|b w]; [done|]. inversion Hall; subst. cbn.
    intros [= ->]. discriminate.
  - apply bool_decide_eq_false_2. intros [k' Hk].
    assert (Hslash : ((w ++ SP :: rest) ++ k) !! 4 = Some "/"%byte) by now rewrite Hk.
    assert (Hlt : length w < 5 -> ((w ++ SP :: rest) ++ k) !! length w = Some SP).
    { intros _. rewrite <- app_assoc, lookup_app_r, Nat.sub_diag by lia. done. }
    destruct (decide (length w < 5)) as [Hl|Hl].
    + specialize (Hlt Hl). rewrite Hk in Hlt. destruct w as [|? [|? [|? [|? [|]]]]]; cbn in Hl; try lia;
        discriminate Hlt.
    + rewrite <- app_assoc, lookup_app_l in Hslash by lia.
      rewrite Forall_lookup in Hall. now specialize (Hall _ _ Hslash).
Qed.

Lemma method_token m : method_wf m -> is_token (Method.as_str m) = true.
Proof. destruct m; try reflexivity. now intros [? _]. Qed.

Lemma encode_request_head c r : request_encodable c r -> request_head (encode_request r []).
Proof.
  intros (Hm & _). unfold encode_request. rewrite encode_rest_lines. cbn [app].
  rewrite <- !app_assoc. change (bs " ") with [SP]. cbn [app].
  apply token_head; [now apply method_token|]. length_lia.
Qed.

Lemma encode_response_head c r : response_encodable c r -> response_head (encode_response r []).
Proof.
  intros (_ & _ & _ & _ & Hv & _). unfold encode_response. rewrite encode_rest_lines, Hv. cbn [app].
  rewrite <- !app_assoc. split; [rewrite length_app, length_as_encoded; lia|].
  intros k. split; [reflexivity|].
  apply bool_decide_eq_true_2. eexists. reflexivity.
Qed.

(** ** A whole message is read *)

Lemma decode_idle_request self t r k :
  codec_idle self -> RequestText RequestDecoder.config_default t r -> request_head t ->
  exists self', codec_decode self (t ++ k) = Return (Ok (Some (MRequest r)), self', k)
                /\ codec_idle self'.
Proof.
  intros Hid Ht [Hlen Hhead]. destruct (Hhead k) as [Hskip Hsw].
  rewrite codec_decode_idle by done. cbv zeta. rewrite Hskip, Hsw.
  destruct (idle_start_spec self (t ++ k) Hid) as (Hid' & Erd & Esd).
  set (self1 := idle_start self (t ++ k)) in *. clearbody self1.
  replace (length (t ++ k) <? MINIMUM_INFO_LINE_SIZE) with false
    by (symmetry; apply Nat.ltb_ge; rewrite length_app; unfold MINIMUM_INFO_LINE_SIZE; lia).
  destruct (codec_decode_request_cases self1 (t ++ k) (proj1 Hid') (proj2 (proj2 Hid')))
    as (r1 & d & n & E & Hn & Hwf & ->).
  destruct (idle_fresh self1 Hid') as [Hf _].
  pose proof (proj1 Hid') as (Hi & _ & Hc & _). rewrite <- Hc in Ht.
  destruct (request_complete _ _ _ Hf ltac:(rewrite Hc; now repeat split) Ht k) as [d' E'].
  rewrite E in E'. injection E' as -> -> ->. rewrite drop_app_length.
  destruct (request_sound _ _ Hi _ _ _ E) as (_ & Hf' & _).
  eexists. split; [reflexivity|]. cbn [is_incomplete]. split; [exact Hwf|].
  split; [apply request_started_spec; now destruct Hf'|exact (proj2 (proj2 Hid'))].
Qed.

Lemma decode_idle_response self t r k :
  codec_idle self -> ResponseText ResponseDecoder.config_default t r -> response_head t ->
  exists self', codec_decode self (t ++ k) = Return (Ok (Some (MResponse r)), self', k)
                /\ codec_idle self'.
Proof.
  intros Hid Ht [Hlen Hhead]. destruct (Hhead k) as [Hskip Hsw].
  rewrite codec_decode_idle by done. cbv zeta. rewrite Hskip, Hsw.
  destruct (idle_start_spec self (t ++ k) Hid) as (Hid' & Erd & Esd).
  set (self1 := idle_start self (t ++ k)) in *. clearbody self1.
  replace (length (t ++ k) <? MINIMUM_INFO_LINE_SIZE) with false
    by (symmetry; apply Nat.ltb_ge; rewrite length_app; unfold MINIMUM_INFO_LINE_SIZE; lia).
  destruct (codec_decode_response_cases self1 (t ++ k) (proj1 Hid') (proj1 (proj2 Hid')))
    as (r1 & d & n & E & Hn & Hwf & ->).
  destruct (idle_fresh self1 Hid') as [_ Hf].
  pose proof (proj1 Hid') as (_ & Hi & _ & Hc & _). rewrite <- Hc in Ht.
  destruct (response_complete _ _ _ Hf ltac:(rewrite Hc; now repeat split) Ht k) as [d' E'].
  rewrite E in E'. injection E' as -> -> ->. rewrite drop_app_length.
  destruct (response_sound _ _ Hi _ _ _ E) as (_ & Hf' & _).
  eexists. split; [reflexivity|]. cbn [is_incomplete]. split; [exact Hwf|].
  split; [exact (proj1 (proj2 Hid'))|apply response_started_spec; now destruct Hf'].
Qed.

(** ** Sequences of messages *)

Definition encodable_message (m : Message) : Prop :=
  match m with
  | MRequest r => request_encodable RequestDecoder.config_default r
  | MResponse r => response_encodable ResponseDecoder.config_default r
  end.

(** The message the other side gets: the same, with the headers that were sent. *)
Definition received_message (m m' : Message) : Prop :=
  match m, m' with
  | MRequest r, MRequest r' =>
      method r' = method r /\ uri r' = uri r /\ Request.version r' = Request.version r
      /\ Request.body r' = Request.body r
      /\ map_iter (Request.headers r') ≡ sent_headers (Request.headers r) (Request.body r)
  | MResponse r, MResponse r' =>
      status_code r' = status_code r /\ reason_phrase r' = reason_phrase r
      /\ version r' = version r /\ body r' = body r
      /\ map_iter (headers r') ≡ sent_headers (headers r) (body r)
  | _, _ => False
  end.

(** Encoding messages one after the other in a buffer. *)
Fixpoint encode_all (self : Codec) (ms : list Message) (buffer : bytes) : Codec * bytes :=
  match ms with
  | [] => (self, buffer)
  | m :: ms => let '(_, self, buffer) := codec_encode self m buffer in encode_all self ms buffer
  end.

(** Decoding up to [n] messages from a buffer, until there is none. *)
Fixpoint decode_many (n : nat) (self : Codec) (buffer : bytes) :
    Outcome (list Message * Codec * bytes) :=
  match n with
  | O => Return ([], self, buffer)
  | S n =>
      let! (r, self, buffer) := codec_decode self buffer in
      match r with
      | Ok (Some m) =>
          let! (ms, self, buffer) := decode_many n self buffer in Return (m :: ms, self, buffer)
      | _ => Return ([], self, buffer)
      end
  end.

Definition message_text (m : Message) : bytes :=
  match m with
  | MRequest r => encode_request r []
  | MResponse r => encode_response r []
  end.

Lemma encode_request_app (r : Request bytes) b : encode_request r b = b ++ encode_request r [].
Proof. unfold encode_request. rewrite !encode_rest_lines. cbn [app]. now rewrite <- !app_assoc. Qed.

Lemma encode_response_app (r : Response bytes) b : encode_response r b = b ++ encode_response r [].
Proof. unfold encode_response. rewrite !encode_rest_lines. cbn [app]. now rewrite <- !app_assoc. Qed.

Lemma codec_encode_text self m b : (codec_encode self m b).2 = b ++ message_text m.
Proof. destruct m; cbn; [apply encode_request_app|apply encode_response_app]. Qed.

Lemma encode_all_text self ms b : (encode_all self ms b).2 = b ++ concat (message_text <$> ms).
Proof.
  revert self b. induction ms as [|m ms IH]; intros self b; cbn [encode_all].
  { cbn. now rewrite app_nil_r. }
  pose proof (codec_encode_text self m b) as E. destruct (codec_encode self m b) as [[r self'] b'].
  cbn in E. subst b'. rewrite IH. cbn. now rewrite <- app_assoc.
Qed.

Lemma decode_message self m k :
  codec_idle self -> encodable_message m ->
  exists m' self', codec_decode self (message_text m ++ k) = Return (Ok (Some m'), self', k)
                   /\ codec_idle self' /\ received_message m m'.
Proof.
  intros Hid Hm. destruct m as [r|r]; cbn [message_text encodable_message] in *.
  - pose proof (encode_request_text _ r Hm) as Ht.
    destruct (decode_idle_request self _ _ k Hid Ht (encode_request_head _ _ Hm)) as (self' & Hd & Hid').
    eexists _, self'. split; [exact Hd|]. split; [exact Hid'|]. cbn.
    destruct Hm as (_ & _ & _ & _ & _ & Hv & _). rewrite Hv. repeat split. apply received_iter.
  - pose proof (encode_response_text _ r Hm) as Ht.
    destruct (decode_idle_response self _ _ k Hid Ht (encode_response_head _ _ Hm)) as (self' & Hd & Hid').
    eexists _, self'. split; [exact Hd|]. split; [exact Hid'|]. cbn.
    destruct Hm as (_ & _ & _ & _ & Hv & _). rewrite Hv. repeat split. apply received_iter.
Qed.

Lemma decode_messages (self : Codec) (ms : list Message) (k : bytes) :
  codec_idle self -> Forall encodable_message ms ->
  exists ms' self', decode_many (length ms) self (concat (message_text <$> ms) ++ k) = Return (ms', self', k)
    /\ Forall2 received_message ms ms' /\ codec_idle self'.
Proof.
  intros Hid Hms. revert self Hid.
  induction Hms as [|m ms Hm Hms IH]; intros self Hid; [now exists [], self|].
  cbn [fmap list_fmap concat length decode_many]. rewrite <- app_assoc.
  destruct (decode_message self m (concat (message_text <$> ms) ++ k) Hid Hm)
    as (m' & self1 & -> & Hid1 & Hm'). cbn [outcome_bind].
  destruct (IH self1 Hid1) as (ms' & self' & Hd & Hall & Hid'). rewrite Hd. cbn [outcome_bind].
  exists (m' :: ms'), self'. split; [done|]. split; [now constructor|done].
Qed.

(** ** Resuming *)

(** A codec, and the result of a call, without the events. *)
Definition quiet_codec (c : Codec) : Codec :=
  mkCodec (request_decoder c) (response_decoder c) None.

Definition quiet (o : Outcome (Result (option Message) ProtocolError * Codec * bytes)) :
    Outcome (Result (option Message) ProtocolError * Codec * bytes) :=
  match o with
  | Return (r, c, b) => Return (r, quiet_codec c, b)
  | Panic => Panic
  end.

Lemma quiet_request self1 self2 b :
  request_decoder self1 = request_decoder self2 ->
  response_decoder self1 = response_decoder self2 ->
  quiet (codec_decode_request self1 b) = quiet (codec_decode_request self2 b).
Proof.
  destruct self1, self2. cbn. intros -> ->. unfold codec_decode_request. cbn.
  destruct (decode_request _ b) as [[[r d] n]|]; [|done]. cbn.
  destruct (slice_from n b); [|done]. now destruct r.
Qed.

Lemma quiet_response self1 self2 b :
  request_decoder self1 = request_decoder self2 ->
  response_decoder self1 = response_decoder self2 ->
  quiet (codec_decode_response self1 b) = quiet (codec_decode_response self2 b).
Proof.
  destruct self1, self2. cbn. intros -> ->. unfold codec_decode_response. cbn.
  destruct (decode_response _ b) as [[[r d] n]|]; [|done]. cbn.
  destruct (slice_from n b); [|done]. now destruct r.
Qed.

Lemma request_resume self b r d n k :
  codec_wf self -> decode_request (request_decoder self) b = Return (r, d, n) -> n <= length b ->
  match r with
  | Complete m =>
      codec_decode_request self (b ++ k)
      = Return (Ok (Some (MRequest m)),
                send_codec_event DecodingEnded (mkCodec d (response_decoder self) (tx_event self)),
                drop n b ++ k)
  | Incomplete =>
      quiet (codec_decode_request self (b ++ k))
      = quiet (codec_decode_request (mkCodec d (response_decoder self) (tx_event self)) (drop n b ++ k))
  | Error _ => True
  end.
Proof.
  intros (Hi & _) E Hn. pose proof (decode_app _ b k _ _ _ Hi E) as Ha.
  destruct r as [m| |]; [|done|].
  - unfold codec_decode_request, decode_request. rewrite Ha. cbn [outcome_bind].
    rewrite slice_from_le by (rewrite length_app; lia). cbn. now rewrite drop_app_le by lia.
  - unfold codec_decode_request, decode_request. rewrite Ha. cbn [request_decoder].
    destruct (decode d (drop n b ++ k)) as [[[r' d'] m]|]; [|done]. cbn [shift outcome_bind].
    unfold slice_from.
    replace (n + m <=? length (b ++ k)) with (m <=? length (drop n b ++ k)).
    2:{ apply eq_true_iff_eq. rewrite !Nat.leb_le, !length_app, length_drop. lia. }
    destruct (m <=? _); [|done]. cbn [outcome_bind response_decoder tx_event].
    rewrite <- drop_drop, drop_app_le by lia. now destruct r'.
Qed.

Lemma response_resume self b r d n k :
  codec_wf self -> decode_response (response_decoder self) b = Return (r, d, n) -> n <= length b ->
  match r with
  | Complete m =>
      codec_decode_response self (b ++ k)
      = Return (Ok (Some (MResponse m)),
                send_codec_event DecodingEnded (mkCodec (request_decoder self) d (tx_event self)),
                drop n b ++ k)
  | Incomplete =>
      quiet (codec_decode_response self (b ++ k))
      = quiet (codec_decode_response (mkCodec (request_decoder self) d (tx_event self)) (drop n b ++ k))
  | Error _ => True
  end.
Proof.
  intros (_ & Hi & _) E Hn. pose proof (decode_app _ b k _ _ _ Hi E) as Ha.
  destruct r as [m| |]; [|done|].
  - unfold codec_decode_response, decode_response. rewrite Ha. cbn [outcome_bind].
    rewrite slice_from_le by (rewrite length_app; lia). cbn. now rewrite drop_app_le by lia.
  - unfold codec_decode_response, decode_response. rewrite Ha. cbn [response_decoder].
    destruct (decode d (drop n b ++ k)) as [[[r' d'] m]|]; [|done]. cbn [shift outcome_bind].
    unfold slice_from.
    replace (n + m <=? length (b ++ k)) with (m <=? length (drop n b ++ k)).
    2:{ apply eq_true_iff_eq. rewrite !Nat.leb_le, !length_app, length_drop. lia. }
    destruct (m <=? _); [|done]. cbn [outcome_bind request_decoder tx_event].
    rewrite <- drop_drop, drop_app_le by lia. now destruct r'.
Qed.

(** ** Newlines before a message *)

Lemma skip_newlines_ind (P : bytes -> Prop) :
  (forall b, skip_newlines b = b -> P b) ->
  (forall b, P b -> P (CR :: LF :: b)) ->
  forall b, P b.
Proof.
  intros H1' H2' b. remember (length b) as m eqn:Hm. revert b Hm.
  induction m as [m IH] using lt_wf_ind. intros b ->.
  destruct b as [|b0 [|b1 b]]; [now apply H1'..|].
  destruct (bool_decide (b0 = CR) && bool_decide (b1 = LF)) eqn:E.
  - apply andb_prop in E as [->%bool_decide_eq_true ->%bool_decide_eq_true].
    apply H2', (IH (length b)); [cbn; lia|done].
  - apply H1'. cbn [skip_newlines]. now rewrite E.
Qed.

Lemma skip_newlines_idemp b : skip_newlines (skip_newlines b) = skip_newlines b.
Proof. induction b as [b Hb|b IH] using skip_newlines_ind; [congruence|exact IH]. Qed.

Lemma skip_newlines_fixed_app b k :
  skip_newlines b = b -> 2 <= length b -> skip_newlines (b ++ k) = b ++ k.
Proof.
  intros Hb Hl. destruct b as [|b0 [|b1 b]]; [cbn in Hl; lia..|]. revert Hb.
  cbn [app skip_newlines]. destruct (bool_decide (b0 = CR) && bool_decide (b1 = LF)); [|done].
  intros Hb. exfalso. destruct (skip_newlines_suffix b) as [p Hp].
  apply (f_equal length) in Hp. rewrite Hb, length_app in Hp. cbn in Hp. lia.
Qed.

Lemma skip_newlines_app b k : skip_newlines (b ++ k) = skip_newlines (skip_newlines b ++ k).
Proof. induction b as [b Hb|b IH] using skip_newlines_ind; [now rewrite Hb|exact IH]. Qed.

Lemma starts_with_app_long p b k :
  length p <= length b -> starts_with p (b ++ k) = starts_with p b.
Proof.
  intros Hl. apply bool_decide_ext. split.
  - intros [q Hq]. exists (drop (length p) b). rewrite <- (take_drop (length p) b) at 1. f_equal.
    apply (f_equal (take (length p))) in Hq. now rewrite take_app_le, take_app_length in Hq by lia.
  - intros [q ->]. exists (q ++ k). now rewrite app_assoc.
Qed.

(** Reading from an idle codec a buffer without newlines in front, long enough to choose. *)
Lemma codec_decode_chosen self b k :
  codec_idle self -> skip_newlines b = b -> 5 <= length b ->
  codec_decode self (b ++ k)
  = if starts_with (bs "RTSP/") b
    then codec_decode_response (send_codec_event DecodingStarted self) (b ++ k)
    else codec_decode_request (send_codec_event DecodingStarted self) (b ++ k).
Proof.
  intros Hid Hb Hl. rewrite codec_decode_idle by done. cbv zeta.
  rewrite skip_newlines_fixed_app by (done || lia). unfold idle_start.
  rewrite bool_decide_eq_true_2 by (destruct b; [cbn in Hl; lia|done]).
  destruct (Nat.ltb_spec (length (b ++ k)) MINIMUM_INFO_LINE_SIZE) as [Hlt|_].
  { rewrite length_app in Hlt. unfold MINIMUM_INFO_LINE_SIZE in Hlt. lia. }
  now rewrite starts_with_app_long by (cbn; lia).
Qed.

(** The first call of [codec_decode] on a request that is not complete, then the second. *)
Lemma request_incomplete_resume self b d n k :
  codec_wf self -> response_started self = false ->
  decode_request (request_decoder self) b = Return (Incomplete, d, n) -> n <= length b ->
  (request_started self = false ->
     skip_newlines b = b /\ 5 <= length b /\ starts_with (bs "RTSP/") b = false) ->
  let self' := mkCodec d (response_decoder self) (tx_event self) in
  quiet (codec_decode_request self (b ++ k)) = quiet (codec_decode self' (drop n b ++ k)).
Proof.
  intros Hwf Hs E Hn Hb self'. pose proof (request_resume self b _ d n k Hwf E Hn) as Hr. cbn in Hr.
  rewrite Hr. fold self'. unfold codec_decode.
  destruct (request_started self') eqn:Hst; [done|].
  replace (response_started self') with false by (symmetry; exact Hs).
  pose proof (proj1 Hwf) as Hi.
  destruct (request_decode_incomplete _ _ _ _ Hi E) as [[-> ->]|Hne];
    [|now apply request_started_spec in Hst].
  destruct (Hb Hst) as (Hskip & Hl & Hsw). rewrite drop_0. cbv zeta.
  rewrite skip_newlines_fixed_app by (done || lia).
  destruct (Nat.ltb_spec (length (b ++ k)) MINIMUM_INFO_LINE_SIZE) as [Hlt|_].
  { rewrite length_app in Hlt. unfold MINIMUM_INFO_LINE_SIZE in Hlt. lia. }
  rewrite starts_with_app_long, Hsw by (cbn; lia). apply quiet_request; now case_bool_decide.
Qed.

Lemma response_incomplete_resume self b d n k :
  codec_wf self -> request_started self = false ->
  decode_response (response_decoder self) b = Return (Incomplete, d, n) -> n <= length b ->
  (response_started self = false ->
     skip_newlines b = b /\ 5 <= length b /\ starts_with (bs "RTSP/") b = true) ->
  let self' := mkCodec (request_decoder self) d (tx_event self) in
  quiet (codec_decode_response self (b ++ k)) = quiet (codec_decode self' (drop n b ++ k)).
Proof.
  intros Hwf Hs E Hn Hb self'. pose proof (response_resume self b _ d n k Hwf E Hn) as Hr. cbn in Hr.
  rewrite Hr. fold self'. unfold codec_decode.
  replace (request_started self') with false by (symmetry; exact Hs).
  destruct (response_started self') eqn:Hst; [done|].
  pose proof (proj1 (proj2 Hwf)) as Hi.
  destruct (response_decode_incomplete _ _ _ _ Hi E) as [[-> ->]|Hne];
    [|now apply response_started_spec in Hst].
  destruct (Hb Hst) as (Hskip & Hl & Hsw). rewrite drop_0. cbv zeta.
  rewrite skip_newlines_fixed_app by (done || lia).
  destruct (Nat.ltb_spec (length (b ++ k)) MINIMUM_INFO_LINE_SIZE) as [Hlt|_].
  { rewrite length_app in Hlt. unfold MINIMUM_INFO_LINE_SIZE in Hlt. lia. }
  rewrite starts_with_app_long, Hsw by (cbn; lia). apply quiet_response; now case_bool_decide.
Qed.

(** What a call left for the next one: [Some] message is found in longer buffers too, and [None]
    means that the next call continues where this one stopped. *)
Definition resumes (self : Codec) (b : bytes)
    (o : Outcome (Result (option Message) ProtocolError * Codec * bytes)) : Prop :=
  match o with
  | Return (Ok (Some m), self', b') =>
      forall k, codec_decode self (b ++ k) = Return (Ok (Some m), self', b' ++ k)
  | Return (Ok None, self', b') =>
      forall k, quiet (codec_decode self (b ++ k)) = quiet (codec_decode self' (b' ++ k))
  | _ => True
  end.

Lemma request_resumes self b :
  codec_wf self -> response_started self = false ->
  (request_started self = false ->
     skip_newlines b = b /\ 5 <= length b /\ starts_with (bs "RTSP/") b = false) ->
  match codec_decode_request self b with
  | Return (Ok (Some m), self', b') =>
      forall k, codec_decode_request self (b ++ k) = Return (Ok (Some m), self', b' ++ k)
  | Return (Ok None, self', b') =>
      forall k, quiet (codec_decode_request self (b ++ k)) = quiet (codec_decode self' (b' ++ k))
  | _ => True
  end.
Proof.
  intros Hwf Hs Hb.
  destruct (codec_decode_request_cases self b Hwf Hs) as (r & d & n & E & Hn & Hwf' & ->).
  destruct r as [m|e|]; [|done|]; intros k.
  - exact (request_resume self b _ d n k Hwf E Hn).
  - now apply request_incomplete_resume.
Qed.

Lemma response_resumes self b :
  codec_wf self -> request_started self = false ->
  (response_started self = false ->
     skip_newlines b = b /\ 5 <= length b /\ starts_with (bs "RTSP/") b = true) ->
  match codec_decode_response self b with
  | Return (Ok (Some m), self', b') =>
      forall k, codec_decode_response self (b ++ k) = Return (Ok (Some m), self', b' ++ k)
  | Return (Ok None, self', b') =>
      forall k, quiet (codec_decode_response self (b ++ k)) = quiet (codec_decode self' (b' ++ k))
  | _ => True
  end.
Proof.
  intros Hwf Hs Hb.
  destruct (codec_decode_response_cases self b Hwf Hs) as (r & d & n & E & Hn & Hwf' & ->).
  destruct r as [m|e|]; [|done|]; intros k.
  - exact (response_resume self b _ d n k Hwf E Hn).
  - now apply response_incomplete_resume.
Qed.

Lemma codec_decode_resumes self b : codec_wf self -> resumes self b (codec_decode self b).
Proof.
  intros Hwf. unfold codec_decode at 1.
  destruct (request_started self) eqn:Hr.
  - pose proof (proj2 (proj2 (proj2 (proj2 Hwf))) Hr) as Hs.
    pose proof (request_resumes self b Hwf Hs ltac:(congruence)) as Hres. revert Hres.
    unfold resumes, codec_decode. rewrite Hr. done.
  - destruct (response_started self) eqn:Hs.
    { pose proof (response_resumes self b Hwf Hr ltac:(congruence)) as Hres. revert Hres.
      unfold resumes, codec_decode. rewrite Hr, Hs. done. }
    assert (Hid : codec_idle self) by now split. fold (idle_start self (skip_newlines b)).
    set (b1 := skip_newlines b) in *.
    destruct (Nat.ltb_spec (length b1) MINIMUM_INFO_LINE_SIZE) as [Hlt|Hge].
    + intros k. destruct (idle_start_spec self b1 Hid) as (Hid' & Erd & Esd).
      rewrite !codec_decode_idle by done. cbv zeta. rewrite (skip_newlines_app b k). fold b1.
      set (b2 := skip_newlines (b1 ++ k)). destruct (length b2 <? _).
      { cbn. unfold idle_start. now repeat case_bool_decide. }
      destruct (starts_with _ b2); [apply quiet_response|apply quiet_request];
        unfold idle_start; now repeat case_bool_decide.
    + unfold MINIMUM_INFO_LINE_SIZE in Hge.
      assert (Hb1 : skip_newlines b1 = b1) by apply skip_newlines_idemp.
      assert (Hst : idle_start self b1 = send_codec_event DecodingStarted self).
      { unfold idle_start. rewrite bool_decide_eq_true_2; [done|]. destruct b1; [cbn in Hge; lia|done]. }
      rewrite Hst. set (self1 := send_codec_event DecodingStarted self) in *.
      assert (Hk : forall k, codec_decode self (b ++ k)
                = if starts_with (bs "RTSP/") b1 then codec_decode_response self1 (b1 ++ k)
                  else codec_decode_request self1 (b1 ++ k)).
      { intros k. unfold self1. rewrite <- (codec_decode_chosen self b1 k) by done.
        rewrite !codec_decode_idle by done. cbv zeta. now rewrite (skip_newlines_app b k). }
      destruct (starts_with (bs "RTSP/") b1) eqn:Hsw.
      * pose proof (response_resumes self1 b1 Hwf Hr ltac:(done)) as Hres. revert Hres.
        destruct (codec_decode_response self1 b1) as [[[[[m|]|e] s'] b']|]; try done; intros Hres k;
          rewrite Hk; apply Hres.
      * pose proof (request_resumes self1 b1 Hwf Hs ltac:(done)) as Hres. revert Hres.
        destruct (codec_decode_request self1 b1) as [[[[[m|]|e] s'] b']|]; try done; intros Hres k;
          rewrite Hk; apply Hres.
Qed.
End CodecSpec.

(** ** Properties *)

Section Properties.
Context `{HeaderMapLaws} `{URIOps}.

(** The codecs a program can hold. *)
Inductive codec_reachable : Codec -> Prop :=
  | reach_codec_new : codec_reachable new
  | reach_codec_events tx : codec_reachable (with_events tx)
  | reach_codec_encode self m b r self' b' :
      codec_reachable self -> codec_encode self m b = (r, self', b') -> codec_reachable self'
  | reach_codec_decode self b r self' b' :
      codec_reachable self -> codec_decode self b = Return (r, self', b') -> codec_reachable self'
  | reach_codec_eof self b r self' b' :
      codec_reachable self -> decode_eof self b = Return (r, self', b') -> codec_reachable self'.

Lemma codec_start_idle : codec_idle new /\ forall tx, codec_idle (with_events tx).
Proof. now repeat split. Qed.

(** The events a call of [decode] sends: the first attempt at a message that is not between its
    first line and its end starts a decoding, and a message or an error ends it. *)
Definition decode_events (self : Codec) (b : bytes)
    (r : Result (option Message) ProtocolError) : list CodecEvent :=
  (if request_started self || response_started self || bool_decide (skip_newlines b = [])
   then [] else [DecodingStarted])
  ++ match r with Ok None => [] | _ => [DecodingEnded] end.

(** The sink after some events. *)
Definition sink_after (events : list CodecEvent) (tx : option EventSink) : option EventSink :=
  match events with
  | [] => tx
  | _ => match tx with
         | Some tx => if rx_alive tx then Some (mkEventSink (sent tx ++ events) true) else None
         | None => None
         end
  end.

Lemma sink_after_app e es self :
  tx_event (send_codec_event e self) = sink_after [e] (tx_event self)
  /\ sink_after es (sink_after [e] (tx_event self)) = sink_after (e :: es) (tx_event self).
Proof.
  split; [done|]. destruct es as [|e' es]; [done|]. cbn.
  destruct (tx_event self) as [tx|]; [|done]. destruct (rx_alive tx); [|done].
  cbn. now rewrite <- app_assoc.
Qed.

(** What a call of a decoder leaves of a codec that has started no other message. *)
Definition call_ok (self : Codec) (o : Outcome (Result (option Message) ProtocolError * Codec * bytes))
    (b : bytes) : Prop :=
  exists r self' b', o = Return (r, self', b') /\ suffix b' b /\ codec_wf self'
    /\ tx_event self' = sink_after (match r with Ok None => [] | _ => [DecodingEnded] end) (tx_event self)
    /\ match r with
       | Ok (Some _) => codec_idle self'
       | Ok None => quiet (codec_decode self' b') = Return (Ok None, quiet_codec self', b')
       | Err e => forall b2, exists self2, codec_decode self' b2 = Return (Err e, self2, b2)
                                          /\ quiet_codec self2 = quiet_codec self'
       end.
Lemma request_call_ok self b :
  codec_wf self -> response_started self = false ->
  (request_started self = false ->
     skip_newlines b = b /\ 5 <= length b /\ starts_with (bs "RTSP/") b = false) ->
  call_ok self (codec_decode_request self b) b.
Proof.
  intros Hwf Hs Hb. destruct (codec_decode_request_cases self b Hwf Hs) as (r & d & n & E & Hn & Hwf' & ->).
  destruct (request_decode_outcome _ b (proj1 Hwf)) as (r1 & d1 & n1 & E1 & _ & _ & Hr).
  rewrite E in E1. injection E1 as <- <- <-.
  eexists _, _, _. split; [reflexivity|]. split; [exists (take n b); now rewrite take_drop|].
  split; [destruct r; exact Hwf'|]. split; [now destruct r|]. destruct r as [r|e|]; cbn [is_incomplete].
  - split; [exact Hwf'|]. split; [now apply request_started_spec; destruct Hr as [[_ ?] _]|exact Hs].
  - destruct Hr as [Hst Hr]. intros b2. unfold codec_decode, request_started. cbn. rewrite Hst.
    unfold codec_decode_request. cbn. rewrite Hr. cbn [outcome_bind]. rewrite slice_from_le by lia. cbn.
    rewrite drop_0. now eexists.
  - pose proof (request_incomplete_resume self b d n [] Hwf Hs E Hn Hb) as Hq. cbn in Hq.
    rewrite !app_nil_r in Hq. rewrite <- Hq. unfold codec_decode_request. rewrite E. cbn [outcome_bind].
    now rewrite slice_from_le by done.
Qed.

Lemma response_call_ok self b :
  codec_wf self -> request_started self = false ->
  (response_started self = false ->
     skip_newlines b = b /\ 5 <= length b /\ starts_with (bs "RTSP/") b = true) ->
  call_ok self (codec_decode_response self b) b.
Proof.
  intros Hwf Hs Hb. destruct (codec_decode_response_cases self b Hwf Hs) as (r & d & n & E & Hn & Hwf' & ->).
  destruct (response_decode_outcome _ b (proj1 (proj2 Hwf))) as (r1 & d1 & n1 & E1 & _ & _ & Hr).
  rewrite E in E1. injection E1 as <- <- <-.
  eexists _, _, _. split; [reflexivity|]. split; [exists (take n b); now rewrite take_drop|].
  split; [destruct r; exact Hwf'|]. split; [now destruct r|]. destruct r as [r|e|]; cbn [is_incomplete].
  - split; [exact Hwf'|]. split; [exact Hs|now apply response_started_spec; destruct Hr as [[_ ?] _]].
  - destruct Hr as [Hst Hr]. intros b2. unfold codec_decode.
    replace (request_started _) with false by (symmetry; exact Hs). unfold response_started. cbn. rewrite Hst.
    unfold codec_decode_response. cbn. rewrite Hr. cbn [outcome_bind]. rewrite slice_from_le by lia. cbn.
    rewrite drop_0. now eexists.
  - pose proof (response_incomplete_resume self b d n [] Hwf Hs E Hn Hb) as Hq. cbn in Hq.
    rewrite !app_nil_r in Hq. rewrite <- Hq. unfold codec_decode_response. rewrite E. cbn [outcome_bind].
    now rewrite slice_from_le by done.
Qed.

(** [call_ok] for a whole call of [decode], with the events it sends. *)
Definition decode_ok (self : Codec) (b : bytes)
    (o : Outcome (Result (option Message) ProtocolError * Codec * bytes)) : Prop :=
  exists r self' b', o = Return (r, self', b') /\ suffix b' b /\ codec_wf self'
    /\ tx_event self' = sink_after (decode_events self b r) (tx_event self)
    /\ match r with
       | Ok (Some _) => codec_idle self'
       | Ok None => quiet (codec_decode self' b') = Return (Ok None, quiet_codec self', b')
       | Err e => forall b2, exists self2, codec_decode self' b2 = Return (Err e, self2, b2)
                                          /\ quiet_codec self2 = quiet_codec self'
       end.

Lemma call_ok_decode self b o :
  request_started self || response_started self = true -> call_ok self o b -> decode_ok self b o.
Proof.
  intros Hst (r & self' & b' & -> & Hb & Hwf & Htx & Hr). exists r, self', b'.
  unfold decode_events. now rewrite Hst.
Qed.

Lemma call_ok_start self b o :
  codec_idle self -> skip_newlines b <> [] ->
  call_ok (send_codec_event DecodingStarted self) o (skip_newlines b) -> decode_ok self b o.
Proof.
  intros (_ & Hr1 & Hr2) Hne (r & self' & b' & -> & Hb & Hwf & Htx & Hr). exists r, self', b'.
  split; [done|]. split. { destruct (skip_newlines_suffix b) as [p Hp]. etrans; [exact Hb|now exists p]. }
  split; [done|]. split; [|exact Hr]. unfold decode_events. rewrite Hr1, Hr2. cbn [orb].
  rewrite bool_decide_eq_false_2 by done. rewrite Htx.
  destruct (sink_after_app DecodingStarted
              (match r with Ok None => [] | _ => [DecodingEnded] end) self) as [-> ->]. done.
Qed.

Lemma codec_decode_outcome self b : codec_wf self -> decode_ok self b (codec_decode self b).
Proof.
  intros Hwf. unfold codec_decode.
  destruct (request_started self) eqn:Hr1.
  { apply call_ok_decode; [now rewrite Hr1|]. apply request_call_ok; [done| |congruence].
    now apply Hwf. }
  destruct (response_started self) eqn:Hr2.
  { apply call_ok_decode; [now rewrite Hr1, Hr2|]. apply response_call_ok; [done|done|congruence]. }
  assert (Hid : codec_idle self) by now split. fold (idle_start self (skip_newlines b)).
  pose proof (skip_newlines_idemp b) as Hskip.
  destruct (Nat.ltb_spec (length (skip_newlines b)) MINIMUM_INFO_LINE_SIZE) as [Hlt|Hge].
  - destruct (idle_start_spec self (skip_newlines b) Hid) as (Hid' & Erd & Esd).
    eexists _, _, _. split; [reflexivity|]. split.
    { destruct (skip_newlines_suffix b) as [p Hp]. now exists p. }
    split; [apply Hid'|]. split.
    + unfold idle_start, decode_events. rewrite Hr1, Hr2. cbn [orb].
      now repeat case_bool_decide.
    + rewrite codec_decode_idle by done. cbv zeta. rewrite Hskip.
      apply Nat.ltb_lt in Hlt. rewrite Hlt. unfold idle_start. now case_bool_decide.
  - unfold MINIMUM_INFO_LINE_SIZE in Hge.
    assert (Hne : skip_newlines b <> []) by (intros Eb; rewrite Eb in Hge; cbn in Hge; lia).
    unfold idle_start. rewrite bool_decide_eq_true_2 by done.
    destruct (starts_with (bs "RTSP/") (skip_newlines b)) eqn:Hsw; apply call_ok_start; try done.
    + now apply response_call_ok.
    + now apply request_call_ok.
Qed.

(** Only the decoders refuse data. *)
Lemma codec_decode_error self b :
  codec_wf self ->
  exists r self' b', codec_decode self b = Return (r, self', b')
    /\ match r with Err e => exists e', e = PEDecodeError e' | Ok _ => True end.
Proof.
  intros Hwf. destruct (codec_decode_outcome self b Hwf) as (r & self' & b' & E & _).
  exists r, self', b'. split; [done|]. destruct r as [|e]; [done|]. revert E.
  unfold codec_decode, codec_decode_request, codec_decode_response. intros E.
  repeat first
    [ discriminate E
    | apply outcome_bind_Return in E as (? & _ & E)
    | injection E as <- <- <-; now eexists
    | match type of E with context [match ?x with _ => _ end] => destruct x end ].
Qed.

Lemma codec_reachable_wf self : codec_reachable self -> codec_wf self.
Proof.
  induction 1 as [| |self m b r self' b' _ IH E|self b r self' b' _ IH E|self b r self' b' _ IH E].
  1-2: apply codec_start_idle.
  - cbn in E. injection E as <- <- <-. exact IH.
  - destruct (codec_decode_outcome self b IH) as (? & ? & ? & E' & _ & Hwf & _). congruence.
  - destruct (codec_decode_outcome self b IH) as (r1 & s1 & b1 & E' & _ & Hwf & _).
    unfold decode_eof in E. rewrite E' in E. cbn in E.
    destruct r1 as [[m|]|e]; [|case_bool_decide|]; now injection E as <- <- <-.
Qed.


(** The events: a call that finds the codec between two messages, with something other than newlines
    in the buffer, sends [DecodingStarted] (at every such call, not only at the first one for a
    message); a call that returns a message or an error sends [DecodingEnded]; encoding sends one
    pair. A codec without a listener sends nothing, and drops a listener that is gone. *)
Theorem codec_events_spec (self : Codec) (b : bytes) (m : Message) :
  codec_reachable self ->
  (exists r self' b', codec_decode self b = Return (r, self', b')
    /\ tx_event self' = sink_after (decode_events self b r) (tx_event self))
  /\ tx_event (codec_encode self m b).1.2
     = sink_after [EncodingStarted; EncodingEnded] (tx_event self).
Proof.
  intros Hwf%codec_reachable_wf. split.
  - destruct (codec_decode_outcome self b Hwf) as (r & self' & b' & E & _ & _ & Htx & _).
    now exists r, self', b'.
  - cbn [codec_encode fst snd].
    destruct (sink_after_app EncodingStarted [EncodingEnded] self) as [<- <-].
    destruct m; reflexivity.
Qed.

(** Data that arrives in two parts: when the first part gives no message, going on with what is left
    of it and the second part is decoding both parts at once (up to the events); a message found in
    the first part is found in both together, and the second part stays behind it. *)
Theorem codec_decode_parts (self : Codec) (b k : bytes) :
  codec_reachable self ->
  match codec_decode self b with
  | Return (Ok (Some m), self', b') =>
      codec_decode self (b ++ k) = Return (Ok (Some m), self', b' ++ k)
  | Return (Ok None, self', b') =>
      quiet (codec_decode self (b ++ k)) = quiet (codec_decode self' (b' ++ k))
  | _ => True
  end.
Proof.
  intros Hwf%codec_reachable_wf. pose proof (codec_decode_resumes self b Hwf) as Hr.
  unfold resumes in Hr. destruct (codec_decode self b) as [[[[[m|]|e] self'] b']|]; auto.
Qed.

(** C3: Messages encoded one after the other in a buffer, by any codec, are the messages that another
    codec decodes from it, in that order; the bytes that follow them are left for the next call. *)
Theorem codec_messages_roundtrip (e self : Codec) (ms : list Message) (k : bytes) :
  codec_idle self -> Forall encodable_message ms ->
  exists ms' self', decode_many (length ms) self ((encode_all e ms []).2 ++ k) = Return (ms', self', k)
    /\ Forall2 received_message ms ms' /\ codec_idle self'.
Proof. intros Hid Hms. rewrite encode_all_text. now apply decode_messages. Qed.

(** The stream ends in the middle of a message that the other side was sending: no message is made
    up from the part that came. [UnexpectedEOF] is returned when bytes of the part are left in the
    buffer, but when the decoder has taken all of them the end is silent ([Ok None]), although the
    message is unfinished: its decoder holds it, and the rest of the message would have completed
    it. *)
Theorem decode_eof_cut (self : Codec) (m : Message) (p q : bytes) :
  codec_idle self -> encodable_message m -> message_text m = p ++ q -> q <> [] ->
  exists r self' b', decode_eof self p = Return (r, self', b')
    /\ match r with
       | Ok (Some _) => False
       | Ok None => b' = []
       | Err UnexpectedEOF => b' <> []
       | Err (PEDecodeError _) => True
       | Err _ => False
       end
    /\ (r = Ok None \/ r = Err UnexpectedEOF ->
        exists m' self2, quiet (codec_decode self' (b' ++ q)) = Return (Ok (Some m'), self2, [])
                         /\ received_message m m').
Proof.
  intros Hid Hm Ht Hq. destruct (decode_message self m [] Hid Hm) as (m' & self2 & Hd & _ & Hm').
  rewrite app_nil_r, Ht in Hd. pose proof (codec_decode_resumes self p (proj1 Hid)) as Hres.
  unfold decode_eof. destruct (codec_decode_error self p (proj1 Hid)) as (r & self' & b' & E & He).
  rewrite E in Hres |- *. cbn [outcome_bind]. destruct r as [[m1|]|e].
  - specialize (Hres q). rewrite Hd in Hres. injection Hres as _ _ Hnil. destruct b'; [|done].
    now destruct q.
  - specialize (Hres q). rewrite Hd in Hres. cbn in Hres.
    case_bool_decide; (eexists _, _, _; split; [reflexivity|]; split; [done|]; intros _);
      rewrite <- Hres; now exists m', (quiet_codec self2).
  - destruct He as [e' ->]. eexists _, _, _. split; [reflexivity|]. split; [done|].
    now intros [[=]|[=]].
Qed.
End Properties.

(** Runs over a sample header map. *)
Definition sample_codec : Codec (H:=list_header_map) (H0:=text_uri) :=
  with_events (mkEventSink [] true).

Definition sample_request : Request (H:=list_header_map) (H0:=text_uri) bytes :=
  mkRequest (H:=list_header_map) (H0:=text_uri) []
    [(CSeq, mkHeaderValue (bs "7"))] Options (bs "*") Rtsp2_0.

Lemma sample_request_encodable :
  encodable_message (H:=list_header_map) (H1:=text_uri) (MRequest sample_request).
Proof.
  repeat split; try done.
  - intros Hin. apply elem_of_cons in Hin as [Hin|Hin]; [discriminate Hin|inversion Hin].
  - repeat constructor; done.
Qed.


(** Two calls before the first line is complete: the start is reported twice. *)
Definition sample_codec_1 : Codec (H:=list_header_map) (H0:=text_uri) :=
  send_codec_event DecodingStarted sample_codec.

Lemma codec_events_spec_witness :
  exists r self' b',
    codec_decode sample_codec_1 (bs "OPTIO") = Return (r, self', b')
    /\ tx_event self' = Some (mkEventSink [DecodingStarted; DecodingStarted] true).
Proof.
  destruct (proj1 (codec_events_spec (H1:=text_uri) sample_codec_1 (bs "OPTIO")
                     (MRequest sample_request)
                     (reach_codec_decode sample_codec (bs "OPTI") (Ok None) sample_codec_1
                        (bs "OPTI") (reach_codec_events _) eq_refl)))
    as (r & self' & b' & E & Htx).
  exists r, self', b'. split; [exact E|]. rewrite Htx. injection E as <- <- <-. reflexivity.
Defined.

Lemma codec_decode_parts_witness :
  quiet (codec_decode sample_codec (bs "OPTI" ++ bs "ONS * RTSP/2.0"))
  = quiet (codec_decode sample_codec_1 (bs "OPTI" ++ bs "ONS * RTSP/2.0")).
Proof.
  exact (codec_decode_parts (H1:=text_uri) sample_codec (bs "OPTI") (bs "ONS * RTSP/2.0")
           (reach_codec_events _)).
Defined.

Lemma codec_messages_roundtrip_witness :
  exists ms' self',
    decode_many 2 sample_codec
      ((encode_all new [MRequest sample_request; MRequest sample_request] []).2 ++ bs "OPT")
    = Return (ms', self', bs "OPT") /\ length ms' = 2.
Proof.
  destruct (codec_messages_roundtrip (H1:=text_uri) new sample_codec
              [MRequest sample_request; MRequest sample_request] (bs "OPT"))
    as (ms' & self' & Hd & Hall & _).
  - now repeat split.
  - pose proof sample_request_encodable. now repeat (apply List.Forall_cons || apply List.Forall_nil || assumption).
  - exists ms', self'. split; [exact Hd|]. symmetry. exact (Forall2_length _ _ _ Hall).
Defined.

(** The stream ends after the first line. *)
Lemma decode_eof_cut_witness :
  exists self',
    decode_eof sample_codec (bs "OPTIONS * RTSP/2.0" ++ CRLF) = Return (Ok None, self', [])
    /\ exists m' self2,
         quiet (codec_decode self' (bs "CSeq: 7" ++ CRLF ++ CRLF)) = Return (Ok (Some m'), self2, []).
Proof.
  destruct (decode_eof_cut (H1:=text_uri) sample_codec (MRequest sample_request)
              (bs "OPTIONS * RTSP/2.0" ++ CRLF) (bs "CSeq: 7" ++ CRLF ++ CRLF))
    as (r & self' & b' & E & _ & Hgo);
    [now repeat split|exact sample_request_encodable|reflexivity|done|].
  injection E as <- <- <-. eexists. split; [reflexivity|].
  destruct (Hgo (or_introl eq_refl)) as (m' & self2 & Hd & _). now exists m', self2.
Defined.
