(* ===== verification/Messages.v ===== *)
(** * The messages of a stream

    What the codec of [rtsp-2/src/protocol/codec/mod.rs] makes of a stream of bytes that arrives in
    any pieces: the messages it returns are the texts of the grammar one after the other, and each of
    them is well formed. *)

From Stdlib Require Import Strings.Byte.
From stdpp Require Import base list numbers strings.
From S2P Require Import Prelude Text Syntax Version Method HeaderName HeaderValue HeaderMap CSeq ContentLength.
From S2P Require Import Status Reason Request Response Decoder RequestDecoder ResponseDecoder Codec.

Local Open Scope rust_scope.

(** ** Well-formed messages *)

Section Typed.
Context `{HeaderMapLaws} `{URIOps}.

(** A header that was decoded: a valid name, up to its spelling, and a valid value, within the
    limits. *)
Definition header_typed (l : Limits) (h : HeaderName * HeaderValue) : Prop :=
  (exists n, h.1 ≡ n /\ header_name_wf n /\ (len (HeaderName.as_str n) <= l_name l)%N)
  /\ HeaderValue.try_from (HeaderValue.as_str h.2) = Ok h.2
  /\ (len (HeaderValue.as_str h.2) <= l_value l)%N.

Definition headers_typed (l : Limits) (hm : HeaderMap) (body : bytes) : Prop :=
  Forall (header_typed l) (map_iter hm) /\ (values_len hm <= l_count l)%N
  /\ body_length hm = Some (len body) /\ (len body <= l_body l)%N.

(** What the types of the crate mean to guarantee for a request that comes from a decoder. *)
Definition request_typed (c : RequestDecoder.Config) (r : Request bytes) : Prop :=
  method_wf (method r) /\ (len (Method.as_str (method r)) <= RequestDecoder.c_method_max_length c)%N
  /\ (exists text, uri_try_from text = Ok (uri r) /\ (len text <= RequestDecoder.c_uri_max_length c)%N)
  /\ Request.version r = Rtsp2_0
  /\ headers_typed (request_limits c) (Request.headers r) (Request.body r).

(** And for a response: the reason phrase is the canonical one if its status code has one. *)
Definition response_typed (c : ResponseDecoder.Config) (r : Response bytes) : Prop :=
  status_wf (status_code r) /\ reason_wf (reason_phrase r)
  /\ match canonical_reason (status_code r) with
     | Some canonical => reason_phrase r = canonical
     | None => (len (Reason.as_str (reason_phrase r)) <= ResponseDecoder.c_reason_phrase_max_length c + 1)%N
     end
  /\ version r = Rtsp2_0 /\ headers_typed (response_limits c) (headers r) (body r).

Definition message_typed (m : Message) : Prop :=
  match m with
  | MRequest r => request_typed RequestDecoder.config_default r
  | MResponse r => response_typed ResponseDecoder.config_default r
  end.

(** The grammar of messages. *)
Definition MessageText (text : bytes) (m : Message) : Prop :=
  match m with
  | MRequest r => RequestText RequestDecoder.config_default text r
  | MResponse r => ResponseText ResponseDecoder.config_default text r
  end.

Lemma header_typed_equiv l h h' : h ≡ h' -> header_typed l h -> header_typed l h'.
Proof.
  destruct h as [n v], h' as [n' v']. intros [En Ev] ((n1 & E1 & Hwf & Hl) & Hv). cbn in En, Ev, E1, Hv |- *.
  rewrite <- Ev. split; [|exact Hv]. exists n1. split; [|now split]. now rewrite <- En.
Qed.

Lemma headers_typed_equiv l hs hs' :
  hs ≡ hs' -> Forall (header_typed l) hs -> Forall (header_typed l) hs'.
Proof.
  induction 1 as [|h h' hs hs' Hh _ IH]; [done|]. intros [Ht Hts]%Forall_cons.
  constructor; [exact (header_typed_equiv l h h' Hh Ht)|now apply IH].
Qed.

Lemma trim_header_value_length v : (len (trim_header_value v) <= len v)%N.
Proof.
  unfold trim_header_value, len. destruct (_ && _); [lia|]. rewrite length_drop. lia.
Qed.

Lemma header_line_typed l name v hn hv : HeaderLine l name v hn hv -> header_typed l (hn, hv).
Proof.
  intros (_ & Hn & Hv & Hname & Hvalue). apply HeaderName.try_from_Ok in Hname as (Hwf & Hstr & _).
  split; cbn.
  - exists hn. split; [done|]. split; [exact Hwf|]. rewrite <- Hstr. unfold len in *. rewrite length_fmap.
    unfold trim_header_name. rewrite length_take. lia.
  - pose proof (try_from_Some _ _ Hvalue) as [-> _]. cbn. split; [exact Hvalue|].
    pose proof (trim_header_value_length v). lia.
Qed.

Lemma header_text_typed l hm text hm' :
  HeaderText l hm text hm' -> Forall (header_typed l) (map_iter hm) -> (values_len hm <= l_count l)%N ->
  Forall (header_typed l) (map_iter hm') /\ (values_len hm' <= l_count l)%N.
Proof.
  induction 1 as [hm|hm name v text hn hv hm' Hl Hc _ _ IH]; [done|]. intros Ht _. apply IH.
  - eapply headers_typed_equiv; [symmetry; apply iter_append|]. apply Forall_app. split; [exact Ht|].
    apply Forall_singleton. exact (header_line_typed _ _ _ _ _ Hl).
  - rewrite values_len_append. lia.
Qed.

Lemma header_text_default_typed l text hm body :
  HeaderText l map_default text hm -> body_length hm = Some (len body) -> (len body <= l_body l)%N ->
  headers_typed l hm body.
Proof.
  intros Ht Hb Hl. destruct (header_text_typed _ _ _ _ Ht) as [Hall Hc].
  - rewrite iter_default. constructor.
  - rewrite values_len_default. lia.
  - now repeat split.
Qed.

Lemma status_try_from_wf value s : Status.try_from value = Ok s -> status_wf s.
Proof. destruct value as [|v0 [|v1 [|v2 []]]]; try discriminate. now intros [? _]%try_from_u16_Ok. Qed.

(** A text of the grammar is the text of a well-formed message. *)
Lemma message_text_typed text m : MessageText text m -> message_typed m.
Proof.
  destruct m as [r|r]; cbn [MessageText message_typed].
  - destruct 1 as [mw m uw u vw text hm bo Hm _ Hml Hu _ Hul _ _ Ht Hb Hbl].
    apply method_try_from_iff in Hm as [Hwf Hstr]. split; [exact Hwf|]. split.
    { cbn. rewrite <- Hstr. unfold len in *. now rewrite length_fmap. }
    split; [now exists uw|]. split; [done|]. now apply (header_text_default_typed _ text).
  - destruct 1 as [vw sw s rw re re' text hm bo _ _ _ Hs Hre Hrl Hfin Ht Hb Hbl].
    split; [exact (status_try_from_wf _ _ Hs)|]. cbn [status_code reason_phrase version headers body].
    apply reason_try_from_Ok in Hre as Hre'. destruct Hre' as [-> _].
    unfold final_reason in Hfin. destruct (canonical_reason s) as [canonical|] eqn:Ec; injection Hfin as <-.
    + split; [exact (canonical_reason_wf s canonical Ec)|]. split; [done|]. split; [done|].
      now apply (header_text_default_typed _ text).
    + split; [exact Hre|]. split; [exact Hrl|]. split; [done|]. now apply (header_text_default_typed _ text).
Qed.
End Typed.

(** ** The stream *)

Section Framed.
Context `{HeaderMapLaws} `{URIOps}.

(** A codec over a stream: bytes that arrive join its buffer, and it is asked for messages, at the end
    of the stream too, as long as it returns no error. The bytes that have arrived, and the messages
    it has returned. *)
Inductive framed_run : bytes -> list Message -> Codec -> bytes -> Prop :=
  | framed_new codec : codec_idle codec -> framed_run [] [] codec []
  | framed_arrive arrived ms codec buffer more :
      framed_run arrived ms codec buffer -> framed_run (arrived ++ more) ms codec (buffer ++ more)
  | framed_wait arrived ms codec buffer codec' buffer' :
      framed_run arrived ms codec buffer -> codec_decode codec buffer = Return (Ok None, codec', buffer') ->
      framed_run arrived ms codec' buffer'
  | framed_message arrived ms codec buffer m codec' buffer' :
      framed_run arrived ms codec buffer -> codec_decode codec buffer = Return (Ok (Some m), codec', buffer') ->
      framed_run arrived (ms ++ [m]) codec' buffer'
  | framed_end arrived ms codec buffer m codec' buffer' :
      framed_run arrived ms codec buffer -> decode_eof codec buffer = Return (Ok (Some m), codec', buffer') ->
      framed_run arrived (ms ++ [m]) codec' buffer'.

(** A message with the line breaks before it, which are skipped. *)
Definition message_read (text : bytes) (m : Message) : Prop :=
  exists skipped t, text = skipped ++ t /\ MessageText t m.

Lemma fresh_request_text d t r :
  RequestDecoder.fresh d -> RequestDecoder.rest_of d t r -> RequestText (RequestDecoder.config d) t r.
Proof. intros [Hb Hst] Hr. unfold RequestDecoder.rest_of in Hr. rewrite Hst, Hb in Hr. now apply RequestText_rest. Qed.

Lemma fresh_response_text d t r :
  ResponseDecoder.fresh d -> ResponseDecoder.rest_of d t r -> ResponseText (ResponseDecoder.config d) t r.
Proof. intros [Hb Hst] Hr. unfold ResponseDecoder.rest_of in Hr. rewrite Hst, Hb in Hr. now apply ResponseText_rest. Qed.

(** What a codec between two messages returns is a text of the grammar. *)
Lemma idle_message codec b m codec' b' :
  codec_idle codec -> codec_decode codec b = Return (Ok (Some m), codec', b') ->
  codec_idle codec' /\ exists text, b = text ++ b' /\ message_read text m.
Proof.
  intros Hid E. split.
  { destruct (codec_decode_outcome codec b (proj1 Hid)) as (r & self' & b1 & E1 & _ & _ & _ & Hr).
    rewrite E in E1. injection E1 as <- <- <-. exact Hr. }
  rewrite codec_decode_idle in E by done. cbv zeta in E.
  destruct (skip_newlines_suffix b) as [skipped Hb]. destruct (idle_start_spec codec b Hid) as (Hid' & _ & _).
  destruct (idle_start_spec codec (skip_newlines b) Hid) as (Hid1 & _ & _).
  set (self1 := idle_start codec (skip_newlines b)) in *. clearbody self1.
  destruct (_ <? _); [discriminate E|].
  destruct (idle_fresh self1 Hid1) as [Hf1 Hf2]. pose proof (proj1 Hid1) as (Hi1 & Hi2 & Hc1 & Hc2 & _).
  destruct (starts_with _ _).
  - destruct (codec_decode_response_cases self1 (skip_newlines b) (proj1 Hid1) (proj1 (proj2 Hid1)))
      as (r & d & n & Ed & Hn & _ & Ecase). rewrite Ecase in E. destruct r as [r| |]; try discriminate E.
    injection E as <- _ <-. destruct (response_sound _ _ Hi2 _ _ _ Ed) as ((t & rest & Ebt & -> & Ht) & _).
    exists (skipped ++ t). rewrite Ebt, drop_app_length, <- app_assoc, <- Ebt. split; [done|].
    exists skipped, t. split; [done|]. unfold MessageText. rewrite <- Hc2. now apply fresh_response_text.
  - destruct (codec_decode_request_cases self1 (skip_newlines b) (proj1 Hid1) (proj2 (proj2 Hid1)))
      as (r & d & n & Ed & Hn & _ & Ecase). rewrite Ecase in E. destruct r as [r| |]; try discriminate E.
    injection E as <- _ <-. destruct (request_sound _ _ Hi1 _ _ _ Ed) as ((t & rest & Ebt & -> & Ht) & _).
    exists (skipped ++ t). rewrite Ebt, drop_app_length, <- app_assoc, <- Ebt. split; [done|].
    exists skipped, t. split; [done|]. unfold MessageText. rewrite <- Hc1. now apply fresh_request_text.
Qed.

(** The state of a stream: the texts of the messages so far, and what came after them, which a codec
    between two messages would still have to read. *)
Definition framed_inv (arrived : bytes) (ms : list Message) (codec : Codec) (buffer : bytes) : Prop :=
  codec_wf codec /\ exists texts rest idle,
    arrived = concat texts ++ rest /\ Forall2 message_read texts ms /\ codec_idle idle
    /\ forall k, quiet (codec_decode codec (buffer ++ k)) = quiet (codec_decode idle (rest ++ k)).

Lemma quiet_eq o r c b : quiet o = Return (r, c, b) -> exists c1, o = Return (r, c1, b) /\ quiet_codec c1 = c.
Proof. destruct o as [[[r1 c1] b1]|]; cbn; [|done]. intros [= <- <- <-]. now exists c1. Qed.

Lemma codec_decode_wf codec b r codec' b' :
  codec_wf codec -> codec_decode codec b = Return (r, codec', b') -> codec_wf codec'.
Proof.
  intros Hwf E. destruct (codec_decode_outcome codec b Hwf) as (? & ? & ? & E' & _ & Hwf' & _). congruence.
Qed.

Lemma framed_inv_message arrived ms codec buffer m codec' buffer' :
  framed_inv arrived ms codec buffer -> codec_decode codec buffer = Return (Ok (Some m), codec', buffer') ->
  framed_inv arrived (ms ++ [m]) codec' buffer'.
Proof.
  intros (Hwf & texts & rest & idle & -> & Hall & Hid & Hk) E.
  split; [exact (codec_decode_wf _ _ _ _ _ Hwf E)|].
  pose proof (Hk []) as H0'. rewrite !app_nil_r, E in H0'. symmetry in H0'. cbn in H0'.
  apply quiet_eq in H0' as (c1 & E1 & _). destruct (idle_message _ _ _ _ _ Hid E1) as (_ & text & -> & Ht).
  destruct (codec_decode_outcome codec buffer Hwf) as (r & self' & b1 & E2 & _ & _ & _ & Hr).
  rewrite E in E2. injection E2 as <- <- <-.
  exists (texts ++ [text]), buffer', codec'. split; [now rewrite concat_app, <- app_assoc; cbn; rewrite app_nil_r|].
  split; [apply Forall2_app; [done|now repeat constructor]|]. now split.
Qed.

Lemma framed_run_inv arrived ms codec buffer :
  framed_run arrived ms codec buffer -> framed_inv arrived ms codec buffer.
Proof.
  induction 1 as [codec Hid|arrived ms codec buffer more _ (Hwf & texts & rest & idle & -> & Hall & Hid & Hk)
    |arrived ms codec buffer codec' buffer' _ (Hwf & texts & rest & idle & -> & Hall & Hid & Hk) E
    |arrived ms codec buffer m codec' buffer' _ IH E|arrived ms codec buffer m codec' buffer' _ IH E].
  - split; [apply Hid|]. exists [], [], codec. repeat (split; [done || constructor|]). done.
  - split; [exact Hwf|]. exists texts, (rest ++ more), idle. split; [now rewrite <- app_assoc|].
    split; [done|]. split; [done|]. intros k. rewrite <- !app_assoc. apply Hk.
  - split; [exact (codec_decode_wf _ _ _ _ _ Hwf E)|]. exists texts, rest, idle. do 3 (split; [done|]).
    intros k. pose proof (codec_decode_resumes codec buffer Hwf) as Hr. unfold resumes in Hr. rewrite E in Hr.
    now rewrite <- Hr.
  - now apply (framed_inv_message arrived ms codec buffer).
  - apply (framed_inv_message arrived ms codec buffer); [exact IH|]. unfold decode_eof in E.
    destruct (codec_decode codec buffer) as [[[r c] b]|]; [|done]. cbn in E.
    destruct r as [[m'|]|e]; [|destruct (bool_decide _)|]; congruence.
Qed.

(** ** Properties *)

(** C7: Whatever arrives on a stream and in whatever pieces, the messages that its codec returns are
    well formed: valid methods, URIs that were parsed, status codes and reason phrases, valid header
    names and values, all within the limits of the decoders, and a body of the length that the headers
    announce; and they are, in order, the messages whose texts have arrived. *)
Theorem framed_messages_typed arrived ms codec buffer :
  framed_run arrived ms codec buffer ->
  Forall message_typed ms
  /\ exists texts rest, arrived = concat texts ++ rest /\ Forall2 message_read texts ms.
Proof.
  intros (_ & texts & rest & idle & -> & Hall & _)%framed_run_inv. split; [|now exists texts, rest].
  induction Hall as [|text m texts ms (skipped & t & _ & Ht) _ IH]; [constructor|].
  constructor; [exact (message_text_typed t m Ht)|exact IH].
Qed.
End Framed.

(** A run: a request that arrives in two pieces. *)
Definition sample_codec (b : bytes) (c : Codec (H:=list_header_map) (H0:=text_uri)) :
    Result (option (Message (H:=list_header_map) (H0:=text_uri))) (ProtocolError (H0:=text_uri))
    * Codec (H:=list_header_map) (H0:=text_uri) * bytes :=
  match codec_decode c b with Return x => x | Panic => (Err IO, c, b) end.

Definition first_piece : bytes := take 30 example_text.
Definition second_piece : bytes := drop 30 example_text.
Definition after_first := sample_codec first_piece Codec.new.

Lemma sample_pieces :
  match codec_decode (H:=list_header_map) (H0:=text_uri) Codec.new first_piece with
  | Return (Ok None, _, _) => true
  | _ => false
  end = true
  /\ match codec_decode after_first.1.2 (after_first.2 ++ second_piece) with
     | Return (Ok (Some _), _, _) => true
     | _ => false
     end = true.
Proof. split; vm_compute; reflexivity. Qed.

Lemma framed_messages_typed_witness :
  exists m codec buffer,
    framed_run (H:=list_header_map) (H1:=text_uri) example_text [m] codec buffer
    /\ Forall (message_typed (H:=list_header_map) (H1:=text_uri)) [m].
Proof.
  destruct sample_pieces as [H1 H2].
  assert (R0 : framed_run (H:=list_header_map) (H1:=text_uri) ([] ++ first_piece) [] Codec.new ([] ++ first_piece)).
  { apply framed_arrive, framed_new. now repeat split. }
  unfold after_first, sample_codec in *.
  destruct (codec_decode Codec.new first_piece) as [[[[[m|]|e] c1] b1]|] eqn:E1; try discriminate H1.
  cbn [fst snd] in H2.
  assert (R1 : framed_run (H:=list_header_map) (H1:=text_uri) (([] ++ first_piece) ++ second_piece) [] c1 (b1 ++ second_piece)).
  { apply framed_arrive. exact (framed_wait _ _ _ _ _ _ R0 E1). }
  destruct (codec_decode c1 (b1 ++ second_piece)) as [[[[[m|]|e] c2] b2]|] eqn:E2; try discriminate H2.
  pose proof (framed_message _ _ _ _ _ _ _ R1 E2) as R2. cbn [app] in R2.
  change (first_piece ++ second_piece) with (take 30 example_text ++ drop 30 example_text) in R2.
  rewrite take_drop in R2. exists m, c2, b2. split; [exact R2|].
  exact (proj1 (framed_messages_typed _ _ _ _ R2)).
Defined.
