(* ===== verification/Futures.v ===== *)
(** * Futures

    The vocabulary of the [futures] crate that the connection uses: the answers of a poll, and a
    sink that items are sent into. A sink is code of another crate, so it is a class of operations
    with the law its documentation states; [BoundedChannel] satisfies it. *)

From stdpp Require Import base list numbers.
From S2P Require Import Prelude.

(** [Async] and [Poll]. *)
Inductive Async (A : Type) := Ready (a : A) | NotReady.
Arguments Ready {A} a.
Arguments NotReady {A}.

#[export] Instance async_eq_dec `{EqDecision A} : EqDecision (Async A).
Proof. solve_decision. Defined.

Notation Poll A E := (Result (Async A) E).

(** [AsyncSink]: a sink that is full gives the item back. *)
Inductive AsyncSink (A : Type) := SinkReady | SinkNotReady (item : A).
Arguments SinkReady {A}.
Arguments SinkNotReady {A} item.

(** [Sink::start_send] on a sink in state [S]. *)
Class SinkOps (S Item E : Type) := {
  start_send : S -> Item -> Result (AsyncSink Item) E * S;
}.

(** A sink takes the item when it answers that it is ready, and only then; it gives back the item
    it was asked to send. [taken] is what it has taken, oldest first. *)
Class SinkLaws (S Item E : Type) `{!SinkOps S Item E} := {
  taken : S -> list Item;
  taken_start_send : forall s item,
    match start_send (E:=E) s item with
    | (Ok SinkReady, s') => taken s' = taken s ++ [item]
    | (Ok (SinkNotReady item'), s') => item' = item /\ taken s' = taken s
    | (Err _, s') => taken s' = taken s
    end;
}.

(** A channel that holds at most [capacity] items, of which the receiver has read [read]. *)
Record BoundedChannel (Item : Type) := mkBoundedChannel {
  items : list Item;
  read : nat;
  capacity : nat;
  receiver_alive : bool;
}.
Arguments mkBoundedChannel {Item} _ _ _ _.
Arguments items {Item} _.
Arguments read {Item} _.
Arguments capacity {Item} _.
Arguments receiver_alive {Item} _.

#[export] Instance bounded_channel_ops {Item} : SinkOps (BoundedChannel Item) Item unit := {|
  start_send s item :=
    if receiver_alive s then
      if length (items s) - read s <? capacity s
      then (Ok SinkReady, mkBoundedChannel (items s ++ [item]) (read s) (capacity s) true)
      else (Ok (SinkNotReady item), s)
    else (Err tt, s);
|}.

#[export] Instance bounded_channel_laws {Item} : SinkLaws (BoundedChannel Item) Item unit.
Proof.
  refine {| taken := items |}. intros s item. unfold start_send, bounded_channel_ops.
  destruct (receiver_alive s); [|done]. now destruct (_ <? _).
Defined.

(** ** Timers

    [tokio_timer::Delay] with the clock of the standard library. An instant plus a duration that
    cannot be represented is a panic, so adding is partial. *)
Class ClockOps := {
  Instant : Type;
  Duration : Type;
  instant_add : Instant -> Duration -> option Instant;
}.

Inductive TimerError := AtCapacity | TimerShutdown.

(** A timer is known by the instant at which it expires. *)
Record Delay `{ClockOps} := mkDelay { deadline : Instant }.
Arguments mkDelay {_} deadline.
Arguments deadline {_} _.

(** [Delay::new(Instant::now() + duration)]. *)
Definition delay_after `{ClockOps} (now : Instant) (duration : Duration) : Outcome Delay :=
  match instant_add now duration with
  | Some expire_time => Return (mkDelay expire_time)
  | None => Panic
  end.

(** A clock that counts, for runs of the model. *)
Definition counting_clock : ClockOps := {|
  Instant := N;
  Duration := N;
  instant_add now duration := Some (now + duration)%N;
|}.

(** What the other end of a [oneshot] did: the error of a receiver is that the sender is gone. *)
Inductive Canceled := canceled.

(** ** Channels

    The two ends of a channel. A stream that is fused gives its items in order and then ends; a
    stream that is not ready has no item. *)
Class StreamOps (S Item : Type) := {
  stream_poll : S -> Async (option Item) * S;
}.

Class StreamLaws (S Item : Type) `{!StreamOps S Item} := {
  pending : S -> list Item;
  pending_stream_poll : forall s,
    match stream_poll s with
    | (Ready (Some item), s') => pending s = item :: pending s'
    | (Ready None, s') | (NotReady, s') => pending s = [] /\ pending s' = []
    end;
}.

(** [unbounded_send]: it fails only when the other end is gone. *)
Class UnboundedOps (S Item : Type) := {
  unbounded_send : S -> Item -> bool * S;
}.

Class UnboundedLaws (S Item : Type) `{!UnboundedOps S Item} := {
  posted : S -> list Item;
  posted_unbounded_send : forall s item,
    let '(sent, s') := unbounded_send s item in
    posted s' = if sent then posted s ++ [item] else posted s;
}.

(** Concrete ends, for runs of the model: the items to be read and whether the sender is gone; the
    items written and whether the receiver is there. *)
Record Queue (Item : Type) := mkQueue { queue : list Item; ended : bool }.
Arguments mkQueue {Item} _ _.
Arguments queue {Item} _.
Arguments ended {Item} _.

#[export] Instance queue_ops {Item} : StreamOps (Queue Item) Item := {|
  stream_poll s :=
    match queue s with
    | item :: rest => (Ready (Some item), mkQueue rest (ended s))
    | [] => (if ended s then Ready None else NotReady, s)
    end;
|}.

#[export] Instance queue_laws {Item} : StreamLaws (Queue Item) Item.
Proof.
  refine {| pending := queue |}. intros [[|item rest] []]; now repeat split.
Defined.

Record Mailbox (Item : Type) := mkMailbox { mail : list Item; open : bool }.
Arguments mkMailbox {Item} _ _.
Arguments mail {Item} _.
Arguments open {Item} _.

#[export] Instance mailbox_ops {Item} : UnboundedOps (Mailbox Item) Item := {|
  unbounded_send s item :=
    if open s then (true, mkMailbox (mail s ++ [item]) true) else (false, s);
|}.

#[export] Instance mailbox_laws {Item} : UnboundedLaws (Mailbox Item) Item.
Proof. refine {| posted := mail |}. intros [l []] item; reflexivity. Defined.
