(* ===== verification/Forwarding.v ===== *)
(** * The forwarding receiver

    Model of [ForwardingReceiver] of [rtsp-2/src/protocol/connection/receiver.rs]: requests arrive
    in any order, are buffered by their CSeq, and are forwarded to the request handler in the order
    of their CSeqs. The channel to the request handler is any sink. *)

From Stdlib Require Import Strings.Byte.
From stdpp Require Import base list numbers gmap strings.
From S2P Require Import Prelude Text Version Method HeaderName HeaderValue HeaderMap CSeq Request Futures.

Local Open Scope N_scope.
Local Open Scope rust_scope.

Inductive RequestReceiverError := BadRequest | CSeqDifferenceTooLarge.

#[export] Instance request_receiver_error_eq_dec : EqDecision RequestReceiverError.
Proof. solve_decision. Defined.

Section Forwarding.
Context `{HeaderMapOps} `{URIOps} {Chan : Type} `{!SinkOps Chan (CSeq * Request bytes) unit}.

Record ForwardingReceiver := mkForwardingReceiver {
  buffered_requests : gmap CSeq (Request bytes);
  incoming_sequence_number : option CSeq;
  request_buffer_size : N;
  tx_incoming_request : Chan;
}.

Definition set_buffered_requests (m : gmap CSeq (Request bytes)) (self : ForwardingReceiver) :=
  mkForwardingReceiver m (incoming_sequence_number self) (request_buffer_size self)
    (tx_incoming_request self).

Definition set_incoming_sequence_number (c : option CSeq) (self : ForwardingReceiver) :=
  mkForwardingReceiver (buffered_requests self) c (request_buffer_size self)
    (tx_incoming_request self).

(** [ForwardingReceiver::new]. *)
Definition forwarding_new (tx_incoming_request : Chan) (request_buffer_size : N) :
    ForwardingReceiver :=
  mkForwardingReceiver ∅ None request_buffer_size tx_incoming_request.

Definition incoming_sequence_number_or_default (cseq : CSeq) (self : ForwardingReceiver) :
    CSeq * ForwardingReceiver :=
  match incoming_sequence_number self with
  | Some cseq => (cseq, self)
  | None => (cseq, set_incoming_sequence_number (Some cseq) self)
  end.

Definition buffered (self : ForwardingReceiver) : N := N.of_nat (size (buffered_requests self)).

(** [handle_request]; the failure of its [debug_assert!] is a panic. [as u32] keeps the low 32 bits
    of the buffer size. *)
Definition handle_request (request : Request bytes) (self : ForwardingReceiver) :
    Outcome (Result unit RequestReceiverError * ForwardingReceiver) :=
  match typed_get CSeq (headers request) with
  | Some cseq =>
      let '(expected, self) := incoming_sequence_number_or_default cseq self in
      if request_buffer_size self mod 2 ^ 32 <? cseq_number (sub cseq expected)
      then Return (Err CSeqDifferenceTooLarge, self)
      else if negb (buffered self <? request_buffer_size self) then Panic
      else match buffered_requests self !! cseq with
           | Some _ => Return (Err BadRequest, self)
           | None =>
               Return (Ok tt,
                       set_buffered_requests (<[cseq := request]> (buffered_requests self)) self)
           end
  | None => Return (Err BadRequest, self)
  end.

Definition has_requests_ready (self : ForwardingReceiver) : bool :=
  match incoming_sequence_number self with
  | Some expected => bool_decide (is_Some (buffered_requests self !! expected))
  | None => false
  end.

Definition is_full (self : ForwardingReceiver) : bool := request_buffer_size self <=? buffered self.

(** The loop of [poll], with the requests still buffered. The map loses a request at each turn, so
    its size bounds the number of turns. *)
Fixpoint forward_loop (fuel : nat) (expected : CSeq) (self : ForwardingReceiver) :
    Outcome (Poll unit unit * ForwardingReceiver) :=
  match fuel with
  | O => Panic
  | S fuel =>
      match buffered_requests self !! expected with
      | Some request =>
          let rest := delete expected (buffered_requests self) in
          match start_send (E:=unit) (tx_incoming_request self) (expected, request) with
          | (Err _, tx) =>
              Return (Err tt, mkForwardingReceiver rest (incoming_sequence_number self)
                                (request_buffer_size self) tx)
          | (Ok SinkReady, tx) =>
              forward_loop fuel (wrapping_increment expected)
                (mkForwardingReceiver rest (incoming_sequence_number self)
                   (request_buffer_size self) tx)
          | (Ok (SinkNotReady (_, request)), tx) =>
              Return (Ok NotReady,
                      mkForwardingReceiver (<[expected := request]> rest) (Some expected)
                        (request_buffer_size self) tx)
          end
      | None => Return (Ok (Ready tt), set_incoming_sequence_number (Some expected) self)
      end
  end.

(** [Future::poll]. *)
Definition forwarding_poll (self : ForwardingReceiver) :
    Outcome (Poll unit unit * ForwardingReceiver) :=
  match incoming_sequence_number self with
  | Some expected => forward_loop (S (size (buffered_requests self))) expected self
  | None => Return (Ok (Ready tt), self)
  end.
End Forwarding.

(** ** Sequence numbers in a row *)

Section Order.
Context {A : Type}.

(** The items have the numbers [s], [s + 1], ... *)
Fixpoint in_order (s : CSeq) (l : list (CSeq * A)) : Prop :=
  match l with
  | [] => True
  | (c, _) :: l => c = s /\ in_order (wrapping_increment s) l
  end.

Definition next (s : CSeq) (l : list (CSeq * A)) : CSeq := Nat.iter (length l) wrapping_increment s.

Lemma next_cons s x l : next s (x :: l) = next (wrapping_increment s) l.
Proof. unfold next. cbn [length]. now rewrite Nat.iter_succ_r. Qed.

Lemma next_app s l1 l2 : next s (l1 ++ l2) = next (next s l1) l2.
Proof. unfold next. now rewrite length_app, Nat.add_comm, Nat.iter_add. Qed.

Lemma in_order_app s l1 l2 :
  in_order s (l1 ++ l2) <-> in_order s l1 /\ in_order (next s l1) l2.
Proof.
  revert s. induction l1 as [|[c a] l1 IH]; intros s; [naive_solver|].
  cbn [app in_order]. rewrite IH, next_cons. naive_solver.
Qed.

Lemma in_order_valid s l : cseq_valid s -> in_order s l -> Forall (fun item => cseq_valid item.1) l.
Proof.
  revert s. induction l as [|[c a] l IH]; intros s Hs; [constructor|]. intros [-> Ho].
  constructor; [exact Hs|]. exact (IH _ (wrapping_increment_valid s) Ho).
Qed.

Lemma next_valid s l : cseq_valid s -> cseq_valid (next s l).
Proof. intros Hs. unfold next. destruct (length l); [done|apply wrapping_increment_valid]. Qed.
End Order.

(** Moving on takes no number further away. *)
Lemma sub_increment c e :
  cseq_valid c -> cseq_valid e -> c <> e ->
  cseq_number (sub c (wrapping_increment e)) <= cseq_number (sub c e).
Proof.
  intros Hc He Hne. rewrite !sub_number, wrapping_increment_number by auto with rtsp.
  assert (cseq_number c <> cseq_number e) by (intros E; now apply Hne, cseq_eq).
  unfold cseq_valid in *. destruct (decide (cseq_number e = MAX_CSEQ)) as [Hm|Hm].
  - rewrite Hm in *. rewrite N.Div0.mod_same. destruct (N.leb_spec MAX_CSEQ (cseq_number c)), (N.leb_spec 0 (cseq_number c)); lia.
  - rewrite N.mod_small by lia.
    destruct (N.leb_spec (cseq_number e) (cseq_number c)),
      (N.leb_spec (cseq_number e + 1) (cseq_number c)); lia.
Qed.

(** So a number that is not among those in a row comes no further away. *)
Lemma sub_next {A} c s (l : list (CSeq * A)) :
  cseq_valid c -> cseq_valid s -> in_order s l -> c ∉ l.*1 ->
  cseq_number (sub c (next s l)) <= cseq_number (sub c s).
Proof.
  intros Hc. revert s. induction l as [|[c' a] l IH]; intros s Hs Ho Hnin; [done|].
  destruct Ho as [-> Ho]. cbn in Hnin. apply not_elem_of_cons in Hnin as [Hne Hnin].
  rewrite next_cons. pose proof (sub_increment c s Hc Hs Hne).
  pose proof (IH _ (wrapping_increment_valid s) Ho Hnin). lia.
Qed.

Section ForwardingSpec.
Context `{HeaderMapLaws} `{URIOps} {Chan : Type} `{!SinkOps Chan (CSeq * Request bytes) unit}
  `{!SinkLaws Chan (CSeq * Request bytes) unit}.

Notation Receiver := (ForwardingReceiver (Chan := Chan)).
Notation log self := (taken (E:=unit) (tx_incoming_request self)).

(** ** The loop *)

(** What [poll] does: it sends the requests in a row from the expected one, takes them out of the
    buffer, and stops at the first that is missing or that the channel has no room for. *)
Definition forwarded (self self' : Receiver) (expected : CSeq) (r : Poll unit unit) : Prop :=
  exists sent, log self' = log self ++ sent /\ in_order expected sent
    /\ request_buffer_size self' = request_buffer_size self
    /\ forall a, r = Ok a ->
         map_to_list (buffered_requests self) ≡ₚ sent ++ map_to_list (buffered_requests self')
         /\ incoming_sequence_number self' = Some (next expected sent)
         /\ has_requests_ready self' = bool_decide (a = NotReady).

Lemma forwarded_more self self' self1 expected r request :
  buffered_requests self !! expected = Some request ->
  buffered_requests self1 = delete expected (buffered_requests self) ->
  request_buffer_size self1 = request_buffer_size self ->
  log self1 = log self ++ [(expected, request)] ->
  forwarded self1 self' (wrapping_increment expected) r -> forwarded self self' expected r.
Proof.
  intros Hl Hd Hs Hlog (sent & E1 & Ho & E2 & Hr). exists ((expected, request) :: sent).
  split; [now rewrite E1, Hlog, <- app_assoc|]. split; [done|]. split; [congruence|].
  intros a Ha. destruct (Hr a Ha) as (Hp & Hi & Hready). rewrite next_cons. split; [|done].
  rewrite <- app_comm_cons, <- Hp, Hd. symmetry. now apply map_to_list_delete.
Qed.

Lemma forward_loop_spec fuel expected self :
  (size (buffered_requests self) < fuel)%nat ->
  exists r self', forward_loop fuel expected self = Return (r, self')
                  /\ forwarded self self' expected r.
Proof.
  revert expected self. induction fuel as [|fuel IH]; intros expected self Hf; [lia|].
  cbn [forward_loop]. destruct (buffered_requests self !! expected) as [request|] eqn:El.
  - pose proof (taken_start_send (E:=unit) (tx_incoming_request self) (expected, request)) as Hsend.
    destruct (start_send _ _) as [[[|[c request']]|[]] tx].
    + set (self1 := mkForwardingReceiver _ _ _ tx).
      destruct (IH (wrapping_increment expected) self1) as (r & self' & E & Hfw).
      { cbn. rewrite (map_size_delete_Some _ _ (mk_is_Some _ _ El)).
        assert (size (buffered_requests self) <> 0%nat) by (eapply map_size_ne_0_lookup_2; eauto). lia. }
      exists r, self'. split; [exact E|]. exact (forwarded_more _ _ self1 _ _ _ El eq_refl eq_refl Hsend Hfw).
    + destruct Hsend as [[= -> ->] Htx]. eexists _, _. split; [reflexivity|]. exists []. cbn.
      rewrite app_nil_r, insert_delete_id by done. do 3 (split; [done|]).
      intros a [= <-]. unfold has_requests_ready. cbn. now rewrite El.
    + eexists _, _. split; [reflexivity|]. exists []. cbn. now rewrite app_nil_r.
  - eexists _, _. split; [reflexivity|]. exists []. cbn. rewrite app_nil_r.
    do 3 (split; [done|]). intros a [= <-]. unfold has_requests_ready. cbn. now rewrite El.
Qed.

(** ** Runs *)

(** What [handle_request] adds to the accepted requests. *)
Definition accepted (request : Request bytes) (r : Result unit RequestReceiverError) :
    list (CSeq * Request bytes) :=
  match r, typed_get CSeq (headers request) with
  | Ok _, Some cseq => [(cseq, request)]
  | _, _ => []
  end.

(** The runs of a forwarding receiver with the requests it accepted, oldest first. The connection
    only hands it a request when it is not full, and drops it when a poll fails; the other end of
    the channel reads from it at any time. *)
Inductive fwd_run (tx : Chan) (n : N) : list (CSeq * Request bytes) -> Receiver -> Prop :=
  | fwd_new : fwd_run tx n [] (forwarding_new tx n)
  | fwd_handle requests self request r self' :
      fwd_run tx n requests self -> is_full self = false ->
      handle_request request self = Return (r, self') ->
      fwd_run tx n (requests ++ accepted request r) self'
  | fwd_poll requests self a self' :
      fwd_run tx n requests self -> forwarding_poll self = Return (Ok a, self') ->
      fwd_run tx n requests self'
  | fwd_read requests self tx' :
      fwd_run tx n requests self -> taken (E:=unit) tx' = log self ->
      fwd_run tx n requests
        (mkForwardingReceiver (buffered_requests self) (incoming_sequence_number self)
           (request_buffer_size self) tx').

(** Everything a run keeps, [s] being the number of its first request. *)
Definition fwd_inv (tx : Chan) (n : N) (requests : list (CSeq * Request bytes)) (self : Receiver) :
    Prop :=
  request_buffer_size self = n /\ buffered self <= n /\
  match requests with
  | [] => incoming_sequence_number self = None /\ buffered_requests self = ∅
          /\ log self = taken (E:=unit) tx
  | (s, _) :: _ =>
      exists sent expected, log self = taken (E:=unit) tx ++ sent /\ in_order s sent
        /\ cseq_valid s /\ expected = next s sent
        /\ incoming_sequence_number self = Some expected
        /\ requests ≡ₚ sent ++ map_to_list (buffered_requests self)
        /\ map_Forall (fun c _ => cseq_valid c /\ cseq_number (sub c expected) <= n)
             (buffered_requests self)
  end.

(** What [handle_request] does when it is called, as a table; a refused request changes nothing. *)
Lemma handle_request_spec request (self : Receiver) :
  is_full self = false ->
  (incoming_sequence_number self = None -> buffered_requests self = ∅) ->
  exists r self', handle_request request self = Return (r, self')
    /\ (r <> Ok tt -> self' = self)
    /\ match typed_get CSeq (headers request) with
       | None => r = Err BadRequest
       | Some cseq =>
           let expected := default cseq (incoming_sequence_number self) in
           if request_buffer_size self mod 2 ^ 32 <? cseq_number (sub cseq expected)
           then r = Err CSeqDifferenceTooLarge
           else match buffered_requests self !! cseq with
                | Some _ => r = Err BadRequest
                | None =>
                    r = Ok tt
                    /\ self' = mkForwardingReceiver (<[cseq := request]> (buffered_requests self))
                                 (Some expected) (request_buffer_size self) (tx_incoming_request self)
                end
       end.
Proof.
  intros Hfull Hempty. unfold handle_request, is_full in *.
  destruct (typed_get CSeq (headers request)) as [cseq|] eqn:Ec; [|now eexists _, _].
  pose proof (sub_diag cseq (typed_get_valid _ _ Ec)) as Hdiag.
  unfold incoming_sequence_number_or_default.
  assert (Hroom : buffered self <? request_buffer_size self = true).
  { apply N.ltb_lt. now apply N.leb_gt in Hfull. }
  destruct (incoming_sequence_number self) as [e|] eqn:Ei; cbn -[sub].
  - destruct (_ mod _ <? _); [now eexists _, _|]. rewrite Hroom. cbn.
    destruct (buffered_requests self !! cseq); [now eexists _, _|].
    eexists _, _. split; [reflexivity|]. split; [done|].
    unfold set_buffered_requests. now rewrite Ei.
  - rewrite Hdiag, (proj2 (N.ltb_ge (request_buffer_size self mod 2 ^ 32) 0)) by apply N.le_0_l. change (buffered _) with (buffered self) at 1.
    rewrite Hroom, (Hempty eq_refl), lookup_empty. cbn. eexists _, _.
    split; [reflexivity|]. split; [done|]. done.
Qed.

Lemma fwd_inv_handle tx n requests (self : Receiver) request r self' :
  fwd_inv tx n requests self -> is_full self = false ->
  handle_request request self = Return (r, self') ->
  fwd_inv tx n (requests ++ accepted request r) self'.
Proof.
  intros (Hn & Hb & Hinv) Hfull Hh.
  assert (Hempty : incoming_sequence_number self = None -> buffered_requests self = ∅).
  { destruct requests as [|[s x] requests]; [now destruct Hinv as (_ & ? & _)|].
    destruct Hinv as (sent & e & _ & _ & _ & _ & -> & _). done. }
  destruct (handle_request_spec request self Hfull Hempty) as (r1 & self1 & E & Hsame & Hcase).
  rewrite Hh in E. injection E as <- <-. unfold accepted.
  destruct r as [[]|e]; [|rewrite app_nil_r, Hsame by done; now repeat split].
  destruct (typed_get CSeq (headers request)) as [c|] eqn:Ec; [|done].
  pose proof (typed_get_valid _ _ Ec) as Hc. cbn zeta in Hcase.
  destruct (_ <? cseq_number _) eqn:Ewin; [done|]. apply N.ltb_ge in Ewin.
  destruct (buffered_requests self !! c) eqn:El; [done|]. destruct Hcase as [_ ->].
  unfold is_full, buffered in Hfull. apply N.leb_gt in Hfull.
  split; [done|]. split.
  { unfold buffered. cbn. rewrite map_size_insert_None by done. rewrite Hn in Hfull. lia. }
  rewrite Hn in Ewin. assert (Hmod : n mod 2 ^ 32 <= n) by now apply N.Div0.mod_le.
  destruct requests as [|[s x] requests].
  - destruct Hinv as (Hi & Hm & Hlog). rewrite Hi, Hm. cbn. exists [], c.
    rewrite app_nil_r. do 2 (split; [done|]). split; [done|]. split; [done|]. split; [done|].
    split; [now rewrite insert_empty, map_to_list_singleton|].
    apply map_Forall_insert_2; [|apply map_Forall_empty]. split; [done|].
    change (cseq_number (sub c c) <= n). rewrite sub_diag by done. lia.
  - destruct Hinv as (sent & e & Hlog & Ho & Hs & He & Hi & Hp & Hall).
    rewrite Hi in Ewin |- *. cbn [default] in Ewin |- *. exists sent, e. cbn.
    do 4 (split; [done|]). split; [done|]. split.
    + rewrite map_to_list_insert by done. rewrite app_comm_cons, Hp, <- app_assoc.
      apply Permutation_app_head. symmetry. apply Permutation_cons_append.
    + apply map_Forall_insert_2; [|done]. split; [done|]. cbn in Ewin. lia.
Qed.

Lemma fwd_inv_poll tx n requests (self : Receiver) :
  fwd_inv tx n requests self ->
  exists r self', forwarding_poll self = Return (r, self')
    /\ forall a, r = Ok a -> fwd_inv tx n requests self'
                           /\ has_requests_ready self' = bool_decide (a = NotReady).
Proof.
  intros (Hn & Hb & Hinv). unfold forwarding_poll. destruct requests as [|[s x] requests].
  - pose proof Hinv as (-> & _). eexists _, _. split; [reflexivity|]. intros a [= <-].
    split; [done|]. unfold has_requests_ready. now destruct Hinv as (-> & _).
  - destruct Hinv as (sent & e & Hlog & Ho & Hs & He & Hi & Hp & Hall). rewrite Hi.
    destruct (forward_loop_spec (S (size (buffered_requests self))) e self ltac:(lia))
      as (r & self' & E & (sent' & Hlog' & Ho' & Hn' & Hr)).
    exists r, self'. split; [exact E|]. intros a ->. destruct (Hr a eq_refl) as (Hp' & Hi' & Hrd).
    split; [|exact Hrd]. split; [congruence|]. split; [|exists (sent ++ sent'), (next e sent')].
    + unfold buffered in *. apply Permutation_length in Hp' as Hlen.
      rewrite length_app, !length_map_to_list in Hlen. lia.
    + rewrite in_order_app, next_app, <- He, Hlog', Hlog, <- app_assoc, Hi'.
      do 4 (split; [done|]). split; [done|]. split; [now rewrite Hp, Hp', <- app_assoc|].
      assert (Hkeys : NoDup ((sent' ++ map_to_list (buffered_requests self')).*1)).
      { rewrite <- Hp'. apply NoDup_fst_map_to_list. }
      rewrite fmap_app in Hkeys. apply NoDup_app in Hkeys as (_ & Hkeys & _).
      intros c r Hl. apply elem_of_map_to_list in Hl.
      assert (Hl' : (c, r) ∈ map_to_list (buffered_requests self)) by (rewrite Hp'; set_solver).
      apply elem_of_map_to_list in Hl'. destruct (Hall c r Hl') as [Hc Hd]. split; [done|].
      etrans; [|exact Hd]. apply sub_next; [done|subst e; now apply next_valid|done|].
      intros Hin. apply (Hkeys c Hin). apply list_elem_of_fmap. now exists (c, r).
Qed.

Lemma fwd_run_inv tx n requests (self : Receiver) :
  fwd_run tx n requests self -> fwd_inv tx n requests self.
Proof.
  induction 1 as [|requests self request r self' _ IH Hfull Hh
                 |requests self a self' _ IH Hp|requests self tx' _ IH Hr].
  - split; [done|]. split; [|done]. unfold buffered. cbn [forwarding_new buffered_requests].
    rewrite map_size_empty. apply N.le_0_l.
  - now apply (fwd_inv_handle _ _ _ self).
  - destruct (fwd_inv_poll _ _ _ _ IH) as (r & self1 & E & Hok). rewrite Hp in E.
    injection E as <- <-. now apply (Hok a).
  - destruct IH as (Hn & Hb & IH). split; [done|]. split; [done|].
    destruct requests as [|[s x] requests]; [now rewrite <- Hr in IH|].
    cbn. now rewrite Hr.
Qed.

(** A receiver without a request that is ready has nothing to do. *)
Lemma forwarding_poll_idle (self : Receiver) :
  has_requests_ready self = false -> forwarding_poll self = Return (Ok (Ready tt), self).
Proof.
  unfold has_requests_ready, forwarding_poll. destruct (incoming_sequence_number self) as [e|] eqn:Ei; [|done].
  intros Hr%bool_decide_eq_false. cbn [forward_loop].
  destruct (buffered_requests self !! e); [now destruct Hr|].
  unfold set_incoming_sequence_number. rewrite <- Ei. now destruct self.
Qed.

(** ** A buffer full of requests that cannot be forwarded *)

Lemma accept_one (self : Receiver) request c e :
  typed_get CSeq (headers request) = Some c -> incoming_sequence_number self = Some e ->
  is_full self = false -> buffered_requests self !! c = None ->
  cseq_number (sub c e) <= request_buffer_size self mod 2 ^ 32 ->
  handle_request request self
  = Return (Ok tt, mkForwardingReceiver (<[c := request]> (buffered_requests self)) (Some e)
                     (request_buffer_size self) (tx_incoming_request self)).
Proof.
  intros Hc Hi Hfull Hl Hw.
  destruct (handle_request_spec request self Hfull ltac:(congruence)) as (r & self' & -> & _ & Hcase).
  rewrite Hc, Hi, Hl in Hcase. cbn -[sub] in Hcase.
  rewrite (proj2 (N.ltb_ge _ _)) in Hcase by done. now destruct Hcase as [-> ->].
Qed.

(** The requests 2 to [m + 1] are taken while the request 1 is expected. *)
Lemma fill_buffer tx n requests (self : Receiver) (request : CSeq -> Request bytes) m :
  (forall c, cseq_valid c -> typed_get CSeq (headers (request c)) = Some c) ->
  fwd_run tx n requests self -> buffered_requests self = ∅ ->
  incoming_sequence_number self = Some (mkCSeq 1) -> request_buffer_size self = n ->
  N.of_nat m <= n -> n < MAX_CSEQ ->
  exists requests' self', fwd_run tx n requests' self'
    /\ size (buffered_requests self') = m
    /\ incoming_sequence_number self' = Some (mkCSeq 1) /\ request_buffer_size self' = n
    /\ forall c, is_Some (buffered_requests self' !! c) ->
         1 < cseq_number c < 2 + N.of_nat m.
Proof.
  intros Hreq Hrun Hempty Hi Hn Hm Hmax. induction m as [|m IH].
  - exists requests, self. rewrite Hempty, map_size_empty. do 4 (split; [done|]).
    intros c [x Hx]. now rewrite lookup_empty in Hx.
  - destruct IH as (requests' & self' & Hrun' & Hsize & Hi' & Hn' & Hkeys); [lia|].
    set (c := mkCSeq (2 + N.of_nat m)).
    assert (Hc : cseq_valid c) by (unfold cseq_valid, c; cbn [cseq_number]; lia).
    assert (Hl : buffered_requests self' !! c = None).
    { destruct (buffered_requests self' !! c) eqn:E; [|done].
      pose proof (Hkeys c (mk_is_Some _ _ E)) as Hk. unfold c in Hk. cbn [cseq_number] in Hk. lia. }
    assert (Hfull : is_full self' = false).
    { unfold is_full, buffered. rewrite Hsize, Hn'. apply N.leb_gt. lia. }
    eexists _, _. split.
    { eapply (fwd_handle _ _ _ _ _ _ _ Hrun' Hfull).
      apply (accept_one self' (request c) c (mkCSeq 1) (Hreq c Hc) Hi' Hfull Hl).
      rewrite sub_number by (done || unfold cseq_valid; now apply N.leb_le). cbn [cseq_number c].
      unfold MAX_CSEQ in Hmax. rewrite Hn', (N.mod_small n) by lia.
      destruct (N.leb_spec 1 (2 + N.of_nat m)); lia. }
    cbn [buffered_requests incoming_sequence_number request_buffer_size].
    rewrite map_size_insert_None, Hsize by done. do 3 (split; [done|]).
    intros c' [x Hx]. apply lookup_insert_Some in Hx as [[<- _]|[_ Hx]].
    + unfold c. cbn [cseq_number]. lia.
    + specialize (Hkeys c' (mk_is_Some _ _ Hx)). lia.
Qed.

(** ** Properties *)

(** C10: Requests are forwarded in the order of their CSeqs, whatever the order in which they arrived:
    what has been sent to the request handler is a sequence of requests with consecutive numbers
    that starts at the first accepted request and wraps at the maximum, and the receiver expects
    the number that follows. Every accepted request has been sent exactly once or is in the buffer,
    which never exceeds its size and only holds numbers within reach of the expected one. *)
Theorem forwarding_in_order tx n requests (self : Receiver) :
  fwd_run tx n requests self ->
  exists sent, log self = taken (E:=unit) tx ++ sent
    /\ requests ≡ₚ sent ++ map_to_list (buffered_requests self)
    /\ buffered self <= n
    /\ match requests with
       | [] => incoming_sequence_number self = None
       | (s, _) :: _ =>
           in_order s sent /\ incoming_sequence_number self = Some (next s sent)
           /\ forall c, is_Some (buffered_requests self !! c) ->
                cseq_number (sub c (next s sent)) <= n
       end.
Proof.
  intros (Hn & Hb & Hinv)%fwd_run_inv. destruct requests as [|[s x] requests].
  - destruct Hinv as (Hi & Hm & Hlog). exists []. rewrite Hm, map_to_list_empty, app_nil_r. done.
  - destruct Hinv as (sent & e & Hlog & Ho & Hs & -> & Hi & Hp & Hall). exists sent.
    do 5 (split; [done|]). intros c [r Hr]. now destruct (Hall c r Hr).
Qed.

(** Polling never panics and terminates: the loop ends because each turn takes a request out of the
    buffer. It returns [Ready] exactly when the next expected request is not there, so that nothing
    more can be forwarded, and [NotReady] exactly when that request is there and the channel has no
    room; only a channel that is gone makes it fail. A request that is handled when the buffer has
    room is accepted exactly when its CSeq is valid, within reach and not in the buffer yet, and
    changes nothing when it is refused. *)
Theorem forwarding_progress tx n requests (self : Receiver) request :
  fwd_run tx n requests self ->
  (exists r self', forwarding_poll self = Return (r, self')
    /\ match r with
       | Ok (Ready _) => has_requests_ready self' = false
       | Ok NotReady => has_requests_ready self' = true
       | Err _ => True
       end)
  /\ (is_full self = false ->
      exists r self', handle_request request self = Return (r, self')
        /\ (r <> Ok tt -> self' = self)
        /\ (r = Ok tt <-> exists c, typed_get CSeq (headers request) = Some c
              /\ buffered_requests self !! c = None
              /\ cseq_number (sub c (default c (incoming_sequence_number self))) <= n mod 2 ^ 32)).
Proof.
  intros Hrun%fwd_run_inv. split.
  - destruct (fwd_inv_poll _ _ _ _ Hrun) as (r & self' & E & Hok). exists r, self'.
    split; [exact E|]. destruct r as [a|]; [|done]. destruct (Hok a eq_refl) as [_ ->]. now destruct a as [[]|].
  - intros Hfull. destruct Hrun as (Hn & _ & Hinv).
    destruct (handle_request_spec request self Hfull) as (r & self' & E & Hsame & Hcase).
    { destruct requests as [|[s x] requests]; [now destruct Hinv as (_ & ? & _)|].
      now destruct Hinv as (sent & e & _ & _ & _ & _ & -> & _). }
    exists r, self'. do 2 (split; [done|]). rewrite <- Hn.
    destruct (typed_get CSeq (headers request)) as [c|]; [|subst r; naive_solver]. cbn zeta in Hcase.
    destruct (N.ltb_spec (request_buffer_size self mod 2 ^ 32)
                (cseq_number (sub c (default c (incoming_sequence_number self))))) as [Hlt|Hge].
    + subst r. split; [done|]. intros (c' & [= <-] & _ & ?). lia.
    + destruct (buffered_requests self !! c) eqn:El; [subst r; naive_solver|].
      destruct Hcase as [-> _]. split; [|done]. intros _. now exists c.
Qed.

(** The buffer can fill up with requests that arrived early while the expected one is missing: the
    numbers up to the buffer size ahead are accepted, one more than leaves room for the expected
    request. From then on nothing can be forwarded, and since a full buffer stops the reading of
    messages, the expected request is never read either. *)
Theorem forwarding_stall tx n tx1 (request : CSeq -> Request bytes) :
  0 < n -> n < MAX_CSEQ ->
  (forall c, cseq_valid c -> typed_get CSeq (headers (request c)) = Some c) ->
  start_send (E:=unit) tx (mkCSeq 0, request (mkCSeq 0)) = (Ok SinkReady, tx1) ->
  exists requests (self : Receiver), fwd_run tx n requests self
    /\ is_full self = true /\ has_requests_ready self = false
    /\ forwarding_poll self = Return (Ok (Ready tt), self).
Proof.
  intros Hpos Hmax Hreq Hsend.
  set (self1 := mkForwardingReceiver (<[mkCSeq 0 := request (mkCSeq 0)]> ∅) (Some (mkCSeq 0)) n tx).
  set (self2 := mkForwardingReceiver (Chan := Chan) ∅ (Some (mkCSeq 1)) n tx1).
  assert (H1' : fwd_run tx n [(mkCSeq 0, request (mkCSeq 0))] self1).
  { pose proof (fwd_handle tx n [] (forwarding_new tx n) (request (mkCSeq 0)) (Ok tt) self1
                  (fwd_new tx n)) as Hstep.
    unfold accepted in Hstep. rewrite Hreq in Hstep by done. apply Hstep.
    - unfold is_full, buffered. cbn [forwarding_new buffered_requests request_buffer_size].
      rewrite map_size_empty. now apply N.leb_gt.
    - unfold handle_request. rewrite Hreq by done.
      unfold buffered. cbn -[sub]. rewrite sub_diag by done.
      rewrite (proj2 (N.ltb_ge (n mod 2 ^ 32) 0)) by apply N.le_0_l.
      rewrite map_size_empty. change (N.of_nat 0) with 0.
      now rewrite (proj2 (N.ltb_lt 0 n)), lookup_empty. }
  assert (H2' : fwd_run tx n [(mkCSeq 0, request (mkCSeq 0))] self2).
  { apply (fwd_poll tx n _ self1 (Ready tt)); [done|]. unfold forwarding_poll. cbn.
    rewrite insert_empty, map_size_singleton, lookup_singleton_eq. cbn. rewrite Hsend.
    now rewrite delete_singleton_eq, lookup_empty. }
  destruct (fill_buffer tx n _ self2 request (N.to_nat n) Hreq H2' eq_refl eq_refl eq_refl
              ltac:(lia) Hmax) as (requests & self & Hrun & Hsize & Hi & Hn & Hkeys).
  assert (Hl : buffered_requests self !! mkCSeq 1 = None).
  { destruct (buffered_requests self !! mkCSeq 1) eqn:E; [|done].
    pose proof (Hkeys _ (mk_is_Some _ _ E)) as Hk. cbn [cseq_number] in Hk. lia. }
  assert (Hready : has_requests_ready self = false) by (unfold has_requests_ready; now rewrite Hi, Hl).
  exists requests, self. split; [done|]. split; [|split; [done|now apply forwarding_poll_idle]].
  unfold is_full, buffered. rewrite Hsize, Hn. apply N.leb_le. lia.
Qed.
End ForwardingSpec.

(** Runs over the sample header map and a channel with room for five requests. *)
Definition sample_request (c : CSeq) : Request (H:=list_header_map) (H0:=text_uri) bytes :=
  mkRequest (H:=list_header_map) (H0:=text_uri) []
    [(HeaderName.CSeq, mkHeaderValue (to_string (cseq_number c)))] Options (bs "*") Rtsp2_0.

Lemma sample_request_cseq c :
  cseq_valid c -> typed_get CSeq (headers (sample_request c)) = Some c.
Proof.
  intros Hc. unfold typed_get, typed_try_get.
  change (get_all header_name (headers (sample_request c))) with (typed_encode c).
  now rewrite (typed_decode_encode c Hc).
Qed.

Notation sample_channel := (BoundedChannel (CSeq * Request (H:=list_header_map) (H0:=text_uri) bytes)).

Definition empty_channel : sample_channel := mkBoundedChannel [] 0 5 true.

Notation SampleReceiver :=
  (ForwardingReceiver (H:=list_header_map) (H0:=text_uri) (Chan := sample_channel)).

Definition state_of {A} (s : SampleReceiver) (o : Outcome (A * SampleReceiver)) : SampleReceiver :=
  match o with Return (_, s') => s' | Panic => s end.

Definition sample_handle (c : N) (s : SampleReceiver) : SampleReceiver :=
  state_of s (handle_request (sample_request (mkCSeq c)) s).

Definition sample_poll (s : SampleReceiver) : SampleReceiver := state_of s (forwarding_poll s).

(** The request 1 is forwarded, then 3 arrives before 2. *)
Definition sample_start : SampleReceiver := forwarding_new empty_channel 4.
Definition sample_end : SampleReceiver :=
  sample_poll (sample_handle 2 (sample_handle 3 (sample_poll (sample_handle 1 sample_start)))).

Lemma forwarding_sample_run :
  fwd_run (H1:=text_uri) empty_channel 4
    ((fun c => (mkCSeq c, sample_request (mkCSeq c))) <$> [1; 3; 2]) sample_end.
Proof.
  apply (fwd_poll _ _ _ (sample_handle 2 (sample_handle 3 (sample_poll (sample_handle 1 sample_start))))
           (Ready tt)); [|reflexivity].
  apply (fwd_handle empty_channel 4 [_; _] (sample_handle 3 (sample_poll (sample_handle 1 sample_start)))
           (sample_request (mkCSeq 2)) (Ok tt)); [|reflexivity..].
  apply (fwd_handle empty_channel 4 [_] (sample_poll (sample_handle 1 sample_start))
           (sample_request (mkCSeq 3)) (Ok tt)); [|reflexivity..].
  apply (fwd_poll _ _ _ (sample_handle 1 sample_start) (Ready tt)); [|reflexivity].
  apply (fwd_handle empty_channel 4 [] sample_start
           (sample_request (mkCSeq 1)) (Ok tt)); [|reflexivity..].
  apply fwd_new.
Qed.

Lemma forwarding_in_order_witness :
  fst <$> items (tx_incoming_request sample_end) = [mkCSeq 1; mkCSeq 2; mkCSeq 3]
  /\ exists sent, taken (E:=unit) (tx_incoming_request sample_end) = [] ++ sent
       /\ in_order (mkCSeq 1) sent.
Proof.
  split; [reflexivity|].
  destruct (forwarding_in_order (H1:=text_uri) empty_channel 4 _ sample_end forwarding_sample_run)
    as (sent & Hlog & _ & _ & Ho & _). exists sent. split; [exact Hlog|exact Ho].
Defined.

Lemma forwarding_progress_witness :
  exists r self', forwarding_poll sample_end = Return (r, self')
    /\ match r with
       | Ok (Ready _) => has_requests_ready self' = false
       | Ok NotReady => has_requests_ready self' = true
       | Err _ => True
       end.
Proof.
  exact (proj1 (forwarding_progress (H1:=text_uri) empty_channel 4 _ sample_end
                  (sample_request (mkCSeq 9)) forwarding_sample_run)).
Defined.

Lemma forwarding_stall_witness :
  exists requests (self : SampleReceiver), fwd_run (H1:=text_uri) empty_channel 4 requests self
    /\ is_full self = true /\ has_requests_ready self = false
    /\ forwarding_poll self = Return (Ok (Ready tt), self).
Proof.
  apply (forwarding_stall (H1:=text_uri) empty_channel 4
           (mkBoundedChannel [(mkCSeq 0, sample_request (mkCSeq 0))] 0 5 true) sample_request);
    [reflexivity|reflexivity|exact sample_request_cseq|reflexivity].
Defined.
