(* ===== verification/Shutdown.v ===== *)
(** * The shutdown handler

    Model of [rtsp-2/src/protocol/connection/shutdown.rs]: the state machine that takes a connection
    from running through a graceful shutdown to the end. What the receiver of the shutdown request
    and the timer answer is given by an environment. *)

From stdpp Require Import base list numbers.
From S2P Require Import Prelude Futures.

Local Open Scope rust_scope.

Inductive ShutdownState := Running | Shutdown | ShuttingDown.

#[export] Instance shutdown_state_eq_dec : EqDecision ShutdownState.
Proof. solve_decision. Defined.

Section Shutdown.
Context `{ClockOps} {Rx Tx : Type}.

Inductive ShutdownType := Graceful (duration : Duration) | Immediate.

(** The answers of one call: the present time, the receiver that waits for a shutdown request, and
    the timers. *)
Record Env := mkEnv {
  now : Instant;
  rx_poll : Rx -> Poll ShutdownType Canceled;
  delay_poll : Delay -> Poll unit TimerError;
}.

Record ShutdownHandler := mkShutdownHandler {
  rx_initiate_shutdown : option Rx;
  timer : option Delay;
  tx_shutdown_event : option Tx;
}.

(** [ShutdownHandler::new]. *)
Definition shutdown_new (rx_initiate_shutdown : Rx) (tx_shutdown_event : Tx) : ShutdownHandler :=
  mkShutdownHandler (Some rx_initiate_shutdown) None (Some tx_shutdown_event).

(** [state], with its debug assertions. *)
Definition state (self : ShutdownHandler) : Outcome ShutdownState :=
  match rx_initiate_shutdown self, timer self, tx_shutdown_event self with
  | Some _, None, _ => Return Running
  | Some _, Some _, _ => Panic
  | None, Some _, _ => Return ShuttingDown
  | None, None, None => Return Shutdown
  | None, None, Some _ => Panic
  end.

(** [handle_shutdown]: the handler after it, and the senders of the shutdown event that were used. *)
Definition handle_shutdown (env : Env) (shutdown_type : ShutdownType) (self : ShutdownHandler) :
    Outcome (ShutdownHandler * list Tx) :=
  match shutdown_type with
  | Graceful duration =>
      let! s := state self in
      match s with
      | Shutdown => Panic
      | _ =>
          let! timer := delay_after (now env) duration in
          Return (mkShutdownHandler None (Some timer) (tx_shutdown_event self), [])
      end
  | Immediate =>
      Return (mkShutdownHandler None None None,
              match tx_shutdown_event self with Some tx => [tx] | None => [] end)
  end.

(** [force_shutdown], which is also what [drop] does. *)
Definition force_shutdown (env : Env) (self : ShutdownHandler) : Outcome (ShutdownHandler * list Tx) :=
  handle_shutdown env Immediate self.

Definition poll_running (env : Env) (self : ShutdownHandler) :
    Outcome (Async unit * ShutdownHandler * list Tx) :=
  match rx_initiate_shutdown self with
  | None => Panic
  | Some rx =>
      match rx_poll env rx with
      | Ok (Ready shutdown_type) =>
          let! (self, sent) := handle_shutdown env shutdown_type self in
          Return (Ready tt, self, sent)
      | Err _ =>
          let! (self, sent) := handle_shutdown env Immediate self in
          Return (Ready tt, self, sent)
      | Ok NotReady => Return (NotReady, self, [])
      end
  end.

Definition poll_shutting_down (env : Env) (self : ShutdownHandler) :
    Outcome (Async unit * ShutdownHandler * list Tx) :=
  match timer self with
  | None => Panic
  | Some timer =>
      match delay_poll env timer with
      | Ok (Ready _) | Err AtCapacity =>
          let! (self, sent) := handle_shutdown env Immediate self in
          Return (Ready tt, self, sent)
      | Ok NotReady => Return (NotReady, self, [])
      | Err TimerShutdown => Panic
      end
  end.

(** The loop of [poll]; every turn that goes on moves to a later state, so three turns are
    enough. *)
Fixpoint poll_loop (fuel : nat) (env : Env) (self : ShutdownHandler) (sent : list Tx) :
    Outcome (Async unit * ShutdownHandler * list Tx) :=
  match fuel with
  | O => Panic
  | S fuel =>
      let! s := state self in
      match s with
      | Running =>
          let! (r, self, sent') := poll_running env self in
          match r with
          | NotReady => Return (NotReady, self, sent ++ sent')
          | Ready _ => poll_loop fuel env self (sent ++ sent')
          end
      | ShuttingDown =>
          let! (r, self, sent') := poll_shutting_down env self in
          match r with
          | NotReady => Return (NotReady, self, sent ++ sent')
          | Ready _ => poll_loop fuel env self (sent ++ sent')
          end
      | Shutdown => Return (Ready tt, self, sent)
      end
  end.

(** [Future::poll]. *)
Definition shutdown_poll (env : Env) (self : ShutdownHandler) :
    Outcome (Async unit * ShutdownHandler * list Tx) := poll_loop 3 env self [].
End Shutdown.
Arguments ShutdownType {_}.
Arguments Graceful {_} duration.
Arguments Immediate {_}.
Arguments Env {_} Rx.
Arguments ShutdownHandler {_} Rx Tx.

(** ** Properties *)

Section ShutdownSpec.
Context `{ClockOps} {Rx Tx : Type}.

(** What the handler relies on: timers are not used after the timer service is gone (the code
    panics then), and the times it adds can be represented. *)
Definition good_env (env : Env Rx) : Prop :=
  (forall t, delay_poll env t <> Err TimerShutdown)
  /\ forall rx d, rx_poll env rx = Ok (Ready (Graceful d)) -> is_Some (instant_add (now env) d).

(** The handlers of each state: the sender of the event is there until the end. *)
Inductive shutdown_wf (rx : Rx) (tx : Tx) : ShutdownState -> ShutdownHandler Rx Tx -> Prop :=
  | wf_running : shutdown_wf rx tx Running (mkShutdownHandler (Some rx) None (Some tx))
  | wf_shutting_down t : shutdown_wf rx tx ShuttingDown (mkShutdownHandler None (Some t) (Some tx))
  | wf_shutdown : shutdown_wf rx tx Shutdown (mkShutdownHandler None None None).

Lemma shutdown_wf_state rx tx s self : shutdown_wf rx tx s self -> state self = Return s.
Proof. now destruct 1. Qed.

(** The state machine, with the timer it runs with: what a poll makes of a state. *)
Definition expired (env : Env Rx) (t : Delay) : bool :=
  match delay_poll env t with Ok NotReady => false | _ => true end.

Definition after_timer (env : Env Rx) (t : Delay) : ShutdownState * option Delay :=
  if expired env t then (Shutdown, None) else (ShuttingDown, Some t).

Definition next_state (env : Env Rx) (rx : Rx) (s : ShutdownState) (t : option Delay) :
    ShutdownState * option Delay :=
  match s, t with
  | Running, _ =>
      match rx_poll env rx with
      | Ok NotReady => (Running, None)
      | Ok (Ready (Graceful d)) =>
          match instant_add (now env) d with
          | Some e => after_timer env (mkDelay e)
          | None => (Running, None)
          end
      | Ok (Ready Immediate) | Err _ => (Shutdown, None)
      end
  | ShuttingDown, Some t => after_timer env t
  | _, _ => (Shutdown, None)
  end.

(** The event sent on the way from a state to another. *)
Definition event (tx : Tx) (s s' : ShutdownState) : list Tx :=
  match s, s' with
  | Shutdown, _ => []
  | _, Shutdown => [tx]
  | _, _ => []
  end.

Lemma shutting_down_poll env rx tx fuel t sent :
  good_env env ->
  poll_loop (S (S fuel)) env (mkShutdownHandler None (Some t) (Some tx)) sent
  = Return (if expired env t then Ready tt else NotReady,
            mkShutdownHandler None (snd (after_timer env t)) (if expired env t then None else Some tx),
            sent ++ event tx ShuttingDown (fst (after_timer env t)))
  /\ shutdown_wf rx tx (fst (after_timer env t))
       (mkShutdownHandler None (snd (after_timer env t)) (if expired env t then None else Some tx)).
Proof.
  intros [Ht _]. unfold after_timer, expired. specialize (Ht t). cbn.
  unfold poll_shutting_down. cbn. destruct (delay_poll env t) as [[[]|]|[]]; cbn; try done;
    rewrite ?app_nil_r; split; done || constructor.
Qed.

(** One poll, from every state: it terminates without a panic within the three turns of the loop and
    makes the step of the state machine; it is ready exactly in the final state, and it sends the
    shutdown event exactly when it enters that state. *)
Lemma shutdown_poll_step env rx tx s (self : ShutdownHandler Rx Tx) :
  good_env env -> shutdown_wf rx tx s self ->
  exists self', shutdown_poll env self
      = Return (if bool_decide (fst (next_state env rx s (timer self)) = Shutdown)
                then Ready tt else NotReady, self',
                event tx s (fst (next_state env rx s (timer self))))
    /\ timer self' = snd (next_state env rx s (timer self))
    /\ shutdown_wf rx tx (fst (next_state env rx s (timer self))) self'.
Proof.
  intros Henv Hwf. unfold shutdown_poll. destruct Hwf as [|t|]; cbn [timer next_state].
  - cbn [poll_loop state rx_initiate_shutdown timer outcome_bind]. unfold poll_running.
    cbn [rx_initiate_shutdown]. destruct (rx_poll env rx) as [[[d|]|]|[]] eqn:Er.
    + pose proof (proj2 Henv rx d Er) as [e He]. rewrite He.
      destruct (shutting_down_poll env rx tx 0 (mkDelay e) [] Henv) as [Hp Hw].
      eexists. split; [|split; [|exact Hw]]; [|done].
      etrans; [|etrans; [exact Hp|]].
      * cbn [handle_shutdown outcome_bind state rx_initiate_shutdown timer tx_shutdown_event].
        unfold delay_after. now rewrite He.
      * unfold after_timer. now destruct (expired env (mkDelay e)).
    + cbn. eexists. split; [reflexivity|]. split; constructor.
    + cbn. eexists. split; [reflexivity|]. split; constructor.
    + cbn. eexists. split; [reflexivity|]. split; constructor.
  - destruct (shutting_down_poll env rx tx 1 t [] Henv) as [Hp Hw]. rewrite Hp.
    eexists. split; [|split; [|exact Hw]]; unfold after_timer; now destruct (expired env t).
  - cbn. eexists. split; [reflexivity|]. split; constructor.
Qed.

Lemma force_shutdown_step env rx tx s (self : ShutdownHandler Rx Tx) :
  shutdown_wf rx tx s self ->
  force_shutdown env self = Return (mkShutdownHandler None None None, event tx s Shutdown).
Proof. now destruct 1. Qed.

(** The runs of a handler, polled in any environments and forced to stop at any time, with the
    senders used so far. *)
Inductive shutdown_run (rx : Rx) (tx : Tx) : list Tx -> ShutdownHandler Rx Tx -> Prop :=
  | run_new : shutdown_run rx tx [] (shutdown_new rx tx)
  | run_poll sent self env r self' sent' :
      shutdown_run rx tx sent self -> good_env env ->
      shutdown_poll env self = Return (r, self', sent') -> shutdown_run rx tx (sent ++ sent') self'
  | run_force sent self env self' sent' :
      shutdown_run rx tx sent self -> force_shutdown env self = Return (self', sent') ->
      shutdown_run rx tx (sent ++ sent') self'.

(** The senders used on the way to a state. *)
Definition events_until (tx : Tx) (s : ShutdownState) : list Tx :=
  match s with Shutdown => [tx] | _ => [] end.

Lemma events_until_app tx s s' :
  (s = Shutdown -> s' = Shutdown) -> events_until tx s ++ event tx s s' = events_until tx s'.
Proof. destruct s, s'; try done; intros Hs; now specialize (Hs eq_refl). Qed.

Lemma shutdown_run_wf rx tx sent self :
  shutdown_run rx tx sent self ->
  exists s, shutdown_wf rx tx s self /\ sent = events_until tx s.
Proof.
  induction 1 as [|sent self env r self' sent' _ (s & Hwf & ->) Henv Hp
                  |sent self env self' sent' _ (s & Hwf & ->) Hf].
  - exists Running. split; [constructor|done].
  - destruct (shutdown_poll_step env rx tx s self Henv Hwf) as (self1 & E & _ & Hwf').
    rewrite Hp in E. injection E as -> -> ->. eexists. split; [exact Hwf'|].
    apply events_until_app. now intros ->.
  - rewrite (force_shutdown_step env rx tx s) in Hf by done. injection Hf as <- <-.
    exists Shutdown. split; [constructor|]. now apply events_until_app.
Qed.

Definition progress (s : ShutdownState) : nat :=
  match s with Running => 0 | ShuttingDown => 1 | Shutdown => 2 end.

(** C18: The protocol of a shutdown. At any time the handler is in one of the three states, and it has
    signalled the end exactly once if it is shut down, and not at all before. A poll terminates
    without a panic and makes one step of the state machine, which never goes back: it is ready
    exactly when the handler is shut down. Forcing, and so dropping, shuts it down from any state,
    and signals the end if that was not done. *)
Theorem shutdown_protocol rx tx sent (self : ShutdownHandler Rx Tx) (env : Env Rx) :
  shutdown_run rx tx sent self -> good_env env ->
  exists s, state self = Return s /\ sent = events_until tx s
    /\ (let s' := fst (next_state env rx s (timer self)) in
        exists self' sent', shutdown_poll env self
            = Return (if bool_decide (s' = Shutdown) then Ready tt else NotReady, self', sent')
          /\ state self' = Return s' /\ sent ++ sent' = events_until tx s'
          /\ (progress s <= progress s')%nat)
    /\ exists self' sent', force_shutdown env self = Return (self', sent')
         /\ state self' = Return Shutdown /\ sent ++ sent' = [tx].
Proof.
  intros (s & Hwf & ->)%shutdown_run_wf Henv. exists s.
  split; [exact (shutdown_wf_state _ _ _ _ Hwf)|]. split; [done|].
  split.
  - destruct (shutdown_poll_step env rx tx s self Henv Hwf) as (self' & E & _ & Hwf').
    cbv zeta. eexists _, _. split; [exact E|]. split; [exact (shutdown_wf_state _ _ _ _ Hwf')|].
    split; [apply events_until_app; now intros ->|].
    destruct Hwf; cbn; try lia; unfold after_timer; destruct (expired env t); cbn; lia.
  - eexists _, _. split; [exact (force_shutdown_step env rx tx s self Hwf)|].
    split; [done|]. now apply events_until_app.
Qed.
End ShutdownSpec.

(** A run: a graceful shutdown is requested at time 3 for 10 units; the timer runs until 13. *)
Definition sample_env (now : N) (answer : Poll (ShutdownType (H:=counting_clock)) Canceled) :
    Env (H:=counting_clock) unit :=
  mkEnv (H:=counting_clock) now (fun _ => answer)
    (fun t => if (deadline t <=? now)%N then Ok (Ready tt) else Ok NotReady).

Lemma shutdown_env_good now answer : good_env (sample_env now answer).
Proof. split; [|done]. intros t. cbn. now destruct (_ <=? _)%N. Qed.

Definition graceful_handler : ShutdownHandler (H:=counting_clock) unit unit :=
  mkShutdownHandler None (Some (mkDelay (H:=counting_clock) 13%N)) (Some tt).

Lemma graceful_run : shutdown_run (H:=counting_clock) tt tt [] graceful_handler.
Proof.
  apply (run_poll (H:=counting_clock) tt tt [] (shutdown_new tt tt)
           (sample_env 3%N (Ok (Ready (Graceful (H:=counting_clock) 10%N)))) NotReady _ []);
    [constructor|apply shutdown_env_good|reflexivity].
Qed.

Lemma shutdown_protocol_witness :
  exists self', shutdown_poll (sample_env 13%N (Ok NotReady)) graceful_handler
                = Return (Ready tt, self', [tt]) /\ state self' = Return Shutdown.
Proof.
  destruct (shutdown_protocol (H:=counting_clock) tt tt [] graceful_handler
              (sample_env 13%N (Ok NotReady)) graceful_run (shutdown_env_good _ _))
    as (s & Hs & _ & Hp & _).
  injection Hs as <-. destruct Hp as (self' & sent' & E & Hst & Hsent & _).
  exists self'. cbn in Hsent. subst sent'. split; [exact E|exact Hst].
Defined.
