(* ===== verification/Handler.v ===== *)
(** * The request handler

    Model of [rtsp-2/src/protocol/connection/handler.rs]: the task that takes the requests in the
    order in which they were forwarded, has the service answer them one at a time, and sends the
    responses. The service is a parameter; the channels are any streams and senders. *)

From Stdlib Require Import Strings.Byte.
From stdpp Require Import base list numbers strings.
From S2P Require Import Prelude Text Version Method HeaderName HeaderValue HeaderMap CSeq.
From S2P Require Import ContentLength Status Request Response Codec Futures.

Local Open Scope rust_scope.

Section Handler.
Context `{HeaderMapOps} `{URIOps} `{ClockOps} {Rx Tx TService TFuture TResponse TxEvent : Type}
  `{!StreamOps Rx (CSeq * Request bytes)} `{!UnboundedOps Tx Message}.

(** [request.uri().scheme() == Some(Scheme::RTSPU)]; [Service::call]; [Into<Response<BytesMut>>]. *)
Context (is_rtspu : URI -> bool) (call : TService -> Request bytes -> TFuture * TService)
  (into : TResponse -> Response bytes).

(** The answers of one call: the time, the timers, and the future of the service. *)
Record Env := mkEnv {
  now : Instant;
  delay_poll : Delay -> Poll unit TimerError;
  service_poll : TFuture -> Poll TResponse unit * TFuture;
}.

Record RequestHandler := mkRequestHandler {
  continue_timer : option Delay;
  continue_wait_duration : option Duration;
  rx_incoming_request : Rx;
  sender_handle : option Tx;
  service : TService;
  serviced_request : option (CSeq * TFuture);
  tx_shutdown_event : option TxEvent;
}.

(** [RequestHandler::new]. *)
Definition handler_new (service : TService) (rx_incoming_request : Rx) (sender_handle : Tx)
    (tx_shutdown_event : TxEvent) (continue_wait_duration : option Duration) : RequestHandler :=
  mkRequestHandler None continue_wait_duration rx_incoming_request (Some sender_handle) service None
    (Some tx_shutdown_event).

Definition set_continue_timer (t : option Delay) (self : RequestHandler) : RequestHandler :=
  mkRequestHandler t (continue_wait_duration self) (rx_incoming_request self) (sender_handle self)
    (service self) (serviced_request self) (tx_shutdown_event self).

Definition set_rx_incoming_request (rx : Rx) (self : RequestHandler) : RequestHandler :=
  mkRequestHandler (continue_timer self) (continue_wait_duration self) rx (sender_handle self)
    (service self) (serviced_request self) (tx_shutdown_event self).

Definition set_sender_handle (tx : option Tx) (self : RequestHandler) : RequestHandler :=
  mkRequestHandler (continue_timer self) (continue_wait_duration self) (rx_incoming_request self) tx
    (service self) (serviced_request self) (tx_shutdown_event self).

Definition set_serviced_request (r : option (CSeq * TFuture)) (self : RequestHandler) :
    RequestHandler :=
  mkRequestHandler (continue_timer self) (continue_wait_duration self) (rx_incoming_request self)
    (sender_handle self) (service self) r (tx_shutdown_event self).

(** The response with the CSeq of its request. *)
Definition with_cseq (cseq : CSeq) (response : Response bytes) : Response bytes :=
  Response.map_headers (typed_insert cseq) response.

Definition send_response (cseq : CSeq) (response : Response bytes) (self : RequestHandler) :
    RequestHandler :=
  let response := with_cseq cseq response in
  match sender_handle self with
  | Some tx =>
      let '(sent, tx) := unbounded_send tx (MResponse response) in
      set_sender_handle (if sent then Some tx else None) self
  | None => self
  end.

Definition reset_continue_timer (env : Env) (self : RequestHandler) : Outcome RequestHandler :=
  match continue_wait_duration self with
  | Some duration =>
      let! t := delay_after (now env) duration in
      Return (set_continue_timer (Some t) self)
  | None => Return self
  end.

(** The loop of [poll_continue_timer]. A timer that has just been set is not ready, so that three
    turns are enough. *)
Fixpoint continue_loop (fuel : nat) (env : Env) (cseq : CSeq) (self : RequestHandler) :
    Outcome (Async unit * RequestHandler) :=
  match fuel with
  | O => Panic
  | S fuel =>
      match continue_timer self with
      | None => Return (Ready tt, self)
      | Some t =>
          match delay_poll env t with
          | Ok (Ready _) =>
              let self := send_response cseq CONTINUE_RESPONSE self in
              let! self := reset_continue_timer env self in
              continue_loop fuel env cseq self
          | Ok NotReady => Return (NotReady, self)
          | Err AtCapacity => continue_loop fuel env cseq (set_continue_timer None self)
          | Err TimerShutdown => Panic
          end
      end
  end.

Definition poll_continue_timer (env : Env) (cseq : CSeq) (self : RequestHandler) :
    Outcome (Async unit * RequestHandler) := continue_loop 3 env cseq self.

(** The end of a request: [self.continue_timer = None; self.serviced_request = None]. *)
Definition finish_request (self : RequestHandler) : RequestHandler :=
  set_serviced_request None (set_continue_timer None self).

Definition poll_serviced_request (env : Env) (self : RequestHandler) :
    Outcome (Async unit * RequestHandler) :=
  match serviced_request self with
  | Some (cseq, request) =>
      match service_poll env request with
      | (Ok (Ready response), _) =>
          Return (Ready tt, finish_request (send_response cseq (into response) self))
      | (Ok NotReady, request) =>
          let self := set_serviced_request (Some (cseq, request)) self in
          let! (_, self) := poll_continue_timer env cseq self in
          Return (NotReady, self)
      | (Err _, _) =>
          Return (Ready tt, finish_request (send_response cseq INTERNAL_SERVER_ERROR_RESPONSE self))
      end
  | None => Return (Ready tt, self)
  end.

(** The test of [process_request] on the content of a request. *)
Definition missing_content_type (request : Request bytes) : bool :=
  match typed_get ContentLength (Request.headers request) with
  | Some c => (0 <? content_length c)%N && negb (contains_key ContentType (Request.headers request))
  | None => false
  end.

Definition process_request (env : Env) (cseq : CSeq) (request : Request bytes)
    (self : RequestHandler) : Outcome RequestHandler :=
  if is_rtspu (uri request) then Return (send_response cseq NOT_IMPLEMENTED_RESPONSE self)
  else if missing_content_type request then Return (send_response cseq BAD_REQUEST_RESPONSE self)
  else
    let! self := reset_continue_timer env self in
    let '(f, s) := call (service self) request in
    Return (mkRequestHandler (continue_timer self) (continue_wait_duration self)
              (rx_incoming_request self) (sender_handle self) s (Some (cseq, f))
              (tx_shutdown_event self)).

(** [shutdown], which is also what [drop] does; the event is sent when there is a sender for it. *)
Definition handler_shutdown (self : RequestHandler) : RequestHandler * list TxEvent :=
  (mkRequestHandler None (continue_wait_duration self) (rx_incoming_request self) None
     (service self) None None,
   match tx_shutdown_event self with Some tx => [tx] | None => [] end).

(** [Future::poll]; a turn of its loop that goes on takes a request from the channel. *)
Fixpoint handler_poll (fuel : nat) (env : Env) (self : RequestHandler) :
    Outcome (Async unit * RequestHandler * list TxEvent) :=
  match fuel with
  | O => Panic
  | S fuel =>
      let! (r, self) := poll_serviced_request env self in
      match r with
      | NotReady => Return (NotReady, self, [])
      | Ready _ =>
          let '(item, rx) := stream_poll (rx_incoming_request self) in
          let self := set_rx_incoming_request rx self in
          match item with
          | Ready (Some (cseq, request)) =>
              let! self := process_request env cseq request self in
              handler_poll fuel env self
          | NotReady => Return (NotReady, self, [])
          | Ready None => let '(self, sent) := handler_shutdown self in Return (Ready tt, self, sent)
          end
      end
  end.
End Handler.

(** ** What the handler promises *)

Section HandlerSpec.
Context `{HeaderMapOps} `{URIOps} `{ClockOps} {Rx Tx TService TFuture TResponse TxEvent : Type}
  `{!StreamOps Rx (CSeq * Request bytes)} `{!StreamLaws Rx (CSeq * Request bytes)}
  `{!UnboundedOps Tx Message} `{!UnboundedLaws Tx Message}.
Context (is_rtspu : URI -> bool) (call : TService -> Request bytes -> TFuture * TService)
  (into : TResponse -> Response bytes).

Notation Handler := (RequestHandler (Rx := Rx) (Tx := Tx) (TService := TService) (TFuture := TFuture)
                       (TxEvent := TxEvent)).
Notation HEnv := (Env (TFuture := TFuture) (TResponse := TResponse)).
Notation poll := (handler_poll (TxEvent := TxEvent) is_rtspu call into).

(** The requests that are answered without the service, with their answer. *)
Definition refusal (request : Request bytes) : option (Response bytes) :=
  if is_rtspu (uri request) then Some NOT_IMPLEMENTED_RESPONSE
  else if missing_content_type request then Some BAD_REQUEST_RESPONSE
  else None.

Definition answer (cseq : CSeq) (response : Response bytes) : Message :=
  MResponse (with_cseq cseq response).

(** The messages sent for a list of requests, in order, the last of which may still be in service:
    one answer for each, with the CSeq of the request, after any number of Continue responses; a
    request that is refused has its answer and nothing else. *)
Inductive answers : list (CSeq * Request bytes) -> option CSeq -> list Message -> Prop :=
  | answers_nil : answers [] None []
  | answers_refuse requests l cseq request response :
      answers requests None l -> refusal request = Some response ->
      answers (requests ++ [(cseq, request)]) None (l ++ [answer cseq response])
  | answers_take requests l cseq request :
      answers requests None l -> refusal request = None ->
      answers (requests ++ [(cseq, request)]) (Some cseq) l
  | answers_continue requests l cseq :
      answers requests (Some cseq) l ->
      answers requests (Some cseq) (l ++ [answer cseq CONTINUE_RESPONSE])
  | answers_final requests l cseq response :
      answers requests (Some cseq) l ->
      answers requests None (l ++ [answer cseq response]).

(** What the handler relies on: no timer is used after the timer service is gone, the times it adds
    can be represented, and a timer that has just been set has not expired. *)
Definition good_env (env : HEnv) (wait : option Duration) : Prop :=
  (forall t, delay_poll env t <> Err TimerShutdown)
  /\ forall d, wait = Some d ->
       exists e, instant_add (now env) d = Some e /\ delay_poll env (mkDelay e) <> Ok (Ready tt).

(** The state after the requests have been taken from the channel: the messages sent, as long as
    the sender is there, are the answers to them. *)
Definition handler_inv (log : list Message) (requests : list (CSeq * Request bytes)) (self : Handler) :
    Prop :=
  (exists l, answers requests (fst <$> serviced_request self) l
             /\ forall tx, sender_handle self = Some tx -> posted tx = log ++ l)
  /\ (continue_wait_duration self = None -> continue_timer self = None).

(** The parts of the handler that sending leaves alone. *)
Definition same_work (self self' : Handler) : Prop :=
  rx_incoming_request self' = rx_incoming_request self /\ service self' = service self
  /\ serviced_request self' = serviced_request self
  /\ tx_shutdown_event self' = tx_shutdown_event self
  /\ continue_wait_duration self' = continue_wait_duration self.

#[export] Instance same_work_preorder : PreOrder same_work.
Proof. split; [now intros|]. unfold same_work. intros a b c. naive_solver congruence. Qed.

Lemma send_response_frame cseq response (self : Handler) :
  same_work self (send_response cseq response self)
  /\ continue_timer (send_response cseq response self) = continue_timer self.
Proof.
  unfold send_response. destruct (sender_handle self) as [tx|]; [|done].
  now destruct (unbounded_send tx _).
Qed.

Lemma send_response_posted cseq response (self : Handler) log :
  (forall tx, sender_handle self = Some tx -> posted tx = log) ->
  forall tx, sender_handle (send_response cseq response self) = Some tx ->
             posted tx = log ++ [answer cseq response].
Proof.
  intros Hlog tx. unfold send_response. destruct (sender_handle self) as [tx0|] eqn:E.
  - pose proof (posted_unbounded_send tx0 (answer cseq response)) as Hp.
    unfold answer in *. destruct (unbounded_send tx0 _) as [[] tx1]; cbn; [|done].
    intros [= <-]. now rewrite Hp, Hlog.
  - now rewrite E.
Qed.

Lemma reset_continue_timer_spec env (self : Handler) :
  good_env env (continue_wait_duration self) ->
  (continue_wait_duration self = None -> continue_timer self = None) ->
  exists self', reset_continue_timer env self = Return self' /\ same_work self self'
    /\ sender_handle self' = sender_handle self
    /\ (continue_wait_duration self = None -> continue_timer self' = None)
    /\ forall t, continue_timer self' = Some t -> delay_poll env t <> Ok (Ready tt).
Proof.
  intros [_ Hadd] Hwf. unfold reset_continue_timer.
  destruct (continue_wait_duration self) as [d|] eqn:Ed.
  - destruct (Hadd d eq_refl) as (e & He & Hn). unfold delay_after. rewrite He. cbn.
    eexists. split; [reflexivity|]. split; [now unfold same_work|]. split; [done|].
    split; [done|]. now intros t [= <-].
  - exists self. split; [done|]. split; [done|]. split; [done|]. split; [done|].
    intros t Ht. now rewrite Hwf in Ht.
Qed.

(** The Continue responses, while the request stays in service. *)
Lemma poll_continue_timer_spec env cseq f log requests (self : Handler) :
  good_env env (continue_wait_duration self) -> handler_inv log requests self ->
  serviced_request self = Some (cseq, f) ->
  exists r self', poll_continue_timer env cseq self = Return (r, self')
    /\ same_work self self' /\ handler_inv log requests self'.
Proof.
  intros Henv Hinv Hs. pose proof (proj1 Henv) as Htimer. unfold poll_continue_timer.
  assert (Hstop : forall fuel self1, handler_inv log requests self1 -> same_work self self1 ->
            (forall t, continue_timer self1 = Some t -> delay_poll env t <> Ok (Ready tt)) ->
            exists r self', continue_loop (S (S fuel)) env cseq self1 = Return (r, self')
              /\ same_work self self' /\ handler_inv log requests self').
  { intros fuel self1 Hinv1 Hsame Hready. cbn [continue_loop].
    destruct (continue_timer self1) as [t|]; [|now eexists _, _].
    specialize (Hready t eq_refl). specialize (Htimer t).
    destruct (delay_poll env t) as [[[]|]|[]]; try done; [now eexists _, _|].
    cbn. eexists _, _. split; [reflexivity|]. now split; [|destruct Hinv1 as [Hl _]]. }
  destruct (continue_timer self) as [t|] eqn:Et.
  2:{ apply Hstop; [done|done|]. now rewrite Et. }
  destruct (delay_poll env t) as [[[]|]|e] eqn:Ep.
  2,3: apply Hstop; [done|done|]; rewrite Et; intros t' [= <-]; now rewrite Ep.
  cbn [continue_loop]. rewrite Et, Ep. cbv zeta.
  destruct (send_response_frame cseq CONTINUE_RESPONSE self) as [Hframe Htf].
  destruct Hinv as [(l & Hans & Hlog) Hwf].
  pose proof (send_response_posted cseq CONTINUE_RESPONSE self _ Hlog) as Hsend.
  set (self1 := send_response cseq CONTINUE_RESPONSE self) in *. clearbody self1.
  pose proof Hframe as (_ & _ & Hs1 & _ & Hw1).
  destruct (reset_continue_timer_spec env self1) as (self2 & E & Hframe2 & Htx & Hwf2 & Hready).
  { now rewrite Hw1. }
  { now rewrite Hw1, Htf. }
  rewrite E. cbn [outcome_bind]. apply (Hstop 0); [|now transitivity self1|done].
  pose proof Hframe2 as (_ & _ & Hs2 & _ & Hw2). split; [|now rewrite Hw2].
  exists (l ++ [answer cseq CONTINUE_RESPONSE]). rewrite Hs2, Hs1, Htx. split.
  - rewrite Hs in Hans |- *. now apply answers_continue.
  - intros tx Hx. rewrite (Hsend tx Hx). now rewrite app_assoc.
Qed.

(** What stays the same while requests are taken and answered. *)
Definition same_setup (self self' : Handler) : Prop :=
  tx_shutdown_event self' = tx_shutdown_event self
  /\ continue_wait_duration self' = continue_wait_duration self.

#[export] Instance same_setup_preorder : PreOrder same_setup.
Proof. split; [now intros|]. unfold same_setup. intros a b c. naive_solver congruence. Qed.

Lemma finish_request_inv log requests cseq response (self : Handler) f :
  handler_inv log requests self -> serviced_request self = Some (cseq, f) ->
  let self' := finish_request (send_response cseq response self) in
  handler_inv log requests self' /\ same_setup self self' /\ serviced_request self' = None
  /\ rx_incoming_request self' = rx_incoming_request self.
Proof.
  intros [(l & Hans & Hlog) Hwf] Hs. cbv zeta.
  destruct (send_response_frame cseq response self) as [(Hrx & _ & _ & Hev & Hw) _].
  pose proof (send_response_posted cseq response self _ Hlog) as Hsend.
  set (self1 := send_response cseq response self) in *. clearbody self1.
  split; [|now split]. split; [|done]. exists (l ++ [answer cseq response]). cbn. split.
  - rewrite Hs in Hans. now apply answers_final.
  - intros tx Hx. rewrite (Hsend tx Hx). now rewrite app_assoc.
Qed.

Lemma poll_serviced_request_spec env log requests (self : Handler) :
  good_env env (continue_wait_duration self) -> handler_inv log requests self ->
  exists r self', poll_serviced_request into env self = Return (r, self')
    /\ handler_inv log requests self' /\ same_setup self self'
    /\ rx_incoming_request self' = rx_incoming_request self
    /\ (r = Ready tt <-> serviced_request self' = None).
Proof.
  intros Henv Hinv. unfold poll_serviced_request.
  destruct (serviced_request self) as [[cseq f]|] eqn:Es.
  2:{ exists (Ready tt), self. now repeat (split; [done|]). }
  destruct (service_poll env f) as [[[response|]|[]] f'].
  - destruct (finish_request_inv log requests cseq (into response) self f Hinv Es)
      as (Hinv' & Hsame & Hnone & Hrx). eexists _, _. now repeat (split; [reflexivity || done|]).
  - set (self1 := set_serviced_request (Some (cseq, f')) self).
    assert (Hinv1 : handler_inv log requests self1).
    { destruct Hinv as [(l & Hans & Hlog) Hwf]. rewrite Es in Hans. split; [|done]. now exists l. }
    destruct (poll_continue_timer_spec env cseq f' log requests self1 Henv Hinv1 eq_refl)
      as (r & self' & -> & (Hrx & _ & Hs & Hev & Hw) & Hinv').
    eexists _, _. split; [reflexivity|]. split; [done|]. split; [done|]. split; [done|].
    now rewrite Hs.
  - destruct (finish_request_inv log requests cseq INTERNAL_SERVER_ERROR_RESPONSE self f Hinv Es)
      as (Hinv' & Hsame & Hnone & Hrx). eexists _, _. now repeat (split; [reflexivity || done|]).
Qed.

Lemma refuse_inv log requests cseq request response (self : Handler) :
  handler_inv log requests self -> serviced_request self = None ->
  refusal request = Some response ->
  handler_inv log (requests ++ [(cseq, request)]) (send_response cseq response self)
  /\ same_work self (send_response cseq response self).
Proof.
  intros [(l & Hans & Hlog) Hwf] Hs Hr.
  destruct (send_response_frame cseq response self) as [Hframe Ht].
  pose proof (send_response_posted cseq response self _ Hlog) as Hsend.
  set (self1 := send_response cseq response self) in *. clearbody self1.
  split; [|done]. pose proof Hframe as (_ & _ & Hs1 & _ & Hw). split; [|now rewrite Ht, Hw].
  exists (l ++ [answer cseq response]). rewrite Hs1, Hs in *. split.
  - now apply answers_refuse.
  - intros tx Hx. rewrite (Hsend tx Hx). now rewrite app_assoc.
Qed.

Lemma process_request_spec env log requests cseq request (self : Handler) :
  good_env env (continue_wait_duration self) -> handler_inv log requests self ->
  serviced_request self = None ->
  exists self', process_request is_rtspu call env cseq request self = Return self'
    /\ handler_inv log (requests ++ [(cseq, request)]) self' /\ same_setup self self'
    /\ rx_incoming_request self' = rx_incoming_request self
    /\ match refusal request with
       | Some response => self' = send_response cseq response self
       | None => serviced_request self' = Some (cseq, fst (call (service self) request))
                 /\ service self' = snd (call (service self) request)
       end.
Proof.
  intros Henv Hinv Hs.
  assert (Hrefuse : forall response, refusal request = Some response ->
            process_request is_rtspu call env cseq request self
            = Return (send_response cseq response self)).
  { unfold refusal, process_request. intros response. destruct (is_rtspu (uri request)); [congruence|].
    destruct (missing_content_type request); congruence. }
  destruct (refusal request) as [response|] eqn:Er.
  - destruct (refuse_inv log requests cseq request response self Hinv Hs Er) as [Hi (Hrx & _ & _ & Hev & Hw)].
    eexists. split; [now apply Hrefuse|]. split; [exact Hi|]. now split.
  - clear Hrefuse. assert (Hcall : is_rtspu (uri request) = false /\ missing_content_type request = false).
    { unfold refusal in Er. destruct (is_rtspu _), (missing_content_type request); done. }
    unfold process_request. destruct Hcall as [-> ->].
    destruct Hinv as [(l & Hans & Hlog) Hwf].
    destruct (reset_continue_timer_spec env self Henv Hwf) as (self1 & -> & Hsame & Htx & Hwf1 & _).
    cbn [outcome_bind]. destruct Hsame as (Hrx & Hsv & _ & Hev & Hw).
    rewrite Hsv. destruct (call (service self) request) as [f s].
    eexists. split; [reflexivity|]. rewrite Hs in Hans. split.
    + split; cbn; [|now rewrite Hw]. exists l. split; [now apply answers_take|]. now rewrite Htx.
    + now repeat split.
Qed.

(** One poll: it terminates without a panic, it takes requests from the channel in order, and it
    stops only when a request is in service or when the channel has nothing; it is ready exactly
    when the channel has ended, and signals the end then. *)
Lemma handler_poll_spec fuel env log requests (self : Handler) :
  (length (pending (rx_incoming_request self)) < fuel)%nat ->
  good_env env (continue_wait_duration self) -> handler_inv log requests self ->
  exists r self' sent taken, poll fuel env self = Return (r, self', sent)
    /\ pending (rx_incoming_request self) = taken ++ pending (rx_incoming_request self')
    /\ handler_inv log (requests ++ taken) self'
    /\ continue_wait_duration self' = continue_wait_duration self
    /\ match r with
       | NotReady => sent = [] /\ tx_shutdown_event self' = tx_shutdown_event self
           /\ (serviced_request self' = None -> pending (rx_incoming_request self') = [])
       | Ready _ => sent = match tx_shutdown_event self with Some tx => [tx] | None => [] end
           /\ tx_shutdown_event self' = None /\ serviced_request self' = None
           /\ pending (rx_incoming_request self') = []
       end.
Proof.
  revert requests self. induction fuel as [|fuel IH]; intros requests self Hf Henv Hinv; [lia|].
  cbn [handler_poll].
  destruct (poll_serviced_request_spec env log requests self Henv Hinv)
    as (r & self1 & -> & Hinv1 & [Hev1 Hw1] & Hrx1 & Hr). cbn [outcome_bind].
  destruct r as [[]|].
  2:{ eexists _, _, _, []. split; [reflexivity|]. rewrite Hrx1, app_nil_r. do 3 (split; [done|]).
      split; [done|]. split; [done|]. intros Hn. now apply Hr in Hn. }
  assert (Hs1 : serviced_request self1 = None) by now apply Hr. clear Hr. rewrite Hrx1.
  pose proof (pending_stream_poll (rx_incoming_request self)) as Hp.
  destruct (stream_poll (rx_incoming_request self)) as [[[[cseq request]|]|] rx].
  - set (self2 := set_rx_incoming_request rx self1).
    destruct (process_request_spec env log requests cseq request self2) as
      (self3 & -> & Hinv3 & [Hev3 Hw3] & Hrx3 & _); [cbn; now rewrite Hw1|exact Hinv1|exact Hs1|].
    cbn [outcome_bind]. cbn in Hev3, Hw3, Hrx3. rewrite Hp in Hf. cbn in Hf.
    destruct (IH (requests ++ [(cseq, request)]) self3) as
      (r & self4 & sent & taken & E & Htaken & Hinv4 & Hw4 & Hr); [rewrite Hrx3; lia| |done|].
    { now rewrite Hw3, Hw1. }
    exists r, self4, sent, ((cseq, request) :: taken). split; [exact E|].
    rewrite Hp, Hrx3 in *. split; [cbn; now rewrite <- Htaken|]. split; [now rewrite <- app_assoc in Hinv4|].
    split; [congruence|]. rewrite Hev3, Hev1 in Hr. done.
  - destruct Hp as [Hp1 Hp2]. unfold handler_shutdown. eexists _, _, _, [].
    split; [reflexivity|]. cbn. rewrite Hp1, Hp2, app_nil_r, Hev1. split; [done|].
    split; [|now rewrite Hw1]. split; [|done]. destruct Hinv1 as [(l & Hans & _) _].
    rewrite Hs1 in Hans. now exists l.
  - destruct Hp as [Hp1 Hp2]. eexists _, _, _, [].
    split; [reflexivity|]. cbn. rewrite Hp1, Hp2, app_nil_r. split; [done|]. split; [exact Hinv1|].
    now rewrite Hw1, Hev1.
Qed.

(** ** Properties *)

(** The runs of a handler, with the requests it has taken so far: it is created with a sender whose
    messages are [log], polled in any environments with enough fuel, and requests are put in the
    channel at any time. *)
Inductive handler_run (log : list Message) : list (CSeq * Request bytes) -> Handler -> Prop :=
  | handler_run_new service rx tx event wait :
      posted tx = log -> handler_run log [] (handler_new service rx tx event wait)
  | handler_run_poll requests taken fuel env (self : Handler) r self' sent :
      handler_run log requests self -> good_env env (continue_wait_duration self) ->
      (length (pending (rx_incoming_request self)) < fuel)%nat ->
      poll fuel env self = Return (r, self', sent) ->
      pending (rx_incoming_request self) = taken ++ pending (rx_incoming_request self') ->
      handler_run log (requests ++ taken) self'
  | handler_run_arrive requests (self : Handler) rx new :
      handler_run log requests self -> pending rx = pending (rx_incoming_request self) ++ new ->
      handler_run log requests (set_rx_incoming_request rx self).

Lemma handler_run_inv log requests self : handler_run log requests self -> handler_inv log requests self.
Proof.
  induction 1 as [service rx tx event wait Hp
    |requests taken fuel env self r self' sent _ IH Henv Hf Hp Ht|requests self rx new _ IH Hp].
  - split; [|done]. exists []. split; [constructor|]. intros tx' [= <-]. now rewrite app_nil_r.
  - destruct (handler_poll_spec fuel env log requests self Hf Henv IH)
      as (r1 & self1 & sent1 & taken1 & E & Ht1 & Hinv & _).
    rewrite Hp in E. injection E as <- <- <-. rewrite Ht in Ht1. now apply app_inv_tail in Ht1 as ->.
  - exact IH.
Qed.

(** C14: The requests are answered one after the other in the order in which they were taken, which is
    the order of the channel. As long as the sender is there, the messages sent are, for each
    request: the refusal alone when the request must not reach the service, or else any number of
    Continue responses and then one response, all with the CSeq of the request; the last request
    may still be in service, and then it is the only one without its final response. *)
Theorem handler_answers_in_order log requests (self : Handler) :
  handler_run log requests self ->
  exists l, answers requests (fst <$> serviced_request self) l
    /\ forall tx, sender_handle self = Some tx -> posted tx = log ++ l.
Proof. now intros [Hl _]%handler_run_inv. Qed.

(** A poll terminates without a panic when its fuel exceeds the requests in the channel, since every
    turn of the loop takes one. It leaves no work that could be done: when it is not ready, either
    a request is in service or the channel is empty; it is ready exactly when the channel has ended
    and no request is in service, and it signals the end then, once. *)
Theorem handler_poll_progress log requests (self : Handler) env fuel :
  handler_run log requests self -> good_env env (continue_wait_duration self) ->
  (length (pending (rx_incoming_request self)) < fuel)%nat ->
  exists r self' sent taken, poll fuel env self = Return (r, self', sent)
    /\ pending (rx_incoming_request self) = taken ++ pending (rx_incoming_request self')
    /\ handler_run log (requests ++ taken) self'
    /\ match r with
       | NotReady => sent = [] /\ tx_shutdown_event self' = tx_shutdown_event self
           /\ (serviced_request self' <> None \/ pending (rx_incoming_request self') = [])
       | Ready _ => sent = match tx_shutdown_event self with Some tx => [tx] | None => [] end
           /\ tx_shutdown_event self' = None /\ serviced_request self' = None
           /\ pending (rx_incoming_request self') = []
       end.
Proof.
  intros Hrun Henv Hf.
  destruct (handler_poll_spec fuel env log requests self Hf Henv (handler_run_inv _ _ _ Hrun))
    as (r & self' & sent & taken & E & Ht & _ & _ & Hr).
  exists r, self', sent, taken. do 2 (split; [done|]).
  split; [now apply (handler_run_poll log requests taken fuel env self r self' sent)|].
  destruct r as [[]|]; [done|]. destruct Hr as (-> & -> & Hn). do 2 (split; [done|]).
  destruct (serviced_request self'); [now left|right; now apply Hn].
Qed.
End HandlerSpec.

(** Runs: a service whose futures are ready at their second poll. *)
Notation SampleRequest := (Request (H:=list_header_map) (H0:=text_uri) bytes).
Notation SampleMessage := (Message (H:=list_header_map) (H0:=text_uri)).

Definition sample_request (headers : Headers) : SampleRequest :=
  mkRequest (H:=list_header_map) (H0:=text_uri) [] headers Options (bs "*") Rtsp2_0.

Notation SampleHandler := (RequestHandler (H1:=counting_clock)
  (Rx := Queue (CSeq * SampleRequest)) (Tx := Mailbox SampleMessage)
  (TService := unit) (TFuture := nat) (TxEvent := unit)).

Definition sample_call (_ : unit) (_ : SampleRequest) : nat * unit := (1%nat, tt).
Definition ok_response : Response (H:=list_header_map) bytes := canned_response OK "OK".

Definition sample_env (now : N) : Env (H1:=counting_clock) (TFuture := nat) (TResponse := unit) :=
  mkEnv (H1:=counting_clock) now
    (fun t => if (deadline t <=? now)%N then Ok (Ready tt) else Ok NotReady)
    (fun n => match n with O => (Ok (Ready tt), O) | S n => (Ok NotReady, n) end).

Lemma handler_env_good (now : N) : good_env (H1:=counting_clock) (sample_env now) (Some 5%N).
Proof.
  split; [intros t; cbn; now destruct (_ <=? _)%N|].
  intros d [= <-]. exists (now + 5)%N. split; [done|]. cbn.
  rewrite (proj2 (N.leb_gt (now + 5) now)) by lia. done.
Qed.

(** The first of these requests has content of no type. *)
Definition sample_start : SampleHandler :=
  handler_new tt (mkQueue [(mkCSeq 1, sample_request [(HeaderName.ContentLength, mkHeaderValue (bs "3"))]);
                           (mkCSeq 2, sample_request [])] true)
    (mkMailbox [] true) tt (Some (5%N : Duration (ClockOps:=counting_clock))).

Definition sample_poll (now : N) (self : SampleHandler) : SampleHandler :=
  match handler_poll (fun _ => false) sample_call (fun _ => ok_response) 9 (sample_env now) self with
  | Return (_, self', _) => self'
  | Panic => self
  end.

Lemma handler_sample_run :
  handler_run (H:=list_header_map) (H0:=text_uri) (H1:=counting_clock) (TResponse := unit)
    (TxEvent := unit)
    (fun _ => false) sample_call (fun _ => ok_response) []
    (queue (rx_incoming_request sample_start)) (sample_poll 0 sample_start).
Proof.
  apply (handler_run_poll (H:=list_header_map) (H0:=text_uri) (H1:=counting_clock)
              (TResponse := unit)
           (fun _ => false) sample_call (fun _ => ok_response)
           [] [] (queue (rx_incoming_request sample_start)) 9 (sample_env 0) sample_start NotReady
           (sample_poll 0 sample_start) []);
    [now constructor|apply handler_env_good|cbn; lia|reflexivity|reflexivity].
Qed.

Lemma handler_answers_in_order_witness :
  exists l, answers (fun _ => false) (queue (rx_incoming_request sample_start)) (Some (mkCSeq 2)) l
    /\ l = [answer (mkCSeq 1) BAD_REQUEST_RESPONSE].
Proof.
  destruct (handler_answers_in_order (H:=list_header_map) (H0:=text_uri) (H1:=counting_clock)
              (TResponse := unit)
              (fun _ => false) sample_call (fun _ => ok_response) [] _ _ handler_sample_run)
    as (l & Hans & Hlog).
  exists l. split; [exact Hans|]. symmetry. exact (Hlog _ eq_refl).
Defined.

(** The service answers at the second poll, and the channel has ended. *)
Lemma handler_poll_progress_witness :
  exists self', handler_poll (fun _ => false) sample_call (fun _ => ok_response) 9 (sample_env 1)
                  (sample_poll 0 sample_start) = Return (Ready tt, self', [tt])
    /\ serviced_request self' = None.
Proof.
  destruct (handler_poll_progress (H:=list_header_map) (H0:=text_uri) (H1:=counting_clock)
              (TResponse := unit)
              (fun _ => false) sample_call (fun _ => ok_response) [] _ (sample_poll 0 sample_start)
              (sample_env 1) 9 handler_sample_run (handler_env_good 1) ltac:(now apply Nat.ltb_lt))
    as (r & self' & sent & taken & E & _ & _ & Hr).
  injection E as <- <- <-. destruct Hr as (_ & _ & Hs & _). eexists. split; [reflexivity|exact Hs].
Defined.
