(* ===== verification/Pending.v ===== *)
(** * Pending requests

    Model of [rtsp-2/src/protocol/connection/pending.rs] and of the [ResponseReceiver] of
    [rtsp-2/src/protocol/connection/receiver.rs], with [ConnectionHandle::send_request] of
    [rtsp-2/src/protocol/connection/mod.rs]: requests are sent with consecutive CSeqs, and responses
    are matched to them. The tasks share the oneshot channels, in a world, and the channel of
    updates; both are code of other crates and are given by classes. *)

From Stdlib Require Import Strings.Byte.
From stdpp Require Import base list numbers gmap strings.
From S2P Require Import Prelude Text Version Method HeaderName HeaderValue HeaderMap CSeq.
From S2P Require Import Status Reason Request Response Codec Futures Forwarding.

Local Open Scope rust_scope.

(** [futures::sync::oneshot] for values of type [V]. [oneshot_send] tells whether the value was
    taken: it is refused when the receiver is gone. *)
Class OneshotOps (World OTx ORx V : Type) := {
  oneshot_channel : World -> OTx * ORx * World;
  oneshot_send : OTx -> V -> World -> bool * World;
  oneshot_poll : ORx -> World -> Poll V Canceled * World;
  oneshot_close : ORx -> World -> World;
}.

(** A value that is received was sent with the sender of that receiver. [sent] is the history of
    what was sent with each sender that was allocated. *)
Class OneshotLaws (World OTx ORx V : Type) `{!OneshotOps World OTx ORx V} := {
  peer : OTx -> ORx;
  allocated : World -> OTx -> Prop;
  sent : World -> OTx -> option V;
  oneshot_channel_law : forall w,
    let '(tx, rx, w') := oneshot_channel w in
    peer tx = rx /\ ~ allocated w tx /\ sent w' tx = None
    /\ (forall t, allocated w' t <-> allocated w t \/ t = tx)
    /\ (forall t, t <> tx -> sent w' t = sent w t);
  oneshot_send_law : forall tx v w,
    let '(ok, w') := oneshot_send tx v w in
    (forall t, allocated w' t <-> allocated w t)
    /\ (forall t, sent w' t = Some v /\ t = tx /\ ok = true \/ sent w' t = sent w t);
  oneshot_poll_law : forall rx w,
    let '(r, w') := oneshot_poll rx w in
    (forall t, allocated w' t <-> allocated w t) /\ (forall t, sent w' t = sent w t)
    /\ forall v, r = Ok (Ready v) -> forall tx, peer tx = rx -> allocated w tx -> sent w tx = Some v;
  oneshot_close_law : forall rx w,
    (forall t, allocated (oneshot_close rx w) t <-> allocated w t)
    /\ (forall t, sent (oneshot_close rx w) t = sent w t);
}.

(** An unbounded channel, of which both ends are used: what is sent comes after what is pending. *)
Class ChannelLaws (C Item : Type) `{!StreamOps C Item} `{!UnboundedOps C Item} := {
  #[global] channel_stream :: StreamLaws C Item;
  pending_unbounded_send : forall c item,
    let '(ok, c') := unbounded_send c item in
    pending c' = if ok then pending c ++ [item] else pending c;
}.

Inductive RequestTimeoutType := Long | Short.

Inductive OperationError := Closed | RequestCancelled | RequestTimedOut (timeout : RequestTimeoutType).

Section Pending.
Context `{HeaderMapOps} {OTx ORx : Type}.

(** [PendingRequestResponse]. *)
Inductive PendingRequestResponse :=
  | PContinue (rx : ORx)
  | PNone
  | PResponse (response : Response bytes).

Inductive PendingRequestUpdate :=
  | AddPendingRequest (cseq : CSeq) (tx : OTx)
  | RemovePendingRequest (cseq : CSeq).

Context {World C : Type} `{!OneshotOps World OTx ORx PendingRequestResponse}
  `{!StreamOps C PendingRequestUpdate} `{!UnboundedOps C PendingRequestUpdate}.

(** ** The response receiver *)

(** The channel of updates, of which it holds the fused receiver, is passed along with it;
    [rx_done] is the flag of the fuse. *)
Record ResponseReceiver := mkResponseReceiver {
  pending_requests : gmap CSeq OTx;
  rx_done : bool;
}.

Definition response_receiver_new : ResponseReceiver := mkResponseReceiver ∅ false.

Definition set_pending_requests (m : gmap CSeq OTx) (self : ResponseReceiver) : ResponseReceiver :=
  mkResponseReceiver m (rx_done self).

(** [handle_pending_request_update]; a debug assertion that fails is a panic. *)
Definition handle_pending_request_update (update : PendingRequestUpdate) (self : ResponseReceiver) :
    Outcome ResponseReceiver :=
  match update with
  | AddPendingRequest cseq tx =>
      match pending_requests self !! cseq with
      | Some _ => Panic
      | None => Return (set_pending_requests (<[cseq := tx]> (pending_requests self)) self)
      end
  | RemovePendingRequest cseq =>
      match pending_requests self !! cseq with
      | Some _ => Return (set_pending_requests (delete cseq (pending_requests self)) self)
      | None => Panic
      end
  end.

(** [handle_response]. *)
Definition handle_response (response : Response bytes) (w : World) (self : ResponseReceiver) :
    Outcome (World * ResponseReceiver) :=
  if rx_done self then Panic
  else
    match typed_get CSeq (headers response) with
    | None => Return (w, self)
    | Some cseq =>
        match pending_requests self !! cseq with
        | None => Return (w, self)
        | Some tx =>
            match status_code response with
            | Continue =>
                let '(tx_pending_request, rx_pending_request, w) := oneshot_channel w in
                let '(ok, w) := oneshot_send tx (PContinue rx_pending_request) w in
                Return (w, set_pending_requests
                             (if ok then <[cseq := tx_pending_request]> (pending_requests self)
                              else delete cseq (pending_requests self)) self)
            | _ =>
                let '(_, w) := oneshot_send tx (PResponse response) w in
                Return (w, set_pending_requests (delete cseq (pending_requests self)) self)
            end
        end
    end.

(** [Future::poll]: the updates are handled until there is none; a turn that goes on takes one. *)
Fixpoint response_receiver_poll (fuel : nat) (c : C) (self : ResponseReceiver) :
    Outcome (Async unit * C * ResponseReceiver) :=
  match fuel with
  | O => Panic
  | S fuel =>
      let '(item, c) := if rx_done self then (Ready None, c) else stream_poll c in
      match item with
      | Ready (Some update) =>
          let! self := handle_pending_request_update update self in
          response_receiver_poll fuel c self
      | NotReady => Return (NotReady, c, self)
      | Ready None =>
          let self := mkResponseReceiver (pending_requests self) true in
          if bool_decide (pending_requests self = ∅) then Return (Ready tt, c, self) else Panic
      end
  end.

(** [remove_pending_requests]: the order of the drain is that of the map. *)
Definition remove_pending_requests (w : World) (self : ResponseReceiver) : World * ResponseReceiver :=
  (foldl (fun w '(_, tx) => snd (oneshot_send tx PNone w)) w (map_to_list (pending_requests self)),
   set_pending_requests ∅ self).

(** [drop]. *)
Definition response_receiver_drop (fuel : nat) (w : World) (c : C) (self : ResponseReceiver) :
    Outcome (World * C) :=
  let! (_, c, self) := response_receiver_poll fuel c self in
  Return (fst (remove_pending_requests w self), c).

(** ** The future of a request *)

Context `{ClockOps}.

Record TimeEnv := mkTimeEnv {
  now : Instant;
  delay_poll : Delay -> Poll unit TimerError;
}.

Record SendRequest := mkSendRequest {
  max_timer : option Delay;
  rx_response : ORx;
  sequence_number : CSeq;
  timeout_duration : option Duration;
  timer : option Delay;
}.

(** [duration.map(|duration| Delay::new(Instant::now() + duration))]. *)
Definition new_timer (env : TimeEnv) (duration : option Duration) : Outcome (option Delay) :=
  match duration with
  | Some duration => let! t := delay_after (now env) duration in Return (Some t)
  | None => Return None
  end.

(** [SendRequest::new]. *)
Definition send_request_new (env : TimeEnv) (rx_response : ORx) (sequence_number : CSeq)
    (timeout_duration max_timeout_duration : option Duration) : Outcome SendRequest :=
  let! max_timer := new_timer env max_timeout_duration in
  let! timer := new_timer env timeout_duration in
  Return (mkSendRequest max_timer rx_response sequence_number timeout_duration timer).

Definition cancel_request (w : World) (c : C) (self : SendRequest) : World * C :=
  let '(_, c) := unbounded_send c (RemovePendingRequest (sequence_number self)) in
  (oneshot_close (rx_response self) w, c).

Definition poll_is_cancelled (w : World) (self : SendRequest) : bool * World :=
  let '(r, w) := oneshot_poll (rx_response self) w in
  (match r with Err _ => true | Ok _ => false end, w).

Definition poll_request (env : TimeEnv) (w : World) (self : SendRequest) :
    Outcome (Poll (Response bytes) OperationError * World * SendRequest) :=
  let '(r, w) := oneshot_poll (rx_response self) w in
  match r with
  | Err _ => Panic
  | Ok (Ready (PContinue rx)) =>
      let! t := new_timer env (timeout_duration self) in
      Return (Ok NotReady, w,
              mkSendRequest (max_timer self) rx (sequence_number self) (timeout_duration self) t)
  | Ok (Ready PNone) => Return (Err RequestCancelled, w, self)
  | Ok (Ready (PResponse response)) => Return (Ok (Ready response), w, self)
  | Ok NotReady => Return (Ok NotReady, w, self)
  end.

(** [poll_max_timer] and [poll_timer], which differ in the timer and in the error. *)
Definition poll_one_timer (t : option Delay) (expired : RequestTimeoutType) (env : TimeEnv)
    (w : World) (c : C) (self : SendRequest) : Outcome (Result unit OperationError * World * C) :=
  match t with
  | None => Return (Ok tt, w, c)
  | Some t =>
      match delay_poll env t with
      | Ok (Ready _) =>
          let '(w, c) := cancel_request w c self in Return (Err (RequestTimedOut expired), w, c)
      | Ok NotReady => Return (Ok tt, w, c)
      | Err AtCapacity =>
          let '(w, c) := cancel_request w c self in Return (Err RequestCancelled, w, c)
      | Err TimerShutdown => Panic
      end
  end.

Definition poll_max_timer env w c (self : SendRequest) :=
  poll_one_timer (max_timer self) Long env w c self.
Definition poll_timer env w c (self : SendRequest) := poll_one_timer (timer self) Short env w c self.

(** [Future::poll]. *)
Definition send_request_poll (env : TimeEnv) (w : World) (c : C) (self : SendRequest) :
    Outcome (Poll (Response bytes) OperationError * World * C * SendRequest) :=
  let! (r, w, self) := poll_request env w self in
  match r with
  | Ok (Ready response) => Return (Ok (Ready response), w, c, self)
  | Err error => Return (Err error, w, c, self)
  | Ok NotReady =>
      let! (r, w, c) := poll_max_timer env w c self in
      match r with
      | Err error => Return (Err error, w, c, self)
      | Ok _ =>
          let! (r, w, c) := poll_timer env w c self in
          match r with
          | Err error => Return (Err error, w, c, self)
          | Ok _ => Return (Ok NotReady, w, c, self)
          end
      end
  end.

(** [drop]. *)
Definition send_request_drop (w : World) (c : C) (self : SendRequest) : World * C :=
  let '(cancelled, w) := poll_is_cancelled w self in
  if cancelled then (w, c) else cancel_request w c self.

(** ** Sending a request *)

Context `{URIOps} {M : Type} `{!UnboundedOps M Message}.

(** [ConnectionHandle::send_request_with_options], from the flag and the number that the handle
    shares with its clones; the body of the request is bytes already. *)
Definition send_request_with_options (env : TimeEnv) (allow_requests : bool) (lock : CSeq)
    (request : Request bytes) (timeout_duration max_timeout_duration : option Duration)
    (w : World) (c : C) (m : M) :
    Outcome (Result SendRequest OperationError * CSeq * World * C * M) :=
  if negb allow_requests then Return (Err Closed, lock, w, c, m)
  else
    let sequence_number := lock in
    let request := Request.map_headers (typed_insert sequence_number) request in
    let '(tx_response, rx_response, w) := oneshot_channel w in
    let '(ok, c) := unbounded_send c (AddPendingRequest sequence_number tx_response) in
    if negb ok then Return (Err Closed, lock, w, c, m)
    else
      let '(ok, m) := unbounded_send m (MRequest request) in
      if negb ok then
        let '(_, c) := unbounded_send c (RemovePendingRequest sequence_number) in
        Return (Err Closed, lock, w, c, m)
      else
        let lock := wrapping_increment sequence_number in
        let! future :=
          send_request_new env rx_response sequence_number timeout_duration max_timeout_duration in
        Return (Ok future, lock, w, c, m).
End Pending.
Arguments PendingRequestResponse {_} ORx.
Arguments PendingRequestUpdate OTx : clear implicits.
Arguments ResponseReceiver OTx : clear implicits.
Arguments SendRequest ORx {_}.

(** ** The tasks together *)

Section System.
Context `{HeaderMapLaws} `{URIOps} `{ClockOps} {OTx ORx World C M : Type}
  `{!OneshotOps World OTx ORx (PendingRequestResponse ORx)}
  `{!OneshotLaws World OTx ORx (PendingRequestResponse ORx)}
  `{!StreamOps C (PendingRequestUpdate OTx)} `{!UnboundedOps C (PendingRequestUpdate OTx)}
  `{!ChannelLaws C (PendingRequestUpdate OTx)}
  `{!UnboundedOps M Message} `{!UnboundedLaws M Message}.

(** Everything the tasks share: the oneshot channels, the channel of updates, the response receiver
    until it is dropped, the futures of the requests that the callers hold, the next CSeq, and the
    channel to the sender. *)
Record System := mkSystem {
  world : World;
  updates : C;
  receiver : option (ResponseReceiver OTx);
  futures : list (SendRequest ORx);
  lock : CSeq;
  outbox : M;
}.

(** One step of one task. A caller sends a request, polls one of its futures or drops it; the
    connection handles the updates, handles a response, or drops the response receiver. The label is
    the response that is handled, if any. *)
Inductive step : list (Response bytes) -> System -> System -> Prop :=
  | step_send env allow request timeout max_timeout w c rr fs l m r l' w' c' m' :
      send_request_with_options env allow l request timeout max_timeout w c m
      = Return (r, l', w', c', m') ->
      step [] (mkSystem w c rr fs l m)
        (mkSystem w' c' rr (match r with Ok s => fs ++ [s] | Err _ => fs end) l' m')
  | step_poll env w c rr fs1 s fs2 l m r w' c' s' :
      send_request_poll env w c s = Return (r, w', c', s') ->
      step [] (mkSystem w c rr (fs1 ++ s :: fs2) l m) (mkSystem w' c' rr (fs1 ++ s' :: fs2) l m)
  | step_drop w c rr fs1 s fs2 l m w' c' :
      send_request_drop w c s = (w', c') ->
      step [] (mkSystem w c rr (fs1 ++ s :: fs2) l m) (mkSystem w' c' rr (fs1 ++ fs2) l m)
  | step_updates fuel w c rr fs l m r c' rr' :
      response_receiver_poll fuel c rr = Return (r, c', rr') ->
      step [] (mkSystem w c (Some rr) fs l m) (mkSystem w c' (Some rr') fs l m)
  | step_response response w c rr fs l m w' rr' :
      handle_response response w rr = Return (w', rr') ->
      step [response] (mkSystem w c (Some rr) fs l m) (mkSystem w' c (Some rr') fs l m)
  | step_receiver_drop fuel w c rr fs l m w' c' :
      response_receiver_drop fuel w c rr = Return (w', c') ->
      step [] (mkSystem w c (Some rr) fs l m) (mkSystem w' c' None fs l m).

(** The systems of a connection whose first request gets the CSeq [s], with the responses that were
    handled so far. *)
Inductive reachable (s : CSeq) (m0 : M) : list (Response bytes) -> System -> Prop :=
  | reachable_start w c :
      (forall t, ~ allocated w t) -> (forall t, sent w t = None) -> pending c = [] ->
      reachable s m0 [] (mkSystem w c (Some response_receiver_new) [] s m0)
  | reachable_step handled more sys sys' :
      reachable s m0 handled sys -> step more sys sys' -> reachable s m0 (handled ++ more) sys'.

(** ** Senders and the requests they are for *)

(** [owner t c] says that the sender [t] answers the request with the CSeq [c]. *)
Record owned (handled : list (Response bytes)) (owner : OTx -> CSeq -> Prop) (w : World) : Prop := {
  owner_allocated t c : owner t c -> allocated w t;
  owner_unique t c c' : owner t c -> owner t c' -> c = c';
  owner_response t r : sent w t = Some (PResponse r) ->
    exists c, owner t c /\ typed_get CSeq (headers r) = Some c /\ r ∈ handled;
  owner_continue t rx : sent w t = Some (PContinue rx) ->
    exists c t', owner t c /\ owner t' c /\ peer t' = rx;
}.
Arguments owner_allocated {handled} owner w.
Arguments owner_unique {handled} owner w.
Arguments owner_response {handled} owner w.
Arguments owner_continue {handled} owner w.

Definition pending_owned (owner : OTx -> CSeq -> Prop) (rr : ResponseReceiver OTx) : Prop :=
  map_Forall (fun c t => owner t c) (pending_requests rr).

Definition updates_owned (owner : OTx -> CSeq -> Prop) (c : C) : Prop :=
  Forall (fun u => match u with AddPendingRequest cseq t => owner t cseq | _ => True end) (pending c).

Definition future_owned (owner : OTx -> CSeq -> Prop) (s : SendRequest ORx) : Prop :=
  exists t, peer t = rx_response s /\ owner t (sequence_number s).

Definition system_owned (handled : list (Response bytes)) (owner : OTx -> CSeq -> Prop)
    (sys : System) : Prop :=
  owned handled owner (world sys) /\ updates_owned owner (updates sys)
  /\ (forall rr, receiver sys = Some rr -> pending_owned owner rr)
  /\ Forall (future_owned owner) (futures sys).

(** A world in which nothing was allocated or sent since. *)
Lemma owned_same {handled} owner w w' :
  (forall t, allocated w' t <-> allocated w t) -> (forall t, sent w' t = sent w t) ->
  owned handled owner w -> owned handled owner w'.
Proof.
  intros Ha Hs [Ho1 Ho2 Ho3 Ho4]. split.
  - intros t c Ht. apply Ha. eauto.
  - exact Ho2.
  - intros t r. rewrite Hs. apply Ho3.
  - intros t rx. rewrite Hs. apply Ho4.
Qed.

Definition extend (owner : OTx -> CSeq -> Prop) (tx : OTx) (cseq : CSeq) : OTx -> CSeq -> Prop :=
  fun t c => owner t c \/ t = tx /\ c = cseq.

Lemma owned_channel {handled} owner w cseq :
  owned handled owner w ->
  let '(tx, rx, w') := oneshot_channel w in
  owned handled (extend owner tx cseq) w' /\ peer tx = rx /\ sent w' tx = None.
Proof.
  intros [Ho1 Ho2 Ho3 Ho4]. pose proof (oneshot_channel_law w) as Hlaw.
  destruct (oneshot_channel w) as [[tx rx] w']. destruct Hlaw as (Hp & Hnew & Hnone & Ha & Hs).
  split; [|done].
  assert (Hold : forall t v, sent w' t = Some v -> sent w t = Some v).
  { intros t v Ht. rewrite <- Hs; [done|]. intros ->. congruence. }
  split.
  - intros t c [Ht|[-> _]]; apply Ha; [left; eauto|now right].
  - intros t c c' [Ht|[-> ->]] [Ht'|[Et ->]]; eauto.
    + subst t. now destruct Hnew; eauto.
    + now destruct Hnew; eauto.
  - intros t r Ht%Hold. destruct (Ho3 t r Ht) as (c & ? & ?). exists c. split; [now left|done].
  - intros t rx' Ht%Hold. destruct (Ho4 t rx' Ht) as (c & t' & ? & ? & ?).
    exists c, t'. now repeat split; try left.
Qed.

Lemma owned_send {handled} owner w tx v :
  owned handled owner w ->
  (forall r, v = PResponse r ->
   exists c, owner tx c /\ typed_get CSeq (headers r) = Some c /\ r ∈ handled) ->
  (forall rx, v = PContinue rx -> exists c t', owner tx c /\ owner t' c /\ peer t' = rx) ->
  owned handled owner (snd (oneshot_send tx v w)).
Proof.
  intros [Ho1 Ho2 Ho3 Ho4] Hr Hc. pose proof (oneshot_send_law tx v w) as Hlaw.
  destruct (oneshot_send tx v w) as [ok w']. destruct Hlaw as [Ha Hs]. cbn. split.
  - intros t c Ht. apply Ha. eauto.
  - exact Ho2.
  - intros t r Ht. destruct (Hs t) as [(Hv & -> & _)|E]; [|rewrite E in Ht; eauto].
    rewrite Hv in Ht. injection Ht as ->. eauto.
  - intros t rx Ht. destruct (Hs t) as [(Hv & -> & _)|E]; [|rewrite E in Ht; eauto].
    rewrite Hv in Ht. injection Ht as ->. eauto.
Qed.

(** A response more that was handled. *)
Lemma owned_more handled response owner w :
  owned handled owner w -> owned (handled ++ [response]) owner w.
Proof.
  intros [Ho1 Ho2 Ho3 Ho4]. split; [done..| |done]. intros t r Ht.
  destruct (Ho3 t r Ht) as (c & ? & ? & ?). exists c. do 2 (split; [done|]).
  apply elem_of_app. now left.
Qed.

Definition wider (owner owner' : OTx -> CSeq -> Prop) : Prop := forall t c, owner t c -> owner' t c.

Lemma wider_refl owner : wider owner owner.
Proof. now intros t c. Qed.

Lemma wider_extend owner tx cseq : wider owner (extend owner tx cseq).
Proof. intros t c Ht. now left. Qed.

Lemma pending_wider owner owner' rr :
  wider owner owner' -> pending_owned owner rr -> pending_owned owner' rr.
Proof. intros Hw Hp c t Ht. now apply Hw, Hp. Qed.

Lemma updates_wider owner owner' c :
  wider owner owner' -> updates_owned owner c -> updates_owned owner' c.
Proof.
  intros Hw Hu. eapply Forall_impl; [exact Hu|]. intros [cseq t|]; [apply Hw|done].
Qed.

Lemma futures_wider owner owner' fs :
  wider owner owner' -> Forall (future_owned owner) fs -> Forall (future_owned owner') fs.
Proof.
  intros Hw Hfs. eapply Forall_impl; [exact Hfs|].
  intros s (t & ? & ?). exists t. split; [done|now apply Hw].
Qed.

(** ** Each operation *)

Lemma updates_poll owner fuel c rr r c' rr' :
  response_receiver_poll fuel c rr = Return (r, c', rr') ->
  updates_owned owner c -> pending_owned owner rr ->
  updates_owned owner c' /\ pending_owned owner rr'.
Proof.
  revert c rr. induction fuel as [|fuel IH]; intros c rr; [done|]. cbn [response_receiver_poll].
  unfold updates_owned. destruct (rx_done rr).
  { case_bool_decide; [|done]. intros [= <- <- <-]. now intros. }
  pose proof (pending_stream_poll c) as Hp. destruct (stream_poll c) as [[[u|]|] c1].
  - rewrite Hp. intros E Hu Hrr. inversion Hu as [|? ? Hu1 Hu2]; subst.
    apply outcome_bind_Return in E as (rr1 & Eh & E). apply (IH c1 rr1 E Hu2). clear IH E.
    unfold handle_pending_request_update in Eh.
    destruct u as [cseq t|cseq]; destruct (pending_requests rr !! cseq); try discriminate Eh;
      injection Eh as <-; [now apply map_Forall_insert_2|now apply map_Forall_delete].
  - destruct Hp as [Hp1 Hp2]. cbn. case_bool_decide; [|done]. intros [= <- <- <-] _ Hrr.
    rewrite Hp2. now split; [constructor|].
  - destruct Hp as [Hp1 Hp2]. intros [= <- <- <-] _ Hrr. rewrite Hp2. now split; [constructor|].
Qed.

Lemma response_handled handled owner response w rr w' rr' :
  handle_response response w rr = Return (w', rr') ->
  owned handled owner w -> pending_owned owner rr ->
  exists owner', wider owner owner' /\ owned (handled ++ [response]) owner' w'
    /\ pending_owned owner' rr'.
Proof.
  unfold handle_response. intros E Ho%(owned_more _ response) Hrr. destruct (rx_done rr); [done|].
  destruct (typed_get CSeq (headers response)) as [cseq|] eqn:Ec;
    [|injection E as <- <-; now exists owner].
  destruct (pending_requests rr !! cseq) as [tx|] eqn:Et; [|injection E as <- <-; now exists owner].
  pose proof (Hrr cseq tx Et) as Htx.
  assert (Hfinal : forall w1 rr1,
            (let '(_, w) := oneshot_send tx (PResponse response) w in
             Return (w, set_pending_requests (delete cseq (pending_requests rr)) rr))
            = Return (w1, rr1) ->
            exists owner', wider owner owner' /\ owned (handled ++ [response]) owner' w1
              /\ pending_owned owner' rr1).
  { intros w1 rr1. pose proof (owned_send owner w tx (PResponse response) Ho) as Hsend.
    destruct (oneshot_send tx (PResponse response) w) as [ok w2]. intros [= <- <-].
    exists owner. split; [apply wider_refl|]. split; [|now apply map_Forall_delete].
    apply Hsend; [|done]. intros r [= <-]. exists cseq. do 2 (split; [done|]).
    apply elem_of_app. right. now apply list_elem_of_singleton. }
  destruct (status_code response); try (exact (Hfinal _ _ E)). clear Hfinal.
  pose proof (owned_channel owner w cseq Ho) as Hch.
  destruct (oneshot_channel w) as [[tx' rx'] w1]. destruct Hch as (Ho1 & Hpeer & _).
  pose proof (owned_send _ w1 tx (PContinue rx') Ho1) as Hsend.
  destruct (oneshot_send tx (PContinue rx') w1) as [ok w2]. injection E as <- <-.
  exists (extend owner tx' cseq). split; [apply wider_extend|]. split.
  - apply Hsend; [done|]. intros rx [= <-]. exists cseq, tx'. split; [now left|]. split; [now right|done].
  - apply (pending_wider _ _ _ (wider_extend owner tx' cseq)) in Hrr.
    destruct ok; [apply map_Forall_insert_2; [now right|done]|now apply map_Forall_delete].
Qed.

Lemma removed_owned {handled} owner w (rr : ResponseReceiver OTx) :
  owned handled owner w -> owned handled owner (fst (remove_pending_requests w rr)).
Proof.
  unfold remove_pending_requests. cbn. generalize (map_to_list (pending_requests rr)).
  intros l. revert w. induction l as [|[c tx] l IH]; intros w Ho; [done|]. cbn. apply IH.
  now apply owned_send.
Qed.

Lemma cancel_owned {handled} owner w c (s : SendRequest ORx) w' c' :
  cancel_request w c s = (w', c') -> owned handled owner w -> updates_owned owner c ->
  owned handled owner w' /\ updates_owned owner c'.
Proof.
  unfold cancel_request. pose proof (pending_unbounded_send c (RemovePendingRequest (OTx := OTx) (sequence_number s))) as Hp.
  destruct (unbounded_send c _) as [ok c1]. intros [= <- <-] Ho Hu. split.
  - destruct (oneshot_close_law (rx_response s) w) as [Ha Hs]. now apply (owned_same owner w).
  - unfold updates_owned. rewrite Hp. destruct ok; [|done]. apply Forall_app. now repeat constructor.
Qed.

Lemma poll_owned {handled} owner rx w :
  owned handled owner w -> owned handled owner (snd (oneshot_poll rx w)).
Proof.
  intros Ho. pose proof (oneshot_poll_law rx w) as Hlaw. destruct (oneshot_poll rx w) as [r w'].
  destruct Hlaw as (Ha & Hs & _). now apply (owned_same owner w).
Qed.

Lemma timer_owned {handled} owner t kind env w c (s : SendRequest ORx) r w' c' :
  poll_one_timer t kind env w c s = Return (r, w', c') -> owned handled owner w -> updates_owned owner c ->
  owned handled owner w' /\ updates_owned owner c'.
Proof.
  unfold poll_one_timer. destruct t as [t|]; [|now intros [= <- <- <-]].
  destruct (delay_poll env t) as [[[]|]|[]]; try done; [|now intros [= <- <- <-]|];
    destruct (cancel_request w c s) as [w1 c1] eqn:Ec; intros [= <- <- <-] Ho Hu;
    exact (cancel_owned _ _ _ _ _ _ Ec Ho Hu).
Qed.

(** What a future gets from its channel is for its request. *)
Lemma poll_request_owned {handled} owner env w (s : SendRequest ORx) r w' s' :
  poll_request env w s = Return (r, w', s') -> owned handled owner w -> future_owned owner s ->
  owned handled owner w' /\ future_owned owner s' /\ sequence_number s' = sequence_number s
  /\ forall response, r = Ok (Ready response) ->
       typed_get CSeq (headers response) = Some (sequence_number s) /\ response ∈ handled.
Proof.
  unfold poll_request. intros E Ho (t & Hpeer & Ht).
  pose proof (poll_owned owner (rx_response s) w Ho) as Ho'.
  pose proof (oneshot_poll_law (rx_response s) w) as Hlaw.
  destruct (oneshot_poll (rx_response s) w) as [r1 w1]. destruct Hlaw as (_ & _ & Hlaw). cbn in Ho'.
  assert (Hs : future_owned owner s) by now exists t.
  destruct r1 as [[v|]|[]]; [|injection E as <- <- <-; now repeat (split; [done|])|done].
  pose proof (Hlaw v eq_refl t Hpeer (owner_allocated owner w Ho t _ Ht)) as Hsent.
  destruct v as [rx| |response].
  - apply outcome_bind_Return in E as (tm & _ & E). injection E as <- <- <-.
    split; [done|]. split; [|done].
    destruct (owner_continue owner w Ho t rx Hsent) as (c & t' & Hc & Hc' & Hp').
    exists t'. split; [done|]. cbn. now rewrite <- (owner_unique owner w Ho t c _ Hc Ht).
  - injection E as <- <- <-. now repeat (split; [done|]).
  - injection E as <- <- <-. do 3 (split; [done|]). intros ? [= <-].
    destruct (owner_response owner w Ho t response Hsent) as (c & Hc & Hr & Hin). split; [|done].
    now rewrite Hr, (owner_unique owner w Ho t c _ Hc Ht).
Qed.

Lemma send_request_poll_owned {handled} owner env w c (s : SendRequest ORx) r w' c' s' :
  send_request_poll env w c s = Return (r, w', c', s') ->
  owned handled owner w -> updates_owned owner c -> future_owned owner s ->
  owned handled owner w' /\ updates_owned owner c' /\ future_owned owner s'
  /\ forall response, r = Ok (Ready response) ->
       typed_get CSeq (headers response) = Some (sequence_number s) /\ response ∈ handled.
Proof.
  unfold send_request_poll. intros E Ho Hu Hs.
  apply outcome_bind_Return in E as ([[r1 w1] s1] & E1 & E).
  destruct (poll_request_owned owner env w s r1 w1 s1 E1 Ho Hs) as (Ho1 & Hs1 & Hn1 & Hr1).
  destruct r1 as [[response|]|e]; [injection E as <- <- <- <-; now repeat (split; [done|])| |
                                   injection E as <- <- <- <-; now repeat (split; [done|])].
  apply outcome_bind_Return in E as ([[r2 w2] c2] & E2 & E).
  destruct (timer_owned owner _ _ _ _ _ _ _ _ _ E2 Ho1 Hu) as [Ho2 Hu2].
  destruct r2 as [[]|e]; [|injection E as <- <- <- <-; now repeat (split; [done|])].
  apply outcome_bind_Return in E as ([[r3 w3] c3] & E3 & E).
  destruct (timer_owned owner _ _ _ _ _ _ _ _ _ E3 Ho2 Hu2) as [Ho3 Hu3].
  destruct r3 as [[]|e]; injection E as <- <- <- <-; now repeat (split; [done|]).
Qed.

Lemma new_future owner env rx l timeout max_timeout s t :
  send_request_new env rx l timeout max_timeout = Return s -> peer t = rx -> owner t l ->
  future_owned owner s /\ sequence_number s = l.
Proof.
  intros E Hp Ht. unfold send_request_new in E.
  apply outcome_bind_Return in E as (t1 & _ & E). apply outcome_bind_Return in E as (t2 & _ & E).
  injection E as <-. split; [now exists t|done].
Qed.

(** Sending a request: a fresh sender answers it, the message carries the number, and the number
    moves on exactly when the message was sent. *)
Lemma send_owned {handled} owner env allow l request timeout max_timeout w c m r l' w' c' m' :
  send_request_with_options env allow l request timeout max_timeout w c m
  = Return (r, l', w', c', m') ->
  owned handled owner w -> updates_owned owner c ->
  exists owner', wider owner owner' /\ owned handled owner' w' /\ updates_owned owner' c'
    /\ match r with
       | Ok s => future_owned owner' s /\ sequence_number s = l /\ l' = wrapping_increment l
           /\ posted m' = posted m ++ [MRequest (Request.map_headers (typed_insert l) request)]
       | Err _ => l' = l /\ posted m' = posted m
       end.
Proof.
  unfold send_request_with_options. intros E Ho Hu. destruct allow; cbn [negb] in E.
  2:{ injection E as <- <- <- <- <-. exists owner.
      split; [apply wider_refl|]. split; [done|]. now split. }
  pose proof (owned_channel owner w l Ho) as Hch.
  destruct (oneshot_channel w) as [[tx rx] w1]. destruct Hch as (Ho1 & Hpeer & _).
  pose proof (wider_extend owner tx l) as Hw. apply (updates_wider _ _ _ Hw) in Hu.
  set (owner' := extend owner tx l) in *. assert (Htx : owner' tx l) by now right.
  pose proof (pending_unbounded_send c (AddPendingRequest l tx)) as Hc1.
  destruct (unbounded_send c _) as [ok1 c1]. destruct ok1; cbn [negb] in E.
  2:{ injection E as <- <- <- <- <-. exists owner'. split; [done|]. split; [done|].
      unfold updates_owned. now rewrite Hc1. }
  assert (Hu1 : updates_owned owner' c1).
  { unfold updates_owned. rewrite Hc1. apply Forall_app. now repeat constructor. }
  set (msg := MRequest _) in *. pose proof (posted_unbounded_send m msg) as Hm.
  destruct (unbounded_send m msg) as [ok2 m1]. destruct ok2; cbn [negb] in E.
  - apply outcome_bind_Return in E as (s & Es & E). injection E as <- <- <- <- <-.
    destruct (new_future owner' _ _ _ _ _ s tx Es Hpeer Htx) as [Hs Hn].
    exists owner'. now repeat (split; [done|]).
  - pose proof (pending_unbounded_send c1 (RemovePendingRequest (OTx := OTx) l)) as Hc2.
    destruct (unbounded_send c1 _) as [ok3 c2]. injection E as <- <- <- <- <-.
    exists owner'. split; [done|]. split; [done|]. split; [|done]. unfold updates_owned. rewrite Hc2.
    destruct ok3; [|done]. apply Forall_app. now repeat constructor.
Qed.

(** The requests sent so far have consecutive numbers, and the next number follows. *)
Definition numbered (s : CSeq) (m0 : M) (sys : System) : Prop :=
  exists l : list (CSeq * Request bytes),
    posted (outbox sys) = posted m0 ++ ((fun x => MRequest (snd x)) <$> l)
    /\ in_order s l /\ lock sys = next s l
    /\ Forall (fun x => typed_get CSeq (Request.headers (snd x)) = Some (fst x)) l.

Lemma typed_get_insert c m : cseq_valid c -> typed_get CSeq (typed_insert c m) = Some c.
Proof. intros Hc. unfold typed_get. now rewrite (typed_insert_try_get c m Hc). Qed.

Lemma numbered_send s m0 l request (m m' : M) :
  cseq_valid s -> posted m = posted m0 ++ ((fun x => MRequest (snd x)) <$> l) -> in_order s l ->
  Forall (fun x : CSeq * Request bytes => typed_get CSeq (Request.headers (snd x)) = Some (fst x)) l ->
  posted m' = posted m ++ [MRequest (Request.map_headers (typed_insert (next s l)) request)] ->
  exists l', posted m' = posted m0 ++ ((fun x => MRequest (snd x)) <$> l')
    /\ in_order s l' /\ wrapping_increment (next s l) = next s l'
    /\ Forall (fun x => typed_get CSeq (Request.headers (snd x)) = Some (fst x)) l'.
Proof.
  intros Hs Hm Ho Hall Hm'.
  exists (l ++ [(next s l, Request.map_headers (typed_insert (next s l)) request)]).
  split; [now rewrite Hm', Hm, fmap_app, <- app_assoc|].
  split; [now apply in_order_app|]. split; [now rewrite next_app|].
  apply Forall_app. split; [done|]. constructor; [|constructor]. cbn.
  apply typed_get_insert. now apply next_valid.
Qed.

Lemma step_inv s m0 handled more sys sys' owner :
  cseq_valid s -> step more sys sys' -> system_owned handled owner sys -> numbered s m0 sys ->
  exists owner', system_owned (handled ++ more) owner' sys' /\ numbered s m0 sys'.
Proof.
  intros Hs Hstep (Ho & Hu & Hrr & Hfs) Hnum. unfold system_owned.
  destruct Hstep as [env allow request timeout max_timeout w c rr fs l m r l' w' c' m' E
    |env w c rr fs1 f fs2 l m r w' c' s' E|w c rr fs1 f fs2 l m w' c' E
    |fuel w c rr fs l m r c' rr' E|response w c rr fs l m w' rr' E|fuel w c rr fs l m w' c' E];
    cbn in *; rewrite ?app_nil_r.
  - destruct (send_owned owner _ _ _ _ _ _ _ _ _ _ _ _ _ _ E Ho Hu) as (owner' & Hw & Ho' & Hu' & Hr).
    exists owner'. destruct Hnum as (log & Hm & Hin & Hl & Hall). cbn in Hm, Hl. split.
    + split; [done|]. split; [done|]. split; [intros rr0 E0; apply (pending_wider owner); [done|now apply Hrr]|].
      apply (futures_wider _ _ _ Hw) in Hfs. destruct r as [f|]; [|done].
      apply Forall_app. split; [done|]. constructor; [apply Hr|constructor].
    + destruct r as [f|]; [|destruct Hr as [-> Hm']; exists log; cbn; now rewrite Hm'].
      destruct Hr as (_ & _ & -> & Hm'). subst l.
      exact (numbered_send s m0 log request m m' Hs Hm Hin Hall Hm').
  - rewrite Forall_app, Forall_cons in Hfs. destruct Hfs as (Hfs1 & Hf & Hfs2).
    destruct (send_request_poll_owned owner _ _ _ _ _ _ _ _ E Ho Hu Hf) as (Ho' & Hu' & Hf' & _).
    exists owner. split; [|exact Hnum]. do 3 (split; [done|]). rewrite Forall_app, Forall_cons. done.
  - rewrite Forall_app, Forall_cons in Hfs. destruct Hfs as (Hfs1 & Hf & Hfs2).
    exists owner. split; [|exact Hnum]. rewrite Forall_app.
    unfold send_request_drop, poll_is_cancelled in E.
    pose proof (poll_owned owner (rx_response f) w Ho) as Ho'.
    destruct (oneshot_poll (rx_response f) w) as [r w1]. cbn in Ho'.
    destruct r as [a|]; [|now injection E as <- <-].
    destruct (cancel_owned owner _ _ _ _ _ E Ho' Hu) as [Ho'' Hu'']. done.
  - destruct (updates_poll owner _ _ _ _ _ _ E Hu (Hrr rr eq_refl)) as [Hu' Hrr'].
    exists owner. split; [|exact Hnum]. split; [done|]. split; [done|]. split; [now intros ? [= <-]|done].
  - destruct (response_handled handled owner _ _ _ _ _ E Ho (Hrr rr eq_refl)) as (owner' & Hw & Ho' & Hrr').
    exists owner'. split; [|exact Hnum]. split; [done|]. split; [now apply (updates_wider owner)|].
    split; [now intros ? [= <-]|now apply (futures_wider owner)].
  - unfold response_receiver_drop in E. apply outcome_bind_Return in E as ([[r c1] rr1] & E1 & E).
    injection E as <- <-. destruct (updates_poll owner _ _ _ _ _ _ E1 Hu (Hrr rr eq_refl)) as [Hu' Hrr'].
    exists owner. split; [|exact Hnum]. split; [now apply removed_owned|]. split; [done|]. done.
Qed.

Lemma system_inv s m0 handled sys :
  cseq_valid s -> reachable s m0 handled sys ->
  exists owner, system_owned handled owner sys /\ numbered s m0 sys.
Proof.
  intros Hs. induction 1 as [w c Ha Hn Hc|handled more sys sys' _ (owner & Ho & Hnum) Hstep].
  - exists (fun _ _ => False). split; [|exists []; cbn; now rewrite app_nil_r].
    split; [|split; [|split]].
    + split; cbn; try done; intros t x; now rewrite Hn.
    + unfold updates_owned. cbn. now rewrite Hc.
    + intros rr [= <-]. now intros c' t.
    + constructor.
  - now apply (step_inv s m0 handled more sys sys' owner).
Qed.

(** ** Properties *)

(** What [response_matching] says of one future. *)
Lemma future_response s m0 handled sys f env response w' c' f' :
  cseq_valid s -> reachable s m0 handled sys -> f ∈ futures sys ->
  send_request_poll env (world sys) (updates sys) f = Return (Ok (Ready response), w', c', f') ->
  typed_get CSeq (headers response) = Some (sequence_number f) /\ response ∈ handled.
Proof.
  intros Hs Hr Hin E. destruct (system_inv s m0 handled sys Hs Hr) as (owner & (Ho & Hu & _ & Hfs) & _).
  rewrite Forall_forall in Hfs.
  destruct (send_request_poll_owned owner _ _ _ _ _ _ _ _ E Ho Hu (Hfs f Hin)) as (_ & _ & _ & Hresp).
  now apply Hresp.
Qed.

(** C11: Whatever the tasks do and however their steps interleave: the requests are sent with consecutive
    CSeqs, each in its own header, and a future that gets a response gets one of the responses that
    the connection has handled, which carries the CSeq its request was sent with, also after any
    number of Continue responses. *)
Theorem response_matching s m0 handled sys :
  cseq_valid s -> reachable s m0 handled sys ->
  numbered s m0 sys
  /\ forall f env response w' c' f', f ∈ futures sys ->
       send_request_poll env (world sys) (updates sys) f = Return (Ok (Ready response), w', c', f') ->
       typed_get CSeq (headers response) = Some (sequence_number f) /\ response ∈ handled.
Proof.
  intros Hs Hr. split; [now destruct (system_inv s m0 handled sys Hs Hr) as (owner & _ & Hnum)|].
  intros f env response w' c' f' Hin E. now apply (future_response s m0 handled sys f env response w' c' f').
Qed.

(** Handling a response touches the request it is for and no other: a response without a CSeq, or
    with one that nobody waits for, changes nothing; a final response ends the wait and a Continue
    response keeps it going with a fresh sender, which the caller is told about, unless the caller
    is gone; no other sender is used. *)
Theorem response_routing (rr : ResponseReceiver OTx) response w :
  rx_done rr = false -> map_Forall (fun _ t => allocated w t) (pending_requests rr) ->
  exists w' rr', handle_response response w rr = Return (w', rr')
    /\ match typed_get CSeq (headers response) ≫= fun c => pending_requests rr !! c with
       | None => w' = w /\ rr' = rr
       | Some tx =>
           exists c, typed_get CSeq (headers response) = Some c
             /\ (forall c', c' <> c -> pending_requests rr' !! c' = pending_requests rr !! c')
             /\ (forall t, allocated w t -> t <> tx -> sent w' t = sent w t)
             /\ match pending_requests rr' !! c with
                | None => True
                | Some tx' => status_code response = Continue /\ ~ allocated w tx'
                              /\ (sent w' tx = Some (PContinue (peer tx')) \/ sent w' tx = sent w tx)
                end
       end.
Proof.
  intros Hdone Hall. unfold handle_response. rewrite Hdone.
  destruct (typed_get CSeq (headers response)) as [c|] eqn:Ec; cbn; [|now exists w, rr].
  destruct (pending_requests rr !! c) as [tx|] eqn:Et; [|now exists w, rr].
  assert (Hfinal : exists w' rr',
            (let '(_, w) := oneshot_send tx (PResponse response) w in
             Return (w, set_pending_requests (delete c (pending_requests rr)) rr)) = Return (w', rr')
            /\ (forall c', c' <> c -> pending_requests rr' !! c' = pending_requests rr !! c')
            /\ (forall t, allocated w t -> t <> tx -> sent w' t = sent w t)
            /\ pending_requests rr' !! c = None).
  { pose proof (oneshot_send_law tx (PResponse response) w) as Hlaw.
    destruct (oneshot_send tx (PResponse response) w) as [ok w2]. destruct Hlaw as [_ Hs].
    eexists _, _. split; [reflexivity|]. cbn. split; [intros c' Hc; now apply lookup_delete_ne|].
    split; [|apply lookup_delete_eq]. intros t _ Hne. destruct (Hs t) as [(_ & ? & _)|E]; done. }
  destruct (status_code response) eqn:Est;
    try (destruct Hfinal as (w' & rr' & E & H1' & H2' & H3'); exists w', rr'; split; [exact E|];
         exists c; rewrite H3'; done).
  clear Hfinal. pose proof (oneshot_channel_law w) as Hch.
  destruct (oneshot_channel w) as [[tx' rx'] w1]. destruct Hch as (Hpeer & Hnew & _ & _ & Hs1).
  pose proof (oneshot_send_law tx (PContinue rx') w1) as Hlaw.
  destruct (oneshot_send tx (PContinue rx') w1) as [ok w2]. destruct Hlaw as [_ Hs2].
  eexists _, _. split; [reflexivity|]. exists c. split; [done|]. cbn.
  split; [|split].
  - intros c' Hc. destruct ok; [now apply lookup_insert_ne|now apply lookup_delete_ne].
  - intros t Ha Hne. destruct (Hs2 t) as [(_ & ? & _)|E]; [done|]. rewrite E. apply Hs1.
    now intros ->.
  - destruct ok; [rewrite lookup_insert_eq|now rewrite lookup_delete_eq]. split; [done|].
    split; [done|]. destruct (Hs2 tx) as [(E & _ & _)|E]; [left; now rewrite E, Hpeer|right].
    rewrite E. apply Hs1. intros ->. now apply Hnew, (Hall c).
Qed.
End System.

(** ** Runs

    Oneshot channels in a list, and an unbounded channel in a record. *)
Record Cell (V : Type) := mkCell { c_sent : option V; c_taken : bool; c_open : bool }.
Arguments mkCell {V} _ _ _.
Arguments c_sent {V} _.
Arguments c_taken {V} _.
Arguments c_open {V} _.

#[export] Instance cells_ops {V} : OneshotOps (list (Cell V)) nat nat V := {|
  oneshot_channel w := (length w, length w, w ++ [mkCell None false true]);
  oneshot_send tx v w :=
    match w !! tx with
    | Some (mkCell None taken true) => (true, <[tx := mkCell (Some v) taken true]> w)
    | _ => (false, w)
    end;
  oneshot_poll rx w :=
    match w !! rx with
    | Some (mkCell (Some v) false open) => (Ok (Ready v), <[rx := mkCell (Some v) true open]> w)
    | Some (mkCell None false true) => (Ok NotReady, w)
    | _ => (Err canceled, w)
    end;
  oneshot_close rx w :=
    match w !! rx with
    | Some cell => <[rx := mkCell (c_sent cell) (c_taken cell) false]> w
    | None => w
    end;
|}.

(** Replacing a cell by one with the same value. *)
Lemma cells_same {V} (w : list (Cell V)) i cell cell' :
  w !! i = Some cell -> c_sent cell' = c_sent cell ->
  forall t, (<[i := cell']> w !! t ≫= c_sent) = (w !! t ≫= c_sent).
Proof.
  intros Hi Hs t. destruct (decide (t = i)) as [->|Hne].
  - rewrite list_lookup_insert_eq by (now apply lookup_lt_Some in Hi). now rewrite Hi.
  - now rewrite list_lookup_insert_ne.
Qed.

#[export] Instance cells_laws {V} : OneshotLaws (list (Cell V)) nat nat V.
Proof.
  refine {| peer t := t; allocated w t := t < length w; sent w t := w !! t ≫= c_sent |}.
  - intros w. cbn. split; [done|]. split; [lia|]. split.
    + now rewrite lookup_app_r, Nat.sub_diag by lia.
    + split; [intros t; rewrite length_app; cbn; lia|]. intros t Hne.
      destruct (decide (t < length w)); [now rewrite lookup_app_l by lia|].
      rewrite lookup_app_r, (lookup_ge_None_2 w) by lia.
      now rewrite lookup_ge_None_2 by (cbn; lia).
  - intros tx v w. cbn. destruct (w !! tx) as [[[v'|] taken []]|] eqn:E; try (split; [done|now right]).
    split; [intros t; now rewrite length_insert|]. intros t. destruct (decide (t = tx)) as [->|Hne].
    + left. rewrite list_lookup_insert_eq by (now apply lookup_lt_Some in E). done.
    + right. now rewrite list_lookup_insert_ne.
  - intros rx w. cbn.
    destruct (w !! rx) as [[[v|] [] []]|] eqn:E;
      try (split; [done|]; split; [done|]; done);
      (split; [intros t; now rewrite length_insert|]; split; [now apply (cells_same w rx _ _ E)|];
       intros v' [= <-] tx -> _; now rewrite E).
  - intros rx w. cbn. destruct (w !! rx) as [cell|] eqn:E; [|done].
    split; [intros t; now rewrite length_insert|now apply (cells_same w rx _ _ E)].
Defined.

Record Pipe (Item : Type) := mkPipe { pipe : list Item; senders_gone : bool; receiver_gone : bool }.
Arguments mkPipe {Item} _ _ _.
Arguments pipe {Item} _.
Arguments senders_gone {Item} _.
Arguments receiver_gone {Item} _.

#[export] Instance pipe_stream {Item} : StreamOps (Pipe Item) Item := {|
  stream_poll c :=
    match pipe c with
    | item :: rest => (Ready (Some item), mkPipe rest (senders_gone c) (receiver_gone c))
    | [] => (if senders_gone c then Ready None else NotReady, c)
    end;
|}.

#[export] Instance pipe_unbounded {Item} : UnboundedOps (Pipe Item) Item := {|
  unbounded_send c item :=
    if receiver_gone c then (false, c) else (true, mkPipe (pipe c ++ [item]) (senders_gone c) false);
|}.

#[export] Instance pipe_stream_laws {Item} : StreamLaws (Pipe Item) Item.
Proof. refine {| pending := pipe |}. intros [[|item rest] [] g]; now repeat split. Defined.

#[export] Instance pipe_laws {Item} : ChannelLaws (Pipe Item) Item.
Proof. split with pipe_stream_laws. intros [l g []] item; reflexivity. Defined.

Notation SampleResponse := (PendingRequestResponse (H:=list_header_map) nat).
Notation SampleWorld := (list (Cell SampleResponse)).
Notation SampleChannel := (Pipe (PendingRequestUpdate nat)).
Notation SampleOutbox := (Mailbox (Message (H:=list_header_map) (H0:=text_uri))).
Notation SampleSystem := (System (H2:=counting_clock) (OTx := nat) (ORx := nat)
  (World := SampleWorld) (C := SampleChannel) (M := SampleOutbox)).

Definition env_at (now : N) : TimeEnv (H0:=counting_clock) :=
  mkTimeEnv (H0:=counting_clock) now
    (fun t => if (deadline t <=? now)%N then Ok (Ready tt) else Ok NotReady).

Definition options_request : Request (H:=list_header_map) (H0:=text_uri) bytes :=
  mkRequest (H:=list_header_map) (H0:=text_uri) [] [] Options (bs "*") Rtsp2_0.

Definition response_to (c : CSeq) (status : StatusCode) (reason : string) :
    Response (H:=list_header_map) bytes :=
  Response.map_headers (typed_insert c) (canned_response status reason).

Definition system_0 : SampleSystem :=
  mkSystem [] (mkPipe [] false false) (Some response_receiver_new) [] (mkCSeq 7) (mkMailbox [] true).

(** The request 7 is sent, and the receiver hears of it. *)
Definition future_7 : SendRequest (H0:=counting_clock) nat :=
  mkSendRequest (H0:=counting_clock) (Some (mkDelay (H:=counting_clock) 20%N)) 0 (mkCSeq 7)
    (Some (10%N : Duration (ClockOps := counting_clock))) (Some (mkDelay (H:=counting_clock) 10%N)).

Definition outbox_7 : SampleOutbox :=
  mkMailbox [MRequest (Request.map_headers (typed_insert (mkCSeq 7)) options_request)] true.

Definition system_1 : SampleSystem :=
  mkSystem [mkCell None false true] (mkPipe [AddPendingRequest (mkCSeq 7) 0] false false)
    (Some response_receiver_new) [future_7] (mkCSeq 8) outbox_7.

Definition system_2 : SampleSystem :=
  mkSystem [mkCell None false true] (mkPipe [] false false)
    (Some (mkResponseReceiver {[mkCSeq 7 := 0]} false)) [future_7] (mkCSeq 8) outbox_7.

(** The response arrives. *)
Definition cell_7 (taken : bool) : Cell SampleResponse :=
  mkCell (Some (PResponse (response_to (mkCSeq 7) OK "OK"))) taken true.

Definition system_3 : SampleSystem :=
  mkSystem [cell_7 false] (mkPipe [] false false) (Some response_receiver_new) [future_7] (mkCSeq 8)
    outbox_7.

Lemma system_3_reachable :
  reachable (H:=list_header_map) (H1:=text_uri) (H2:=counting_clock) (mkCSeq 7) (mkMailbox [] true)
    [response_to (mkCSeq 7) OK "OK"] system_3.
Proof.
  apply (reachable_step _ _ [] [response_to (mkCSeq 7) OK "OK"] system_2).
  2:{ apply (step_response (H:=list_header_map) (H1:=text_uri) (H2:=counting_clock)
               (response_to (mkCSeq 7) OK "OK")). reflexivity. }
  apply (reachable_step _ _ [] [] system_1).
  2:{ apply (step_updates (H:=list_header_map) (H1:=text_uri) (H2:=counting_clock) 9 _ _ _ _ _ _ NotReady).
      reflexivity. }
  apply (reachable_step _ _ [] [] system_0).
  2:{ apply (step_send (H:=list_header_map) (H1:=text_uri) (H2:=counting_clock) (env_at 0) true
               options_request (Some 10%N) (Some 20%N) _ _ _ [] _ _ (Ok future_7)). reflexivity. }
  apply (reachable_start (H:=list_header_map) (H1:=text_uri) (H2:=counting_clock)); cbn; [lia|done..].
Qed.

Lemma response_matching_witness :
  exists response w' c' f',
    send_request_poll (env_at 1) (world system_3) (updates system_3) future_7
    = Return (Ok (Ready response), w', c', f')
    /\ typed_get CSeq (headers response) = Some (mkCSeq 7)
    /\ response ∈ [response_to (mkCSeq 7) OK "OK"].
Proof.
  eexists _, _, _, _. split; [reflexivity|].
  refine (proj2 (response_matching (H:=list_header_map) (H1:=text_uri) (H2:=counting_clock)
                   (mkCSeq 7) (mkMailbox [] true) _ system_3 ltac:(done) system_3_reachable)
            future_7 (env_at 1) _ _ _ _ (list_elem_of_here _ _) _); reflexivity.
Defined.

(** A caller that drops its future after the response was matched and before it polled the future
    asks for the removal of a request that is no longer pending: the debug assertion of the removal
    fails, and with it the poll of the connection, in a build that has debug assertions. *)
Theorem drop_after_match_panics :
  exists (sys : SampleSystem) handled rr,
    reachable (H:=list_header_map) (H1:=text_uri) (H2:=counting_clock) (mkCSeq 7)
      (mkMailbox [] true) handled sys
    /\ receiver sys = Some rr
    /\ pending (updates sys) = [RemovePendingRequest (mkCSeq 7)]
    /\ handle_pending_request_update (RemovePendingRequest (mkCSeq 7)) rr = Panic
    /\ forall fuel, response_receiver_poll fuel (updates sys) rr = Panic.
Proof.
  exists (mkSystem [mkCell (c_sent (cell_7 true)) true false]
            (mkPipe [RemovePendingRequest (mkCSeq 7)] false false) (Some response_receiver_new) []
            (mkCSeq 8) outbox_7), [response_to (mkCSeq 7) OK "OK"], response_receiver_new.
  split; [|split; [reflexivity|split; [reflexivity|split; [reflexivity|]]]].
  - apply (reachable_step _ _ [response_to (mkCSeq 7) OK "OK"] [] system_3); [exact system_3_reachable|].
    apply (step_drop (H:=list_header_map) (H1:=text_uri) (H2:=counting_clock) _ _ _ [] future_7 []).
    reflexivity.
  - now intros [|fuel].
Qed.

Lemma response_routing_witness :
  exists w' rr', handle_response (response_to (mkCSeq 7) Continue "Continue") (world system_2)
                   (mkResponseReceiver {[mkCSeq 7 := 0]} false) = Return (w', rr')
    /\ pending_requests rr' !! mkCSeq 7 = Some 1.
Proof.
  destruct (response_routing (H:=list_header_map) (ORx := nat)
              (mkResponseReceiver {[mkCSeq 7 := 0]} false)
              (response_to (mkCSeq 7) Continue "Continue") (world system_2) eq_refl)
    as (w' & rr' & E & _).
  { apply map_Forall_singleton. cbn. lia. }
  exists w', rr'. split; [exact E|]. injection E as _ <-. reflexivity.
Defined.
