(* ===== verification/Waiting.v ===== *)
(** * Waiting for a response

    The time limits of [SendRequest] in [rtsp-2/src/protocol/connection/pending.rs], over the whole
    life of the future: the maximum counts from the sending of the request and is never extended, and
    the other limit counts from the last Continue response. *)

From Stdlib Require Import Strings.Byte.
From stdpp Require Import base list numbers gmap strings.
From S2P Require Import Prelude Text HeaderMap CSeq Status Reason Request Response Codec Futures Forwarding Pending.

Local Open Scope rust_scope.

Section Waiting.
Context `{HeaderMapOps} `{ClockOps} {OTx ORx World C : Type}
  `{!OneshotOps World OTx ORx (PendingRequestResponse ORx)} `{!UnboundedOps C (PendingRequestUpdate OTx)}.

Notation Future := (SendRequest ORx).

(** The timer of a limit that counts from [start]. *)
Definition limit (start : Instant) (duration : option Duration) : option Delay :=
  d ← duration; mkDelay <$> instant_add start d.

(** What a future ends with when a limit is over, or its timer fails. *)
Definition expired (env : TimeEnv) (kind : RequestTimeoutType) (t : option Delay) : option OperationError :=
  match delay_poll env <$> t with
  | Some (Ok (Ready _)) => Some (RequestTimedOut kind)
  | Some (Err AtCapacity) => Some RequestCancelled
  | _ => None
  end.

(** The maximum is looked at first. *)
Definition overdue (env : TimeEnv) (max_timer timer : option Delay) : option OperationError :=
  match expired env Long max_timer with
  | Some error => Some error
  | None => expired env Short timer
  end.

(** When the server was last heard of, after a poll. *)
Definition heard (env : TimeEnv) (w : World) (s : Future) (since : Instant) : Instant :=
  match fst (oneshot_poll (rx_response s) w) with
  | Ok (Ready (PContinue _)) => now env
  | _ => since
  end.

(** The polls of a future that leave it waiting, with anything done to the world and to the channel
    between them, and when the server was last heard of. *)
Inductive waiting (start : Instant) (s0 : Future) : Instant -> Future -> Prop :=
  | waiting_start : waiting start s0 start s0
  | waiting_poll since env w c s w' c' s' :
      waiting start s0 since s -> send_request_poll env w c s = Return (Ok NotReady, w', c', s') ->
      waiting start s0 (heard env w s since) s'.

(** What the environment gives to a poll: timers that are not shut down, an instant that the limit can
    be added to, and a sender that did not go away without a word. *)
Definition good_poll (env : TimeEnv) (w : World) (s : Future) (duration : option Duration) : Prop :=
  (forall t, delay_poll env t <> Err TimerShutdown)
  /\ (forall d, duration = Some d -> is_Some (instant_add (now env) d))
  /\ (forall e, fst (oneshot_poll (rx_response s) w) <> Err e).

Lemma new_timer_limit env duration t : new_timer env duration = Return t -> t = limit (now env) duration.
Proof.
  unfold new_timer, limit, delay_after. destruct duration as [d|]; [|now intros [= <-]].
  cbn. destruct (instant_add (now env) d); [now intros [= <-]|done].
Qed.

Lemma new_timer_good env duration :
  (forall d, duration = Some d -> is_Some (instant_add (now env) d)) ->
  new_timer env duration = Return (limit (now env) duration).
Proof.
  unfold new_timer, limit, delay_after. destruct duration as [d|]; [|done]. intros Hd.
  destruct (Hd d eq_refl) as [t E]. cbn. now rewrite E.
Qed.

(** One limit. *)
Lemma poll_one_timer_spec env kind t w c (s : Future) :
  (forall t, delay_poll env t <> Err TimerShutdown) ->
  poll_one_timer t kind env w c s
  = match expired env kind t with
    | Some error => let '(w, c) := cancel_request w c s in Return (Err error, w, c)
    | None => Return (Ok tt, w, c)
    end.
Proof.
  intros Hok. unfold poll_one_timer, expired. destruct t as [t|]; [|done]. cbn. specialize (Hok t).
  now destruct (delay_poll env t) as [[[]|]|[]].
Qed.

(** Both limits: the end of a poll that got no final answer. *)
Lemma poll_limits_spec env w c (s : Future) :
  (forall t, delay_poll env t <> Err TimerShutdown) ->
  (let! (r, w, c) := poll_max_timer env w c s in
   match r with
   | Err error => Return (Err error, w, c, s)
   | Ok _ =>
       let! (r, w, c) := poll_timer env w c s in
       match r with
       | Err error => Return (Err error, w, c, s)
       | Ok _ => Return (Ok NotReady, w, c, s)
       end
   end)
  = match overdue env (max_timer s) (timer s) with
    | Some error => let '(w, c) := cancel_request w c s in Return (Err error : Poll (Response bytes) OperationError, w, c, s)
    | None => Return (Ok NotReady, w, c, s)
    end.
Proof.
  intros Hok. unfold poll_max_timer, poll_timer, overdue. rewrite poll_one_timer_spec by done.
  destruct (expired env Long (max_timer s)); [now destruct (cancel_request w c s)|]. cbn.
  rewrite poll_one_timer_spec by done. destruct (expired env Short (timer s)); [now destruct (cancel_request w c s)|done].
Qed.

(** A poll, by what it receives and by the limits. *)
Lemma send_request_poll_spec env w c (s : Future) :
  good_poll env w s (timeout_duration s) ->
  send_request_poll env w c s
  = let '(received, w) := oneshot_poll (rx_response s) w in
    match received with
    | Ok (Ready (PResponse response)) => Return (Ok (Ready response), w, c, s)
    | Ok (Ready PNone) => Return (Err RequestCancelled, w, c, s)
    | Err _ => Panic
    | Ok (Ready (PContinue _)) | Ok NotReady =>
        let s :=
          match received with
          | Ok (Ready (PContinue rx)) =>
              mkSendRequest (max_timer s) rx (sequence_number s) (timeout_duration s)
                (limit (now env) (timeout_duration s))
          | _ => s
          end in
        match overdue env (max_timer s) (timer s) with
        | Some error => let '(w, c) := cancel_request w c s in Return (Err error, w, c, s)
        | None => Return (Ok NotReady, w, c, s)
        end
    end.
Proof.
  intros (Hshut & Hadd & _). unfold send_request_poll, poll_request.
  destruct (oneshot_poll (rx_response s) w) as [[[[rx| |response]|]|e] w1]; cbn [outcome_bind]; try done.
  - rewrite new_timer_good by done. cbn [outcome_bind]. now apply poll_limits_spec.
  - now apply poll_limits_spec.
Qed.

(** A limit that is not over changes nothing. *)
Lemma poll_one_timer_waits env kind t w c (s : Future) w' c' :
  poll_one_timer t kind env w c s = Return (Ok tt, w', c') -> w' = w /\ c' = c.
Proof.
  unfold poll_one_timer. destruct t as [t|]; [|now intros [= <- <-]].
  destruct (delay_poll env t) as [[[]|]|[]]; try destruct (cancel_request w c s); try done. now intros [= <- <-].
Qed.

(** A poll that leaves the caller waiting, in any environment: it reads nothing or a Continue response. *)
Lemma send_request_poll_waits env w c (s : Future) w' c' s' :
  send_request_poll env w c s = Return (Ok NotReady, w', c', s') ->
  w' = snd (oneshot_poll (rx_response s) w)
  /\ match fst (oneshot_poll (rx_response s) w) with
     | Ok (Ready (PContinue rx)) =>
         s' = mkSendRequest (max_timer s) rx (sequence_number s) (timeout_duration s)
                (limit (now env) (timeout_duration s))
     | Ok NotReady => s' = s
     | _ => False
     end.
Proof.
  unfold send_request_poll, poll_request. intros E.
  apply outcome_bind_Return in E as ([[r w1] s1] & E1 & E). destruct r as [[]|]; [done| |done].
  apply outcome_bind_Return in E as ([[r2 w2] c2] & E2 & E). destruct r2 as [[]|]; [|done].
  apply poll_one_timer_waits in E2 as [-> ->].
  apply outcome_bind_Return in E as ([[r3 w3] c3] & E3 & E). destruct r3 as [[]|]; [|done].
  apply poll_one_timer_waits in E3 as [-> ->].
  injection E as <- <- <-. destruct (oneshot_poll (rx_response s) w) as [[[[rx| |response]|]|e] w2]; try done.
  - now apply outcome_bind_Return in E1 as (t & ->%new_timer_limit & [= <- <-]).
  - now injection E1 as <- <-.
Qed.

(** What does not change while a future waits, and where its timers stand. *)
Lemma waiting_timers env0 rx n duration max_duration (s0 : Future) since s :
  send_request_new env0 rx n duration max_duration = Return s0 -> waiting (now env0) s0 since s ->
  sequence_number s = n /\ timeout_duration s = duration
  /\ max_timer s = limit (now env0) max_duration /\ timer s = limit since duration.
Proof.
  intros E. induction 1 as [|since env w c s w' c' s' _ (Hn & Hd & Hm & Ht) Hp].
  - unfold send_request_new in E. apply outcome_bind_Return in E as (t1 & ->%new_timer_limit & E).
    apply outcome_bind_Return in E as (t2 & ->%new_timer_limit & E). now injection E as <-.
  - apply send_request_poll_waits in Hp as [_ Hs]. unfold heard.
    destruct (fst (oneshot_poll (rx_response s) w)) as [[[]|]|]; try done; subst s'; cbn; rewrite ?Hd; done.
Qed.

(** C13: A request never waits beyond its limits. Whatever a future of a request has been through, a poll
    returns, gives the final answer that it receives, and is otherwise over exactly when one of two
    limits is: the maximum after the sending, whatever was received meanwhile, and the limit after
    the last Continue response was read, or after the sending as long as there was none. Then the caller is
    told which, no response is received any more, and the removal of the request is asked for. *)
Theorem request_time_limits env0 rx n duration max_duration (s0 : Future) since s env w c :
  send_request_new env0 rx n duration max_duration = Return s0 -> waiting (now env0) s0 since s ->
  good_poll env w s duration ->
  exists r w' c' s', send_request_poll env w c s = Return (r, w', c', s')
    /\ match oneshot_poll (rx_response s) w with
       | (Ok (Ready (PResponse response)), w1) => r = Ok (Ready response) /\ w' = w1 /\ c' = c
       | (Ok (Ready PNone), w1) => r = Err RequestCancelled /\ w' = w1 /\ c' = c
       | (_, w1) =>
           match overdue env (limit (now env0) max_duration) (limit (heard env w s since) duration) with
           | None => r = Ok NotReady /\ w' = w1 /\ c' = c
           | Some error =>
               r = Err error /\ w' = oneshot_close (rx_response s') w1
               /\ c' = snd (unbounded_send c (RemovePendingRequest n))
           end
       end.
Proof.
  intros Hnew Hwait Hgood. destruct (waiting_timers _ _ _ _ _ _ _ _ Hnew Hwait) as (Hn & Hd & Hm & Ht).
  rewrite send_request_poll_spec by now rewrite Hd. destruct Hgood as (_ & _ & Hsender). unfold heard.
  destruct (oneshot_poll (rx_response s) w) as [[[[rx'| |response]|]|e] w1]; cbn in *.
  - rewrite Hm, Hd. destruct (overdue _ _ _) as [error|]; [|by eexists _, _, _, _].
    unfold cancel_request. cbn. rewrite Hn. destruct (unbounded_send c _) as [ok c1]. by eexists _, _, _, _.
  - by eexists _, _, _, _.
  - by eexists _, _, _, _.
  - rewrite Hm, Ht. destruct (overdue _ _ _) as [error|]; [|by eexists _, _, _, _].
    unfold cancel_request. cbn. rewrite Hn. destruct (unbounded_send c _) as [ok c1]. by eexists _, _, _, _.
  - now destruct (Hsender e).
Qed.
End Waiting.

(** A Continue response at 5 is read at 6, so that the future of the request 7 waits beyond its
    limit of 10, up to 16, and is told then. *)
Definition cell_continue (taken : bool) : Cell SampleResponse := mkCell (Some (PContinue 1)) taken true.

Definition world_5 : SampleWorld := [cell_continue false; mkCell None false true].
Definition world_6 : SampleWorld := [cell_continue true; mkCell None false true].

Definition future_6 : SendRequest (H0:=counting_clock) nat :=
  mkSendRequest (H0:=counting_clock) (Some (mkDelay (H:=counting_clock) 20%N)) 1 (mkCSeq 7)
    (Some (10%N : Duration (ClockOps := counting_clock))) (Some (mkDelay (H:=counting_clock) 16%N)).

Lemma future_6_waits : waiting (H0:=counting_clock) (World := SampleWorld) (C := SampleChannel) 0%N future_7 6%N future_6.
Proof.
  change 6%N with (heard (H0:=counting_clock) (World := SampleWorld) (env_at 6) world_5 future_7 0%N).
  apply (waiting_poll (H0:=counting_clock) 0%N future_7 0%N (env_at 6) world_5 (mkPipe [] false false) future_7
           world_6 (mkPipe [] false false) future_6); [constructor|reflexivity].
Qed.

Lemma request_time_limits_witness :
  exists w' c' s',
    send_request_poll (env_at 12) world_6 (mkPipe [] false false) future_6 = Return (Ok NotReady, w', c', s')
    /\ exists w'' c'' s'',
         send_request_poll (env_at 16) world_6 (mkPipe [] false false) future_6
         = Return (Err (RequestTimedOut Short), w'', c'', s'')
         /\ c'' = mkPipe [RemovePendingRequest (mkCSeq 7)] false false.
Proof.
  assert (Hgood : forall n, good_poll (H0:=counting_clock) (env_at n) world_6 future_6 (Some 10%N)).
  { intros n. split; [|split; [now eexists|done]]. intros t. cbn. now destruct (deadline t <=? n)%N. }
  destruct (request_time_limits (H0:=counting_clock) (env_at 0) 0 (mkCSeq 7) (Some 10%N) (Some 20%N) future_7 6%N future_6
              (env_at 12) world_6 (mkPipe [] false false) eq_refl future_6_waits (Hgood 12%N))
    as (r & w' & c' & s' & E & -> & _).
  exists w', c', s'. split; [exact E|].
  destruct (request_time_limits (H0:=counting_clock) (env_at 0) 0 (mkCSeq 7) (Some 10%N) (Some 20%N) future_7 6%N future_6
              (env_at 16) world_6 (mkPipe [] false false) eq_refl future_6_waits (Hgood 16%N))
    as (r & w'' & c'' & s'' & E2 & -> & _ & Hc).
  now exists w'', c'', s''.
Defined.
