(* ===== verification/Delivery.v ===== *)
(** * Delivery of responses

    The way of one response from [ResponseReceiver] in
    [rtsp-2/src/protocol/connection/receiver.rs] to the future [SendRequest] of
    [rtsp-2/src/protocol/connection/pending.rs], through the oneshot channels that Continue responses
    chain together, with anything else that happens to the other requests in between. Where
    [Pending] shows that a caller gets no wrong response, this file shows that it gets the right one. *)

From Stdlib Require Import Strings.Byte.
From stdpp Require Import base list numbers gmap strings.
From S2P Require Import Prelude Text HeaderMap CSeq Status Reason Request Response Codec Futures Forwarding Pending Waiting.

Local Open Scope rust_scope.

(** What a oneshot channel promises to deliver: a value that was sent is there until the receiver is
    polled or closed, and a value can be sent as long as the receiver is neither. *)
Class OneshotDelivery (World OTx ORx V : Type) `{OneshotLaws World OTx ORx V} := {
  listening : World -> OTx -> Prop;
  unread : World -> ORx -> V -> Prop;
  delivery_allocated : forall w t, listening w t -> allocated w t;
  delivery_channel : forall w,
    let '(tx, rx, w') := oneshot_channel w in
    listening w' tx
    /\ (forall t, allocated w t -> peer t <> rx)
    /\ (forall t, listening w t -> listening w' t /\ peer t <> rx)
    /\ (forall rx' v, unread w rx' v -> unread w' rx' v /\ rx' <> rx);
  delivery_send : forall tx v w,
    let '(ok, w') := oneshot_send tx v w in
    (listening w tx -> ok = true /\ unread w' (peer tx) v)
    /\ (forall t, peer t <> peer tx -> listening w t -> listening w' t)
    /\ (forall rx v', unread w rx v' -> unread w' rx v');
  delivery_poll : forall rx w,
    let '(r, w') := oneshot_poll rx w in
    (forall v, unread w rx v -> r = Ok (Ready v))
    /\ (forall t, listening w t -> peer t = rx -> r = Ok NotReady)
    /\ (forall t, listening w t -> listening w' t)
    /\ (forall rx' v, rx' <> rx -> unread w rx' v -> unread w' rx' v);
  delivery_close : forall rx w,
    (forall t, peer t <> rx -> listening w t -> listening (oneshot_close rx w) t)
    /\ (forall rx' v, rx' <> rx -> unread w rx' v -> unread (oneshot_close rx w) rx' v);
}.

Section Delivery.
Context `{HeaderMapLaws} `{ClockOps} `{URIOps} {OTx ORx World C M : Type}
  `{!OneshotOps World OTx ORx (PendingRequestResponse ORx)}
  `{!OneshotLaws World OTx ORx (PendingRequestResponse ORx)}
  `{!OneshotDelivery World OTx ORx (PendingRequestResponse ORx)}
  `{!StreamOps C (PendingRequestUpdate OTx)} `{!UnboundedOps C (PendingRequestUpdate OTx)}
  `{!UnboundedOps M Message}.

Notation Future := (SendRequest ORx).
Notation RR := (ResponseReceiver OTx).

(** Where a request is: its sender is on the way to the response receiver, is there, or has been used
    for the final response. *)
Inductive Phase := Sent (tx : OTx) | Awaiting (tx : OTx) | Answered (response : Response bytes).

(** The receivers that the caller still has to read: each but the last has a Continue response with the
    next one. *)
Fixpoint chain (w : World) (p : Phase) (l : list ORx) : Prop :=
  match l with
  | [] => False
  | rx :: l =>
      match l with
      | [] =>
          match p with
          | Sent tx | Awaiting tx => peer tx = rx /\ listening w tx
          | Answered response => unread w rx (PResponse response)
          end
      | rx' :: _ => unread w rx (PContinue rx') /\ chain w p l
      end
  end.

(** Nothing was done to these receivers and their senders. *)
Definition keeps (l : list ORx) (w w' : World) : Prop :=
  (forall t, allocated w t -> allocated w' t)
  /\ (forall t, peer t ∈ l -> listening w t -> listening w' t)
  /\ (forall rx v, rx ∈ l -> unread w rx v -> unread w' rx v).

Lemma keeps_refl l w : keeps l w w.
Proof. now repeat split. Qed.

Lemma keeps_trans l w1 w2 w3 : keeps l w1 w2 -> keeps l w2 w3 -> keeps l w1 w3.
Proof. intros (A & L & U) (A' & L' & U'). split; [|split]; eauto. Qed.

Lemma keeps_tail rx l w w' : keeps (rx :: l) w w' -> keeps l w w'.
Proof.
  intros (A & L & U). split; [exact A|]. split; intros; [apply L|apply U]; try done; now apply list_elem_of_further.
Qed.

Lemma chain_keeps l p w w' : keeps l w w' -> chain w p l -> chain w' p l.
Proof.
  induction l as [|rx [|rx' l] IH]; intros Hk; cbn [chain]; [done| |].
  - destruct Hk as (_ & L & U). assert (rx ∈ [rx]) by apply list_elem_of_here.
    destruct p; [intros [<- ?]; eauto..|eauto].
  - intros [Hu Hc]. split; [apply Hk; [apply list_elem_of_here|done]|]. now apply IH, Hc; apply keeps_tail in Hk.
Qed.

Lemma keeps_send l tx v w : peer tx ∉ l -> keeps l w (snd (oneshot_send tx v w)).
Proof.
  intros Hn. pose proof (delivery_send tx v w) as Hs. pose proof (oneshot_send_law tx v w) as Ha.
  destruct (oneshot_send tx v w) as [ok w']. destruct Hs as (_ & L & U), Ha as [Ha _].
  split; [intros t; apply Ha|]. split; [|eauto]. intros t Ht. apply L. now intros E; rewrite E in Ht.
Qed.

Lemma keeps_poll l rx w : rx ∉ l -> keeps l w (snd (oneshot_poll rx w)).
Proof.
  intros Hn. pose proof (delivery_poll rx w) as Hp. pose proof (oneshot_poll_law rx w) as Ha.
  destruct (oneshot_poll rx w) as [r w']. destruct Hp as (_ & _ & L & U), Ha as [Ha _].
  split; [intros t; apply Ha|]. split; [eauto|]. intros rx' v Hin. apply U. now intros ->.
Qed.

Lemma keeps_close l rx w : rx ∉ l -> keeps l w (oneshot_close rx w).
Proof.
  intros Hn. destruct (delivery_close rx w) as [L U], (oneshot_close_law rx w) as [Ha _].
  split; [intros t; apply Ha|]. split.
  - intros t Ht. apply L. now intros E; rewrite E in Ht.
  - intros rx' v Hin. apply U. now intros ->.
Qed.

(** A new channel is none of the chain. *)
Lemma keeps_channel l p w :
  chain w p l ->
  let '(tx, rx, w') := oneshot_channel w in
  rx ∉ l /\ keeps l w w' /\ listening w' tx /\ peer tx = rx /\ (forall t, allocated w t -> peer t <> rx).
Proof.
  intros Hc. pose proof (delivery_channel w) as Hd. pose proof (oneshot_channel_law w) as Hl.
  destruct (oneshot_channel w) as [[tx rx] w']. destruct Hd as (Hlis & Hnew & L & U), Hl as (Hp & _ & _ & Ha & _).
  split; [|split; [|done]].
  - induction l as [|rx1 [|rx2 l] IH]; cbn [chain] in Hc; [done| |].
    + intros Hin%list_elem_of_singleton. subst rx1.
      destruct p; [destruct Hc as [E Hc]; now destruct (L _ Hc)..|now destruct (U _ _ Hc)].
    + destruct Hc as [Hu Hc]. intros [->|Hin]%elem_of_cons; [now destruct (U _ _ Hu)|now apply IH].
  - split; [intros t Ht; apply Ha; now left|]. split; intros; [now apply L|now apply U].
Qed.

Lemma chain_added tx l w : chain w (Sent tx) l -> chain w (Awaiting tx) l.
Proof.
  induction l as [|rx [|rx' l] IH]; cbn [chain]; [done..|]. intros [Hu Hc]. split; [done|now apply IH].
Qed.

(** The sender of the last receiver of a chain. *)
Lemma chain_listening tx l w : chain w (Awaiting tx) l -> peer tx ∈ l /\ listening w tx.
Proof.
  induction l as [|rx [|rx' l] IH]; cbn [chain]; [done| |].
  - intros [<- ?]. split; [apply list_elem_of_here|done].
  - intros [_ Hc]. destruct (IH Hc). split; [now apply list_elem_of_further|done].
Qed.

(** The final response is sent at the end of the chain. *)
Lemma chain_final l tx response w :
  chain w (Awaiting tx) l -> chain (snd (oneshot_send tx (PResponse response) w)) (Answered response) l.
Proof.
  pose proof (delivery_send tx (PResponse response) w) as Hs.
  destruct (oneshot_send tx _ w) as [ok w']. destruct Hs as (Hsend & _ & U). cbn [snd].
  induction l as [|rx [|rx' l] IH]; cbn [chain]; [done| |].
  - intros [<- Hl]. now apply Hsend.
  - intros [Hu Hc]. split; [now apply U|now apply IH].
Qed.

(** A Continue response makes it longer. *)
Lemma chain_continue l tx tx' w :
  chain w (Awaiting tx) l -> listening w tx' -> peer tx' ∉ l ->
  let '(ok, w') := oneshot_send tx (PContinue (peer tx')) w in
  ok = true /\ chain w' (Awaiting tx') (l ++ [peer tx']).
Proof.
  intros Hc Hl Hn. pose proof (delivery_send tx (PContinue (peer tx')) w) as Hs.
  destruct (oneshot_send tx _ w) as [ok w']. destruct Hs as (Hsend & L & U).
  destruct (chain_listening tx l w Hc) as [Hin Htx]. destruct (Hsend Htx) as [-> Hu]. split; [done|].
  assert (Hl' : listening w' tx') by (apply L; [now intros E; rewrite E in Hn|done]).
  clear Hn Hin. induction l as [|rx [|rx' l] IH]; cbn [chain] in Hc; [done| |].
  - destruct Hc as [<- _]. cbn. now repeat split.
  - destruct Hc as [Hu1 Hc]. cbn [app]. split; [now apply U|now apply IH].
Qed.

(** What the first receiver of a chain gives. *)
Lemma chain_poll rx l p w :
  chain w p (rx :: l) -> NoDup (rx :: l) ->
  let '(r, w') := oneshot_poll rx w in
  match l with
  | rx' :: _ => r = Ok (Ready (PContinue rx')) /\ chain w' p l
  | [] =>
      match p with
      | Answered response => r = Ok (Ready (PResponse response))
      | _ => r = Ok NotReady /\ chain w' p [rx]
      end
  end.
Proof.
  intros Hc [Hn _]%NoDup_cons. pose proof (delivery_poll rx w) as Hp. pose proof (keeps_poll l rx w Hn) as Hk.
  destruct (oneshot_poll rx w) as [r w']. destruct Hp as (Hv & Hnot & L & _). cbn in Hk.
  destruct l as [|rx' l]; cbn [chain] in Hc.
  - destruct p as [tx|tx|response]; [destruct Hc as [Hp Hl]..|now apply Hv]; (split; [now apply (Hnot tx)|]);
      cbn; auto.
  - destruct Hc as [Hu Hc]. split; [now apply Hv|now apply (chain_keeps _ _ w)].
Qed.

(** ** The life of a request *)

Section Life.
Context (n : CSeq).

(** What happens to the other requests: one operation on the channels, one update and one response of
    another number. *)
Inductive others (l : list ORx) : World -> RR -> World -> RR -> Prop :=
  | others_channel w rr : others l w rr (snd (oneshot_channel w)) rr
  | others_send tx v w rr : peer tx ∉ l -> others l w rr (snd (oneshot_send tx v w)) rr
  | others_poll rx w rr : rx ∉ l -> others l w rr (snd (oneshot_poll rx w)) rr
  | others_close rx w rr : rx ∉ l -> others l w rr (oneshot_close rx w) rr
  | others_add c tx w rr rr' :
      c <> n -> peer tx ∉ l -> allocated w tx -> handle_pending_request_update (AddPendingRequest c tx) rr = Return rr' ->
      others l w rr w rr'
  | others_remove c w rr rr' :
      c <> n -> handle_pending_request_update (RemovePendingRequest c) rr = Return rr' -> others l w rr w rr'
  | others_response response w rr w' rr' :
      typed_get CSeq (headers response) <> Some n -> handle_response response w rr = Return (w', rr') ->
      others l w rr w' rr'.

(** What the environment gives to a poll: timers that are not shut down, and an instant that the limit
    can be added to. *)
Definition good_timers (env : TimeEnv) (s : Future) : Prop :=
  (forall t, delay_poll env t <> Err TimerShutdown)
  /\ (forall d, timeout_duration s = Some d -> is_Some (instant_add (now env) d)).

(** What is left of the receivers to read after a poll. *)
Definition left_over (w : World) (s : Future) (l : list ORx) : list ORx :=
  match fst (oneshot_poll (rx_response s) w) with
  | Ok (Ready (PContinue _)) => tail l
  | _ => l
  end.

(** The life of a request while its caller waits: it is sent, the response receiver hears of it and
    handles [m] Continue responses and maybe the final one, and the caller polls its future, [k] times
    after the final response. *)
Inductive life : nat -> nat -> Phase -> list ORx -> World -> RR -> Future -> Prop :=
  | life_sent env request timeout max_timeout w c mb s lock' w' c' mb' rr :
      send_request_with_options env true n request timeout max_timeout w c mb
      = Return (Ok s, lock', w', c', mb') ->
      rx_done rr = false -> map_Forall (fun _ t => allocated w t) (pending_requests rr) ->
      life 0 0 (Sent (fst (fst (oneshot_channel w)))) [rx_response s] w' rr s
  | life_others m k p l w rr s w' rr' :
      life m k p l w rr s -> others l w rr w' rr' -> life m k p l w' rr' s
  | life_added tx m k l w rr s rr' :
      life m k (Sent tx) l w rr s -> handle_pending_request_update (AddPendingRequest n tx) rr = Return rr' ->
      life m k (Awaiting tx) l w rr' s
  | life_continue tx tx' m k l w rr s response w' rr' :
      life m k (Awaiting tx) l w rr s -> typed_get CSeq (headers response) = Some n ->
      status_code response = Continue -> handle_response response w rr = Return (w', rr') ->
      pending_requests rr' !! n = Some tx' -> life (S m) k (Awaiting tx') (l ++ [peer tx']) w' rr' s
  | life_final tx m k l w rr s response w' rr' :
      life m k (Awaiting tx) l w rr s -> typed_get CSeq (headers response) = Some n ->
      status_code response <> Continue -> handle_response response w rr = Return (w', rr') ->
      life m k (Answered response) l w' rr' s
  | life_poll m k p l w rr s env c w' c' s' :
      life m k p l w rr s -> send_request_poll env w c s = Return (Ok NotReady, w', c', s') ->
      life m (match p with Answered _ => S k | _ => k end) p (left_over w s l) w' rr s'.

(** What holds all along: the future reads the start of the chain, the other requests have nothing to
    do with it, and there are no more receivers to read than Continue responses. *)
Record alive (m k : nat) (p : Phase) (l : list ORx) (w : World) (rr : RR) (s : Future) : Prop := {
  alive_chain : chain w p l;
  alive_nodup : NoDup l;
  alive_head : head l = Some (rx_response s);
  alive_receiver : rx_done rr = false;
  alive_entry : forall tx, p = Awaiting tx -> pending_requests rr !! n = Some tx;
  alive_apart : map_Forall (fun c t => allocated w t /\ (c <> n -> peer t ∉ l)) (pending_requests rr);
  alive_count : length l + k <= S m;
}.

(** What another operation must do for it to stay alive. *)
Lemma alive_kept m k p l w rr s w' rr' :
  alive m k p l w rr s -> keeps l w w' -> rx_done rr' = rx_done rr ->
  pending_requests rr' !! n = pending_requests rr !! n ->
  (forall c t, pending_requests rr' !! c = Some t ->
     pending_requests rr !! c = Some t \/ allocated w' t /\ peer t ∉ l) ->
  alive m k p l w' rr' s.
Proof.
  intros [Hc Hl Hh Hd He Ha Hm] Hk Hd' Hn Hr. split; try done.
  - now apply (chain_keeps _ _ w).
  - congruence.
  - intros tx Hp. rewrite Hn. now apply He.
  - intros c t [Ht|[? ?]]%Hr; [|done]. destruct (Ha c t Ht). split; [now apply Hk|done].
Qed.

Lemma alive_other_response m k p l w rr s response w' rr' :
  alive m k p l w rr s -> typed_get CSeq (headers response) <> Some n ->
  handle_response response w rr = Return (w', rr') -> alive m k p l w' rr' s.
Proof.
  intros Hal Hr E. pose proof Hal as [Hc _ _ Hd _ Ha _]. unfold handle_response in E. rewrite Hd in E.
  destruct (typed_get CSeq (headers response)) as [c|]; [|now injection E as <- <-].
  assert (Hcn : c <> n) by congruence.
  destruct (pending_requests rr !! c) as [tx|] eqn:Et; [|now injection E as <- <-].
  destruct (Ha c tx Et) as [_ Htx]. specialize (Htx Hcn).
  assert (Hdel : forall c' t, delete c (pending_requests rr) !! c' = Some t -> pending_requests rr !! c' = Some t).
  { now intros c' t [_ ?]%lookup_delete_Some. }
  assert (Hfinal : forall w1 rr1,
            (let '(_, w) := oneshot_send tx (PResponse response) w in
             Return (w, set_pending_requests (delete c (pending_requests rr)) rr)) = Return (w1, rr1) ->
            alive m k p l w1 rr1 s).
  { intros w1 rr1. pose proof (keeps_send l tx (PResponse response) w Htx) as Hk.
    destruct (oneshot_send tx (PResponse response) w) as [ok w2]. intros [= <- <-].
    apply (alive_kept m k p l w rr s); [done|done|done|now apply lookup_delete_ne|]. left. now apply Hdel. }
  destruct (status_code response); try (exact (Hfinal _ _ E)). clear Hfinal.
  pose proof (keeps_channel l p w Hc) as Hch. destruct (oneshot_channel w) as [[tx' rx'] w1].
  destruct Hch as (Hrx & Hk1 & Hlis & <- & _).
  pose proof (keeps_send l tx (PContinue (peer tx')) w1 Htx) as Hk2.
  pose proof (oneshot_send_law tx (PContinue (peer tx')) w1) as Hal2.
  destruct (oneshot_send tx (PContinue (peer tx')) w1) as [ok w2]. destruct Hal2 as [Hal2 _]. injection E as <- <-.
  apply (alive_kept m k p l w rr s); [done|now apply (keeps_trans l w w1)|done| |]; cbn.
  - destruct ok; [now apply lookup_insert_ne|now apply lookup_delete_ne].
  - intros c' t. destruct ok; [|left; now apply Hdel].
    intros [[<- <-]|[_ Ht]]%lookup_insert_Some; [right|now left]. split; [|done]. now apply Hal2, delivery_allocated.
Qed.

(** The other requests do not touch it. *)
Lemma alive_others m k p l w rr s w' rr' : alive m k p l w rr s -> others l w rr w' rr' -> alive m k p l w' rr' s.
Proof.
  intros Hal Ho.
  destruct Ho as [w rr|tx v w rr Hn|rx w rr Hn|rx w rr Hn|c tx w rr rr' Hcn Hn Htx E|c w rr rr' Hcn E|response w rr w' rr' Hr E];
    [apply (alive_kept m k p l w rr s); auto using keeps_send, keeps_poll, keeps_close..| | |].
  - pose proof (keeps_channel l p w (alive_chain _ _ _ _ _ _ _ Hal)) as Hch.
    destruct (oneshot_channel w) as [[tx rx] w']. apply Hch.
  - cbn in E. destruct (pending_requests rr !! c); [done|]. injection E as <-.
    apply (alive_kept m k p l w rr s); [done|apply keeps_refl|done|now apply lookup_insert_ne|].
    cbn. intros c' t [[<- <-]|[_ Ht]]%lookup_insert_Some; [now right|now left].
  - cbn in E. destruct (pending_requests rr !! c); [|done]. injection E as <-.
    apply (alive_kept m k p l w rr s); [done|apply keeps_refl|done|now apply lookup_delete_ne|].
    cbn. intros c' t [_ Ht]%lookup_delete_Some. now left.
  - now apply (alive_other_response m k p l w rr s response).
Qed.

(** Its own responses. *)
Lemma alive_continue tx tx' m k l w rr s response w' rr' :
  alive m k (Awaiting tx) l w rr s -> typed_get CSeq (headers response) = Some n ->
  status_code response = Continue -> handle_response response w rr = Return (w', rr') ->
  pending_requests rr' !! n = Some tx' -> alive (S m) k (Awaiting tx') (l ++ [peer tx']) w' rr' s.
Proof.
  intros [Hc Hl Hh Hd He Ha Hm] Hr Hst E Htx'. unfold handle_response in E.
  rewrite Hd, Hr, (He tx eq_refl), Hst in E. pose proof (keeps_channel l _ w Hc) as Hch.
  destruct (oneshot_channel w) as [[tx1 rx1] w1]. destruct Hch as (Hrx & Hk & Hlis & <- & Hnew).
  pose proof (chain_continue l tx tx1 w1 (chain_keeps _ _ _ _ Hk Hc) Hlis Hrx) as Hs.
  pose proof (oneshot_send_law tx (PContinue (peer tx1)) w1) as Hal.
  destruct (oneshot_send tx (PContinue (peer tx1)) w1) as [ok w2]. destruct Hs as [-> Hs], Hal as [Hal _].
  injection E as <- <-. cbn in Htx'. rewrite lookup_insert_eq in Htx'. injection Htx' as <-.
  split; cbn; try done.
  - apply NoDup_app. split; [done|]. split; [|apply NoDup_singleton].
    now intros x Hx ->%list_elem_of_singleton.
  - now destruct l.
  - intros tx2 [= <-]. apply lookup_insert_eq.
  - apply map_Forall_insert_2; [split; [now apply Hal, delivery_allocated|done]|].
    intros c t Ht. destruct (Ha c t Ht) as [Hat Hap]. split; [apply Hal; now apply Hk|].
    intros Hcn [Hin|Hin%list_elem_of_singleton]%elem_of_app; [now apply Hap|now apply (Hnew t)].
  - rewrite length_app. cbn. lia.
Qed.

Lemma alive_final tx m k l w rr s response w' rr' :
  alive m k (Awaiting tx) l w rr s -> typed_get CSeq (headers response) = Some n ->
  status_code response <> Continue -> handle_response response w rr = Return (w', rr') ->
  alive m k (Answered response) l w' rr' s.
Proof.
  intros [Hc Hl Hh Hd He Ha Hm] Hr Hst E. unfold handle_response in E. rewrite Hd, Hr, (He tx eq_refl) in E.
  assert (E' : (let '(_, w) := oneshot_send tx (PResponse response) w in
                Return (w, set_pending_requests (delete n (pending_requests rr)) rr)) = Return (w', rr')).
  { now destruct (status_code response). }
  clear E. pose proof (chain_final l tx response w Hc) as Hc'. pose proof (oneshot_send_law tx (PResponse response) w) as Hal.
  destruct (oneshot_send tx (PResponse response) w) as [ok w1]. destruct Hal as [Hal _]. injection E' as <- <-.
  split; cbn; try done. apply map_Forall_delete. intros c t Ht. destruct (Ha c t Ht). split; [now apply Hal|done].
Qed.

(** Its own polls. *)
Lemma alive_poll m k p l w rr s env c w' c' s' :
  alive m k p l w rr s -> send_request_poll env w c s = Return (Ok NotReady, w', c', s') ->
  alive m (match p with Answered _ => S k | _ => k end) p (left_over w s l) w' rr s'.
Proof.
  intros [Hc Hl Hh Hd He Ha Hm] [-> Hs]%send_request_poll_waits. destruct l as [|rx l]; [done|].
  injection Hh as ->. pose proof (chain_poll _ l p w Hc Hl) as Hp.
  pose proof (oneshot_poll_law (rx_response s) w) as Hal. unfold left_over.
  destruct (oneshot_poll (rx_response s) w) as [r w1]. destruct Hal as [Hal _]. cbn in *.
  assert (Hsub : map_Forall (fun c t => allocated w1 t /\ (c <> n -> peer t ∉ l)) (pending_requests rr)).
  { intros c0 t Ht. destruct (Ha c0 t Ht) as [Hat Hap]. split; [now apply Hal|]. intros Hcn Hin.
    now apply (Hap Hcn), list_elem_of_further. }
  destruct l as [|rx' l].
  - destruct p as [tx|tx|response]; [destruct Hp as [-> Hp]..|now subst r];
      subst s'; split; try done;
      intros c0 t Ht; destruct (Ha c0 t Ht) as [Hat Hap]; (split; [now apply Hal|done]).
  - destruct Hp as [-> Hp]. subst s'. apply NoDup_cons in Hl as [_ Hl].
    split; try done. cbn in *. destruct p; lia.
Qed.

Lemma life_alive m k p l w rr s : life m k p l w rr s -> alive m k p l w rr s.
Proof.
  induction 1 as [env request timeout max_timeout w c mb s lock' w' c' mb' rr E Hd Ha
                 |m k p l w rr s w' rr' _ IH Ho|tx m k l w rr s rr' _ IH E
                 |tx tx' m k l w rr s response w' rr' _ IH Hr Hst E Htx
                 |tx m k l w rr s response w' rr' _ IH Hr Hst E|m k p l w rr s env c w' c' s' _ IH E].
  - unfold send_request_with_options in E. cbn [negb] in E. pose proof (delivery_channel w) as Hch.
    pose proof (oneshot_channel_law w) as Hlaw. destruct (oneshot_channel w) as [[tx rx] w1]. cbn [fst snd].
    destruct Hch as (Hlis & Hnew & _), Hlaw as (Hp & _ & _ & Hal & _).
    destruct (unbounded_send c _) as [[] c1]; [|done]. cbn [negb] in E.
    destruct (unbounded_send mb _) as [[] mb1]; [|now destruct (unbounded_send c1 _)]. cbn [negb] in E.
    apply outcome_bind_Return in E as (s1 & E1 & E). injection E as <- <- <- <- <-.
    assert (Hrx : rx_response s1 = rx).
    { unfold send_request_new in E1. apply outcome_bind_Return in E1 as (t1 & _ & E1).
      apply outcome_bind_Return in E1 as (t2 & _ & E1). now injection E1 as <-. }
    split; cbn; rewrite ?Hrx; try done; [apply NoDup_singleton|].
    intros c0 t Ht. split; [apply Hal; left; exact (Ha c0 t Ht)|].
    intros _ Hin%list_elem_of_singleton. exact (Hnew t (Ha c0 t Ht) Hin).
  - now apply (alive_others m k p l w rr).
  - destruct IH as [Hc Hl Hh Hd He Ha Hm]. cbn in E. destruct (pending_requests rr !! n) eqn:En; [done|].
    injection E as <-. apply chain_added in Hc. split; cbn; try done.
    + intros tx' [= <-]. apply lookup_insert_eq.
    + apply map_Forall_insert_2; [|done]. split; [now apply delivery_allocated, (chain_listening tx l)|done].
  - now apply (alive_continue tx tx' m k l w rr s response w' rr').
  - now apply (alive_final tx m k l w rr s response w' rr').
  - now apply (alive_poll m k p l w rr s env c w' c' s').
Qed.

Lemma limits_result env (s : Future) w c :
  exists (r : Poll (Response bytes) OperationError) w' c' s',
    match overdue env (max_timer s) (timer s) with
    | Some error => let '(w, c) := cancel_request w c s in Return (Err error, w, c, s)
    | None => Return (Ok NotReady, w, c, s)
    end = Return (r, w', c', s')
    /\ (r = Ok NotReady \/ exists error t, r = Err error /\ overdue env (max_timer s) t = Some error).
Proof.
  destruct (overdue env (max_timer s) (timer s)) as [error|] eqn:Eo; [|eauto 8].
  destruct (cancel_request w c s). eauto 12.
Qed.

(** C12: The right response arrives. As long as a request is neither given up nor dropped, whatever happens
    to the other requests and however many Continue responses come: until the final response is
    handled, a poll of the future leaves the caller waiting, unless a time limit is over; then, at most
    as many polls leave it waiting as there were Continue responses, and the next one gives it that
    response. The future neither panics nor is cancelled. *)
Theorem response_delivered m k p l w rr s env c :
  life m k p l w rr s -> good_timers env s ->
  exists r w' c' s', send_request_poll env w c s = Return (r, w', c', s')
    /\ (r = Ok NotReady \/ (exists error t, r = Err error /\ overdue env (max_timer s) t = Some error)
        \/ exists response, p = Answered response /\ r = Ok (Ready response))
    /\ forall response, p = Answered response ->
         k <= m /\ (k = m -> r = Ok (Ready response)).
Proof.
  intros [Hc Hl Hh _ _ _ Hm]%life_alive Hgood. destruct l as [|rx l]; [done|]. injection Hh as ->.
  pose proof (chain_poll _ l p w Hc Hl) as Hp. pose proof (send_request_poll_spec env w c s) as Hspec.
  destruct Hgood as [Hshut Hadd]. unfold good_poll in Hspec.
  destruct (oneshot_poll (rx_response s) w) as [r w1]. destruct l as [|rx' l].
  - destruct p as [tx|tx|response]; [destruct Hp as [-> _]..|subst r];
      (rewrite Hspec by (split; [done|]; split; [done|]; now intros e)).
    + destruct (limits_result env s w1 c) as (r & w' & c' & s' & -> & Hr). exists r, w', c', s'. split; [done|]. split; [tauto|done].
    + destruct (limits_result env s w1 c) as (r & w' & c' & s' & -> & Hr). exists r, w', c', s'. split; [done|]. split; [tauto|done].
    + exists (Ok (Ready response)), w1, c, s. split; [done|]. split; [eauto|]. intros ? [= <-]. cbn in Hm. split; [lia|done].
  - destruct Hp as [-> _]. rewrite Hspec by (split; [done|]; split; [done|]; now intros e). cbn zeta iota.
    match goal with |- context [cancel_request w1 c ?s1] =>
      destruct (limits_result env s1 w1 c) as (r & w' & c' & s' & -> & Hr) end.
    exists r, w', c', s'. split; [done|]. split; [cbn in Hr; tauto|].
    intros response _. cbn in Hm. split; [lia|]. intros ->. lia.
Qed.
End Life.
End Delivery.

(** ** A run *)

(** The cells of [Pending] deliver. *)
#[export] Instance cells_delivery {V} : OneshotDelivery (list (Cell V)) nat nat V.
Proof.
  refine {| listening w t := w !! t = Some (mkCell None false true);
            unread w rx v := exists open, w !! rx = Some (mkCell (Some v) false open) |}.
  - intros w t Ht. now apply lookup_lt_Some in Ht.
  - intros w. cbn. split; [now rewrite lookup_app_r, Nat.sub_diag by lia|]. split; [intros t; lia|]. split.
    + intros t Ht. pose proof (lookup_lt_Some _ _ _ Ht). rewrite lookup_app_l by lia. split; [done|lia].
    + intros rx v [open Ho]. pose proof (lookup_lt_Some _ _ _ Ho). split; [|lia]. exists open. now rewrite lookup_app_l by lia.
  - intros tx v w. cbn. destruct (w !! tx) as [[[v'|] taken []]|] eqn:E; try (split; [intros ?; congruence|done]).
    pose proof (lookup_lt_Some _ _ _ E). split; [|split].
    + intros [= ->]. split; [done|]. exists true. now apply list_lookup_insert_eq.
    + intros t Hne Ht. now rewrite list_lookup_insert_ne.
    + intros rx v' [open Ho]. exists open. rewrite list_lookup_insert_ne; [done|]. intros ->. congruence.
  - intros rx w. cbn. destruct (w !! rx) as [[[v'|] [] []]|] eqn:E;
      (split; [intros v [open Ho]; cbn in Ho; congruence|]); (split; [intros t Ht ->; congruence|]); try done;
      pose proof (lookup_lt_Some _ _ _ E);
      (split; [intros t Ht; rewrite list_lookup_insert_ne; [done|intros ->; congruence]|]);
      intros rx' v Hne [open Ho]; exists open; now rewrite list_lookup_insert_ne.
  - intros rx w. cbn. destruct (w !! rx) as [cell|] eqn:E; [|done]. split.
    + intros t Hne Ht. now rewrite list_lookup_insert_ne.
    + intros rx' v Hne [open Ho]. exists open. now rewrite list_lookup_insert_ne.
Defined.

(** The request 7 is sent, a Continue response and the final one are handled, and the caller reads them
    in two polls. *)
Notation continue_7 := (response_to (mkCSeq 7) Continue "Continue").
Notation final_7 := (response_to (mkCSeq 7) OK "OK").

Definition world_both : SampleWorld := [cell_continue false; cell_7 false].
Definition world_final : SampleWorld := [cell_continue true; cell_7 false].

Lemma sample_life :
  life (H:=list_header_map) (H1:=counting_clock) (H2:=text_uri) (C := SampleChannel) (M := SampleOutbox) (mkCSeq 7)
    1 1 (Answered final_7) [1] world_final response_receiver_new future_6.
Proof.
  change [1] with (left_over (H1:=counting_clock) (World := SampleWorld) world_both future_7 [0; 1]).
  apply (life_poll (H1:=counting_clock) (C := SampleChannel) (mkCSeq 7) 1 0 (Answered final_7) [0; 1] world_both response_receiver_new
           future_7 (env_at 6) (mkPipe [] false false) world_final (mkPipe [] false false) future_6); [|reflexivity].
  apply (life_final (H1:=counting_clock) (C := SampleChannel) (mkCSeq 7) 1 1 0 [0; 1] world_5
           (mkResponseReceiver {[mkCSeq 7 := 1]} false) future_7 final_7); [|reflexivity|done|reflexivity].
  change [0; 1] with ([0] ++ [peer (V := SampleResponse) (World := SampleWorld) 1]).
  apply (life_continue (H1:=counting_clock) (C := SampleChannel) (mkCSeq 7) 0 1 0 0 [0] [mkCell None false true]
           (mkResponseReceiver {[mkCSeq 7 := 0]} false) future_7 continue_7); [|reflexivity..].
  apply (life_added (H1:=counting_clock) (C := SampleChannel) (mkCSeq 7) 0 0 0 [0] [mkCell None false true] response_receiver_new);
    [|reflexivity].
  change (Sent (H:=list_header_map) 0) with (Sent (H:=list_header_map) (fst (fst (oneshot_channel (V := SampleResponse) ([] : SampleWorld))))).
  change [0] with [rx_response (H0:=counting_clock) future_7].
  eapply (life_sent (H1:=counting_clock) (H2:=text_uri) (C := SampleChannel) (mkCSeq 7) (env_at 0) options_request (Some 10%N) (Some 20%N) []
           (mkPipe [] false false) (mkMailbox [] true) future_7); [reflexivity|reflexivity|]. apply map_Forall_empty.
Qed.

Lemma response_delivered_witness :
  exists w' c' s',
    send_request_poll (env_at 8) world_final (mkPipe [] false false) future_6
    = Return (Ok (Ready final_7), w', c', s').
Proof.
  destruct (response_delivered (H:=list_header_map) (H1:=counting_clock) (H2:=text_uri) (C := SampleChannel) (M := SampleOutbox) (mkCSeq 7)
              1 1 (Answered final_7) [1] world_final response_receiver_new future_6 (env_at 8) (mkPipe [] false false)
              sample_life)
    as (r & w' & c' & s' & E & _ & Hr).
  { split; [|now eexists]. intros t. cbn. now destruct (deadline t <=? 8)%N. }
  destruct (Hr final_7 eq_refl) as [_ Hready]. rewrite (Hready eq_refl) in E. now exists w', c', s'.
Defined.
