(* ===== verification/Sender.v ===== *)
(** * The sender

    Model of [rtsp-2/src/protocol/connection/sender.rs]: the task that takes the outgoing messages
    from a channel, dates them and gives them to the sink of the connection. *)

From Stdlib Require Import Strings.Byte.
From stdpp Require Import base list numbers strings.
From S2P Require Import Prelude Text Version Method HeaderName HeaderValue HeaderMap CSeq.
From S2P Require Import Status Request Response Codec Futures.

Local Open Scope rust_scope.

(** [Sink::poll_complete] and [Sink::close]: they take no item. *)
Class FlushOps (S E : Type) := {
  poll_complete : S -> Poll unit E * S;
  close : S -> Poll unit E * S;
}.

Class FlushLaws (S Item E : Type) `{!SinkOps S Item E} `{!SinkLaws S Item E} `{!FlushOps S E} : Prop := {
  taken_poll_complete s : taken (E:=E) (snd (poll_complete (E:=E) s)) = taken (E:=E) s;
  taken_close s : taken (E:=E) (snd (close (E:=E) s)) = taken (E:=E) s;
}.

Section Sender.
Context `{HeaderMapOps} `{URIOps} {Date : Type} `{!TypedHeader Date} {Rx TSink : Type}
  `{!StreamOps Rx Message} `{!SinkOps TSink Message ProtocolError} `{!FlushOps TSink ProtocolError}.

Record Sender := mkSender {
  buffered_message : option Message;
  rx_outgoing_message : Rx;
  sink : TSink;
}.

(** [Sender::new], with the receiving half of its channel. *)
Definition sender_new (rx : Rx) (sink : TSink) : Sender := mkSender None rx sink.

(** [headers_mut().typed_insert(Date::new())]. *)
Definition dated (date : Date) (message : Message) : Message :=
  match message with
  | MRequest request => MRequest (Request.map_headers (typed_insert date) request)
  | MResponse response => MResponse (Response.map_headers (typed_insert date) response)
  end.

(** [try_send_message], with its debug assertion. *)
Definition try_send_message (message : Message) (self : Sender) :
    Outcome (Poll unit ProtocolError * Sender) :=
  match buffered_message self with
  | Some _ => Panic
  | None =>
      match start_send (E:=ProtocolError) (sink self) message with
      | (Err e, sink) => Return (Err e, mkSender None (rx_outgoing_message self) sink)
      | (Ok (SinkNotReady message), sink) =>
          Return (Ok NotReady, mkSender (Some message) (rx_outgoing_message self) sink)
      | (Ok SinkReady, sink) => Return (Ok (Ready tt), mkSender None (rx_outgoing_message self) sink)
      end
  end.

(** [poll_write], where the clock says [date]; a turn that goes on takes a message. *)
Fixpoint poll_write (fuel : nat) (date : Date) (self : Sender) :
    Outcome (Poll unit ProtocolError * Sender) :=
  match fuel with
  | O => Panic
  | S fuel =>
      let '(item, rx) := stream_poll (rx_outgoing_message self) in
      let self := mkSender (buffered_message self) rx (sink self) in
      match item with
      | Ready (Some message) =>
          let! (r, self) := try_send_message (dated date message) self in
          match r with
          | Ok (Ready _) => poll_write fuel date self
          | r => Return (r, self)
          end
      | NotReady =>
          let '(r, s) := poll_complete (E:=ProtocolError) (sink self) in
          let self := mkSender (buffered_message self) (rx_outgoing_message self) s in
          match r with
          | Err e => Return (Err e, self)
          | Ok _ => Return (Ok NotReady, self)
          end
      | Ready None => Return (Ok (Ready tt), self)
      end
  end.

(** [Future::poll]. *)
Definition sender_poll (fuel : nat) (date : Date) (self : Sender) :
    Outcome (Poll unit ProtocolError * Sender) :=
  let! (r, self) :=
    match buffered_message self with
    | Some message =>
        try_send_message message (mkSender None (rx_outgoing_message self) (sink self))
    | None => Return (Ok (Ready tt), self)
    end in
  match r with
  | Ok (Ready _) =>
      let! (r, self) := poll_write fuel date self in
      match r with
      | Ok (Ready _) =>
          match buffered_message self with
          | Some _ => Panic
          | None =>
              let '(r, s) := close (E:=ProtocolError) (sink self) in
              Return (r, mkSender None (rx_outgoing_message self) s)
          end
      | r => Return (r, self)
      end
  | r => Return (r, self)
  end.
End Sender.

(** ** What the sender promises *)

Section SenderSpec.
Context `{HeaderMapOps} `{URIOps} {Date : Type} `{!TypedHeader Date} {Rx TSink : Type}
  `{!StreamOps Rx Message} `{!StreamLaws Rx Message}
  `{!SinkOps TSink Message ProtocolError} `{!SinkLaws TSink Message ProtocolError}
  `{!FlushOps TSink ProtocolError} `{!FlushLaws TSink Message ProtocolError}.

Notation TSender := (Sender (Rx := Rx) (TSink := TSink)).
Notation poll := (sender_poll (Date := Date)).
Notation log self := (taken (E:=ProtocolError) (sink self)).

(** What has left the channel, in order: what the sink took, and the message that waits for it. *)
Definition departed (self : TSender) : list Message := log self ++ option_list (buffered_message self).

Definition is_dated (m m' : Message) : Prop := exists date : Date, m' = dated date m.

(** What a step did: the messages it took from the channel have left, dated, in order. *)
Definition moved (self self' : TSender) (messages : list Message) : Prop :=
  pending (rx_outgoing_message self) = messages ++ pending (rx_outgoing_message self')
  /\ exists messages', Forall2 is_dated messages messages'
       /\ departed self' = departed self ++ messages'.

Lemma moved_nil self self' :
  pending (rx_outgoing_message self') = pending (rx_outgoing_message self) ->
  departed self' = departed self -> moved self self' [].
Proof. intros Hp Hd. split; [done|]. exists []. now rewrite app_nil_r. Qed.

Lemma moved_trans self1 self2 self3 l1 l2 :
  moved self1 self2 l1 -> moved self2 self3 l2 -> moved self1 self3 (l1 ++ l2).
Proof.
  intros (Hp1 & l1' & Hd1 & E1) (Hp2 & l2' & Hd2 & E2). split.
  - now rewrite Hp1, Hp2, app_assoc.
  - exists (l1' ++ l2'). split; [now apply Forall2_app|]. now rewrite E2, E1, app_assoc.
Qed.

(** A message that is submitted is taken by the sink or kept for the next poll. *)
Lemma try_send_spec message (self : TSender) :
  buffered_message self = None ->
  exists r self', try_send_message message self = Return (r, self')
    /\ rx_outgoing_message self' = rx_outgoing_message self
    /\ match r with
       | Ok (Ready _) => buffered_message self' = None /\ departed self' = departed self ++ [message]
       | Ok NotReady => buffered_message self' = Some message
                        /\ departed self' = departed self ++ [message]
       | Err _ => True
       end.
Proof.
  intros Hb. unfold try_send_message. rewrite Hb.
  pose proof (taken_start_send (E:=ProtocolError) (sink self) message) as Hs.
  destruct (start_send (sink self) message) as [[[|m']|e] s]; eexists _, _; (split; [reflexivity|]).
  - split; [done|]. split; [done|]. unfold departed. cbn. now rewrite Hb, Hs, !app_nil_r.
  - destruct Hs as [-> Hs]. split; [done|]. split; [done|]. unfold departed. cbn. now rewrite Hb, Hs, app_nil_r.
  - done.
Qed.

Lemma poll_write_spec fuel (date : Date) (self : TSender) :
  (length (pending (rx_outgoing_message self)) < fuel)%nat -> buffered_message self = None ->
  exists r self', poll_write fuel date self = Return (r, self')
    /\ forall a, r = Ok a ->
         (exists messages, moved self self' messages)
         /\ (buffered_message self' = None -> pending (rx_outgoing_message self') = [])
         /\ (a = Ready tt -> buffered_message self' = None).
Proof.
  revert self. induction fuel as [|fuel IH]; intros self Hf Hb; [lia|]. cbn [poll_write].
  pose proof (pending_stream_poll (rx_outgoing_message self)) as Hp.
  destruct (stream_poll (rx_outgoing_message self)) as [[[message|]|] rx].
  - rewrite Hp in Hf. cbn in Hf.
    set (self1 := mkSender (buffered_message self) rx (sink self)).
    destruct (try_send_spec (dated date message) self1 Hb) as (r & self2 & -> & Hrx & Hr).
    cbn [outcome_bind].
    assert (Hmoved : departed self2 = departed self1 ++ [dated date message] -> moved self self2 [message]).
    { intros Hd. split; [rewrite Hrx; exact Hp|]. exists [dated date message]. split; [|exact Hd].
      constructor; [now exists date|constructor]. }
    destruct r as [[[]|]|e].
    + destruct Hr as [Hb2 Hd2].
      destruct (IH self2) as (r & self' & E & Hok); [rewrite Hrx; cbn; lia|done|].
      exists r, self'. split; [done|]. intros a Ha. destruct (Hok a Ha) as ((l & Hl) & Hrest).
      split; [|exact Hrest]. exists ([message] ++ l). apply (moved_trans _ self2); [now apply Hmoved|done].
    + destruct Hr as [Hb2 Hd2]. eexists _, _. split; [reflexivity|]. intros a [= <-].
      split; [exists [message]; now apply Hmoved|]. now rewrite Hb2.
    + eexists _, _. split; [reflexivity|]. done.
  - destruct Hp as [Hp1 Hp2]. eexists _, _. split; [reflexivity|]. intros a [= <-]. cbn.
    split; [|now split]. exists []. apply moved_nil; cbn; [now rewrite Hp1, Hp2|done].
  - destruct Hp as [Hp1 Hp2]. pose proof (taken_poll_complete (sink self)) as Hc.
    cbn [sink]. destruct (poll_complete (sink self)) as [[a|e] s]; eexists _, _; (split; [reflexivity|]); [|done].
    intros a' [= <-]. cbn. split; [|now split]. exists [].
    apply moved_nil; cbn; [now rewrite Hp1, Hp2|]. unfold departed. cbn. now rewrite <- Hc.
Qed.

(** One poll: it terminates without a panic, the debug assertions included. Unless it fails, the
    messages it took from the channel have left in order, and it only stops when the sink has no
    room or the channel is empty; it is ready exactly when the channel has ended, everything was
    taken by the sink and the sink is closed. *)
Lemma sender_poll_spec fuel (date : Date) (self : TSender) :
  (length (pending (rx_outgoing_message self)) < fuel)%nat ->
  exists r self', poll fuel date self = Return (r, self')
    /\ forall a, r = Ok a ->
         (exists messages, moved self self' messages)
         /\ (buffered_message self' = None -> pending (rx_outgoing_message self') = []).
Proof.
  intros Hf. unfold sender_poll.
  assert (Hfirst : exists r self1,
            match buffered_message self with
            | Some message =>
                try_send_message message (mkSender None (rx_outgoing_message self) (sink self))
            | None => Return (Ok (Ready tt), self)
            end = Return (r, self1)
            /\ rx_outgoing_message self1 = rx_outgoing_message self
            /\ match r with
               | Ok (Ready _) => buffered_message self1 = None /\ departed self1 = departed self
               | Ok NotReady => is_Some (buffered_message self1) /\ departed self1 = departed self
               | Err _ => True
               end).
  { unfold departed. destruct (buffered_message self) as [message|] eqn:Eb.
    - destruct (try_send_spec message (mkSender None (rx_outgoing_message self) (sink self)) eq_refl)
        as (r & self1 & E & Hrx & Hr). exists r, self1. split; [exact E|]. split; [exact Hrx|].
      unfold departed in Hr. cbn in Hr. rewrite app_nil_r in Hr.
      destruct r as [[[]|]|]; [done| |done]. now destruct Hr as [-> ->].
    - exists (Ok (Ready tt)), self. now rewrite Eb. }
  destruct Hfirst as (r1 & self1 & -> & Hrx1 & Hr1). cbn [outcome_bind].
  destruct r1 as [[[]|]|e]; [| |eexists _, _; split; [reflexivity|done]].
  2:{ destruct Hr1 as [[m Hm] Hd]. eexists _, _. split; [reflexivity|]. intros a _. split.
      - exists []. apply moved_nil; [now rewrite Hrx1|done].
      - now rewrite Hm. }
  destruct Hr1 as [Hb1 Hd1].
  assert (Hstart : moved self self1 []) by (apply moved_nil; [now rewrite Hrx1|done]).
  destruct (poll_write_spec fuel date self1) as (r2 & self2 & -> & Hok); [now rewrite Hrx1|done|].
  cbn [outcome_bind]. destruct r2 as [[[]|]|e]; [| |eexists _, _; split; [reflexivity|done]].
  - destruct (Hok _ eq_refl) as ((l & Hl) & Hp & Hb). rewrite Hb by done.
    pose proof (taken_close (sink self2)) as Hc. destruct (close (sink self2)) as [r s].
    eexists _, _. split; [reflexivity|]. intros a _. cbn. split; [|now intros _; apply Hp, Hb].
    exists ([] ++ l). apply (moved_trans _ self1); [done|]. rewrite <- (app_nil_r l).
    apply (moved_trans _ self2); [done|]. apply moved_nil; [done|].
    unfold departed. cbn. rewrite Hb by done. now rewrite <- Hc.
  - destruct (Hok _ eq_refl) as ((l & Hl) & Hp & _). eexists _, _. split; [reflexivity|].
    intros a _. split; [|done]. exists ([] ++ l). now apply (moved_trans _ self1).
Qed.

(** ** Properties *)

(** The runs of a sender, with the messages that have been taken from its channel: polled at any
    time with enough fuel as long as no poll fails, while messages are put in the channel. *)
Inductive sender_run (sink0 : TSink) : list Message -> TSender -> Prop :=
  | sender_run_new rx : sender_run sink0 [] (sender_new rx sink0)
  | sender_run_poll messages more fuel (date : Date) self a self' :
      sender_run sink0 messages self -> (length (pending (rx_outgoing_message self)) < fuel)%nat ->
      poll fuel date self = Return (Ok a, self') ->
      pending (rx_outgoing_message self) = more ++ pending (rx_outgoing_message self') ->
      sender_run sink0 (messages ++ more) self'
  | sender_run_arrive messages self rx new :
      sender_run sink0 messages self ->
      pending rx = pending (rx_outgoing_message self) ++ new ->
      sender_run sink0 messages (mkSender (buffered_message self) rx (sink self)).

(** C20: No message is lost, repeated or overtaken: what the sink has taken, with the one message that
    waits for room, is what was taken from the channel, in that order, each with its date. A poll
    with enough fuel terminates without a panic; when it does not fail, either that one message
    waits for room or the channel is empty. *)
Theorem sender_in_order sink0 messages (self : TSender) fuel (date : Date) :
  sender_run sink0 messages self -> (length (pending (rx_outgoing_message self)) < fuel)%nat ->
  (exists messages', Forall2 is_dated messages messages'
     /\ taken (E:=ProtocolError) (sink self) ++ option_list (buffered_message self)
        = taken (E:=ProtocolError) sink0 ++ messages')
  /\ exists r self', poll fuel date self = Return (r, self')
       /\ forall a, r = Ok a -> buffered_message self' = None ->
            pending (rx_outgoing_message self') = [].
Proof.
  intros Hrun Hf. split.
  - clear Hf. change (exists messages', Forall2 is_dated messages messages'
      /\ departed self = taken (E:=ProtocolError) sink0 ++ messages').
    induction Hrun as [rx|messages more fuel' date' self a self' _ (l & Hl & Hd) Hf Hp Hpend
                      |messages self rx new _ IH Hp].
    + exists []. now split.
    + destruct (sender_poll_spec fuel' date' self Hf) as (r & self1 & E & Hok).
      rewrite Hp in E. injection E as <- <-.
      destruct (Hok a eq_refl) as ((more' & Hpend' & l' & Hl' & Hd') & _).
      rewrite Hpend in Hpend'. apply app_inv_tail in Hpend' as <-.
      exists (l ++ l'). split; [now apply Forall2_app|]. now rewrite Hd', Hd, app_assoc.
    + exact IH.
  - destruct (sender_poll_spec fuel date self Hf) as (r & self' & E & Hok). exists r, self'.
    split; [done|]. intros a Ha. now apply (Hok a).
Qed.
End SenderSpec.

(** A run: a sink with room for one message, and another typed header in the place of the date. *)
Notation SampleMessage := (Message (H:=list_header_map) (H0:=text_uri)).
Notation SampleProtocolError := (ProtocolError (H0:=text_uri)).

#[export] Instance sample_sink_ops : SinkOps (BoundedChannel SampleMessage) SampleMessage SampleProtocolError := {|
  start_send s item :=
    match start_send (E:=unit) s item with
    | (Ok a, s) => (Ok a, s)
    | (Err _, s) => (Err IO, s)
    end;
|}.

#[export] Instance sample_sink_laws : SinkLaws (BoundedChannel SampleMessage) SampleMessage SampleProtocolError.
Proof.
  refine {| taken := items |}. intros s item. pose proof (taken_start_send (E:=unit) s item) as Hs.
  unfold start_send at 1, sample_sink_ops. destruct (start_send s item) as [[[]|] s']; exact Hs.
Defined.

#[export] Instance sample_flush_ops : FlushOps (BoundedChannel SampleMessage) SampleProtocolError := {|
  poll_complete s := (Ok (Ready tt), s);
  close s := (Ok (Ready tt), s);
|}.

#[export] Instance sample_flush_laws :
  FlushLaws (BoundedChannel SampleMessage) SampleMessage SampleProtocolError.
Proof. now split. Qed.

Definition sample_message (status : StatusCode) : SampleMessage :=
  MResponse (canned_response status "Reason").

Definition sample_sender : Sender (H:=list_header_map) (H0:=text_uri) (Rx := Queue SampleMessage)
    (TSink := BoundedChannel SampleMessage) :=
  sender_new (mkQueue [sample_message OK; sample_message NotFound; sample_message Found] false)
    (mkBoundedChannel [] 0 1 true).

(** After one poll the first message is in the sink and the second one waits. *)
Definition sample_sender_1 : Sender (H:=list_header_map) (H0:=text_uri) (Rx := Queue SampleMessage)
    (TSink := BoundedChannel SampleMessage) :=
  mkSender (Some (dated (mkCSeq 3) (sample_message NotFound)))
    (mkQueue [sample_message Found] false)
    (mkBoundedChannel [dated (mkCSeq 3) (sample_message OK)] 0 1 true).

Lemma sample_sender_run :
  sender_run (H:=list_header_map) (H0:=text_uri) (Date := CSeq) (mkBoundedChannel [] 0 1 true)
    [sample_message OK; sample_message NotFound] sample_sender_1.
Proof.
  apply (sender_run_poll (H:=list_header_map) (H0:=text_uri) (Date := CSeq) _ []
           [sample_message OK; sample_message NotFound] 5 (mkCSeq 3) sample_sender NotReady);
    [constructor|cbn; lia|reflexivity|reflexivity].
Qed.

Lemma sender_in_order_witness :
  exists messages', Forall2 (is_dated (Date := CSeq)) [sample_message OK; sample_message NotFound] messages'
    /\ length messages' = 2.
Proof.
  destruct (proj1 (sender_in_order (H:=list_header_map) (H0:=text_uri) (Date := CSeq)
              (mkBoundedChannel [] 0 1 true) _ sample_sender_1 5 (mkCSeq 3) sample_sender_run
              ltac:(cbn; lia))) as (l & Hl & _).
  exists l. split; [exact Hl|]. symmetry. exact (Forall2_length _ _ _ Hl).
Defined.
