(* ===== verification/Receiver.v ===== *)
(** * The receiver

    Model of the [Receiver] of [rtsp-2/src/protocol/connection/receiver.rs]: it reads the messages of
    the connection, hands requests to the forwarding receiver and responses to the response
    receiver, answers protocol errors, and times the decoding. *)

From Stdlib Require Import Strings.Byte.
From stdpp Require Import base list numbers gmap strings.
From S2P Require Import Prelude Text Version Method HeaderName HeaderValue HeaderMap CSeq.
From S2P Require Import Status Request Response RequestDecoder Codec Futures Forwarding Pending.

Local Open Scope rust_scope.

(** A fallible stream: [Stream::poll] with its error. *)
Class TryStreamOps (S Item E : Type) := {
  try_stream_poll : S -> Poll (option Item) E * S;
}.

Section Receiver.
Context `{HeaderMapOps} `{URIOps} `{ClockOps} {Chan OTx ORx World C CE Tx TStream : Type}
  `{!SinkOps Chan (CSeq * Request bytes) unit}
  `{!OneshotOps World OTx ORx (PendingRequestResponse ORx)}
  `{!StreamOps C (PendingRequestUpdate OTx)} `{!StreamOps CE CodecEvent}
  `{!UnboundedOps Tx Message} `{!TryStreamOps TStream Message ProtocolError}.

(** What the receiver shares with the futures of the requests: the oneshot channels, and the channel
    of updates that its response receiver reads. *)
Record Shared := mkShared { oneshots : World; update_channel : C }.

Record Receiver := mkReceiver {
  decode_timeout_duration : Duration;
  decoding_timer : option Delay;
  forwarding_receiver : option (ForwardingReceiver (Chan := Chan));
  requests_allowed : bool;
  response_receiver : option (ResponseReceiver OTx);
  rx_codec_event : CE;
  sender_handle : option Tx;
  stream : option TStream;
}.

(** [Receiver::new]. *)
Definition receiver_new (stream : TStream) (rx_codec_event : CE) (tx_incoming_request : Chan)
    (sender_handle : Tx) (decode_timeout_duration : Duration) (request_buffer_size : N) : Receiver :=
  mkReceiver decode_timeout_duration None
    (Some (forwarding_new tx_incoming_request request_buffer_size)) true
    (Some response_receiver_new) rx_codec_event (Some sender_handle) (Some stream).

Definition set_decoding_timer (t : option Delay) (self : Receiver) : Receiver :=
  mkReceiver (decode_timeout_duration self) t (forwarding_receiver self) (requests_allowed self)
    (response_receiver self) (rx_codec_event self) (sender_handle self) (stream self).
Definition set_forwarding_receiver (f : option ForwardingReceiver) (self : Receiver) : Receiver :=
  mkReceiver (decode_timeout_duration self) (decoding_timer self) f (requests_allowed self)
    (response_receiver self) (rx_codec_event self) (sender_handle self) (stream self).
Definition set_requests_allowed (b : bool) (self : Receiver) : Receiver :=
  mkReceiver (decode_timeout_duration self) (decoding_timer self) (forwarding_receiver self) b
    (response_receiver self) (rx_codec_event self) (sender_handle self) (stream self).
Definition set_response_receiver (r : option (ResponseReceiver OTx)) (self : Receiver) : Receiver :=
  mkReceiver (decode_timeout_duration self) (decoding_timer self) (forwarding_receiver self)
    (requests_allowed self) r (rx_codec_event self) (sender_handle self) (stream self).
Definition set_rx_codec_event (c : CE) (self : Receiver) : Receiver :=
  mkReceiver (decode_timeout_duration self) (decoding_timer self) (forwarding_receiver self)
    (requests_allowed self) (response_receiver self) c (sender_handle self) (stream self).
Definition set_sender_handle (t : option Tx) (self : Receiver) : Receiver :=
  mkReceiver (decode_timeout_duration self) (decoding_timer self) (forwarding_receiver self)
    (requests_allowed self) (response_receiver self) (rx_codec_event self) t (stream self).
Definition set_stream (s : option TStream) (self : Receiver) : Receiver :=
  mkReceiver (decode_timeout_duration self) (decoding_timer self) (forwarding_receiver self)
    (requests_allowed self) (response_receiver self) (rx_codec_event self) (sender_handle self) s.

(** [handle_codec_event]. *)
Definition handle_codec_event (env : TimeEnv) (event : CodecEvent) (self : Receiver) :
    Outcome Receiver :=
  match event with
  | DecodingStarted =>
      let! t := delay_after (Pending.now env) (decode_timeout_duration self) in
      Return (set_decoding_timer (Some t) self)
  | DecodingEnded => Return (set_decoding_timer None self)
  | _ => Return self
  end.

(** [handle_message]. *)
Definition handle_message (message : Message) (sh : Shared) (self : Receiver) :
    Outcome (Result unit RequestReceiverError * Shared * Receiver) :=
  match message with
  | MRequest request =>
      if requests_allowed self then
        match forwarding_receiver self with
        | None => Panic
        | Some f =>
            let! (r, f) := Forwarding.handle_request request f in
            Return (r, sh, set_forwarding_receiver (Some f) self)
        end
      else Return (Ok tt, sh, self)
  | MResponse response =>
      match response_receiver self with
      | Some rr =>
          let! (w, rr) := handle_response response (oneshots sh) rr in
          Return (Ok tt, mkShared w (update_channel sh), set_response_receiver (Some rr) self)
      | None => Return (Ok tt, sh, self)
      end
  end.

(** The response that [handle_protocol_error] sends for an error. *)
Definition protocol_error_response (error : ProtocolError) : option (Response bytes) :=
  match error with
  | PEDecodeError (DERequest EUnsupportedVersion) => Some VERSION_NOT_SUPPORTED_RESPONSE
  | PEDecodeError (DERequest EBodyTooLong) => Some REQUEST_MESSAGE_BODY_TOO_LARGE_RESPONSE
  | PEDecodeError (DERequest EURITooLong) => Some REQUEST_URI_TOO_LONG_RESPONSE
  | PEDecodeError (DERequest _) => Some BAD_REQUEST_RESPONSE
  | _ => None
  end.

(** [send_message]: a sender that is gone is a panic. *)
Definition send_message (message : Message) (tx : Tx) (self : Receiver) : Outcome Receiver :=
  let '(ok, tx) := unbounded_send tx message in
  if ok then Return (set_sender_handle (Some tx) self) else Panic.

(** [handle_protocol_error]. *)
Definition handle_protocol_error (error : ProtocolError) (self : Receiver) : Outcome Receiver :=
  match sender_handle self with
  | Some tx =>
      match protocol_error_response error with
      | Some response => send_message (MResponse response) tx self
      | None => Return self
      end
  | None => Return self
  end.

(** [handle_request_receiver_error]. *)
Definition handle_request_receiver_error (error : RequestReceiverError) (self : Receiver) :
    Outcome Receiver :=
  match sender_handle self with
  | None => Panic
  | Some tx =>
      let response :=
        match error with
        | BadRequest => BAD_REQUEST_RESPONSE
        | CSeqDifferenceTooLarge => FORBIDDEN_RESPONSE
        end in
      send_message (MResponse response) tx self
  end.

Definition is_forwarding_shutdown (self : Receiver) : bool := negb (is_some (forwarding_receiver self)).
Definition is_request_receiver_shutdown (self : Receiver) : bool := negb (requests_allowed self).
Definition is_response_receiver_shutdown (self : Receiver) : bool :=
  negb (is_some (response_receiver self)).
Definition is_receiving_shutdown (self : Receiver) : bool :=
  is_request_receiver_shutdown self && is_response_receiver_shutdown self.
Definition receiver_is_shutdown (self : Receiver) : bool :=
  is_receiving_shutdown self && is_forwarding_shutdown self.

(** [poll_codec_events]. *)
Fixpoint poll_codec_events (fuel : nat) (env : TimeEnv) (self : Receiver) : Outcome Receiver :=
  match fuel with
  | O => Panic
  | S fuel =>
      let '(item, c) := stream_poll (rx_codec_event self) in
      let self := set_rx_codec_event c self in
      match item with
      | Ready (Some event) =>
          let! self := handle_codec_event env event self in poll_codec_events fuel env self
      | NotReady => Return self
      | Ready None => Panic
      end
  end.

(** [poll_decoding_timer]. *)
Definition poll_decoding_timer (env : TimeEnv) (self : Receiver) : Outcome (Poll unit unit) :=
  match decoding_timer self with
  | Some t =>
      match delay_poll env t with
      | Ok a => Return (Ok a)
      | Err AtCapacity => Return (Err tt)
      | Err TimerShutdown => Panic
      end
  | None => Return (Ok NotReady)
  end.

Definition forwarding_is_full (self : Receiver) : bool :=
  match forwarding_receiver self with Some f => is_full f | None => false end.

(** The loop of [poll_stream], with the stream taken out; a turn that goes on reads a message. *)
Fixpoint stream_loop (fuel : nat) (s : TStream) (sh : Shared) (self : Receiver) :
    Outcome (Poll unit ProtocolError * Shared * Receiver) :=
  match fuel with
  | O => Panic
  | S fuel =>
      if forwarding_is_full self then Return (Ok NotReady, sh, set_stream (Some s) self)
      else
        match try_stream_poll s with
        | (Ok (Ready (Some message)), s) =>
            let! (r, sh, self) := handle_message message sh self in
            let! self :=
              match r with
              | Err error => handle_request_receiver_error error self
              | Ok _ => Return self
              end in
            stream_loop fuel s sh self
        | (Ok NotReady, s) => Return (Ok NotReady, sh, set_stream (Some s) self)
        | (Ok (Ready None), _) => Return (Ok (Ready tt), sh, self)
        | (Err error, _) =>
            let! self := handle_protocol_error error self in Return (Err error, sh, self)
        end
  end.

(** [poll_stream]. *)
Definition poll_stream (fuel : nat) (sh : Shared) (self : Receiver) :
    Outcome (Poll unit ProtocolError * Shared * Receiver) :=
  match stream self with
  | Some s => stream_loop fuel s sh (set_stream None self)
  | None => Return (Ok (Ready tt), sh, self)
  end.

(** [shutdown_request_receiver]. *)
Definition receiver_shutdown_request (self : Receiver) : bool * Receiver :=
  let self := set_requests_allowed false self in
  let self :=
    if is_response_receiver_shutdown self then set_stream None (set_sender_handle None self)
    else self in
  let self :=
    match forwarding_receiver self with
    | Some f => if has_requests_ready f then self else set_forwarding_receiver None self
    | None => self
    end in
  (receiver_is_shutdown self, self).

(** [shutdown_response_receiver]; the assignment drops the response receiver. *)
Definition receiver_shutdown_response (fuel : nat) (sh : Shared) (self : Receiver) :
    Outcome (bool * Shared * Receiver) :=
  let! sh :=
    match response_receiver self with
    | Some rr =>
        let! (w, c) := response_receiver_drop fuel (oneshots sh) (update_channel sh) rr in
        Return (mkShared w c)
    | None => Return sh
    end in
  let self := set_response_receiver None self in
  let self :=
    if is_request_receiver_shutdown self then set_stream None (set_sender_handle None self)
    else self in
  Return (receiver_is_shutdown self, sh, self).

(** [shutdown_forwarding_receiver]. *)
Definition receiver_shutdown_forwarding (self : Receiver) : bool * Receiver :=
  receiver_shutdown_request (set_forwarding_receiver None self).

(** [shutdown_receiving]. *)
Definition receiver_shutdown_receiving (fuel : nat) (sh : Shared) (self : Receiver) :
    Outcome (bool * Shared * Receiver) :=
  let '(_, self) := receiver_shutdown_request self in receiver_shutdown_response fuel sh self.

(** [poll_receiving]: whether receiving is over. *)
Definition poll_receiving (fuel : nat) (env : TimeEnv) (sh : Shared) (self : Receiver) :
    Outcome (Async unit * Shared * Receiver) :=
  let! (sh, self) :=
    match response_receiver self with
    | Some rr =>
        let! (r, c, rr) := response_receiver_poll fuel (update_channel sh) rr in
        let sh := mkShared (oneshots sh) c in
        let self := set_response_receiver (Some rr) self in
        match r with
        | Ready _ =>
            let! (_, sh, self) := receiver_shutdown_response fuel sh self in Return (sh, self)
        | NotReady => Return (sh, self)
        end
    | None => Return (sh, self)
    end in
  let! (r, sh, self) := poll_stream fuel sh self in
  match r with
  | Ok (Ready _) | Err _ => Return (Ready tt, sh, self)
  | Ok NotReady =>
      let! self := poll_codec_events fuel env self in
      let! r := poll_decoding_timer env self in
      match r with
      | Ok (Ready _) | Err _ => Return (Ready tt, sh, self)
      | Ok NotReady => Return (NotReady, sh, self)
      end
  end.

(** [Future::poll]. *)
Definition receiver_poll (fuel : nat) (env : TimeEnv) (sh : Shared) (self : Receiver) :
    Outcome (Async unit * Shared * Receiver) :=
  let! (r, sh, self) := poll_receiving fuel env sh self in
  let! (sh, self) :=
    match r with
    | Ready _ =>
        let! (_, sh, self) := receiver_shutdown_receiving fuel sh self in Return (sh, self)
    | NotReady => Return (sh, self)
    end in
  let! (is_shutdown, self) :=
    match forwarding_receiver self with
    | Some f =>
        let! (r, f) := forwarding_poll f in
        let self := set_forwarding_receiver (Some f) self in
        match r with
        | Err _ => Return (receiver_shutdown_forwarding self)
        | Ok (Ready _) =>
            if is_request_receiver_shutdown self then Return (receiver_shutdown_forwarding self)
            else Return (false, self)
        | Ok NotReady => Return (false, self)
        end
    | None => Return (receiver_is_shutdown self, self)
    end in
  Return (if is_shutdown then Ready tt else NotReady, sh, self).
End Receiver.

(** ** Properties *)

Section ReceiverSpec.
Context `{HeaderMapLaws} `{URIOps} `{ClockOps} {Chan OTx ORx World C CE Tx TStream : Type}
  `{!SinkOps Chan (CSeq * Request bytes) unit} `{!SinkLaws Chan (CSeq * Request bytes) unit}
  `{!OneshotOps World OTx ORx (PendingRequestResponse ORx)}
  `{!StreamOps C (PendingRequestUpdate OTx)} `{!StreamOps CE CodecEvent}
  `{!UnboundedOps Tx Message} `{!TryStreamOps TStream Message ProtocolError}.

Notation TReceiver := (Receiver (Chan := Chan) (OTx := OTx) (CE := CE) (Tx := Tx) (TStream := TStream)).
Notation TShared := (Shared (World := World) (C := C)).
Notation poll := (receiver_poll (ORx := ORx)).

(** ** Requests that are not allowed stay so *)

(** A step after which requests are allowed as before, or no more. *)
Notation keeps self o :=
  (ends True (fun x => requests_allowed (snd x) = true -> requests_allowed self = true) o).

Lemma send_message_keeps message tx (self : TReceiver) :
  ends True (fun self' => requests_allowed self' = requests_allowed self) (send_message message tx self).
Proof. unfold send_message. now destruct (unbounded_send tx message) as [[] tx']. Qed.

Lemma handle_protocol_error_keeps error (self : TReceiver) :
  ends True (fun self' => requests_allowed self' = requests_allowed self) (handle_protocol_error error self).
Proof.
  unfold handle_protocol_error. destruct (sender_handle self) as [tx|]; [|done].
  destruct (protocol_error_response error); [apply send_message_keeps|done].
Qed.

Lemma handle_request_receiver_error_keeps error (self : TReceiver) :
  ends True (fun self' => requests_allowed self' = requests_allowed self)
    (handle_request_receiver_error error self).
Proof.
  unfold handle_request_receiver_error. destruct (sender_handle self); [apply send_message_keeps|done].
Qed.

Lemma handle_message_keeps message (sh : TShared) (self : TReceiver) :
  keeps self (handle_message (ORx := ORx) message sh self).
Proof.
  unfold handle_message. destruct message as [request|response].
  - destruct (requests_allowed self) eqn:Ea; cbn; [|congruence].
    destruct (forwarding_receiver self) as [f|]; [|done].
    destruct (Forwarding.handle_request request f) as [[r f']|]; cbn; auto.
  - destruct (response_receiver self) as [rr|]; [|done].
    destruct (handle_response response (oneshots sh) rr) as [[w rr']|]; cbn; auto.
Qed.

Lemma stream_loop_keeps fuel s (sh : TShared) (self : TReceiver) :
  keeps self (stream_loop (ORx := ORx) fuel s sh self).
Proof.
  revert s sh self. induction fuel as [|fuel IH]; intros s sh self; [done|]. cbn [stream_loop].
  destruct (forwarding_is_full self); [done|].
  destruct (try_stream_poll s) as [[[[message|]|]|error] s']; [|done..|].
  - eapply ends_bind; [apply handle_message_keeps|]. intros [[r sh1] self1] Ha1. cbn in Ha1.
    eapply ends_bind with (Q := fun self' => requests_allowed self' = requests_allowed self1);
      [destruct r; [done|apply handle_request_receiver_error_keeps]|].
    intros self2 Ha2. eapply ends_mono; [apply IH|]. intros [[r' sh'] self'] Ha3.
    cbn in *. rewrite Ha2 in Ha3. auto.
  - eapply ends_bind; [apply handle_protocol_error_keeps|]. intros self1 Ha1. cbn. now rewrite Ha1.
Qed.

Lemma poll_stream_keeps fuel (sh : TShared) (self : TReceiver) :
  keeps self (poll_stream (ORx := ORx) fuel sh self).
Proof.
  unfold poll_stream. destruct (stream self) as [s|]; [|done].
  eapply ends_mono; [apply stream_loop_keeps|]. now intros [[r sh'] self'].
Qed.

Lemma poll_codec_events_keeps fuel env (self : TReceiver) :
  ends True (fun self' => requests_allowed self' = requests_allowed self) (poll_codec_events fuel env self).
Proof.
  revert self. induction fuel as [|fuel IH]; intros self; [done|]. cbn [poll_codec_events].
  destruct (stream_poll (rx_codec_event self)) as [[[event|]|] c]; [|done..].
  eapply ends_bind with
    (Q := fun self' => requests_allowed self' = requests_allowed (set_rx_codec_event c self)).
  - destruct event; try done. cbn. unfold delay_after. now destruct (instant_add _ _).
  - intros self1 Ha1. eapply ends_mono; [apply IH|]. intros self2 Ha2. now rewrite Ha2, Ha1.
Qed.

Lemma shutdown_request_allowed (self : TReceiver) :
  requests_allowed (snd (receiver_shutdown_request self)) = false.
Proof.
  unfold receiver_shutdown_request, is_response_receiver_shutdown. cbn.
  destruct (response_receiver self); cbn; destruct (forwarding_receiver self) as [f|]; cbn; try done;
    now destruct (has_requests_ready f).
Qed.

Lemma shutdown_response_keeps fuel (sh : TShared) (self : TReceiver) :
  keeps self (receiver_shutdown_response (ORx := ORx) fuel sh self).
Proof.
  unfold receiver_shutdown_response. eapply ends_bind with (Q := fun _ => True).
  - destruct (response_receiver self); [|done].
    now destruct (response_receiver_drop _ _ _ _) as [[]|].
  - intros sh' _. unfold is_request_receiver_shutdown. cbn.
    destruct (requests_allowed self) eqn:Ea; cbn; now rewrite ?Ea.
Qed.

Lemma poll_receiving_keeps fuel env (sh : TShared) (self : TReceiver) :
  keeps self (poll_receiving (ORx := ORx) fuel env sh self).
Proof.
  unfold poll_receiving. eapply ends_bind with (Q := fun x =>
    requests_allowed (snd x) = true -> requests_allowed self = true).
  - destruct (response_receiver self) as [rr|]; [|done].
    destruct (response_receiver_poll fuel (update_channel sh) rr) as [[[[|] c] rr']|]; cbn; try done.
    eapply ends_bind; [apply shutdown_response_keeps|]. now intros [[b sh'] self'].
  - intros [sh1 self1] Ha1. cbn in Ha1. eapply ends_bind; [apply poll_stream_keeps|].
    intros [[r sh2] self2] Ha2. cbn in Ha2. destruct r as [[[]|]|]; cbn; auto.
    eapply ends_bind; [apply poll_codec_events_keeps|]. intros self3 Ha3.
    eapply ends_bind with (Q := fun _ => True); [now destruct (poll_decoding_timer env self3)|].
    intros [[[]|]|] _; cbn; rewrite Ha3; auto.
Qed.

Lemma receiver_poll_keeps fuel env (sh : TShared) (self : TReceiver) :
  keeps self (poll fuel env sh self).
Proof.
  unfold poll. eapply ends_bind; [apply poll_receiving_keeps|]. intros [[r sh1] self1] Ha1.
  cbn in Ha1. eapply ends_bind with (Q := fun x =>
    requests_allowed (snd x) = true -> requests_allowed self = true).
  - destruct r; [|done]. unfold receiver_shutdown_receiving.
    pose proof (shutdown_request_allowed self1) as Hs.
    destruct (receiver_shutdown_request self1) as [b self2]. cbn in Hs.
    eapply ends_bind; [apply shutdown_response_keeps|]. intros [[b' sh'] self'] Ha2. cbn in *.
    rewrite Hs in Ha2. intros Ht. now apply Ha2 in Ht.
  - intros [sh2 self2] Ha2. cbn in Ha2.
    eapply ends_bind with (Q := fun x => requests_allowed (snd x) = true -> requests_allowed self = true).
    2:{ now intros [b self3]. }
    destruct (forwarding_receiver self2) as [f|]; [|done].
    eapply ends_bind with (Q := fun _ => True); [now destruct (forwarding_poll f)|].
    intros [r' f'] _. unfold receiver_shutdown_forwarding.
    destruct r' as [[[]|]|]; cbn [ends]; try done.
    + destruct (is_request_receiver_shutdown _); [|done]. cbn [ends].
      rewrite shutdown_request_allowed. discriminate.
    + rewrite shutdown_request_allowed. discriminate.
Qed.

(** The response side has nothing to do at present, or is shut down. *)
Definition responses_idle (fuel : nat) (sh : TShared) (self : TReceiver) : Prop :=
  response_receiver self = None
  \/ exists rr c' rr', response_receiver self = Some rr
       /\ response_receiver_poll fuel (update_channel sh) rr = Return (NotReady, c', rr').

(** A receiver whose forwarding buffer is full while the expected request is missing. *)
Definition stalled (f : ForwardingReceiver) (s : TStream) (self : TReceiver) : Prop :=
  forwarding_receiver self = Some f /\ is_full f = true /\ has_requests_ready f = false
  /\ stream self = Some s /\ requests_allowed self = true /\ decoding_timer self = None.

(** The part of [poll_receiving] after the response side. *)
Definition after_responses (fuel : nat) (env : TimeEnv) (sh : TShared) (self : TReceiver) :
    Outcome (Async unit * TShared * TReceiver) :=
  let! (r, sh, self) := poll_stream fuel sh self in
  match r with
  | Ok (Ready _) | Err _ => Return (Ready tt, sh, self)
  | Ok NotReady =>
      let! self := poll_codec_events fuel env self in
      let! r := poll_decoding_timer env self in
      match r with
      | Ok (Ready _) | Err _ => Return (Ready tt, sh, self)
      | Ok NotReady => Return (NotReady, sh, self)
      end
  end.

(** The part of [poll_receiving] before it. *)
Lemma idle_start fuel env (sh : TShared) (self : TReceiver) :
  responses_idle fuel sh self ->
  exists sh' rr', poll_receiving (ORx := ORx) fuel env sh self
    = after_responses fuel env sh' (set_response_receiver rr' self).
Proof.
  intros [Hn|(rr & c' & rr' & Hs & Hp)]; unfold poll_receiving.
  - exists sh, None. rewrite Hn. cbn [outcome_bind]. unfold set_response_receiver. rewrite <- Hn.
    now destruct self.
  - exists (mkShared (oneshots sh) c'), (Some rr'). now rewrite Hs, Hp.
Qed.

(** The response side does not panic. *)
Definition responses_return (fuel : nat) (sh : TShared) (self : TReceiver) : Prop :=
  forall rr, response_receiver self = Some rr ->
    exists x, response_receiver_poll fuel (update_channel sh) rr = Return x.

(** A response receiver that has ended has nothing left to do when it is dropped. *)
Lemma response_receiver_ended fuel (c : C) (rr : ResponseReceiver OTx) a c' rr' :
  response_receiver_poll fuel c rr = Return (Ready a, c', rr') ->
  response_receiver_poll fuel c' rr' = Return (Ready tt, c', rr').
Proof.
  enough (Hend : response_receiver_poll fuel c rr = Return (Ready a, c', rr') ->
            0 < fuel /\ rx_done rr' = true /\ pending_requests rr' = ∅).
  { intros (Hf & Hd & Hp)%Hend. destruct fuel as [|fuel]; [lia|]. cbn [response_receiver_poll]. rewrite Hd.
    rewrite bool_decide_eq_true_2 by done. rewrite <- Hd. now destruct rr'. }
  revert c rr. induction fuel as [|fuel IH]; intros c rr; [done|]. cbn [response_receiver_poll].
  destruct (if rx_done rr then _ else _) as [[[u|]|] c1]; [| |done].
  - intros E. apply outcome_bind_Return in E as (rr1 & _ & E%IH). split; [lia|apply E].
  - case_bool_decide; [|done]. intros [= _ _ <-]. split; [lia|done].
Qed.

(** As long as requests are allowed, the response side changes nothing else, also when it ends. *)
Lemma responses_start fuel env (sh : TShared) (self : TReceiver) :
  requests_allowed self = true ->
  (~ responses_return fuel sh self /\ poll_receiving (ORx := ORx) fuel env sh self = Panic)
  \/ exists sh' rr', poll_receiving (ORx := ORx) fuel env sh self
                     = after_responses fuel env sh' (set_response_receiver rr' self).
Proof.
  intros Ha. unfold poll_receiving. destruct (response_receiver self) as [rr|] eqn:Er.
  - destruct (response_receiver_poll fuel (update_channel sh) rr) as [[[[a|] c'] rr']|] eqn:Ep.
    + right. cbn [outcome_bind]. unfold receiver_shutdown_response. cbn [response_receiver set_response_receiver oneshots update_channel].
      unfold response_receiver_drop. rewrite (response_receiver_ended _ _ _ _ _ _ Ep). cbn [outcome_bind].
      unfold is_request_receiver_shutdown. cbn [requests_allowed set_response_receiver]. rewrite Ha. cbn [negb outcome_bind].
      by eexists _, None.
    + right. by eexists _, (Some rr').
    + left. split; [|done]. intros Hr. destruct (Hr rr Er) as [x E]. congruence.
  - right. exists sh, None. cbn [outcome_bind]. unfold set_response_receiver. rewrite <- Er. now destruct self.
Qed.

(** A channel of codec events that holds [n] events of the encoder and then has to wait. *)
Inductive encoder_events : nat -> CE -> CE -> Prop :=
  | no_event c c' : stream_poll c = (NotReady, c') -> encoder_events 0 c c'
  | an_event event n c c1 c' :
      stream_poll c = (Ready (Some event), c1) -> event = EncodingStarted \/ event = EncodingEnded ->
      encoder_events n c1 c' -> encoder_events (S n) c c'.

Lemma poll_codec_events_encoder fuel env n c' (self : TReceiver) :
  encoder_events n (rx_codec_event self) c' ->
  poll_codec_events fuel env self = if n <? fuel then Return (set_rx_codec_event c' self) else Panic.
Proof.
  intros He. remember (rx_codec_event self) as c eqn:Ec. revert fuel self Ec.
  induction He as [c c' Hp|event n c c1 c' Hp Hev _ IH]; intros [|fuel] self ->; try done;
    cbn [poll_codec_events]; rewrite Hp; [done|].
  assert (E : handle_codec_event env event (set_rx_codec_event c1 self) = Return (set_rx_codec_event c1 self))
    by now destruct Hev as [-> | ->].
  rewrite E. cbn [outcome_bind]. now rewrite IH.
Qed.

(** A stalled receiver after the response side: nothing but the events of the encoder is read. *)
Lemma stalled_after f s fuel env n c' (sh : TShared) (self : TReceiver) :
  stalled f s self -> encoder_events n (rx_codec_event self) c' ->
  after_responses fuel env sh self = if n <? fuel then Return (NotReady, sh, set_rx_codec_event c' self) else Panic.
Proof.
  intros (Hf & Hfull & Hready & Hs & Ha & Ht) He. unfold after_responses, poll_stream. rewrite Hs.
  destruct fuel as [|fuel]; [now destruct n|]. cbn [stream_loop].
  unfold forwarding_is_full. cbn [forwarding_receiver set_stream]. rewrite Hf, Hfull. cbn [outcome_bind].
  assert (E : set_stream (Some s) (set_stream None self) = self) by (rewrite <- Hs; now destruct self).
  rewrite E, (poll_codec_events_encoder _ _ n c') by done. destruct (n <? S fuel); [|done].
  cbn [outcome_bind]. unfold poll_decoding_timer. cbn [decoding_timer set_rx_codec_event]. now rewrite Ht.
Qed.

(** A poll of a stalled receiver, in every environment. *)
Lemma stalled_poll f s fuel env n c' (sh : TShared) (self : TReceiver) :
  stalled f s self -> encoder_events n (rx_codec_event self) c' ->
  (poll fuel env sh self = Panic /\ (n < fuel -> ~ responses_return fuel sh self))
  \/ exists sh' self', poll fuel env sh self = Return (NotReady, sh', self') /\ stalled f s self'.
Proof.
  intros Hst He. pose proof Hst as (Hf & Hfull & Hready & Hs & Ha & Ht). unfold poll.
  destruct (responses_start fuel env sh self Ha) as [[Hn ->]|(sh' & rr' & ->)]; [now left|].
  rewrite (stalled_after f s fuel env n c') by done.
  destruct (Nat.ltb_spec n fuel) as [Hlt|Hge]; [|left; split; [done|lia]]. right. cbn [outcome_bind].
  cbn [forwarding_receiver set_rx_codec_event set_response_receiver]. rewrite Hf, forwarding_poll_idle by done.
  cbn [outcome_bind]. unfold is_request_receiver_shutdown.
  cbn [requests_allowed set_forwarding_receiver set_rx_codec_event set_response_receiver]. rewrite Ha. cbn.
  eexists _, _. split; [reflexivity|]. now repeat split.
Qed.

(** What other tasks do to the channel of the requests. *)
Definition with_channel (tx : Chan) (f : ForwardingReceiver (Chan := Chan)) : ForwardingReceiver :=
  mkForwardingReceiver (buffered_requests f) (incoming_sequence_number f) (request_buffer_size f) tx.

(** A connection that is not told to stop: its receiver is polled again and again, at any times, with
    any fuel, and whatever the callers have done to the shared channels; the encoder announces what
    is sent, and the request handler takes requests from the channel, as it likes. *)
Inductive goes_on (self0 : TReceiver) : TReceiver -> Prop :=
  | goes_on_start : goes_on self0 self0
  | goes_on_poll self env fuel sh n c c' r sh' self' :
      goes_on self0 self -> encoder_events n c c' ->
      poll fuel env sh (set_rx_codec_event c self) = Return (r, sh', self') -> goes_on self0 self'
  | goes_on_channel self f tx :
      goes_on self0 self -> forwarding_receiver self = Some f ->
      goes_on self0 (set_forwarding_receiver (Some (with_channel tx f)) self).

Lemma stalled_goes_on f s (self0 self : TReceiver) :
  stalled f s self0 -> goes_on self0 self -> exists tx, stalled (with_channel tx f) s self.
Proof.
  intros Hst. induction 1 as [|self env fuel sh n c c' r sh' self' _ (tx & IH) He Hp|self g tx _ (tx' & IH) Hg].
  - exists (tx_incoming_request f). now destruct f.
  - exists tx. destruct (stalled_poll (with_channel tx f) s fuel env n c' sh (set_rx_codec_event c self) IH He)
      as [[E _]|(sh1 & self1 & E & Hst1)]; [congruence|]. rewrite Hp in E. now injection E as _ _ ->.
  - exists tx. destruct IH as (Hf & IH). rewrite Hg in Hf. injection Hf as ->. split; [done|exact IH].
Qed.

(** C40: A receiver whose buffer is full while the expected request is missing is stuck for good, unless
    the connection is told to stop. However often it has been polled, and whatever the
    callers, the encoder and the request handler have done in between: it has the same requests
    in its buffer and the same stream, so that no request has been forwarded and no message read,
    the missing request among them; requests are still allowed and no timer runs that would end
    the connection; and a poll again returns that it is not ready and leaves all of this as it
    is, provided that the response side does not panic. *)
Theorem receiver_stalled f s (self0 self : TReceiver) :
  stalled f s self0 -> goes_on self0 self ->
  exists tx, stalled (with_channel tx f) s self
    /\ forall env fuel sh n c c', encoder_events n c c' -> n <= fuel -> responses_return (S fuel) sh self ->
         exists sh' self', poll (S fuel) env sh (set_rx_codec_event c self) = Return (NotReady, sh', self')
           /\ stalled (with_channel tx f) s self'.
Proof.
  intros Hst Hgo. destruct (stalled_goes_on f s self0 self Hst Hgo) as (tx & Htx). exists tx. split; [exact Htx|].
  intros env fuel sh n c c' He Hn Hr.
  destruct (stalled_poll (with_channel tx f) s (S fuel) env n c' sh (set_rx_codec_event c self) Htx He)
    as [[_ Hp]|Hp]; [|exact Hp]. exfalso. apply Hp; [lia|exact Hr].
Qed.

(** When the task that sends has ended while responses are still awaited, a request that cannot be
    decoded makes the receiver panic: it tries to answer, and relies on the sender being there. *)
Theorem protocol_error_panics e s s' tx (self : TReceiver) (sh : TShared) env fuel :
  responses_idle (S fuel) sh self -> forwarding_is_full self = false ->
  stream self = Some s -> try_stream_poll s = (Err (PEDecodeError (DERequest e)), s') ->
  sender_handle self = Some tx -> (forall m, fst (unbounded_send tx m) = false) ->
  poll (S fuel) env sh self = Panic.
Proof.
  intros Hidle Hfull Hs Hpoll Htx Hsend. unfold receiver_poll.
  destruct (idle_start (S fuel) env sh self Hidle) as (sh' & rr' & ->).
  unfold after_responses, poll_stream. cbn [stream set_response_receiver]. rewrite Hs. cbn [stream_loop].
  unfold forwarding_is_full in *. cbn [forwarding_receiver set_stream set_response_receiver].
  rewrite Hfull, Hpoll. unfold handle_protocol_error.
  cbn [sender_handle set_stream set_response_receiver]. rewrite Htx.
  destruct (protocol_error_response (PEDecodeError (DERequest e))) as [response|] eqn:Er;
    [|now destruct e].
  unfold send_message. specialize (Hsend (MResponse response)).
  destruct (unbounded_send tx (MResponse response)) as [[] tx']; [done|]. reflexivity.
Qed.
End ReceiverSpec.

(** Runs: a stream of the results it will give, and concrete channels. *)
#[export] Instance list_try_stream {Item E} : TryStreamOps (list (Result Item E)) Item E := {|
  try_stream_poll s :=
    match s with
    | Ok item :: s => (Ok (Ready (Some item)), s)
    | Err e :: s => (Err e, s)
    | [] => (Ok NotReady, s)
    end;
|}.

Notation SampleStream :=
  (list (Result (Message (H:=list_header_map) (H0:=text_uri)) (ProtocolError (H0:=text_uri)))).
Notation SampleReceiver := (Receiver (H:=list_header_map) (H0:=text_uri) (H1:=counting_clock)
  (Chan := Forwarding.sample_channel) (OTx := nat) (CE := Queue CodecEvent)
  (Tx := SampleOutbox) (TStream := SampleStream)).

(** A buffer of one request, which has the request 3 while 2 is expected. *)
Definition stalled_forwarding : Forwarding.SampleReceiver :=
  mkForwardingReceiver {[mkCSeq 3 := Forwarding.sample_request (mkCSeq 3)]} (Some (mkCSeq 2)) 1%N
    Forwarding.empty_channel.

Definition sample_receiver (f : Forwarding.SampleReceiver) (s : SampleStream) (tx : SampleOutbox) :
    SampleReceiver :=
  mkReceiver (10%N : Duration (ClockOps := counting_clock)) None (Some f) true
    (Some response_receiver_new) (mkQueue [] false) (Some tx) (Some s).

Definition sample_shared : Shared (World := SampleWorld) (C := SampleChannel) :=
  mkShared [] (mkPipe [] false false).

(** The request 2 is the next message of the stream. *)
Definition missing_request : SampleStream := [Ok (MRequest (Forwarding.sample_request (mkCSeq 2)))].

(** It is polled twice, with an event of the encoder in between, while the request handler empties the
    channel. *)
Definition stalled_receiver : SampleReceiver :=
  sample_receiver stalled_forwarding missing_request (mkMailbox [] true).

Definition emptied : Forwarding.sample_channel := mkBoundedChannel [] 0 9 true.

Lemma receiver_stalled_witness :
  exists sh' self',
    receiver_poll (H:=list_header_map) (H0:=text_uri) (H1:=counting_clock) 2 (env_at 500) sample_shared
      (set_rx_codec_event (mkQueue [EncodingStarted] false)
         (set_forwarding_receiver (Some (with_channel emptied stalled_forwarding)) stalled_receiver))
    = Return (NotReady, sh', self').
Proof.
  assert (Hst : stalled stalled_forwarding missing_request stalled_receiver) by now repeat split.
  assert (Hgo : goes_on (H:=list_header_map) (H1:=text_uri) (H2:=counting_clock) (ORx := nat) (World := SampleWorld)
                  (C := SampleChannel) stalled_receiver
                  (set_forwarding_receiver (Some (with_channel emptied stalled_forwarding)) stalled_receiver)).
  { apply goes_on_channel; [|reflexivity].
    apply (goes_on_poll (H2:=counting_clock) stalled_receiver stalled_receiver (env_at 5) 1 sample_shared 0 (mkQueue [] false)
             (mkQueue [] false) NotReady sample_shared); [constructor|now constructor|reflexivity]. }
  destruct (receiver_stalled (H:=list_header_map) (H1:=text_uri) (H2:=counting_clock) (ORx := nat) (World := SampleWorld)
              (C := SampleChannel) stalled_forwarding missing_request _ _ Hst Hgo) as (tx & _ & Hpoll).
  destruct (Hpoll (env_at 500) 1 sample_shared 1 (mkQueue [EncodingStarted] false) (mkQueue [] false))
    as (sh' & self' & E & _); [|done| |now exists sh', self'].
  - apply (an_event EncodingStarted 0 _ (mkQueue [] false)); [reflexivity|now left|now constructor].
  - intros rr [= <-]. eexists. reflexivity.
Defined.

Lemma protocol_error_panics_witness :
  receiver_poll (H:=list_header_map) (H0:=text_uri) (H1:=counting_clock) 1 (env_at 5) sample_shared
    (sample_receiver (forwarding_new Forwarding.empty_channel 4%N)
       [Err (PEDecodeError (DERequest EMethodTooLong))] (mkMailbox [] false))
  = Panic.
Proof.
  apply (protocol_error_panics (H:=list_header_map) (H1:=text_uri) (H2:=counting_clock)
           EMethodTooLong [Err (PEDecodeError (DERequest EMethodTooLong))] [] (mkMailbox [] false));
    [|reflexivity..|done].
  right. eexists _, _, _. split; reflexivity.
Defined.
