(* ===== verification/ReceiverSteps.v ===== *)
(** * What a receiver does to its parts

    A poll of the receiver of [Receiver] is a sequence of steps of its parts: messages are read from
    the stream in order, the requests among them are handed to the forwarding receiver of
    [Forwarding], which is only called when it has room, and the responses are steps of the system
    of [Pending]. So what is proved of the runs of those parts holds of the receiver that drives
    them. *)

From Stdlib Require Import Strings.Byte.
From stdpp Require Import base list numbers gmap strings.
From S2P Require Import Prelude Text Version Method HeaderName HeaderValue HeaderMap CSeq.
From S2P Require Import Status Request Response RequestDecoder Codec Futures Forwarding Pending Receiver.

Local Open Scope rust_scope.

(** ** Sequences of steps *)

(** What was read from a stream by polling it any number of times, and the stream after. *)
Inductive reads {S Item E} `{!TryStreamOps S Item E} : S -> list Item -> S -> Prop :=
  | reads_nil s : reads s [] s
  | reads_item s item s' items s'' :
      try_stream_poll s = (Ok (Ready (Some item)), s') -> reads s' items s'' -> reads s (item :: items) s''
  | reads_wait s s' items s'' :
      try_stream_poll s = (Ok NotReady, s') -> reads s' items s'' -> reads s items s''.

Lemma reads_app {S Item E} `{!TryStreamOps S Item E} (s : S) items1 s1 items2 s2 :
  reads s items1 s1 -> reads s1 items2 s2 -> reads s (items1 ++ items2) s2.
Proof.
  induction 1 as [|s item s' items s1 Hp _ IH|s s' items s1 Hp _ IH]; intros Hr; [done|..].
  - exact (reads_item _ _ _ _ _ Hp (IH Hr)).
  - exact (reads_wait _ _ _ _ Hp (IH Hr)).
Qed.

(** A part that takes some steps and may be dropped after them; [nothing] says that there are none. *)
Definition advanced {A} (nothing : Prop) (R : A -> A -> Prop) (o o' : option A) : Prop :=
  match o with
  | Some a => exists a', R a a' /\ (o' = Some a' \/ o' = None)
  | None => nothing /\ o' = None
  end.

Lemma advanced_none {A} (nothing : Prop) (R : A -> A -> Prop) o o' :
  nothing -> (forall a, R a a) -> o' = o \/ o' = None -> advanced nothing R o o'.
Proof. intros Hn HR Ho. destruct o as [a|]; [exists a|]; naive_solver. Qed.

Lemma advanced_some {A} (nothing : Prop) (R : A -> A -> Prop) o a a' :
  o = Some a -> R a a' -> advanced nothing R o (Some a').
Proof. intros -> HR. exists a'. auto. Qed.

Lemma advanced_trans {A} (nothing1 nothing2 nothing : Prop) (R1 R2 R : A -> A -> Prop) o1 o2 o3 :
  (nothing1 -> nothing2 -> nothing) -> (forall a b c, R1 a b -> R2 b c -> R a c) ->
  (forall a b, R1 a b -> nothing2 -> R a b) ->
  advanced nothing1 R1 o1 o2 -> advanced nothing2 R2 o2 o3 -> advanced nothing R o1 o3.
Proof.
  intros Hn HR He. destruct o1 as [a|]; cbn.
  - intros (b & Hb & [-> | ->]); cbn; [naive_solver|]. intros [Hn2 ->]. exists b. auto.
  - intros [Hn1 ->] [Hn2 ->]. auto.
Qed.

Definition requests_of `{HeaderMapOps} `{URIOps} (ms : list Message) : list (Request bytes) :=
  ms ≫= fun m => match m with MRequest q => [q] | MResponse _ => [] end.

Definition responses_of `{HeaderMapOps} `{URIOps} (ms : list Message) : list (Response bytes) :=
  ms ≫= fun m => match m with MResponse r => [r] | MRequest _ => [] end.

Section Steps.
Context `{HeaderMapLaws} `{URIOps} `{ClockOps} {Chan OTx ORx World C CE Tx TStream M : Type}
  `{!SinkOps Chan (CSeq * Request bytes) unit} `{!SinkLaws Chan (CSeq * Request bytes) unit}
  `{!OneshotOps World OTx ORx (PendingRequestResponse ORx)}
  `{!StreamOps C (PendingRequestUpdate OTx)} `{!UnboundedOps C (PendingRequestUpdate OTx)}
  `{!StreamOps CE CodecEvent}
  `{!UnboundedOps Tx Message} `{!UnboundedLaws Tx Message} `{!TryStreamOps TStream Message ProtocolError}
  `{!UnboundedOps M Message}.

Notation FR := (ForwardingReceiver (Chan := Chan)).
Notation TReceiver := (Receiver (Chan := Chan) (OTx := OTx) (CE := CE) (Tx := Tx) (TStream := TStream)).
Notation TShared := (Shared (World := World) (C := C)).
Notation TSystem := (System (OTx := OTx) (ORx := ORx) (World := World) (C := C) (M := M)).

(** The forwarding receiver: it is handed requests while it has room, and polled; the requests it
    was handed, those it accepted, and the errors it refused the others with. *)
Inductive forwards : list (Request bytes) -> list (CSeq * Request bytes) ->
    list RequestReceiverError -> FR -> FR -> Prop :=
  | forwards_refl f : forwards [] [] [] f f
  | forwards_handle given items errors f1 f2 request r f3 :
      forwards given items errors f1 f2 -> is_full f2 = false ->
      Forwarding.handle_request request f2 = Return (r, f3) ->
      forwards (given ++ [request]) (items ++ accepted request r)
        (errors ++ match r with Err e => [e] | Ok _ => [] end) f1 f3
  | forwards_poll given items errors f1 f2 a f3 :
      forwards given items errors f1 f2 -> forwarding_poll f2 = Return (Ok a, f3) ->
      forwards given items errors f1 f3.

Lemma forwards_app given1 items1 errors1 given2 items2 errors2 f1 f2 f3 :
  forwards given1 items1 errors1 f1 f2 -> forwards given2 items2 errors2 f2 f3 ->
  forwards (given1 ++ given2) (items1 ++ items2) (errors1 ++ errors2) f1 f3.
Proof.
  intros Hf1 Hf2. induction Hf2 as [f|given items errors f2 f3 request r f4 _ IH Hfull Hh
                                    |given items errors f2 f3 a f4 _ IH Hp].
  - now rewrite !app_nil_r.
  - rewrite !app_assoc. apply (forwards_handle _ _ _ _ f3); auto.
  - apply (forwards_poll _ _ _ _ f3 a); auto.
Qed.

(** These steps are those of a run. *)
Lemma forwards_run tx n requests given items errors f f' :
  forwards given items errors f f' -> fwd_run tx n requests f -> fwd_run tx n (requests ++ items) f'.
Proof.
  intros Hf Hr. induction Hf as [f|given items errors f1 f2 request r f3 _ IH Hfull Hh
                                 |given items errors f1 f2 a f3 _ IH Hp].
  - now rewrite app_nil_r.
  - rewrite app_assoc. apply (fwd_handle tx n _ f2); auto.
  - apply (fwd_poll tx n _ f2 a); auto.
Qed.

(** Steps of the system of [Pending], with the responses they handle. *)
Inductive steps : list (Response bytes) -> TSystem -> TSystem -> Prop :=
  | steps_refl sys : steps [] sys sys
  | steps_snoc handled more sys1 sys2 sys3 :
      steps handled sys1 sys2 -> step more sys2 sys3 -> steps (handled ++ more) sys1 sys3.

Lemma steps_one more sys1 sys2 : step more sys1 sys2 -> steps more sys1 sys2.
Proof. intros Hs. apply (steps_snoc [] more sys1 sys1); [apply steps_refl|done]. Qed.

Lemma steps_app handled1 handled2 sys1 sys2 sys3 :
  steps handled1 sys1 sys2 -> steps handled2 sys2 sys3 -> steps (handled1 ++ handled2) sys1 sys3.
Proof.
  intros Hs1 Hs2. induction Hs2 as [|handled more sys2 sys3 sys4 _ IH Hstep].
  - now rewrite app_nil_r.
  - rewrite app_assoc. apply (steps_snoc _ _ _ sys3); auto.
Qed.

(** ** Effects *)

(** The response side of a receiver, with what else there is in the system. *)
Definition response_side (sh : TShared) (self : TReceiver) fs l m : TSystem :=
  mkSystem (oneshots sh) (update_channel sh) (response_receiver self) fs l m.

(** The answers to requests that are refused. *)
Definition refusal (e : RequestReceiverError) : Message :=
  MResponse match e with BadRequest => BAD_REQUEST_RESPONSE | CSeqDifferenceTooLarge => FORBIDDEN_RESPONSE end.

(** What an operation does to the parts: the requests it hands over, the errors some of them are
    refused with, the responses it handles and the answers it sends itself. *)
Record effect (given : list (Request bytes)) (errors : list RequestReceiverError)
    (handled : list (Response bytes)) (answers : list Message)
    (sh : TShared) (self : TReceiver) (sh' : TShared) (self' : TReceiver) : Prop := mkEffect {
  effect_requests :
    advanced (given = [] /\ errors = []) (fun f f' => exists items, forwards given items errors f f')
      (forwarding_receiver self) (forwarding_receiver self');
  effect_responses : forall fs l m,
    steps handled (response_side sh self fs l m) (response_side sh' self' fs l m);
  effect_answers :
    advanced (answers = []) (fun tx tx' => posted tx' = posted tx ++ answers)
      (sender_handle self) (sender_handle self');
  effect_allowed : requests_allowed self' = true -> requests_allowed self = true;
  effect_ended : response_receiver self = None -> response_receiver self' = None;
}.

(** Parts may be dropped; nothing else happens. *)
Lemma effect_drop (sh : TShared) (self self' : TReceiver) :
  forwarding_receiver self' = forwarding_receiver self \/ forwarding_receiver self' = None ->
  response_receiver self' = response_receiver self ->
  sender_handle self' = sender_handle self \/ sender_handle self' = None ->
  (requests_allowed self' = true -> requests_allowed self = true) ->
  effect [] [] [] [] sh self sh self'.
Proof.
  intros Hf Hr Hs Ha. split; [| | |done|congruence].
  - apply advanced_none; [done| |done]. intros f. exists []. apply forwards_refl.
  - intros fs l m. unfold response_side. rewrite Hr. apply steps_refl.
  - apply advanced_none; [done| |done]. intros tx. now rewrite app_nil_r.
Qed.

Lemma effect_trans given1 errors1 handled1 answers1 given2 errors2 handled2 answers2
    (sh1 sh2 sh3 : TShared) (self1 self2 self3 : TReceiver) :
  effect given1 errors1 handled1 answers1 sh1 self1 sh2 self2 ->
  effect given2 errors2 handled2 answers2 sh2 self2 sh3 self3 ->
  effect (given1 ++ given2) (errors1 ++ errors2) (handled1 ++ handled2) (answers1 ++ answers2)
    sh1 self1 sh3 self3.
Proof.
  intros [Hf1 Hr1 Hs1 Ha1 He1] [Hf2 Hr2 Hs2 Ha2 He2]. split; [| | |auto|auto].
  - revert Hf1 Hf2. apply advanced_trans.
    + now intros [-> ->] [-> ->].
    + intros f1 f2 f3 (items1 & H1') (items2 & H2'). exists (items1 ++ items2).
      exact (forwards_app _ _ _ _ _ _ _ _ _ H1' H2').
    + intros f1 f2 Hf (-> & ->). now rewrite !app_nil_r.
  - intros fs l m. exact (steps_app _ _ _ _ _ (Hr1 fs l m) (Hr2 fs l m)).
  - revert Hs1 Hs2. apply advanced_trans.
    + now intros -> ->.
    + intros tx1 tx2 tx3 E1 E2. now rewrite E2, E1, app_assoc.
    + intros tx1 tx2 E1 ->. now rewrite app_nil_r.
Qed.

(** An effect after one of dropping only, and before one. *)
Lemma effect_after given errors handled answers (sh1 sh2 sh3 : TShared) (self1 self2 self3 : TReceiver) :
  effect [] [] [] [] sh1 self1 sh2 self2 -> effect given errors handled answers sh2 self2 sh3 self3 ->
  effect given errors handled answers sh1 self1 sh3 self3.
Proof. exact (effect_trans [] [] [] [] given errors handled answers _ _ _ _ _ _). Qed.

Lemma effect_before given errors handled answers (sh1 sh2 sh3 : TShared) (self1 self2 self3 : TReceiver) :
  effect given errors handled answers sh1 self1 sh2 self2 -> effect [] [] [] [] sh2 self2 sh3 self3 ->
  effect given errors handled answers sh1 self1 sh3 self3.
Proof.
  intros H1' H2'. pose proof (effect_trans _ _ _ _ _ _ _ _ _ _ _ _ _ _ H1' H2') as H3'.
  now rewrite !app_nil_r in H3'.
Qed.

(** ** The effect of each operation *)

Lemma response_poll_effect fuel (sh : TShared) (self : TReceiver) rr r c rr' :
  response_receiver self = Some rr ->
  response_receiver_poll fuel (update_channel sh) rr = Return (r, c, rr') ->
  effect [] [] [] [] sh self (mkShared (oneshots sh) c) (set_response_receiver (Some rr') self).
Proof.
  intros Hrr Hp. destruct (effect_drop sh self self) as [Hf _ Hs Ha _]; auto.
  split; [exact Hf| |exact Hs|exact Ha|congruence]. intros fs l m. apply steps_one. unfold response_side. cbn.
  rewrite Hrr. exact (step_updates fuel _ _ _ _ _ _ _ _ _ Hp).
Qed.

(** What an operation leaves of the stream. *)
Notation stream_kept self self' := (stream self' = stream self \/ stream self' = None).

Lemma shutdown_response_effect fuel (sh : TShared) (self : TReceiver) :
  ends True (fun '(_, sh', self') => effect [] [] [] [] sh self sh' self' /\ stream_kept self self')
    (receiver_shutdown_response (ORx := ORx) fuel sh self).
Proof.
  unfold receiver_shutdown_response.
  eapply ends_bind with (Q := fun sh' => effect [] [] [] [] sh self sh' (set_response_receiver None self)).
  - destruct (response_receiver self) as [rr|] eqn:Err.
    + destruct (response_receiver_drop fuel (oneshots sh) (update_channel sh) rr) as [[w c]|] eqn:Ed; [|done].
      cbn. destruct (effect_drop sh self self) as [Hf _ Hs Ha _]; auto.
      split; [exact Hf| |exact Hs|exact Ha|done]. intros fs l m. apply steps_one. unfold response_side. cbn.
      rewrite Err. exact (step_receiver_drop fuel _ _ _ _ _ _ _ _ Ed).
    + apply effect_drop; auto.
  - intros sh' He. unfold is_request_receiver_shutdown. cbn.
    destruct (negb (requests_allowed self)); cbn; (split; [|auto]); [|done].
    eapply effect_before; [exact He|]. apply effect_drop; auto.
Qed.

Lemma shutdown_request_effect (sh : TShared) (self : TReceiver) :
  let '(_, self') := receiver_shutdown_request self in
  effect [] [] [] [] sh self sh self' /\ stream_kept self self'.
Proof.
  unfold receiver_shutdown_request, is_response_receiver_shutdown.
  cbn [response_receiver set_requests_allowed].
  destruct (is_some (response_receiver self)); cbn;
    destruct (forwarding_receiver self) as [f|] eqn:Ef; cbn; [destruct (has_requests_ready f)| |
      destruct (has_requests_ready f)|]; cbn;
    (split; [apply effect_drop; cbn; rewrite ?Ef; auto; discriminate|auto]).
Qed.

Lemma shutdown_receiving_effect fuel (sh : TShared) (self : TReceiver) :
  ends True (fun '(_, sh', self') => effect [] [] [] [] sh self sh' self' /\ stream_kept self self')
    (receiver_shutdown_receiving (ORx := ORx) fuel sh self).
Proof.
  unfold receiver_shutdown_receiving. pose proof (shutdown_request_effect sh self) as Hs.
  destruct (receiver_shutdown_request self) as [b self1]. destruct Hs as [He Hk].
  eapply ends_mono; [apply shutdown_response_effect|]. intros [[b' sh'] self'] [He' Hk'].
  split; [exact (effect_after _ _ _ _ _ _ _ _ _ _ He He')|]. destruct Hk' as [-> | ->]; auto.
Qed.

(** Events only set and clear the timer. *)
Lemma codec_events_effect fuel env (sh : TShared) (self : TReceiver) :
  ends True (fun self' => effect [] [] [] [] sh self sh self' /\ stream self' = stream self)
    (poll_codec_events fuel env self).
Proof.
  revert self. induction fuel as [|fuel IH]; intros self; [done|]. cbn [poll_codec_events].
  destruct (stream_poll (rx_codec_event self)) as [[[event|]|] c]; [|done|].
  - eapply ends_bind with (Q := fun self' => effect [] [] [] [] sh self sh self' /\ stream self' = stream self).
    + destruct event; try (split; [apply effect_drop|]; auto; fail).
      cbn. unfold delay_after. destruct (instant_add _ _); [|done]. split; [apply effect_drop|]; auto.
    + intros self1 [He1 Hs1]. eapply ends_mono; [apply IH|]. intros self2 [He2 Hs2].
      split; [exact (effect_after _ _ _ _ _ _ _ _ _ _ He1 He2)|congruence].
  - split; [apply effect_drop|]; auto.
Qed.

Lemma send_message_effect message tx (sh : TShared) (self : TReceiver) :
  sender_handle self = Some tx ->
  ends True (fun self' => effect [] [] [] [message] sh self sh self' /\ stream self' = stream self
      /\ requests_allowed self' = requests_allowed self
      /\ response_receiver self' = response_receiver self /\ is_some (sender_handle self') = true)
    (send_message message tx self).
Proof.
  intros Htx. unfold send_message. pose proof (posted_unbounded_send tx message) as Hp.
  destruct (unbounded_send tx message) as [[] tx']; [|done]. cbn. split; [|done].
  destruct (effect_drop sh self self) as [Hf Hr _ Ha He]; auto. split; [exact Hf|exact Hr| |exact Ha|exact He].
  exact (advanced_some _ _ _ tx tx' Htx Hp).
Qed.

(** What the receiver answers to an error of the decoder. *)
Definition error_answer (self : TReceiver) (e : option ProtocolError) : list Message :=
  match sender_handle self, e ≫= protocol_error_response with
  | Some _, Some response => [MResponse response]
  | _, _ => []
  end.

Lemma handle_protocol_error_effect error (sh : TShared) (self : TReceiver) :
  ends True (fun self' => effect [] [] [] (error_answer self (Some error)) sh self sh self'
      /\ stream self' = stream self)
    (handle_protocol_error error self).
Proof.
  unfold handle_protocol_error, error_answer. change (Some error ≫= protocol_error_response) with (protocol_error_response error).
  destruct (sender_handle self) as [tx|] eqn:Etx.
  2:{ cbn. split; [apply effect_drop|]; auto. }
  destruct (protocol_error_response error) as [response|].
  - eapply ends_mono; [exact (send_message_effect (MResponse response) tx sh self Etx)|]. now intros self' (? & ? & _).
  - cbn. split; [apply effect_drop|]; auto.
Qed.

Lemma handle_request_receiver_error_effect error (sh : TShared) (self : TReceiver) :
  ends True (fun self' => effect [] [] [] [refusal error] sh self sh self' /\ stream self' = stream self
      /\ requests_allowed self' = requests_allowed self
      /\ response_receiver self' = response_receiver self /\ is_some (sender_handle self') = true)
    (handle_request_receiver_error error self).
Proof.
  unfold handle_request_receiver_error. destruct (sender_handle self) as [tx|] eqn:Etx; [|done].
  replace (MResponse _) with (refusal error) by (now destruct error).
  now apply send_message_effect.
Qed.

(** The parts that a message does not touch, and the part that it does. *)
Lemma handle_message_effect message (sh : TShared) (self : TReceiver) :
  forwarding_is_full self = false ->
  ends True (fun '(r, sh', self') =>
      effect (if requests_allowed self then requests_of [message] else [])
        (match r with Err e => [e] | Ok _ => [] end)
        (if response_receiver self then responses_of [message] else []) [] sh self sh' self'
      /\ stream self' = stream self /\ requests_allowed self' = requests_allowed self
      /\ is_some (response_receiver self') = is_some (response_receiver self)
      /\ is_some (sender_handle self') = is_some (sender_handle self))
    (handle_message (ORx := ORx) message sh self).
Proof.
  intros Hfull. assert (He : effect [] [] [] [] sh self sh self) by (apply effect_drop; auto).
  pose proof He as [Hf Hr Hs Ha He'].
  unfold handle_message. destruct message as [request|response]; cbn [requests_of responses_of mbind list_bind app].
  - destruct (requests_allowed self) eqn:Ea; [|cbn; rewrite Ea; destruct (response_receiver self); now split].
    unfold forwarding_is_full in Hfull. destruct (forwarding_receiver self) as [f|] eqn:Ef; [|done].
    destruct (Forwarding.handle_request request f) as [[r f']|] eqn:Eh; [|done]. cbn [outcome_bind ends].
    split; [|now repeat split].
    assert (Hresp : (if response_receiver self then @nil (Response bytes) else []) = [])
      by now destruct (response_receiver self).
    rewrite Hresp. split; [|exact Hr|exact Hs|now intros|exact He'].
    apply (advanced_some _ _ _ f f'); [done|]. exists (accepted request r).
    exact (forwards_handle [] [] [] f f request r f' (forwards_refl f) Hfull Eh).
  - replace (if requests_allowed self then [] else []) with (@nil (Request bytes)) by now destruct (requests_allowed self).
    destruct (response_receiver self) as [rr|] eqn:Err; [|cbn; rewrite Err; now split].
    destruct (handle_response response (oneshots sh) rr) as [[w rr']|] eqn:Eh; [|done]. cbn.
    split; [|now repeat split]. split; [exact Hf| |exact Hs|exact Ha|congruence].
    intros fs l m. apply steps_one. unfold response_side. cbn. rewrite Err. exact (step_response _ _ _ _ _ _ _ _ _ Eh).
Qed.

(** ** The effect of reading *)

(** The messages [ms] are read and handled, and then an error if there is one: requests as long as
    they are allowed, responses as long as there is a receiver for them; every refused request is
    answered. *)
Definition read_effect (ms : list Message) (e : option ProtocolError) (sh : TShared) (self : TReceiver)
    (sh' : TShared) (self' : TReceiver) : Prop :=
  exists errors,
    effect (if requests_allowed self then requests_of ms else []) errors
      (if response_receiver self then responses_of ms else [])
      ((refusal <$> errors) ++ error_answer self e) sh self sh' self'.

Lemma read_effect_none (sh : TShared) (self self' : TReceiver) :
  effect [] [] [] [] sh self sh self' -> read_effect [] None sh self sh self'.
Proof.
  intros He. exists []. unfold error_answer. cbn.
  destruct (requests_allowed self), (response_receiver self), (sender_handle self); exact He.
Qed.

Lemma requests_of_cons m ms : requests_of (m :: ms) = requests_of [m] ++ requests_of ms.
Proof. unfold requests_of. now rewrite (bind_app _ [m] ms). Qed.

Lemma responses_of_cons m ms : responses_of (m :: ms) = responses_of [m] ++ responses_of ms.
Proof. unfold responses_of. now rewrite (bind_app _ [m] ms). Qed.

(** A message, the answer if it is refused, and the rest. *)
Lemma read_effect_cons message (r : Result unit RequestReceiverError) ms e (sh sh1 sh3 : TShared) (self self1 self2 self3 : TReceiver) :
  effect (if requests_allowed self then requests_of [message] else [])
    (match r with Err e => [e] | Ok _ => [] end)
    (if response_receiver self then responses_of [message] else []) [] sh self sh1 self1 ->
  effect [] [] [] (match r with Err e => [refusal e] | Ok _ => [] end) sh1 self1 sh1 self2 ->
  requests_allowed self2 = requests_allowed self ->
  is_some (response_receiver self2) = is_some (response_receiver self) ->
  is_some (sender_handle self2) = is_some (sender_handle self) ->
  read_effect ms e sh1 self2 sh3 self3 -> read_effect (message :: ms) e sh self sh3 self3.
Proof.
  intros H1' H2' Ha Hr Hs (errors & H3').
  pose proof (effect_trans _ _ _ _ _ _ _ _ _ _ _ _ _ _ H1' (effect_trans _ _ _ _ _ _ _ _ _ _ _ _ _ _ H2' H3')) as He.
  unfold read_effect. rewrite requests_of_cons, responses_of_cons.
  exists (match r with Err e => [e] | Ok _ => [] end ++ errors).
  assert (Herr : error_answer self2 e = error_answer self e).
  { unfold error_answer. destruct (sender_handle self2), (sender_handle self); done. }
  rewrite Ha, Herr in He. rewrite fmap_app, <- app_assoc.
  destruct (requests_allowed self), (response_receiver self), (response_receiver self2), r; try done; exact He.
Qed.

Lemma stream_loop_effect fuel s (sh : TShared) (self : TReceiver) :
  stream self = None ->
  ends True (fun '(r, sh', self') => exists ms s', reads s ms s'
      /\ (stream self' = Some s' \/ stream self' = None)
      /\ read_effect ms (match r with Err e => Some e | Ok _ => None end) sh self sh' self')
    (stream_loop (ORx := ORx) fuel s sh self).
Proof.
  revert s sh self. induction fuel as [|fuel IH]; intros s sh self Hs; [done|]. cbn [stream_loop].
  destruct (forwarding_is_full self) eqn:Efull.
  { exists [], s. split; [apply reads_nil|]. split; [now left|]. apply read_effect_none, effect_drop; auto. }
  destruct (try_stream_poll s) as [[[[message|]|]|error] s1] eqn:Ep.
  - eapply ends_bind; [exact (handle_message_effect message sh self Efull)|].
    intros [[r sh1] self1] (He1 & Hs1 & Ha1 & Hr1 & Ht1).
    eapply ends_bind with (Q := fun self2 =>
      effect [] [] [] (match r with Err e => [refusal e] | Ok _ => [] end) sh1 self1 sh1 self2
      /\ stream self2 = stream self1 /\ requests_allowed self2 = requests_allowed self1
      /\ response_receiver self2 = response_receiver self1
      /\ is_some (sender_handle self2) = is_some (sender_handle self1)).
    + destruct r as [[]|e]; [split; [apply effect_drop; auto|done]|].
      destruct (sender_handle self1) eqn:Et1.
      * eapply ends_mono; [apply (handle_request_receiver_error_effect e sh1)|]. intros self2 Hself2. exact Hself2.
      * unfold handle_request_receiver_error. now rewrite Et1.
    + intros self2 (He2 & Hs2 & Ha2 & Hr2 & Ht2).
      eapply ends_mono; [apply IH; congruence|]. intros [[r' sh3] self3] (ms & s' & Hreads & Hs' & He3).
      exists (message :: ms), s'. split; [exact (reads_item _ _ _ _ _ Ep Hreads)|]. split; [done|].
      refine (read_effect_cons message r _ _ sh sh1 sh3 self self1 self2 self3 He1 He2 _ _ _ He3); congruence.
  - exists [], s. split; [apply reads_nil|]. split; [now right|]. apply read_effect_none, effect_drop; auto.
  - exists [], s1. split; [exact (reads_wait _ _ _ _ Ep (reads_nil s1))|]. split; [now left|].
    apply read_effect_none, effect_drop; auto.
  - eapply ends_bind; [apply (handle_protocol_error_effect error sh)|]. intros self1 [He1 Hs1]. cbn.
    exists [], s. split; [apply reads_nil|]. split; [right; congruence|]. exists []. cbn.
    destruct (requests_allowed self), (response_receiver self); exact He1.
Qed.

Definition stream_advanced (ms : list Message) (self self' : TReceiver) : Prop :=
  advanced (ms = []) (fun s s' => reads s ms s') (stream self) (stream self').

Lemma poll_stream_effect fuel (sh : TShared) (self : TReceiver) :
  ends True (fun '(r, sh', self') => exists ms, stream_advanced ms self self'
      /\ read_effect ms (match r with Err e => Some e | Ok _ => None end) sh self sh' self')
    (poll_stream (ORx := ORx) fuel sh self).
Proof.
  unfold poll_stream, stream_advanced. destruct (stream self) as [s|] eqn:Es.
  - eapply ends_mono; [now apply stream_loop_effect|]. intros [[r sh'] self'] (ms & s' & Hr & Hs' & errors & He).
    exists ms. split; [now exists s'|]. exists errors.
    apply (effect_after _ _ _ _ sh sh sh' self (set_stream None self) self'); [apply effect_drop; auto|exact He].
  - exists []. split; [now rewrite Es|]. apply read_effect_none, effect_drop; auto.
Qed.

(** ** The effect of a poll *)

(** What a poll does: it reads messages, all requests among which go to the forwarding receiver if
    they are allowed, and all responses among which are handled, unless the response receiver is
    gone; it answers every request that is refused, and the error that ends the stream. *)
Definition poll_effect (sh : TShared) (self : TReceiver) (sh' : TShared) (self' : TReceiver) : Prop :=
  exists ms errors handled answers,
    stream_advanced ms self self'
    /\ effect (if requests_allowed self then requests_of ms else []) errors handled
         ((refusal <$> errors) ++ answers) sh self sh' self'
    /\ (handled = responses_of ms \/ handled = [] /\ response_receiver self' = None)
    /\ (answers = [] \/ exists e response, protocol_error_response e = Some response
                          /\ answers = [MResponse response]).

Lemma stream_advanced_kept ms (self1 self2 self3 : TReceiver) :
  stream_advanced ms self1 self2 -> stream_kept self2 self3 -> stream_advanced ms self1 self3.
Proof.
  unfold stream_advanced, advanced. destruct (stream self1) as [s|].
  - intros (s' & Hr & Hs) Hk. exists s'. split; [done|]. destruct Hk as [-> | ->]; auto.
  - intros [Hm Hs] Hk. split; [done|]. destruct Hk as [-> | ->]; auto.
Qed.

Lemma stream_kept_advanced ms (self1 self2 self3 : TReceiver) :
  stream_kept self1 self2 -> stream_advanced ms self2 self3 -> stream_advanced ms self1 self3.
Proof.
  unfold stream_advanced, advanced. intros [-> | ->]; [done|]. intros [-> ->].
  destruct (stream self1) as [s|]; [|done]. exists s. split; [apply reads_nil|now right].
Qed.

Lemma poll_effect_before (sh sh1 sh2 : TShared) (self self1 self2 : TReceiver) :
  poll_effect sh self sh1 self1 -> effect [] [] [] [] sh1 self1 sh2 self2 -> stream_kept self1 self2 ->
  poll_effect sh self sh2 self2.
Proof.
  intros (ms & errors & handled & answers & Hs & He & Hh & Ha) He2 Hk.
  exists ms, errors, handled, answers. split; [now apply (stream_advanced_kept ms self self1)|].
  split; [now apply (effect_before _ _ _ _ sh sh1 sh2 self self1 self2)|]. split; [|done].
  destruct Hh as [Hh|[Hh Hn]]; [now left|right]. split; [done|]. exact (effect_ended _ _ _ _ _ _ _ _ He2 Hn).
Qed.

Lemma error_answer_cases (self : TReceiver) e :
  error_answer self e = [] \/ exists e' response, protocol_error_response e' = Some response
                               /\ error_answer self e = [MResponse response].
Proof.
  unfold error_answer. destruct (sender_handle self); [|now left]. destruct e as [e|]; [|now left].
  cbn. destruct (protocol_error_response e) as [response|] eqn:E; [|now left]. right. now exists e, response.
Qed.

(** The part of [poll_receiving] before the stream is read. *)
Lemma poll_responses_effect fuel (sh : TShared) (self : TReceiver) :
  ends True (fun '(sh', self') => effect [] [] [] [] sh self sh' self' /\ stream_kept self self'
      /\ requests_allowed self' = requests_allowed self)
    match response_receiver self with
    | Some rr =>
        let! (r, c, rr) := response_receiver_poll fuel (update_channel sh) rr in
        let sh := mkShared (oneshots sh) c in
        let self := set_response_receiver (Some rr) self in
        match r with
        | Ready _ =>
            let! (_, sh, self) := receiver_shutdown_response (ORx := ORx) fuel sh self in Return (sh, self)
        | NotReady => Return (sh, self)
        end
    | None => Return (sh, self)
    end.
Proof.
  destruct (response_receiver self) as [rr|] eqn:Err.
  2:{ cbn. split; [apply effect_drop|]; auto. }
  destruct (response_receiver_poll fuel (update_channel sh) rr) as [[[r c] rr']|] eqn:Ep; [|done].
  pose proof (response_poll_effect fuel sh self rr r c rr' Err Ep) as He1. cbn [outcome_bind].
  destruct r as [u|]; [|cbn; auto].
  eapply ends_bind with (Q := fun '(_, sh', self') => effect [] [] [] [] sh self sh' self'
    /\ stream_kept self self' /\ requests_allowed self' = requests_allowed self); [|now intros [[b sh'] self']].
  pose proof (shutdown_response_effect fuel (mkShared (oneshots sh) c) (set_response_receiver (Some rr') self)) as Hsr.
  unfold receiver_shutdown_response in *. cbn [response_receiver set_response_receiver] in *.
  destruct (response_receiver_drop _ _ _ _) as [[w' c']|]; [|done]. cbn [outcome_bind ends] in *.
  destruct Hsr as [He2 Hk]. split; [exact (effect_after _ _ _ _ _ _ _ _ _ _ He1 He2)|]. split; [exact Hk|].
  now destruct (is_request_receiver_shutdown _).
Qed.

Lemma poll_receiving_effect fuel env (sh : TShared) (self : TReceiver) :
  ends True (fun '(_, sh', self') => poll_effect sh self sh' self')
    (poll_receiving (ORx := ORx) fuel env sh self).
Proof.
  unfold poll_receiving. eapply ends_bind; [apply poll_responses_effect|].
  intros [sh1 self1] (He1 & Hk1 & Ha1).
  eapply ends_bind; [apply poll_stream_effect|]. intros [[r sh2] self2] (ms & Hs2 & errors & He2).
  assert (Hpoll : poll_effect sh self sh2 self2).
  { exists ms, errors, (if response_receiver self1 then responses_of ms else []),
      (error_answer self1 (match r with Err e => Some e | Ok _ => None end)).
    split; [now apply (stream_kept_advanced ms self self1)|]. rewrite Ha1 in He2.
    split; [now apply (effect_after _ _ _ _ sh sh1 sh2 self self1 self2)|].
    split; [|apply error_answer_cases]. destruct (response_receiver self1) eqn:Er; [now left|right].
    split; [done|]. exact (effect_ended _ _ _ _ _ _ _ _ He2 Er). }
  destruct r as [[u|]|e]; [exact Hpoll| |exact Hpoll].
  eapply ends_bind; [apply (codec_events_effect fuel env sh2)|]. intros self3 [He3 Hs3].
  assert (Hpoll3 : poll_effect sh self sh2 self3) by (eapply poll_effect_before; eauto).
  eapply ends_bind with (Q := fun _ => True); [now destruct (poll_decoding_timer env self3)|].
  now intros [[[]|]|] _.
Qed.

(** The last part of [receiver_poll]: the forwarding receiver is polled. *)
Lemma poll_forwarding_effect (sh : TShared) (self : TReceiver) :
  ends True (fun '(_, self') => effect [] [] [] [] sh self sh self' /\ stream_kept self self')
    match forwarding_receiver self with
    | Some f =>
        let! (r, f) := forwarding_poll f in
        let self := set_forwarding_receiver (Some f) self in
        match r with
        | Err _ => Return (receiver_shutdown_forwarding self)
        | Ok (Ready _) =>
            if is_request_receiver_shutdown self then Return (receiver_shutdown_forwarding self)
            else Return (false, self)
        | Ok NotReady => Return (false, self)
        end
    | None => Return (receiver_is_shutdown self, self)
    end.
Proof.
  destruct (forwarding_receiver self) as [f|] eqn:Ef.
  2:{ cbn. split; [apply effect_drop|]; auto. }
  destruct (forwarding_poll f) as [[r f']|] eqn:Ep; [|done]. cbn [outcome_bind].
  assert (Hok : forall a, r = Ok a -> effect [] [] [] [] sh self sh (set_forwarding_receiver (Some f') self)).
  { intros a ->. destruct (effect_drop sh self self) as [_ Hr Hs Ha He]; auto.
    split; [|exact Hr|exact Hs|exact Ha|exact He]. apply (advanced_some _ _ _ f f' Ef). exists [].
    exact (forwards_poll [] [] [] f f a f' (forwards_refl f) Ep). }
  assert (Hdown : let '(_, self') := receiver_shutdown_forwarding (set_forwarding_receiver (Some f') self) in
            effect [] [] [] [] sh self sh self' /\ stream_kept self self').
  { unfold receiver_shutdown_forwarding.
    pose proof (shutdown_request_effect sh (set_forwarding_receiver None (set_forwarding_receiver (Some f') self))) as Hs.
    destruct (receiver_shutdown_request _) as [b self']. destruct Hs as [He Hk]. split; [|exact Hk].
    refine (effect_after _ _ _ _ sh sh sh self _ self' _ He). apply effect_drop; auto. }
  destruct r as [[u|]|e].
  - destruct (is_request_receiver_shutdown _); [exact Hdown|]. split; [exact (Hok _ eq_refl)|now left].
  - split; [exact (Hok _ eq_refl)|now left].
  - exact Hdown.
Qed.

Lemma receiver_poll_effect fuel env (sh : TShared) (self : TReceiver) :
  ends True (fun '(_, sh', self') => poll_effect sh self sh' self')
    (receiver_poll (ORx := ORx) fuel env sh self).
Proof.
  unfold receiver_poll. eapply ends_bind; [apply poll_receiving_effect|].
  intros [[r sh1] self1] Hp1.
  eapply ends_bind with (Q := fun '(sh', self') => poll_effect sh self sh' self').
  - destruct r as [u|]; [|exact Hp1]. eapply ends_bind; [apply shutdown_receiving_effect|].
    intros [[b sh2] self2] [He2 Hk2]. exact (poll_effect_before _ _ _ _ _ _ Hp1 He2 Hk2).
  - intros [sh2 self2] Hp2. eapply ends_bind; [apply (poll_forwarding_effect sh2)|].
    intros [b self3] [He3 Hk3]. cbn. exact (poll_effect_before _ _ _ _ _ _ Hp2 He3 Hk3).
Qed.

(** ** Properties *)

(** C5: A poll of the receiver does what its parts promise, and nothing else. It reads messages from the
    stream in order. While requests are allowed, all requests among them are handed to the forwarding
    receiver, which is only called when it has room, so that its debug assertion holds; it answers
    every request that is refused, in order, and at most one error of the decoder after them. The
    responses among the messages are handled, all of them or, when there is no receiver for them any
    more, none; apart from that, the futures of the requests only see steps of the system of
    [Pending]. Requests that are not allowed stay so. *)
Theorem receiver_poll_steps fuel env (sh : TShared) (self : TReceiver) a sh' self' :
  receiver_poll (ORx := ORx) fuel env sh self = Return (a, sh', self') ->
  exists ms errors handled answers,
    advanced (ms = []) (fun s s' => reads s ms s') (stream self) (stream self')
    /\ (forall f', forwarding_receiver self' = Some f' ->
         exists f items, forwarding_receiver self = Some f
           /\ forwards (if requests_allowed self then requests_of ms else []) items errors f f')
    /\ (forall fs l m, steps handled (response_side sh self fs l m) (response_side sh' self' fs l m))
    /\ (handled = responses_of ms \/ handled = [] /\ response_receiver self' = None)
    /\ (forall tx', sender_handle self' = Some tx' ->
         exists tx, sender_handle self = Some tx /\ posted tx' = posted tx ++ (refusal <$> errors) ++ answers)
    /\ (answers = [] \/ exists e response, protocol_error_response e = Some response
                          /\ answers = [MResponse response])
    /\ (requests_allowed self' = true -> requests_allowed self = true).
Proof.
  intros Hp. pose proof (receiver_poll_effect fuel env sh self) as He. rewrite Hp in He.
  destruct He as (ms & errors & handled & answers & Hs & [Hf Hr Ha Hal _] & Hh & Hans).
  exists ms, errors, handled, answers. split; [exact Hs|]. split.
  { intros f' Ef. rewrite Ef in Hf. unfold advanced in Hf. destruct (forwarding_receiver self) as [f|]; [|now destruct Hf].
    destruct Hf as (f1 & (items & Hforw) & [[= ->]|?]); [|done]. now exists f, items. }
  split; [exact Hr|]. split; [exact Hh|]. split; [|now split].
  intros tx' Etx. rewrite Etx in Ha. unfold advanced in Ha. destruct (sender_handle self) as [tx|]; [|now destruct Ha].
  destruct Ha as (tx1 & Hpost & [[= ->]|?]); [|done]. now exists tx.
Qed.
End Steps.
