(* ===== verification/Connection.v ===== *)
(** * The connection

    Model of [rtsp-2/src/protocol/connection/mod.rs]: the task that polls the receiver, the sender
    and the shutdown handler, and decides when the connection is over. It is proved against an
    interface of its two parts, of which the receiver and the sender of this library are an
    instance. *)

From Stdlib Require Import Strings.Byte.
From stdpp Require Import base list numbers gmap strings.
From S2P Require Import Prelude Text Version Method HeaderName HeaderValue HeaderMap CSeq.
From S2P Require Import Status Request Response Codec Futures Forwarding Pending Shutdown Sender Receiver.

Local Open Scope rust_scope.

(** What the connection asks of its parts: [R] is a receiver, [S] a sender, [W] what they share with
    other tasks, and [E] the environment of one call. Dropping a receiver has effects, so that it
    is an operation. *)
Class ConnectionParts (E W R S : Type) := {
  part_receiver_poll : E -> W -> R -> Outcome (Async unit * W * R);
  part_shutdown_request_receiver : R -> bool * R;
  part_is_response_receiver_shutdown : R -> bool;
  part_receiver_drop : E -> W -> R -> Outcome W;
  part_sender_poll : E -> S -> Outcome (bool * S);
}.

Section Connection.
Context `{ClockOps} {E W R S HRx Rx Tx : Type} `{!ConnectionParts E W R S}.

Record Connection := mkConnection {
  allow_requests : bool;
  receiver : option R;
  rx_handler_shutdown_event : option HRx;
  sender : option S;
  shutdown : ShutdownHandler Rx Tx;
}.

(** [with_config], from the parts it makes. *)
Definition connection_new (receiver : R) (rx_handler_shutdown_event : option HRx) (sender : S)
    (rx_initiate_shutdown : Rx) (tx_connection_shutdown_event : Tx) : Connection :=
  mkConnection true (Some receiver) rx_handler_shutdown_event (Some sender)
    (shutdown_new rx_initiate_shutdown tx_connection_shutdown_event).

(** The answers of one call: those of the parts, of the shutdown handler, and whether the event of
    the request handler has come (or its sender is gone). *)
Record ConnEnv := mkConnEnv {
  parts_env : E;
  shutdown_env : Shutdown.Env Rx;
  handler_is_shutdown : HRx -> bool;
}.

Definition is_receiver_shutdown (self : Connection) : bool := negb (is_some (receiver self)).
Definition is_sender_shutdown (self : Connection) : bool := negb (is_some (sender self)).
Definition is_shutdown (self : Connection) : bool := is_receiver_shutdown self && is_sender_shutdown self.

Definition set_receiver (r : option R) (self : Connection) : Connection :=
  mkConnection (allow_requests self) r (rx_handler_shutdown_event self) (sender self) (shutdown self).
Definition set_sender (s : option S) (self : Connection) : Connection :=
  mkConnection (allow_requests self) (receiver self) (rx_handler_shutdown_event self) s (shutdown self).
Definition set_shutdown (h : ShutdownHandler Rx Tx) (self : Connection) : Connection :=
  mkConnection (allow_requests self) (receiver self) (rx_handler_shutdown_event self) (sender self) h.
Definition disallow_requests (self : Connection) : Connection :=
  mkConnection false (receiver self) (rx_handler_shutdown_event self) (sender self) (shutdown self).

(** [shutdown_receiver]: the assignment drops the receiver. *)
Definition shutdown_receiver (env : ConnEnv) (w : W) (self : Connection) : Outcome (W * Connection) :=
  let! w :=
    match receiver self with
    | Some r => part_receiver_drop (parts_env env) w r
    | None => Return w
    end in
  Return (w, set_receiver None self).

Definition shutdown_sender (self : Connection) : Connection := set_sender None self.

(** [shutdown_request_receiver]. *)
Definition shutdown_request_receiver (env : ConnEnv) (w : W) (self : Connection) :
    Outcome (W * Connection) :=
  match receiver self with
  | Some r =>
      let '(done, r) := part_shutdown_request_receiver r in
      let self := set_receiver (Some r) self in
      if done : bool then shutdown_receiver env w self else Return (w, self)
  | None => Return (w, self)
  end.

(** [poll_receiver]. *)
Definition poll_receiver (env : ConnEnv) (w : W) (self : Connection) : Outcome (W * Connection) :=
  match receiver self with
  | Some r =>
      let! (a, w, r) := part_receiver_poll (parts_env env) w r in
      let self := set_receiver (Some r) self in
      match a with
      | Ready _ => shutdown_receiver env w self
      | NotReady => Return (w, self)
      end
  | None => Return (w, self)
  end.

(** [poll_request_handler_shutdown]. *)
Definition poll_request_handler_shutdown (env : ConnEnv) (self : Connection) : Connection :=
  if is_receiver_shutdown self then
    match rx_handler_shutdown_event self with
    | Some rx => if handler_is_shutdown env rx then shutdown_sender self else self
    | None => self
    end
  else self.

(** [poll_sender]. *)
Definition poll_sender (env : ConnEnv) (w : W) (self : Connection) : Outcome (W * Connection) :=
  match sender self with
  | Some s =>
      let! (done, s) := part_sender_poll (parts_env env) s in
      let self := set_sender (Some s) self in
      if done : bool then
        let! (w, self) := shutdown_request_receiver env w self in
        Return (w, shutdown_sender self)
      else Return (w, self)
  | None => Return (w, self)
  end.

(** The end of [poll]: both halves may be gone by now. *)
Definition finish_poll (env : ConnEnv) (w : W) (events : list Tx) (self : Connection) :
    Outcome (Async unit * W * Connection * list Tx) :=
  if is_shutdown self then
    let! (h, events') := force_shutdown (shutdown_env env) (shutdown self) in
    Return (Ready tt, w, set_shutdown h self, events ++ events')
  else Return (NotReady, w, self, events).

(** [Future::poll], with the shutdown events it sends. *)
Definition connection_poll (env : ConnEnv) (w : W) (self : Connection) :
    Outcome (Async unit * W * Connection * list Tx) :=
  let! (w, self) := poll_receiver env w self in
  let! (w, self) := poll_sender env w self in
  let! (_, h, events) := shutdown_poll (shutdown_env env) (shutdown self) in
  let self := set_shutdown h self in
  let! s := state (shutdown self) in
  match s with
  | Running =>
      let allow_responses :=
        match receiver self with
        | Some r => negb (part_is_response_receiver_shutdown r)
        | None => false
        end in
      let self :=
        if negb allow_responses || is_sender_shutdown self then disallow_requests self else self in
      finish_poll env w events (poll_request_handler_shutdown env self)
  | ShuttingDown =>
      let! (w, self) := shutdown_request_receiver env w self in
      finish_poll env w events (disallow_requests self)
  | Shutdown =>
      let! (w, self) := shutdown_receiver env w self in
      Return (Ready tt, w, disallow_requests (shutdown_sender self), events)
  end.
End Connection.
Arguments Connection {_} R S HRx Rx Tx.
Arguments ConnEnv {_} E HRx Rx.

(** ** The parts of this library *)

(** What one call of the receiver and of the sender of this library is given: the time, the date, and
    a number of turns for their loops. *)
Record PartsEnv `{ClockOps} (Date : Type) := mkPartsEnv {
  parts_fuel : nat;
  parts_time : TimeEnv;
  parts_date : Date;
}.
Arguments mkPartsEnv {_ _} parts_fuel parts_time parts_date.
Arguments parts_fuel {_ _} _.
Arguments parts_time {_ _} _.
Arguments parts_date {_ _} _.

Section Parts.
Context `{HeaderMapOps} `{URIOps} `{ClockOps} {Date : Type} `{!TypedHeader Date}
  {Chan OTx ORx World C CE Tx TStream Rx TSink : Type}
  `{!SinkOps Chan (CSeq * Request bytes) unit}
  `{!OneshotOps World OTx ORx (PendingRequestResponse ORx)}
  `{!StreamOps C (PendingRequestUpdate OTx)} `{!StreamOps CE CodecEvent}
  `{!UnboundedOps Tx Message} `{!TryStreamOps TStream Message ProtocolError}
  `{!StreamOps Rx Message} `{!SinkOps TSink Message ProtocolError} `{!FlushOps TSink ProtocolError}.

Notation TReceiver := (Receiver (Chan := Chan) (OTx := OTx) (CE := CE) (Tx := Tx) (TStream := TStream)).
Notation TShared := (Shared (World := World) (C := C)).
Notation TSender := (Sender (Rx := Rx) (TSink := TSink)).

(** Dropping the receiver: of its fields, the response receiver has a [drop] of its own. *)
Definition receiver_drop (fuel : nat) (sh : TShared) (self : TReceiver) : Outcome TShared :=
  match response_receiver self with
  | Some rr =>
      let! (w, c) := response_receiver_drop (ORx := ORx) fuel (oneshots sh) (update_channel sh) rr in
      Return (mkShared w c)
  | None => Return sh
  end.

Definition sender_poll_done (fuel : nat) (date : Date) (self : TSender) : Outcome (bool * TSender) :=
  let! (r, self) := sender_poll fuel date self in
  Return (match r with Ok NotReady => false | _ => true end, self).

#[export] Instance connection_parts : ConnectionParts (PartsEnv Date) TShared TReceiver TSender := {|
  part_receiver_poll env := receiver_poll (ORx := ORx) (parts_fuel env) (parts_time env);
  part_shutdown_request_receiver := receiver_shutdown_request;
  part_is_response_receiver_shutdown := is_response_receiver_shutdown;
  part_receiver_drop env := receiver_drop (parts_fuel env);
  part_sender_poll env := sender_poll_done (parts_fuel env) (parts_date env);
|}.
End Parts.

(** ** What the connection promises *)

(** What its parts promise: a receiver that does not receive requests never does again, and asking
    it to stop makes it so. *)
Class ConnectionLaws (E W R S : Type) `{!ConnectionParts E W R S} := {
  part_allows_requests : R -> bool;
  part_shutdown_request_allows (r : R) :
    part_allows_requests (snd (part_shutdown_request_receiver r)) = false;
  part_receiver_poll_allows (env : E) (w : W) (r : R) a w' r' :
    part_receiver_poll env w r = Return (a, w', r') ->
    part_allows_requests r' = true -> part_allows_requests r = true;
}.

Section ConnectionSpec.
Context `{ClockOps} {E W R S HRx Rx Tx : Type} `{!ConnectionParts E W R S} `{!ConnectionLaws E W R S}.

Notation TConnection := (Connection R S HRx Rx Tx).
Notation TEnv := (ConnEnv E HRx Rx).

(** A connection that cannot send does not receive requests, which it could not answer. *)
Definition no_unanswerable (self : TConnection) : Prop :=
  sender self = None -> forall r, receiver self = Some r -> part_allows_requests r = false.

(** Requests are not received. *)
Definition requests_stopped (self : TConnection) : Prop :=
  forall r, receiver self = Some r -> part_allows_requests r = false.

(** What no operation on the parts of a connection changes. *)
Definition same_control (self self' : TConnection) : Prop :=
  allow_requests self' = allow_requests self /\ shutdown self' = shutdown self.

(** A panic of a connection is the panic of one of its parts. *)
Definition part_panics (env : TEnv) : Prop :=
  (exists w r, part_receiver_poll (parts_env env) w r = Panic)
  \/ (exists w r, part_receiver_drop (S := S) (parts_env env) w r = Panic)
  \/ exists s, part_sender_poll (R := R) (W := W) (parts_env env) s = Panic.

Lemma shutdown_receiver_ends env w (self : TConnection) :
  ends (part_panics env) (fun '(_, self') => self' = set_receiver None self) (shutdown_receiver env w self).
Proof.
  unfold shutdown_receiver. destruct (receiver self) as [r|]; [|done].
  destruct (part_receiver_drop (parts_env env) w r) eqn:Ed; [done|]. right. left. now exists w, r.
Qed.

(** What the steps of a poll do to the two halves: requests may stop, halves may end. *)
Definition shrinks (self self' : TConnection) : Prop :=
  same_control self self'
  /\ (is_Some (sender self') -> is_Some (sender self))
  /\ (requests_stopped self -> requests_stopped self').

Lemma shutdown_request_receiver_ends env w (self : TConnection) :
  ends (part_panics env) (fun '(_, self') => shrinks self self' /\ sender self' = sender self /\ requests_stopped self')
    (shutdown_request_receiver env w self).
Proof.
  unfold shutdown_request_receiver. destruct (receiver self) as [r|] eqn:Er; [|].
  2:{ cbn. unfold shrinks, same_control, requests_stopped. rewrite Er. naive_solver. }
  pose proof (part_shutdown_request_allows r) as Ha.
  destruct (part_shutdown_request_receiver r) as [[] r']; cbn in Ha.
  - eapply ends_mono; [apply shutdown_receiver_ends|]. intros [w' self'] ->.
    unfold shrinks, same_control, requests_stopped. cbn. naive_solver.
  - unfold shrinks, same_control, requests_stopped. cbn. naive_solver.
Qed.

Lemma poll_receiver_ends env w (self : TConnection) :
  ends (part_panics env) (fun '(_, self') => shrinks self self' /\ sender self' = sender self)
    (poll_receiver env w self).
Proof.
  unfold poll_receiver. destruct (receiver self) as [r|] eqn:Er.
  2:{ cbn. unfold shrinks, same_control. naive_solver. }
  destruct (part_receiver_poll (parts_env env) w r) as [[[[[]|] w'] r']|] eqn:Ep; cbn.
  - eapply ends_mono; [apply shutdown_receiver_ends|]. intros [w2 self'] ->.
    unfold shrinks, same_control, requests_stopped. cbn. naive_solver.
  - pose proof (part_receiver_poll_allows _ _ _ _ _ _ Ep) as Ha.
    unfold shrinks, same_control, requests_stopped. cbn. split; [|done]. split; [done|].
    split; [done|]. intros Hs r0 [= <-]. specialize (Hs r Er).
    destruct (part_allows_requests r'); [|done]. now rewrite Ha in Hs.
  - left. now exists w, r.
Qed.

Lemma poll_sender_ends env w (self : TConnection) :
  no_unanswerable self ->
  ends (part_panics env) (fun '(_, self') => shrinks self self' /\ no_unanswerable self') (poll_sender env w self).
Proof.
  intros Hn. unfold poll_sender. destruct (sender self) as [s|] eqn:Es.
  2:{ cbn. unfold shrinks, same_control. rewrite Es. naive_solver. }
  destruct (part_sender_poll (parts_env env) s) as [[[] s']|] eqn:Ep; cbn [outcome_bind].
  - eapply ends_bind; [apply shutdown_request_receiver_ends|].
    intros [w' self'] (((Ha & Hs) & Hsome & Hstop) & Hsend & Hstopped). cbn in *.
    split; [|intros _; exact Hstopped].
    split; [now split|]. split; [now intros [x Hx]|]. now intros _.
  - unfold shrinks, same_control, no_unanswerable, requests_stopped. cbn. rewrite Es. naive_solver.
  - right. right. now exists s.
Qed.

(** ** Properties *)

(** The runs of a connection, polled in any environments as long as its parts do not panic, with the
    senders of the shutdown event used so far. *)
Inductive connection_run (rx : Rx) (tx : Tx) : list Tx -> TConnection -> Prop :=
  | connection_run_new r h s :
      part_is_response_receiver_shutdown r = false ->
      connection_run rx tx [] (connection_new r h s rx tx)
  | connection_run_poll sent (self : TConnection) (env : TEnv) w a w' self' sent' :
      connection_run rx tx sent self -> good_env (shutdown_env env) ->
      connection_poll env w self = Return (a, w', self', sent') ->
      connection_run rx tx (sent ++ sent') self'.

(** What holds of a connection between its polls. *)
Definition connection_inv (rx : Rx) (tx : Tx) (s : ShutdownState) (self : TConnection) : Prop :=
  shutdown_wf rx tx s (shutdown self) /\ no_unanswerable self
  /\ (is_shutdown self = true <-> s = Shutdown)
  /\ (s = ShuttingDown -> requests_stopped self)
  /\ (allow_requests self = true ->
      s = Running /\ is_Some (sender self)
      /\ exists r, receiver self = Some r /\ part_is_response_receiver_shutdown r = false).

Lemma finish_poll_ends rx tx s sent (env : TEnv) (w : W) (self : TConnection) events :
  shutdown_wf rx tx s (shutdown self) -> no_unanswerable self -> s <> Shutdown ->
  (s = ShuttingDown -> requests_stopped self) ->
  (allow_requests self = true ->
   s = Running /\ is_Some (sender self)
   /\ exists r, receiver self = Some r /\ part_is_response_receiver_shutdown r = false) ->
  sent ++ events = events_until tx s ->
  exists a self' events', finish_poll env w events self = Return (a, w, self', events')
    /\ allow_requests self' = allow_requests self
    /\ exists s', connection_inv rx tx s' self' /\ sent ++ events' = events_until tx s'
         /\ a = (if bool_decide (s' = Shutdown) then Ready tt else NotReady)
         /\ (s' = Shutdown \/ s' = s).
Proof.
  intros Hwf Hn Hs Hstop Ha Hsent. unfold finish_poll.
  destruct (is_shutdown self) eqn:Ei.
  - rewrite (force_shutdown_step (shutdown_env env) rx tx s) by done. cbn [outcome_bind].
    eexists _, _, _. split; [reflexivity|]. split; [done|]. exists Shutdown.
    split.
    + split; [constructor|]. split; [done|]. split; [split; [done|now intros _]|]. split; [done|].
      intros (_ & [x Hx] & _)%Ha. exfalso. revert Ei. unfold is_shutdown, is_sender_shutdown.
      rewrite Hx, Bool.andb_false_r. done.
    + split; [|split; [done|now left]]. rewrite app_assoc, Hsent. now apply events_until_app.
  - eexists _, _, _. split; [reflexivity|]. split; [done|]. exists s.
    split; [|split; [done|split; [now rewrite bool_decide_false|now right]]].
    split; [done|]. split; [done|]. split; [|done]. rewrite Ei. now split.
Qed.

Lemma next_state_progress (env : Shutdown.Env Rx) rx tx s (self : ShutdownHandler Rx Tx) :
  shutdown_wf rx tx s self -> (progress s <= progress (fst (next_state env rx s (timer self))))%nat.
Proof. destruct 1; cbn; try lia; unfold after_timer; destruct (expired env t); cbn; lia. Qed.

(** The part of a poll for a connection that is running. *)
Definition poll_running_part (env : TEnv) (self : TConnection) : TConnection :=
  let allow_responses :=
    match receiver self with
    | Some r => negb (part_is_response_receiver_shutdown r)
    | None => false
    end in
  let self := if negb allow_responses || is_sender_shutdown self then disallow_requests self else self in
  poll_request_handler_shutdown env self.

Lemma poll_running_part_spec env (self : TConnection) :
  let self' := poll_running_part env self in
  receiver self' = receiver self /\ shutdown self' = shutdown self
  /\ (sender self' = sender self \/ receiver self = None)
  /\ (allow_requests self' = true ->
      allow_requests self = true /\ is_Some (sender self')
      /\ exists r, receiver self' = Some r /\ part_is_response_receiver_shutdown r = false).
Proof.
  unfold poll_running_part, poll_request_handler_shutdown, is_receiver_shutdown, is_sender_shutdown.
  destruct self as [al [r|] x sn sh]; cbn.
  - destruct (part_is_response_receiver_shutdown r) eqn:Er, sn; cbn; naive_solver.
  - destruct x as [x|]; cbn; [destruct (handler_is_shutdown env x)|]; cbn; naive_solver.
Qed.

(** One poll of a connection, from its invariant. *)
Lemma connection_poll_ends rx tx s sent (env : TEnv) (w : W) (self : TConnection) :
  connection_inv rx tx s self -> sent = events_until tx s -> good_env (shutdown_env env) ->
  ends (part_panics env)
    (fun '(a, _, self', sent') => exists s',
       connection_inv rx tx s' self' /\ sent ++ sent' = events_until tx s'
       /\ a = (if bool_decide (s' = Shutdown) then Ready tt else NotReady)
       /\ (progress s <= progress s')%nat
       /\ (allow_requests self' = true -> allow_requests self = true))
    (connection_poll env w self).
Proof.
  intros (Hwf & Hn & _ & Hstop & Ha) Hsent Henv. unfold connection_poll.
  eapply ends_bind; [apply poll_receiver_ends|]. intros [w1 self1] (((Ha1 & Hs1) & Hsome1 & Hstop1) & Hsend1).
  assert (Hn1 : no_unanswerable self1).
  { intros Hnone. rewrite Hsend1 in Hnone. exact (Hstop1 (Hn Hnone)). }
  eapply ends_bind; [now apply poll_sender_ends|]. intros [w2 self2] (((Ha2 & Hs2) & Hsome2 & Hstop2) & Hn2).
  rewrite Hs2, Hs1.
  destruct (shutdown_poll_step (shutdown_env env) rx tx s (shutdown self) Henv Hwf) as (h & -> & _ & Hwf').
  pose proof (next_state_progress (shutdown_env env) rx tx s (shutdown self) Hwf) as Hp.
  cbn [outcome_bind].
  assert (Hev : sent ++ event tx s (fst (next_state (shutdown_env env) rx s (timer (shutdown self))))
                = events_until tx (fst (next_state (shutdown_env env) rx s (timer (shutdown self))))).
  { rewrite Hsent. apply events_until_app. now intros ->. }
  revert Hwf' Hp Hev.
  generalize (fst (next_state (shutdown_env env) rx s (timer (shutdown self)))).
  intros s' Hwf' Hp Hev. cbn [shutdown set_shutdown]. rewrite (shutdown_wf_state _ _ _ _ Hwf').
  cbn [outcome_bind]. destruct s'.
  - fold (poll_running_part env (set_shutdown h self2)).
    destruct (poll_running_part_spec env (set_shutdown h self2)) as (Hr4 & Hh4 & Hs4 & Ha4).
    destruct (finish_poll_ends rx tx Running sent env w2 (poll_running_part env (set_shutdown h self2))
                (event tx s Running)) as (a & self' & events' & -> & Ha5 & s' & Hinv & Hev' & -> & Hs');
      [now rewrite Hh4| |done|done| |done|].
    + intros Hnone r Hr. rewrite Hr4 in Hr. destruct Hs4 as [Hs4|Hs4]; [|congruence].
      rewrite Hs4 in Hnone. now apply Hn2.
    + intros (_ & Hrest)%Ha4. now split.
    + exists s'. split; [done|]. split; [done|]. split; [done|]. split.
      * destruct Hs' as [->| ->]; cbn in *; destruct s; cbn in *; lia.
      * rewrite Ha5. intros (Hal & _)%Ha4. cbn in Hal. now rewrite <- Ha1, <- Ha2.
  - eapply ends_bind; [apply shutdown_receiver_ends|]. intros [w3 self3] ->. cbn.
    exists Shutdown. split; [|done]. split; [exact Hwf'|]. split; [done|].
    split; [split; [done|now intros _]|]. now split.
  - eapply ends_bind; [apply shutdown_request_receiver_ends|].
    intros [w3 self3] (((Ha3 & Hs3) & Hsome3 & _) & Hsend3 & Hstopped).
    destruct (finish_poll_ends rx tx ShuttingDown sent env w3 (disallow_requests self3)
                (event tx s ShuttingDown)) as (a & self' & events' & -> & Ha5 & s' & Hinv & Hev' & -> & Hs');
      [now cbn; rewrite Hs3|intros _; exact Hstopped|done|intros _; exact Hstopped|done|done|].
    exists s'. split; [done|]. split; [done|]. split; [done|]. split.
    + destruct Hs' as [->| ->]; cbn in *; destruct s; cbn in *; lia.
    + now rewrite Ha5.
Qed.

Lemma connection_run_inv rx tx sent (self : TConnection) :
  connection_run rx tx sent self ->
  exists s, connection_inv rx tx s self /\ sent = events_until tx s.
Proof.
  induction 1 as [r h s Hr|sent self env w a w' self' sent' _ (s & Hinv & Hs) Henv Hp].
  - exists Running. split; [|done]. split; [constructor|]. do 3 (split; [done|]).
    intros _. split; [done|]. split; [now eexists|]. now exists r.
  - pose proof (connection_poll_ends rx tx s sent env w self Hinv Hs Henv) as He.
    rewrite Hp in He. cbn in He. naive_solver.
Qed.

(** C17: The life of a connection. A poll panics only where one of its parts does. Otherwise the
    connection is in one of the three states of its shutdown handler, which it never leaves
    backwards. It is ready exactly in the final state, which is exactly when both its halves are
    gone, and by then it has signalled its end exactly once, and not before. While it shuts down, and
    once it cannot send, it receives no requests. Its own requests are allowed only while it runs,
    can send and receives responses, and never again once they were disallowed. *)
Theorem connection_lifecycle rx tx sent (self : TConnection) (env : TEnv) (w : W) :
  connection_run rx tx sent self -> good_env (shutdown_env env) ->
  match connection_poll env w self with
  | Panic => part_panics env
  | Return (a, _, self', sent') =>
      exists s s', state (shutdown self) = Return s /\ state (shutdown self') = Return s'
        /\ (progress s <= progress s')%nat
        /\ (a = Ready tt <-> s' = Shutdown)
        /\ (is_shutdown self' = true <-> s' = Shutdown)
        /\ sent ++ sent' = events_until tx s'
        /\ (s' = ShuttingDown \/ sender self' = None -> requests_stopped self')
        /\ (allow_requests self' = true ->
            allow_requests self = true /\ s' = Running /\ is_Some (sender self')
            /\ exists r, receiver self' = Some r /\ part_is_response_receiver_shutdown r = false)
  end.
Proof.
  intros (s & Hinv & Hs)%connection_run_inv Henv.
  pose proof (connection_poll_ends rx tx s sent env w self Hinv Hs Henv) as He.
  destruct (connection_poll env w self) as [[[[a w'] self'] sent']|]; [|exact He].
  destruct He as (s' & (Hwf & Hn & Hiff & Hstop & Ha) & Hev & -> & Hp & Hmono).
  exists s, s'. split; [exact (shutdown_wf_state _ _ _ _ (proj1 Hinv))|].
  split; [exact (shutdown_wf_state _ _ _ _ Hwf)|]. split; [done|].
  split; [case_bool_decide; naive_solver|]. do 2 (split; [done|]). split.
  - intros [Hs'|Hs']; [now apply Hstop|exact (Hn Hs')].
  - intros Ht. split; [now apply Hmono|now apply Ha].
Qed.
End ConnectionSpec.

(** The receiver and the sender of this library keep the promises. *)
Section PartsLaws.
Context `{HeaderMapLaws} `{URIOps} `{ClockOps} {Date : Type} `{!TypedHeader Date}
  {Chan OTx ORx World C CE Tx TStream Rx TSink : Type}
  `{!SinkOps Chan (CSeq * Request bytes) unit} `{!SinkLaws Chan (CSeq * Request bytes) unit}
  `{!OneshotOps World OTx ORx (PendingRequestResponse ORx)}
  `{!StreamOps C (PendingRequestUpdate OTx)} `{!StreamOps CE CodecEvent}
  `{!UnboundedOps Tx Message} `{!TryStreamOps TStream Message ProtocolError}
  `{!StreamOps Rx Message} `{!SinkOps TSink Message ProtocolError} `{!FlushOps TSink ProtocolError}.

#[export] Program Instance connection_parts_laws :
  ConnectionLaws (PartsEnv Date) (Shared (World := World) (C := C))
    (Receiver (Chan := Chan) (OTx := OTx) (CE := CE) (Tx := Tx) (TStream := TStream))
    (Sender (Rx := Rx) (TSink := TSink)) := {|
  part_allows_requests := requests_allowed;
|}.
Next Obligation. intros r. apply shutdown_request_allowed. Qed.
Next Obligation.
  intros env sh r a sh' r' Hp. pose proof (receiver_poll_keeps (ORx := ORx) (parts_fuel env) (parts_time env) sh r) as Hk.
  cbn in Hp. rewrite Hp in Hk. exact Hk.
Qed.
End PartsLaws.

(** A run: a new connection of this library's parts is asked to shut down at once. *)
Notation SampleSender := (Sender (H:=list_header_map) (H0:=text_uri) (Rx := Queue SampleMessage)
  (TSink := BoundedChannel SampleMessage)).
Notation SampleConnection := (Connection (H:=counting_clock) SampleReceiver SampleSender unit unit nat).

Definition sample_connection : SampleConnection :=
  connection_new
    (sample_receiver (forwarding_new Forwarding.empty_channel 4%N) [] (mkMailbox [] true)) (Some tt)
    (sender_new (mkQueue [] false) (mkBoundedChannel [] 0 1 true)) tt 7.

Definition sample_connection_env : ConnEnv (H:=counting_clock) (PartsEnv (H:=counting_clock) CSeq) unit unit :=
  mkConnEnv (mkPartsEnv (H:=counting_clock) 3 (env_at 5) (mkCSeq 0))
    (Shutdown.sample_env 5%N (Ok (Ready (Immediate (H:=counting_clock))))) (fun _ => false).

Notation sample_parts :=
  (connection_parts (H:=list_header_map) (H0:=text_uri) (H1:=counting_clock)
     (Date := CSeq) (World := SampleWorld) (C := SampleChannel)
     (CE := Queue CodecEvent) (Tx := SampleOutbox) (TStream := SampleStream)
     (Chan := Forwarding.sample_channel) (OTx := nat) (Rx := Queue SampleMessage)
     (TSink := BoundedChannel SampleMessage)).
Notation sample_connection_poll :=
  (connection_poll (H:=counting_clock) (ConnectionParts0 := sample_parts)
     sample_connection_env sample_shared sample_connection).

Lemma sample_connection_run :
  connection_run (H:=counting_clock) (ConnectionParts0 := sample_parts) tt 7 [] sample_connection.
Proof. now apply connection_run_new. Qed.

Lemma connection_lifecycle_witness :
  exists w' self', sample_connection_poll = Return (Ready tt, w', self', [7])
    /\ is_shutdown self' = true.
Proof.
  pose proof (connection_lifecycle (H:=counting_clock) tt 7 [] sample_connection sample_connection_env
    sample_shared sample_connection_run
    (shutdown_env_good 5%N (Ok (Ready (Immediate (H:=counting_clock)))))) as Hc.
  destruct sample_connection_poll as [[[[a w'] self'] sent']|] eqn:E; [|discriminate].
  destruct Hc as (s & s' & Hs & Hs' & _ & Ha & Hd & Hev & _).
  assert (Hready : s' = Shutdown).
  { apply Ha. injection E as <- <- <- <-. reflexivity. }
  subst s'. cbn in Hev. subst sent'. exists w', self'. split; [|now apply Hd].
  now rewrite (proj2 Ha eq_refl).
Defined.
