(* ===== verification/ConnectionSteps.v ===== *)
(** * A connection and its callers

    What a connection of [Connection] with the receiver and the sender of this library does to the
    futures of the requests, whose tasks run beside it: a poll of the connection is a sequence of
    steps of the system of [Pending], so that this system, in which every task does one thing at a
    time, is an abstraction of a connection that is polled while callers send requests, poll their
    futures and drop them. *)

From Stdlib Require Import Strings.Byte.
From stdpp Require Import base list numbers gmap strings.
From S2P Require Import Prelude Text Version Method HeaderName HeaderValue HeaderMap CSeq.
From S2P Require Import Status Request Response Codec Futures Forwarding Pending Shutdown Sender Receiver.
From S2P Require Import ReceiverSteps Connection.

Local Open Scope rust_scope.

Section ConnectionSteps.
Context `{HeaderMapLaws} `{URIOps} `{ClockOps} {Date : Type} `{!TypedHeader Date}
  {Chan OTx ORx World C CE Tx TStream Rx TSink HRx RxInitiate TxEvent M : Type}
  `{!SinkOps Chan (CSeq * Request bytes) unit} `{!SinkLaws Chan (CSeq * Request bytes) unit}
  `{!OneshotOps World OTx ORx (PendingRequestResponse ORx)}
  `{!StreamOps C (PendingRequestUpdate OTx)} `{!UnboundedOps C (PendingRequestUpdate OTx)}
  `{!StreamOps CE CodecEvent} `{!UnboundedOps Tx Message} `{!UnboundedLaws Tx Message}
  `{!TryStreamOps TStream Message ProtocolError}
  `{!StreamOps Rx Message} `{!SinkOps TSink Message ProtocolError} `{!FlushOps TSink ProtocolError}
  `{!UnboundedOps M Message}.

Notation TReceiver := (Receiver (Chan := Chan) (OTx := OTx) (CE := CE) (Tx := Tx) (TStream := TStream)).
Notation TShared := (Shared (World := World) (C := C)).
Notation TSender := (Sender (Rx := Rx) (TSink := TSink)).
Notation TConnection := (Connection TReceiver TSender HRx RxInitiate TxEvent).
Notation TEnv := (ConnEnv (PartsEnv Date) HRx RxInitiate).
Notation TSystem := (System (OTx := OTx) (ORx := ORx) (World := World) (C := C) (M := M)).
Notation drop := (receiver_drop (ORx := ORx)).

(** ** The effect of a poll *)

(** The receiver is kept, or it is dropped. *)
Definition kept_or_dropped (sh : TShared) (r : TReceiver) (sh' : TShared) (o : option TReceiver) : Prop :=
  o = Some r /\ sh' = sh \/ o = None /\ exists fuel, drop fuel sh r = Return sh'.

Definition connection_effect (sh : TShared) (o : option TReceiver) (sh' : TShared)
    (o' : option TReceiver) : Prop :=
  match o with
  | Some r => exists sh1 r1, poll_effect (M := M) (ORx := ORx) sh r sh1 r1 /\ kept_or_dropped sh1 r1 sh' o'
  | None => o' = None /\ sh' = sh
  end.

Lemma shutdown_receiver_after (env : TEnv) sh o sh1 (self : TConnection) :
  connection_effect sh o sh1 (Connection.receiver self) ->
  ends True (fun '(sh', self') => connection_effect sh o sh' (Connection.receiver self'))
    (shutdown_receiver env sh1 self).
Proof.
  intros He. unfold shutdown_receiver. destruct (Connection.receiver self) as [r|] eqn:Er; [|exact He].
  cbn [part_receiver_drop connection_parts].
  destruct (drop (parts_fuel (parts_env env)) sh1 r) as [sh'|] eqn:Ed; [|done]. cbn.
  destruct o as [r0|]; [|now destruct He]. destruct He as (sh2 & r1 & He & [[[= <-] ->]|[? _]]); [|done].
  exists sh2, r. split; [exact He|]. right. split; [done|]. now exists (parts_fuel (parts_env env)).
Qed.

Lemma shutdown_request_receiver_after (env : TEnv) sh o sh1 (self : TConnection) :
  connection_effect sh o sh1 (Connection.receiver self) ->
  ends True (fun '(sh', self') => connection_effect sh o sh' (Connection.receiver self'))
    (shutdown_request_receiver env sh1 self).
Proof.
  intros He. unfold shutdown_request_receiver.
  destruct (Connection.receiver self) as [r|] eqn:Er; [|cbn; now rewrite Er].
  cbn [part_shutdown_request_receiver connection_parts].
  pose proof (shutdown_request_effect (M := M) (ORx := ORx) sh1 r) as Hs.
  destruct (receiver_shutdown_request r) as [b r'] eqn:Es. destruct Hs as [He' Hk].
  assert (Hnext : connection_effect sh o sh1 (Some r')).
  { destruct o as [r0|]; [|now destruct He]. destruct He as (sh2 & r1 & He & [[[= <-] ->]|[? _]]); [|done].
    exists sh2, r'. split; [|now left]. exact (poll_effect_before _ _ _ _ _ _ He He' Hk). }
  destruct b; [|exact Hnext]. now apply shutdown_receiver_after.
Qed.

Lemma poll_receiver_effect (env : TEnv) sh (self : TConnection) :
  ends True (fun '(sh', self') =>
      connection_effect sh (Connection.receiver self) sh' (Connection.receiver self'))
    (poll_receiver env sh self).
Proof.
  unfold poll_receiver. destruct (Connection.receiver self) as [r|] eqn:Er; [|cbn; now rewrite Er].
  cbn [part_receiver_poll connection_parts].
  pose proof (receiver_poll_effect (M := M) (ORx := ORx) (parts_fuel (parts_env env)) (parts_time (parts_env env)) sh r) as Hp.
  destruct (receiver_poll _ _ sh r) as [[[a sh1] r1]|]; [|done]. cbn [ends] in Hp. cbn [outcome_bind].
  assert (Hnext : connection_effect sh (Some r) sh1 (Some r1)).
  { exists sh1, r1. split; [exact Hp|now left]. }
  destruct a as [u|]; [|exact Hnext]. now apply shutdown_receiver_after.
Qed.

Lemma poll_sender_after (env : TEnv) sh o sh1 (self : TConnection) :
  connection_effect sh o sh1 (Connection.receiver self) ->
  ends True (fun '(sh', self') => connection_effect sh o sh' (Connection.receiver self'))
    (poll_sender env sh1 self).
Proof.
  intros He. unfold poll_sender. destruct (sender self) as [s|]; [|exact He].
  destruct (part_sender_poll (parts_env env) s) as [[[] s']|]; [|exact He|done]. cbn [outcome_bind].
  eapply ends_bind; [now apply (shutdown_request_receiver_after env sh o)|]. intros [sh2 self2] He2. exact He2.
Qed.

Lemma connection_poll_effect (env : TEnv) sh (self : TConnection) :
  ends True (fun '(_, sh', self', _) =>
      connection_effect sh (Connection.receiver self) sh' (Connection.receiver self'))
    (connection_poll env sh self).
Proof.
  unfold connection_poll. eapply ends_bind; [apply poll_receiver_effect|]. intros [sh1 self1] He1.
  eapply ends_bind; [exact (poll_sender_after env sh (Connection.receiver self) sh1 self1 He1)|]. intros [sh2 self2] He2.
  eapply ends_bind with (Q := fun _ => True); [now destruct (shutdown_poll _ _)|].
  intros [[u h] events] _.
  eapply ends_bind with (Q := fun _ => True); [now destruct (state _)|]. intros s _.
  assert (Hfinish : forall sh3 events (self3 : TConnection),
            connection_effect sh (Connection.receiver self) sh3 (Connection.receiver self3) ->
            ends True (fun '(_, sh', self', _) =>
                connection_effect sh (Connection.receiver self) sh' (Connection.receiver self'))
              (finish_poll env sh3 events self3)).
  { intros sh3 ev self3 He3. unfold finish_poll. destruct (is_shutdown self3); [|exact He3].
    now destruct (force_shutdown _ _) as [[h' ev']|]. }
  destruct s.
  - apply Hfinish. unfold poll_request_handler_shutdown.
    destruct (negb _ || _); cbn; destruct (is_receiver_shutdown _); try exact He2; cbn;
      destruct (rx_handler_shutdown_event self2) as [rx|]; try exact He2;
      destruct (handler_is_shutdown env rx); exact He2.
  - eapply ends_bind; [apply (shutdown_receiver_after env sh (Connection.receiver self) sh2 (set_shutdown h self2)); exact He2|].
    intros [sh3 self3] He3. exact He3.
  - eapply ends_bind; [apply (shutdown_request_receiver_after env sh (Connection.receiver self) sh2 (set_shutdown h self2)); exact He2|].
    intros [sh3 self3] He3. apply Hfinish. exact He3.
Qed.
End ConnectionSteps.

(** ** The callers *)

Section Callers.
Context `{HeaderMapLaws} `{URIOps} `{ClockOps} {Date : Type} `{!TypedHeader Date}
  {Chan OTx ORx World C CE Tx TStream Rx TSink HRx RxInitiate TxEvent M : Type}
  `{!SinkOps Chan (CSeq * Request bytes) unit} `{!SinkLaws Chan (CSeq * Request bytes) unit}
  `{!OneshotOps World OTx ORx (PendingRequestResponse ORx)}
  `{!OneshotLaws World OTx ORx (PendingRequestResponse ORx)}
  `{!StreamOps C (PendingRequestUpdate OTx)} `{!UnboundedOps C (PendingRequestUpdate OTx)}
  `{!ChannelLaws C (PendingRequestUpdate OTx)}
  `{!StreamOps CE CodecEvent} `{!UnboundedOps Tx Message} `{!UnboundedLaws Tx Message}
  `{!TryStreamOps TStream Message ProtocolError}
  `{!StreamOps Rx Message} `{!SinkOps TSink Message ProtocolError} `{!FlushOps TSink ProtocolError}
  `{!UnboundedOps M Message} `{!UnboundedLaws M Message}.

Notation TReceiver := (Receiver (Chan := Chan) (OTx := OTx) (CE := CE) (Tx := Tx) (TStream := TStream)).
Notation TShared := (Shared (World := World) (C := C)).
Notation TSender := (Sender (Rx := Rx) (TSink := TSink)).
Notation TConnection := (Connection TReceiver TSender HRx RxInitiate TxEvent).
Notation TEnv := (ConnEnv (PartsEnv Date) HRx RxInitiate).
Notation TSystem := (System (OTx := OTx) (ORx := ORx) (World := World) (C := C) (M := M)).

(** A connection with the futures that its callers hold, the CSeq of the next request, and the
    channel to the sender that the callers use. *)
Record Peer := mkPeer {
  connection : TConnection;
  shared : TShared;
  callers : list (SendRequest ORx);
  next_number : CSeq;
  requests_channel : M;
}.

Definition responses_side (self : TConnection) : option (ResponseReceiver OTx) :=
  Connection.receiver self ≫= response_receiver.

(** The system of [Pending] that it implements. *)
Definition view (p : Peer) : TSystem :=
  mkSystem (oneshots (shared p)) (update_channel (shared p)) (responses_side (connection p))
    (callers p) (next_number p) (requests_channel p).

(** What the stream of the connection may give when it is polled. *)
Context (arrives : Message -> Prop).

Definition only_arrivals (self : TConnection) : Prop :=
  forall r s ms s', Connection.receiver self = Some r -> stream r = Some s -> reads s ms s' ->
    Forall arrives ms.

(** The connection is polled; a caller sends a request, with the flag of the connection, polls or
    drops a future; other tasks use the other ends of the channels that the connection holds, which
    does not touch the response receiver. *)
Inductive peer_step : Peer -> Peer -> Prop :=
  | peer_poll (env : TEnv) conn sh fs l m a sh' conn' events :
      only_arrivals conn -> connection_poll env sh conn = Return (a, sh', conn', events) ->
      peer_step (mkPeer conn sh fs l m) (mkPeer conn' sh' fs l m)
  | peer_send env request timeout max_timeout conn sh fs l m r l' w' c' m' :
      send_request_with_options env (allow_requests conn) l request timeout max_timeout
        (oneshots sh) (update_channel sh) m = Return (r, l', w', c', m') ->
      peer_step (mkPeer conn sh fs l m)
        (mkPeer conn (mkShared w' c') (match r with Ok s => fs ++ [s] | Err _ => fs end) l' m')
  | peer_future_poll env conn sh fs1 s fs2 l m r w' c' s' :
      send_request_poll env (oneshots sh) (update_channel sh) s = Return (r, w', c', s') ->
      peer_step (mkPeer conn sh (fs1 ++ s :: fs2) l m) (mkPeer conn (mkShared w' c') (fs1 ++ s' :: fs2) l m)
  | peer_future_drop conn sh fs1 s fs2 l m w' c' :
      send_request_drop (oneshots sh) (update_channel sh) s = (w', c') ->
      peer_step (mkPeer conn sh (fs1 ++ s :: fs2) l m) (mkPeer conn (mkShared w' c') (fs1 ++ fs2) l m)
  | peer_other conn conn' sh fs l m :
      responses_side conn' = responses_side conn ->
      peer_step (mkPeer conn sh fs l m) (mkPeer conn' sh fs l m).

(** The runs of a new connection whose first request gets the CSeq [s]. *)
Inductive peer_run (s : CSeq) (m0 : M) : Peer -> Prop :=
  | peer_start conn sh :
      responses_side conn = Some response_receiver_new ->
      (forall t, ~ allocated (oneshots sh) t) -> (forall t, sent (oneshots sh) t = None) ->
      pending (update_channel sh) = [] ->
      peer_run s m0 (mkPeer conn sh [] s m0)
  | peer_run_step p p' : peer_run s m0 p -> peer_step p p' -> peer_run s m0 p'.

(** The steps of the response side when the connection is polled. *)
Lemma connection_effect_steps sh conn sh' conn' fs l m :
  connection_effect (M := M) (ORx := ORx) sh (Connection.receiver conn) sh' (Connection.receiver conn') ->
  only_arrivals conn ->
  exists handled, Forall (fun r => arrives (MResponse r)) handled
    /\ steps handled (view (mkPeer conn sh fs l m)) (view (mkPeer conn' sh' fs l m)).
Proof.
  unfold only_arrivals, view, responses_side. cbn.
  destruct (Connection.receiver conn) as [r|]; cbn [connection_effect].
  2:{ intros [-> ->] _. exists []. split; [constructor|apply steps_refl]. }
  intros (sh1 & r1 & (ms & errors & handled & answers & Hs & He & Hh & _) & Hk) Harr.
  assert (Hall : Forall (fun r => arrives (MResponse r)) handled).
  { destruct Hh as [-> |[-> _]]; [|constructor].
    assert (Hms : Forall arrives ms).
    { unfold stream_advanced, advanced in Hs. destruct (stream r) as [s|] eqn:Es.
      - destruct Hs as (s' & Hs & _). exact (Harr r s ms s' eq_refl Es Hs).
      - destruct Hs as [-> _]. constructor. }
    clear - Hms. induction Hms as [|m ms Hm _ IH]; [constructor|].
    rewrite responses_of_cons. apply Forall_app. split; [|exact IH]. destruct m; cbn; [constructor|].
    now repeat constructor. }
  exists handled. split; [exact Hall|]. pose proof (effect_responses _ _ _ _ _ _ _ _ He fs l m) as Hsteps.
  destruct Hk as [[-> ->]|[-> [fuel Hd]]]; [exact Hsteps|].
  rewrite <- (app_nil_r handled). eapply steps_app; [exact Hsteps|]. unfold response_side. cbn.
  unfold receiver_drop in Hd. destruct (response_receiver r1) as [rr|].
  - apply outcome_bind_Return in Hd as ([w c] & Hd & E). injection E as <-.
    apply steps_one. exact (step_receiver_drop fuel _ _ _ _ _ _ _ _ Hd).
  - injection Hd as <-. apply steps_refl.
Qed.

Lemma steps_reachable s m0 handled0 handled (sys sys' : TSystem) :
  steps handled sys sys' -> reachable s m0 handled0 sys -> reachable s m0 (handled0 ++ handled) sys'.
Proof.
  intros Hs Hr. induction Hs as [|handled more sys1 sys2 sys3 _ IH Hstep]; [now rewrite app_nil_r|].
  rewrite app_assoc. exact (reachable_step _ _ _ _ _ _ (IH Hr) Hstep).
Qed.

Lemma peer_step_steps p p' :
  peer_step p p' ->
  exists handled, Forall (fun r => arrives (MResponse r)) handled /\ steps handled (view p) (view p').
Proof.
  intros Hstep. destruct Hstep as [env conn sh fs l m a sh' conn' events Ha Hp
    |env request timeout max_timeout conn sh fs l m r l' w' c' m' E
    |env conn sh fs1 s fs2 l m r w' c' s' E|conn sh fs1 s fs2 l m w' c' E|conn conn' sh fs l m E].
  - pose proof (connection_poll_effect (M := M) (ORx := ORx) env sh conn) as He. rewrite Hp in He.
    now apply connection_effect_steps.
  - exists []. split; [constructor|]. apply steps_one. exact (step_send _ _ _ _ _ _ _ _ _ _ _ _ _ _ _ _ E).
  - exists []. split; [constructor|]. apply steps_one. exact (step_poll _ _ _ _ _ _ _ _ _ _ _ _ _ E).
  - exists []. split; [constructor|]. apply steps_one. exact (step_drop _ _ _ _ _ _ _ _ _ _ E).
  - exists []. split; [constructor|]. unfold view. cbn. rewrite E. apply steps_refl.
Qed.

Lemma peer_run_reachable s m0 p :
  peer_run s m0 p ->
  exists handled, Forall (fun r => arrives (MResponse r)) handled /\ reachable s m0 handled (view p).
Proof.
  induction 1 as [conn sh Hr Ha Hs Hp|p p' _ (handled & Hall & Hreach) Hstep].
  - exists []. split; [constructor|]. unfold view. cbn. rewrite Hr. now apply reachable_start.
  - destruct (peer_step_steps p p' Hstep) as (more & Hmore & Hsteps). exists (handled ++ more).
    split; [now apply Forall_app|]. now apply (steps_reachable s m0 handled more (view p)).
Qed.

(** ** Properties *)

(** C4: A connection and its callers implement the system of [Pending], in which every task does one
    thing at a time: every state that they reach shows a reachable system, and every step, a whole
    poll of the connection included, is a sequence of steps of that system, in which only responses
    are handled that arrived on the stream. *)
Theorem connection_refines s m0 p p' :
  peer_run s m0 p -> peer_step p p' ->
  exists handled more,
    reachable s m0 handled (view p) /\ steps more (view p) (view p')
    /\ reachable s m0 (handled ++ more) (view p')
    /\ Forall (fun r => arrives (MResponse r)) (handled ++ more).
Proof.
  intros (handled & Hh & Hr)%peer_run_reachable (more & Hm & Hs)%peer_step_steps.
  exists handled, more. split; [exact Hr|]. split; [exact Hs|]. split; [|now apply Forall_app].
  now apply (steps_reachable s m0 handled more (view p)).
Qed.
End Callers.
