(* ===== verification/Handle.v ===== *)
(** * Handles and configuration of a connection

    Model of the configuration, of [Connection::with_config] and of [ConnectionHandle] in
    [rtsp-2/src/protocol/connection/mod.rs], and of the request options in
    [rtsp-2/src/protocol/connection/pending.rs]. The clones of a handle share one shutdown sender,
    which sends its request when the last of them is dropped. *)

From Stdlib Require Import Strings.Byte.
From stdpp Require Import base list numbers gmap strings.
From S2P Require Import Prelude Text Version Method HeaderName HeaderValue HeaderMap CSeq.
From S2P Require Import Status Request Response Codec Futures Forwarding Pending Shutdown Handler Sender Receiver Connection.

Local Open Scope rust_scope.

(** ** Configuration *)

Section Config.
Context `{ClockOps} (from_secs : N -> Duration).

Definition DEFAULT_CONTINUE_WAIT_DURATION : Duration := from_secs 5.
Definition DEFAULT_DECODE_TIMEOUT_DURATION : Duration := from_secs 10.
Definition DEFAULT_GRACEFUL_SHUTDOWN_TIMEOUT_DURATION : Duration := from_secs 10.
Definition DEFAULT_REQUEST_BUFFER_SIZE : N := 10.
Definition REQUEST_MAX_TIMEOUT_DEFAULT_DURATION : Duration := from_secs 20.
Definition REQUEST_TIMEOUT_DEFAULT_DURATION : Duration := from_secs 10.

(** [Config]; its builder has the same fields. *)
Record Config := mkConfig {
  continue_wait_duration : option Duration;
  decode_timeout_duration : Duration;
  graceful_shutdown_timeout_default_duration : Duration;
  request_buffer_size : N;
  request_max_timeout_default_duration : option Duration;
  request_timeout_default_duration : option Duration;
}.

Record ConfigBuilder := mkConfigBuilder { building : Config }.

(** [ConfigBuilder::new]. *)
Definition config_builder_new : ConfigBuilder :=
  mkConfigBuilder (mkConfig (Some DEFAULT_CONTINUE_WAIT_DURATION) DEFAULT_DECODE_TIMEOUT_DURATION
    DEFAULT_GRACEFUL_SHUTDOWN_TIMEOUT_DURATION DEFAULT_REQUEST_BUFFER_SIZE
    (Some REQUEST_MAX_TIMEOUT_DEFAULT_DURATION) (Some REQUEST_TIMEOUT_DEFAULT_DURATION)).

Definition config_build (self : ConfigBuilder) : Config := building self.

(** [Config::new] and its default. *)
Definition config_new : Config := config_build config_builder_new.

(** The setters, which [with_...] calls too. *)
Definition set_continue_wait_duration (d : option Duration) (self : ConfigBuilder) : ConfigBuilder :=
  let c := building self in
  mkConfigBuilder (mkConfig d (decode_timeout_duration c) (graceful_shutdown_timeout_default_duration c)
    (request_buffer_size c) (request_max_timeout_default_duration c) (request_timeout_default_duration c)).
Definition set_decode_timeout_duration (d : Duration) (self : ConfigBuilder) : ConfigBuilder :=
  let c := building self in
  mkConfigBuilder (mkConfig (continue_wait_duration c) d (graceful_shutdown_timeout_default_duration c)
    (request_buffer_size c) (request_max_timeout_default_duration c) (request_timeout_default_duration c)).
Definition set_graceful_shutdown_timeout_default_duration (d : Duration) (self : ConfigBuilder) :
    ConfigBuilder :=
  let c := building self in
  mkConfigBuilder (mkConfig (continue_wait_duration c) (decode_timeout_duration c) d
    (request_buffer_size c) (request_max_timeout_default_duration c) (request_timeout_default_duration c)).
Definition set_request_buffer_size (n : N) (self : ConfigBuilder) : ConfigBuilder :=
  let c := building self in
  mkConfigBuilder (mkConfig (continue_wait_duration c) (decode_timeout_duration c)
    (graceful_shutdown_timeout_default_duration c) n (request_max_timeout_default_duration c)
    (request_timeout_default_duration c)).
Definition set_request_max_timeout_default_duration (d : option Duration) (self : ConfigBuilder) :
    ConfigBuilder :=
  let c := building self in
  mkConfigBuilder (mkConfig (continue_wait_duration c) (decode_timeout_duration c)
    (graceful_shutdown_timeout_default_duration c) (request_buffer_size c) d
    (request_timeout_default_duration c)).
Definition set_request_timeout_default_duration (d : option Duration) (self : ConfigBuilder) :
    ConfigBuilder :=
  let c := building self in
  mkConfigBuilder (mkConfig (continue_wait_duration c) (decode_timeout_duration c)
    (graceful_shutdown_timeout_default_duration c) (request_buffer_size c)
    (request_max_timeout_default_duration c) d).

(** [RequestOptions]; its builder has the same fields. *)
Record RequestOptions := mkRequestOptions {
  max_timeout_duration : option Duration;
  timeout_duration : option Duration;
}.

Record RequestOptionsBuilder := mkRequestOptionsBuilder { options : RequestOptions }.

(** [RequestOptionsBuilder::new]. *)
Definition options_builder_new : RequestOptionsBuilder :=
  mkRequestOptionsBuilder (mkRequestOptions (Some REQUEST_MAX_TIMEOUT_DEFAULT_DURATION)
                             (Some REQUEST_TIMEOUT_DEFAULT_DURATION)).

Definition options_build (self : RequestOptionsBuilder) : RequestOptions := options self.

(** [RequestOptions::new] and its default. *)
Definition request_options_new : RequestOptions := options_build options_builder_new.

Definition set_max_timeout_duration (d : option Duration) (self : RequestOptionsBuilder) :
    RequestOptionsBuilder :=
  mkRequestOptionsBuilder (mkRequestOptions d (timeout_duration (options self))).
Definition set_timeout_duration (d : option Duration) (self : RequestOptionsBuilder) :
    RequestOptionsBuilder :=
  mkRequestOptionsBuilder (mkRequestOptions (max_timeout_duration (options self)) d).
End Config.

(** ** Shutting down *)

Section Shutdown.
Context `{ClockOps} {Tx SRx : Type}.

(** [ConnectionShutdownSender]. Its operations give what they send through the oneshot channel. *)
Record ConnectionShutdownSender := mkConnectionShutdownSender {
  graceful_default : Duration;
  tx_initiate_shutdown : option Tx;
}.

Definition shutdown_sender_new (tx : Tx) (graceful_default : Duration) : ConnectionShutdownSender :=
  mkConnectionShutdownSender graceful_default (Some tx).

(** [ConnectionShutdownSender::shutdown]. *)
Definition sender_shutdown (shutdown_type : ShutdownType) (self : ConnectionShutdownSender) :
    ConnectionShutdownSender * list (Tx * ShutdownType) :=
  match tx_initiate_shutdown self with
  | Some tx => (mkConnectionShutdownSender (graceful_default self) None, [(tx, shutdown_type)])
  | None => (self, [])
  end.

(** [drop]. *)
Definition sender_drop (self : ConnectionShutdownSender) : list (Tx * ShutdownType) :=
  (sender_shutdown (Graceful (graceful_default self)) self).2.

(** [ConnectionShutdownReceiver]: [SRx] is a shared receiver of the end of a task. *)
Record ConnectionShutdownReceiver := mkConnectionShutdownReceiver {
  rx_connection_shutdown_event : option SRx;
  rx_handler_shutdown_event : option SRx;
}.

Definition shutdown_receiver_new (connection : SRx) (handler : option SRx) : ConnectionShutdownReceiver :=
  mkConnectionShutdownReceiver (Some connection) handler.

(** One of the two halves of [Future::poll]: the receiver is kept unless it is ready. *)
Definition poll_event (poll : SRx -> Poll unit Canceled) (rx : option SRx) : Outcome (option SRx) :=
  match rx with
  | None => Return None
  | Some rx =>
      match poll rx with
      | Err _ => Panic
      | Ok (Ready _) => Return None
      | Ok NotReady => Return (Some rx)
      end
  end.

(** [Future::poll] for [ConnectionShutdownReceiver]. *)
Definition shutdown_receiver_poll (poll : SRx -> Poll unit Canceled) (self : ConnectionShutdownReceiver) :
    Outcome (Async unit * ConnectionShutdownReceiver) :=
  let! connection := poll_event poll (rx_connection_shutdown_event self) in
  let! handler := poll_event poll (rx_handler_shutdown_event self) in
  Return (if negb (is_some connection) && negb (is_some handler) then Ready tt else NotReady,
          mkConnectionShutdownReceiver connection handler).
End Shutdown.
Arguments ConnectionShutdownSender {_} Tx.
Arguments ConnectionShutdownReceiver SRx : clear implicits.

(** ** Making a connection *)

Section WithConfig.
Context `{HeaderMapOps} `{URIOps} `{ClockOps} {Date : Type} `{!TypedHeader Date}
  {Chan OTx ORx World C CE Tx TStream RxMessage TSink RxRequest TService TFuture TResponse : Type}
  {TxEvent SRx RxInitiate TxInitiate : Type}
  `{!SinkOps Chan (CSeq * Request bytes) unit}
  `{!OneshotOps World OTx ORx (PendingRequestResponse ORx)}
  `{!StreamOps C (PendingRequestUpdate OTx)} `{!UnboundedOps C (PendingRequestUpdate OTx)}
  `{!StreamOps CE CodecEvent}
  `{!UnboundedOps Tx Message} `{!TryStreamOps TStream Message ProtocolError}.

(** A [ConnectionHandle] without what its clones share: the flag and the CSeq behind [Arc]s, and
    the shutdown sender. *)
Record ConnectionHandle := mkConnectionHandle {
  handle_max_timeout : option Duration;
  handle_timeout : option Duration;
  handle_sender : Tx;
  handle_shutdown_receiver : ConnectionShutdownReceiver SRx;
}.

Record HandleShared := mkHandleShared {
  sequence_number : CSeq;
  shutdown_sender : ConnectionShutdownSender TxInitiate;
}.

(** [ConnectionHandle::new], with the random first CSeq as an argument. *)
Definition handle_new (first : CSeq) (rx_connection_shutdown_event : SRx)
    (rx_handler_shutdown_event : option SRx) (sender_handle : Tx) (tx_initiate_shutdown : TxInitiate)
    (graceful_default : Duration) (max_timeout timeout : option Duration) :
    ConnectionHandle * HandleShared :=
  (mkConnectionHandle max_timeout timeout sender_handle
     (shutdown_receiver_new rx_connection_shutdown_event rx_handler_shutdown_event),
   mkHandleShared first (shutdown_sender_new tx_initiate_shutdown graceful_default)).

(** [ConnectionHandle::send_request]: the default options of the handle. *)
Definition send_request (from_secs : N -> Duration) (env : TimeEnv) (allow_requests : bool)
    (self : ConnectionHandle) (lock : CSeq) (request : Request bytes) (w : World) (c : C) (m : Tx) :=
  let options :=
    options_build (set_timeout_duration (handle_timeout self)
                     (set_max_timeout_duration (handle_max_timeout self) (options_builder_new from_secs))) in
  send_request_with_options env allow_requests lock request
    (timeout_duration options) (max_timeout_duration options) w c m.

(** The channels of a connection, both ends of each. *)
Record Channels := mkChannels {
  codec_event : CE;
  incoming_request : N -> Chan * RxRequest;
  outgoing_message : Tx * RxMessage;
  initiate_shutdown : TxInitiate * RxInitiate;
  connection_shutdown_event : TxEvent * SRx;
  handler_shutdown_event : TxEvent * SRx;
}.

Notation TReceiver := (Receiver (Chan := Chan) (OTx := OTx) (CE := CE) (Tx := Tx) (TStream := TStream)).
Notation TSender := (Sender (Rx := RxMessage) (TSink := TSink)).
Notation THandler := (RequestHandler (Rx := RxRequest) (Tx := Tx) (TService := TService)
                        (TFuture := TFuture) (TxEvent := TxEvent)).

(** [Connection::with_config]; [stream] and [sink] are the halves of the framed transport. *)
Definition with_config (ch : Channels) (stream : TStream) (sink : TSink) (first : CSeq)
    (service : option TService) (config : Config) :
    Connection TReceiver TSender SRx RxInitiate TxEvent * option THandler * ConnectionHandle * HandleShared :=
  let '(tx_incoming_request, rx_incoming_request) := incoming_request ch (request_buffer_size config) in
  let '(sender_handle, rx_message) := outgoing_message ch in
  let '(tx_initiate_shutdown, rx_initiate_shutdown) := initiate_shutdown ch in
  let '(tx_connection_shutdown_event, rx_connection_shutdown_event) := connection_shutdown_event ch in
  let '(tx_handler_shutdown_event, rx_handler_shutdown_event) := handler_shutdown_event ch in
  let sender := sender_new rx_message sink in
  let receiver :=
    receiver_new stream (codec_event ch) tx_incoming_request sender_handle
      (decode_timeout_duration config) (request_buffer_size config) in
  let handler :=
    match service with
    | Some service =>
        Some (handler_new service rx_incoming_request sender_handle tx_handler_shutdown_event
                (continue_wait_duration config))
    | None => None
    end in
  let rx_handler_shutdown_event := if handler then Some rx_handler_shutdown_event else None in
  let connection :=
    connection_new receiver rx_handler_shutdown_event sender rx_initiate_shutdown
      tx_connection_shutdown_event in
  let '(connection_handle, shared) :=
    handle_new first rx_connection_shutdown_event rx_handler_shutdown_event sender_handle
      tx_initiate_shutdown (graceful_shutdown_timeout_default_duration config)
      (request_max_timeout_default_duration config) (request_timeout_default_duration config) in
  (connection, handler, connection_handle, shared).
End WithConfig.

(** ** What the clones of a handle send *)

Section Handles.
Context `{ClockOps} {Tx : Type}.

(** What may be done with the handles of a connection: one is cloned, asked to shut down, dropped. *)
Inductive HandleOp := CloneHandle | ShutdownHandle (shutdown_type : ShutdownType) | DropHandle.

(** The operations so far, the number of handles there are, the sender they share, and what was
    sent. The last handle drops the sender with it. *)
Inductive handles_run (tx : Tx) (d : Duration) :
    list HandleOp -> nat -> ConnectionShutdownSender Tx -> list (Tx * ShutdownType) -> Prop :=
  | handles_new : handles_run tx d [] 1 (shutdown_sender_new tx d) []
  | handles_clone ops n s log :
      handles_run tx d ops (S n) s log -> handles_run tx d (ops ++ [CloneHandle]) (S (S n)) s log
  | handles_shutdown ops n s log t s' sent :
      handles_run tx d ops (S n) s log -> sender_shutdown t s = (s', sent) ->
      handles_run tx d (ops ++ [ShutdownHandle t]) (S n) s' (log ++ sent)
  | handles_drop ops n s log :
      handles_run tx d ops (S n) s log ->
      handles_run tx d (ops ++ [DropHandle]) n s (log ++ match n with O => sender_drop s | _ => [] end).

(** The first request to shut down. *)
Fixpoint first_shutdown (ops : list HandleOp) : option ShutdownType :=
  match ops with
  | [] => None
  | ShutdownHandle t :: _ => Some t
  | _ :: ops => first_shutdown ops
  end.

Lemma first_shutdown_app ops ops' :
  first_shutdown (ops ++ ops')
  = match first_shutdown ops with Some t => Some t | None => first_shutdown ops' end.
Proof. induction ops as [|[]]; cbn; auto. Qed.

(** What was sent, and the sender that is left. *)
Lemma handles_run_inv tx d ops n s log :
  handles_run tx d ops n s log ->
  s = mkConnectionShutdownSender d (if first_shutdown ops then None else Some tx)
  /\ log = match first_shutdown ops, n with
           | Some t, _ => [(tx, t)]
           | None, O => [(tx, Graceful d)]
           | None, S _ => []
           end.
Proof.
  induction 1 as [|ops n s log _ [-> ->]|ops n s log t s' sent _ [-> ->] Hs|ops n s log _ [-> ->]];
    rewrite ?first_shutdown_app; cbn; [done|..].
  - now destruct (first_shutdown ops).
  - destruct (first_shutdown ops) as [t0|]; injection Hs as <- <-; [now rewrite app_nil_r|done].
  - destruct (first_shutdown ops) as [t0|]; [|now destruct n]. now destruct n.
Qed.

(** C24: However the handles of a connection are cloned, used and dropped, the connection is asked to
    shut down at most once: by the first request, or, if there was none, gracefully when the last
    handle is dropped. The sender is never dropped before it has sent. *)
Theorem shutdown_sent_once tx d ops n s log :
  handles_run tx d ops n s log ->
  log = match first_shutdown ops, n with
        | Some t, _ => [(tx, t)]
        | None, O => [(tx, Graceful d)]
        | None, S _ => []
        end.
Proof. intros Hr. now destruct (handles_run_inv _ _ _ _ _ _ Hr). Qed.
End Handles.

Section ShutdownReceiver.
Context {SRx : Type}.

Notation TPoll := (SRx -> Poll unit Canceled).

(** Polling in one environment after the other. *)
Fixpoint poll_all (envs : list TPoll) (self : ConnectionShutdownReceiver SRx) :
    Outcome (ConnectionShutdownReceiver SRx) :=
  match envs with
  | [] => Return self
  | e :: envs => let! (_, self) := shutdown_receiver_poll e self in poll_all envs self
  end.

(** The event was there in one of them. *)
Definition happened (rx : SRx) (envs : list TPoll) : bool :=
  existsb (fun e => match e rx with Ok (Ready _) => true | _ => false end) envs.

(** What is still awaited. *)
Definition awaited (rx : option SRx) (envs : list TPoll) : option SRx :=
  match rx with
  | Some rx => if happened rx envs then None else Some rx
  | None => None
  end.

Definition never_canceled (envs : list TPoll) : Prop :=
  Forall (fun e : TPoll => forall rx, exists a, e rx = Ok a) envs.

Lemma poll_event_awaited (e : TPoll) rx envs :
  (forall rx, exists a, e rx = Ok a) ->
  poll_event e (awaited rx envs) = Return (awaited rx (envs ++ [e])).
Proof.
  intros He. destruct rx as [rx|]; [|done]. cbn. unfold happened. rewrite existsb_app. cbn.
  destruct (existsb _ envs); [done|]. cbn. destruct (He rx) as [[u|] ->]; [|done]. done.
Qed.

Lemma shutdown_receiver_step (e : TPoll) c h envs :
  (forall rx, exists a, e rx = Ok a) ->
  let c' := awaited c (envs ++ [e]) in
  let h' := awaited h (envs ++ [e]) in
  shutdown_receiver_poll e (mkConnectionShutdownReceiver (awaited c envs) (awaited h envs))
  = Return (if negb (is_some c') && negb (is_some h') then Ready tt else NotReady,
            mkConnectionShutdownReceiver c' h').
Proof.
  intros He. cbn zeta. unfold shutdown_receiver_poll. cbn [rx_connection_shutdown_event rx_handler_shutdown_event].
  rewrite poll_event_awaited by done. cbn [outcome_bind]. now rewrite poll_event_awaited by done.
Qed.

Lemma poll_all_awaited envs envs' c h :
  never_canceled envs' ->
  poll_all envs' (mkConnectionShutdownReceiver (awaited c envs) (awaited h envs))
  = Return (mkConnectionShutdownReceiver (awaited c (envs ++ envs')) (awaited h (envs ++ envs'))).
Proof.
  intros Hn. revert envs. induction Hn as [|e envs' He _ IH]; intros envs; [now rewrite !app_nil_r|].
  cbn [poll_all]. rewrite shutdown_receiver_step by done. cbn [outcome_bind]. rewrite IH.
  now rewrite <- !app_assoc.
Qed.

(** The future of the end of a connection is ready at a poll exactly when, by then, the connection
    has ended and, if it has a request handler, this has ended too, at the same poll or at different
    ones; it goes on answering, and never panics, unless a task was dropped without its event. *)
Theorem shutdown_receiver_spec (c : SRx) (h : option SRx) (envs : list TPoll) (e : TPoll) :
  never_canceled (envs ++ [e]) ->
  exists self self',
    poll_all envs (shutdown_receiver_new c h) = Return self
    /\ shutdown_receiver_poll e self
       = Return (if happened c (envs ++ [e])
                    && match h with Some h => happened h (envs ++ [e]) | None => true end
                 then Ready tt else NotReady, self').
Proof.
  intros [Hn He%Forall_inv]%Forall_app.
  pose proof (poll_all_awaited [] envs (Some c) h Hn) as Hp. cbn [app] in Hp.
  exists (mkConnectionShutdownReceiver (awaited (Some c) envs) (awaited h envs)).
  eexists. split.
  - rewrite <- Hp. unfold shutdown_receiver_new. now destruct h.
  - rewrite shutdown_receiver_step by done. do 2 f_equal. cbn.
    destruct (happened c _); [|done]. cbn. destruct h as [h|]; [|done]. cbn. now destruct (happened h _).
Qed.
End ShutdownReceiver.

(** ** A new connection *)

Section WithConfigSpec.
Context `{HeaderMapLaws} `{URIOps} `{ClockOps} {Date : Type} `{!TypedHeader Date}
  {Chan OTx ORx World C CE Tx TStream RxMessage TSink RxRequest TService TFuture TResponse : Type}
  {TxEvent SRx RxInitiate TxInitiate : Type}
  `{!SinkOps Chan (CSeq * Request bytes) unit} `{!SinkLaws Chan (CSeq * Request bytes) unit}
  `{!OneshotOps World OTx ORx (PendingRequestResponse ORx)}
  `{!StreamOps C (PendingRequestUpdate OTx)} `{!UnboundedOps C (PendingRequestUpdate OTx)}
  `{!StreamOps CE CodecEvent} `{!UnboundedOps Tx Message} `{!TryStreamOps TStream Message ProtocolError}
  `{!StreamOps RxMessage Message} `{!SinkOps TSink Message ProtocolError} `{!FlushOps TSink ProtocolError}.

Notation TParts :=
  (connection_parts (Date := Date) (Chan := Chan) (OTx := OTx) (ORx := ORx) (World := World) (C := C)
     (CE := CE) (Tx := Tx) (TStream := TStream) (Rx := RxMessage) (TSink := TSink)).
Notation TChannels :=
  (Channels (Chan := Chan) (CE := CE) (Tx := Tx) (RxMessage := RxMessage) (RxRequest := RxRequest)
     (TxEvent := TxEvent) (SRx := SRx) (RxInitiate := RxInitiate) (TxInitiate := TxInitiate)).

(** [with_config] wires the parts together: the connection is at the start of its life with the
    receiver of the request to shut down; a request handler is made exactly when a service is given,
    and the connection and the handle await its end exactly then; the buffer of the receiver has the
    size of the channel to the handler; and the handle is the only one, has sent nothing, and holds
    the other end of the channel of the connection. *)
Theorem with_config_spec (ch : TChannels) (stream : TStream) (sink : TSink) (first : CSeq)
    (service : option TService) (config : Config) :
  let '(connection, handler, handle, shared) :=
    with_config (OTx := OTx) (TFuture := TFuture) ch stream sink first service config in
  connection_run (ConnectionParts0 := TParts) (snd (initiate_shutdown ch))
    (fst (connection_shutdown_event ch)) [] connection
  /\ (is_some handler = is_some service)
  /\ Connection.rx_handler_shutdown_event connection
     = (if service then Some (snd (handler_shutdown_event ch)) else None)
  /\ handle_shutdown_receiver handle
     = shutdown_receiver_new (snd (connection_shutdown_event ch))
         (Connection.rx_handler_shutdown_event connection)
  /\ (exists r f, receiver connection = Some r /\ forwarding_receiver r = Some f
        /\ Forwarding.request_buffer_size f = request_buffer_size config
        /\ Forwarding.tx_incoming_request f = fst (incoming_request ch (request_buffer_size config)))
  /\ handles_run (fst (initiate_shutdown ch)) (graceful_shutdown_timeout_default_duration config)
       [] 1 (shutdown_sender shared) [].
Proof.
  unfold with_config. destruct (incoming_request ch _) as [chan rx] eqn:Ein.
  destruct (outgoing_message ch), (initiate_shutdown ch), (connection_shutdown_event ch),
    (handler_shutdown_event ch). cbn.
  split; [now apply connection_run_new|]. split; [now destruct service|]. split; [now destruct service|].
  split; [done|]. split; [|constructor]. now do 2 eexists.
Qed.
End WithConfigSpec.

(** ** Instances *)

Example config_ex :
  let secs (n : N) : Duration (ClockOps := counting_clock) := n in
  request_buffer_size (H := counting_clock) (config_new secs) = 10%N
  /\ request_buffer_size (config_build (set_request_buffer_size 3 (config_builder_new secs))) = 3%N
  /\ timeout_duration (request_options_new secs) = Some 10%N.
Proof. now vm_compute. Qed.

Lemma shutdown_sent_once_witness :
  (([] ++ [(7, Immediate)]) ++ []) ++ [] = [(7, Immediate (H := counting_clock))].
Proof.
  apply (shutdown_sent_once (H := counting_clock) 7 5%N
           ((([] ++ [ShutdownHandle Immediate]) ++ [ShutdownHandle (Graceful (H := counting_clock) 3%N)]) ++ [DropHandle])
           0 (mkConnectionShutdownSender (H := counting_clock) 5%N None)).
  apply (handles_drop (H := counting_clock) 7 5%N _ 0).
  apply (handles_shutdown (H := counting_clock) 7 5%N _ 0 (mkConnectionShutdownSender (H := counting_clock) 5%N None)); [|reflexivity].
  apply (handles_shutdown (H := counting_clock) 7 5%N [] 0 (shutdown_sender_new (H := counting_clock) 7 5%N) []); [constructor|reflexivity].
Defined.

Lemma shutdown_receiver_spec_witness :
  exists self self',
    poll_all [fun rx => Ok (if rx =? 1 then Ready tt else NotReady)]
      (shutdown_receiver_new 1 (Some 2)) = Return self
    /\ shutdown_receiver_poll (fun rx => Ok (if rx =? 2 then Ready tt else NotReady)) self
       = Return (Ready tt, self').
Proof.
  apply (shutdown_receiver_spec 1 (Some 2)
           [fun rx => Ok (if rx =? 1 then Ready tt else NotReady)]
           (fun rx => Ok (if rx =? 2 then Ready tt else NotReady))).
  repeat constructor; intros rx; now eexists.
Defined.
