(* ===== verification/Float32.v ===== *)
(** * Numbers in floating point

    What the headers use of [f32] of the Rust standard library: reading a decimal, comparing, the
    bits, and writing the shortest decimal that is read back as the number. A number is given by its
    bits. Rounding is that of the specification of IEEE 754 in Rocq's standard library, with the 24
    digits and the exponents of the type. *)

From Stdlib Require Import Strings.Byte ZArith Floats.SpecFloat.
From stdpp Require Import base list numbers strings.
From S2P Require Import Prelude Text.

Local Open Scope Z_scope.

(** ** Bits *)

Definition SIGN : N := 2 ^ 31.
Definition INFINITY : N := 255 * 2 ^ 23.
Definition NAN : N := 255 * 2 ^ 23 + 2 ^ 22.
Definition ONE : N := 127 * 2 ^ 23.

(** [f32::from_bits]: the sign of a number that is not one is lost. *)
Definition is_negative (bits : N) : bool := N.testbit bits 31.
Definition from_bits (bits : N) : spec_float :=
  let s := is_negative bits in
  let exponent := (N.shiftr bits 23 mod 256)%N in
  let fraction := (bits mod 2 ^ 23)%N in
  if (exponent =? 255)%N then if (fraction =? 0)%N then S754_infinity s else S754_nan
  else if (exponent =? 0)%N then
    match fraction with N0 => S754_zero s | Npos m => S754_finite s m (-149) end
  else
    match (fraction + 2 ^ 23)%N with
    | N0 => S754_zero s
    | Npos m => S754_finite s m (Z.of_N exponent - 150)
    end.

(** [f32::to_bits] for a number with that sign. *)
Definition to_bits (negative : bool) (x : spec_float) : N :=
  ((if negative then SIGN else 0)
   + match x with
     | S754_zero _ => 0
     | S754_infinity _ => INFINITY
     | S754_nan => NAN
     | S754_finite _ m e => Z.to_N ((e + 149) * 2 ^ 23 + Z.pos m)
     end)%N.

(** [<]. *)
Definition f32_ltb (x y : N) : bool := SFltb (from_bits x) (from_bits y).

(** ** Reading *)

(** The number nearest to a decimal, the even one of two. *)
Definition of_decimal (negative : bool) (m : N) (e10 : Z) : spec_float :=
  match m with
  | N0 => S754_zero negative
  | Npos m =>
      if 0 <=? e10 then
        match Z.pos m * 10 ^ e10 with
        | Zpos m => binary_round 24 128 negative m 0
        | _ => S754_zero negative
        end
      else
        let '(q, e, l) := SFdiv_core_binary 24 128 (Z.pos m) 0 (10 ^ (- e10)) 0 in
        binary_round_aux 24 128 negative q e l
  end.

(** The digits at the front. *)
Fixpoint take_digits (s : bytes) : bytes * bytes :=
  match s with
  | b :: s' =>
      if is_ascii_digit b then let '(ds, rest) := take_digits s' in (b :: ds, rest) else ([], s)
  | [] => ([], [])
  end.

Definition digits_value (ds : bytes) : N :=
  foldl (fun n b => (10 * n + (Byte.to_N b - 48))%N) 0%N ds.

(** A sign, if there is one. *)
Definition take_sign (s : bytes) : bool * bytes :=
  match s with
  | b :: s' => if bool_decide (b = "-"%byte) then (true, s') else if bool_decide (b = "+"%byte) then (false, s') else (false, s)
  | [] => (false, [])
  end.

(** The exponent, to the end. *)
Definition parse_exponent (s : bytes) : option Z :=
  match s with
  | [] => Some 0
  | b :: s =>
      if bool_decide (b = "e"%byte \/ b = "E"%byte) then
        let '(negative, s) := take_sign s in
        match take_digits s with
        | ((_ :: _) as ds, []) => let e := Z.of_N (digits_value ds) in Some (if negative : bool then - e else e)
        | _ => None
        end
      else None
  end.

(** Digits with a point before, in or after them, and the exponent. *)
Definition parse_number (s : bytes) : option (N * Z) :=
  let '(whole, s) := take_digits s in
  let '(fraction, s) :=
    match s with
    | b :: s' => if bool_decide (b = "."%byte) then take_digits s' else ([], s)
    | [] => ([], [])
    end in
  match whole ++ fraction with
  | [] => None
  | ds =>
      match parse_exponent s with
      | Some e => Some (digits_value ds, e - Z.of_nat (length fraction))
      | None => None
      end
  end.

(** [str::parse::<f32>], with the bits of the number. *)
Definition f32_parse (s : bytes) : option N :=
  let '(negative, s) := take_sign s in
  match parse_number s with
  | Some (m, e10) => Some (to_bits negative (of_decimal negative m e10))
  | None =>
      if eq_ignore_ascii_case s (bs "nan") then Some (to_bits negative S754_nan)
      else if eq_ignore_ascii_case s (bs "inf") || eq_ignore_ascii_case s (bs "infinity")
      then Some (to_bits negative (S754_infinity negative))
      else None
  end.

(** ** Writing *)

(** The power of ten just above a fraction, from one that is not. *)
Fixpoint magnitude (fuel : nat) (num den : Z) (k : Z) : Z :=
  match fuel with
  | O => k
  | S fuel =>
      if (if 0 <=? k then num <? den * 10 ^ k else num * 10 ^ (- k) <? den) then k
      else magnitude fuel num den (k + 1)
  end.

(** Without zeros at the end, and the power of ten that this takes away. *)
Fixpoint strip_zeros (fuel : nat) (m : Z) (e10 : Z) : Z * Z :=
  match fuel with
  | O => (m, e10)
  | S fuel => if m mod 10 =? 0 then strip_zeros fuel (m / 10) (e10 + 1) else (m, e10)
  end.

(** The nearest decimal of [n] digits that is read as the number, if there is one. *)
Definition decimal_of_length (m : positive) (e : Z) (num den k : Z) (n : Z) : option (Z * Z) :=
  let t := n - k in
  let num := if 0 <=? t then num * 10 ^ t else num in
  let den := if 0 <=? t then den else den * 10 ^ (- t) in
  let q := num / den in
  let reads c := match of_decimal false (Z.to_N c) (- t) with
                 | S754_finite _ m' e' => (m' =? m)%positive && (e' =? e)
                 | _ => false
                 end in
  let up := reads (q + 1) in
  if up && (negb (reads q) || (den <=? 2 * (num mod den))) then Some (strip_zeros 20 (q + 1) (- t))
  else if reads q then Some (q, - t)
  else None.

Fixpoint shortest_from (fuel : nat) (m : positive) (e num den k n : Z) : Z * Z :=
  match fuel with
  | O => (num / den, 0)
  | S fuel =>
      match decimal_of_length m e num den k n with
      | Some d => d
      | None => shortest_from fuel m e num den k (n + 1)
      end
  end.

(** The shortest decimal that is read as the number, the nearest of several: nine digits are enough
    for every number of the type. *)
Definition shortest (m : positive) (e : Z) : Z * Z :=
  let num := if 0 <=? e then Z.pos m * 2 ^ e else Z.pos m in
  let den := if 0 <=? e then 1 else 2 ^ (- e) in
  let k := (Z.log2 num - Z.log2 den - 1) * 3 / 10 - 1 in
  shortest_from 17 m e num den (magnitude 9 num den k) 1.

(** A decimal without an exponent. *)
Definition positional (m e10 : Z) : bytes :=
  let ds := to_string (Z.to_N m) in
  if 0 <=? e10 then ds ++ repeat "0"%byte (Z.to_nat e10)
  else
    let point := Z.of_nat (length ds) + e10 in
    if 0 <? point then take (Z.to_nat point) ds ++ "."%byte :: drop (Z.to_nat point) ds
    else bs "0." ++ repeat "0"%byte (Z.to_nat (- point)) ++ ds.

(** [f32::to_string]. *)
Definition f32_to_string (bits : N) : bytes :=
  let sign := if is_negative bits then bs "-" else [] in
  match from_bits bits with
  | S754_nan => bs "NaN"
  | S754_infinity _ => sign ++ bs "inf"
  | S754_zero _ => sign ++ bs "0"
  | S754_finite _ m e => let '(d, e10) := shortest m e in sign ++ positional d e10
  end.

(** The bits are those that a Rust program gives. *)
Example f32_ex :
  f32_parse (bs "0.5") = Some 0x3f000000%N /\ f32_parse (bs "1") = Some ONE /\ f32_parse (bs "0.1") = Some 0x3dcccccd%N
  /\ f32_parse (bs "0.3") = Some 0x3e99999a%N /\ f32_parse (bs ".001") = Some 0x3a83126f%N /\ f32_parse (bs "16777217") = Some 0x4b800000%N
  /\ f32_parse (bs "3.4028236e38") = Some INFINITY /\ f32_parse (bs "1e-45") = Some 1%N /\ f32_parse (bs "-0.") = Some SIGN
  /\ f32_parse (bs "-nan") = Some (SIGN + NAN)%N /\ f32_parse (bs ".") = None /\ f32_parse (bs "1 ") = None /\ f32_parse (bs "0x1") = None.
Proof. now vm_compute. Qed.

Example f32_to_string_ex :
  f32_to_string 0x3f000000 = bs "0.5" /\ f32_to_string 0x3dcccccd = bs "0.1" /\ f32_to_string ONE = bs "1"
  /\ f32_to_string 0x3f7fffff = bs "0.99999994" /\ f32_to_string 0x4b800000 = bs "16777216"
  /\ f32_to_string 1 = bs "0.000000000000000000000000000000000000000000001"
  /\ f32_to_string 0x7f7fffff = bs "340282350000000000000000000000000000000" /\ f32_to_string (SIGN + 0x3a83126f) = bs "-0.001"
  /\ f32_to_string 0x3e99999a = bs "0.3" /\ f32_to_string 0x40490fdb = bs "3.1415927".
Proof. now vm_compute. Qed.
