(* ===== verification/CommaList.v ===== *)
(** * Headers that are lists

    The headers of [rtsp-2/src/header/types/public.rs] and
    [rtsp-2/src/header/types/accept_ranges.rs] are sets of items that are written with commas. The
    two files have the same code over different items: it is modelled here once, over an interface
    of the items. The ordered set is that of the [linked_hash_set] crate: its operations are the
    class [LinkedSetOps] and the behaviour its documentation promises is the class
    [LinkedSetLaws]. *)

From Stdlib Require Import Strings.Byte.
From stdpp Require Import base list numbers strings.
From S2P Require Import Prelude Text Syntax HeaderName HeaderValue.

Local Open Scope nat_scope.

(** ** Splitting and joining *)

(** [str::split(c)] for an ASCII character: a string without it is one part. *)
Fixpoint split_on (c : byte) (s : bytes) : list bytes :=
  match s with
  | [] => [[]]
  | b :: s =>
      if bool_decide (b = c) then [] :: split_on c s
      else match split_on c s with
           | part :: parts => (b :: part) :: parts
           | [] => [[b]]
           end
  end.

(** [splitn(2, c)]: what is before the first [c], and what is after it if there is one. *)
Definition split_once (c : byte) (s : bytes) : bytes * option bytes :=
  match position (is_byte c) s with
  | Some i => (take i s, Some (drop (S i) s))
  | None => (s, None)
  end.

(** [Itertools::join]. *)
Fixpoint join (sep : bytes) (parts : list bytes) : bytes :=
  match parts with
  | [] => []
  | [part] => part
  | part :: parts => part ++ sep ++ join sep parts
  end.

(** What holds of the bytes of the separator and of the parts holds of what is joined. *)
Lemma joined_all (P : byte -> Prop) sep parts :
  Forall P sep -> Forall (Forall P) parts -> Forall P (join sep parts).
Proof.
  intros Hsep. induction 1 as [|p [|p' parts] Hp Hparts IH]; [constructor|exact Hp|].
  change (join sep (p :: p' :: parts)) with (p ++ sep ++ join sep (p' :: parts)).
  apply Forall_app. split; [exact Hp|]. now apply Forall_app.
Qed.

Lemma split_on_word c w : c ∉ w -> split_on c w = [w].
Proof.
  induction w as [|b w IH]; [done|]. rewrite not_elem_of_cons. intros [Hb Hw]. cbn.
  rewrite bool_decide_eq_false_2 by congruence. now rewrite IH.
Qed.

Lemma split_on_cons c w s : c ∉ w -> split_on c (w ++ c :: s) = w :: split_on c s.
Proof.
  induction w as [|b w IH]; [cbn; now rewrite bool_decide_eq_true_2|].
  rewrite not_elem_of_cons. intros [Hb Hw]. cbn.
  rewrite bool_decide_eq_false_2 by congruence. now rewrite IH.
Qed.

(** The parts of a string contain no separator and join to it. *)
Lemma split_on_parts c s : Forall (fun part => c ∉ part) (split_on c s) /\ join [c] (split_on c s) = s.
Proof.
  induction s as [|b s [IH1 IH2]]; cbn; [repeat constructor; apply not_elem_of_nil|].
  case_bool_decide as Hb; [subst b|].
  - split; [constructor; [apply not_elem_of_nil|done]|]. rewrite <- IH2 at 2. cbn.
    destruct (split_on c s) eqn:E; [|done]. now destruct s as [|b s]; cbn in E; repeat case_match.
  - destruct (split_on c s) as [|part parts]; [split; [|now rewrite <- IH2]|].
    + repeat constructor. rewrite list_elem_of_singleton. congruence.
    + inversion IH1; subst. split; [constructor; [rewrite not_elem_of_cons; split; [congruence|done]|done]|].
      now destruct parts.
Qed.

Lemma split_once_at c w rest : c ∉ w -> split_once c (w ++ c :: rest) = (w, Some rest).
Proof.
  intros Hc. unfold split_once.
  pose proof (position_word c w rest (length (w ++ c :: rest)) Hc) as Hp.
  rewrite take_ge in Hp by done. rewrite Hp by (rewrite length_app; cbn; lia).
  rewrite take_app_length, drop_app_ge by lia. now replace (S (length w) - length w)%nat with 1%nat by lia.
Qed.

Lemma split_once_none c w : c ∉ w -> split_once c w = (w, None).
Proof.
  intros Hc. unfold split_once. rewrite (proj2 (position_None _ _)); [done|].
  apply Forall_forall. intros b Hb. apply bool_decide_eq_false. intros ->. now apply Hc.
Qed.

Lemma split_once_inv c s a o :
  split_once c s = (a, o) ->
  c ∉ a /\ s = match o with Some b => a ++ c :: b | None => a end.
Proof.
  unfold split_once. destruct (position (is_byte c) s) as [i|] eqn:Ep; intros [= <- <-].
  - assert (Et : position (is_byte c) (take (length s) s) = Some i) by now rewrite take_ge.
    apply position_word_inv in Et as (_ & _ & E & Hc). now split.
  - split; [|done]. apply position_None in Ep. rewrite Forall_forall in Ep. intros Hc.
    apply Ep in Hc. now apply bool_decide_eq_false in Hc.
Qed.

(** The visible ASCII characters. *)
Definition graphic (b : byte) : bool := (33 <=? Byte.to_N b)%N && (Byte.to_N b <=? 126)%N.

Lemma graphic_no_blank b : graphic b = true -> no_blank b = true.
Proof. byte_cases b. Qed.

(** A blank in front is trimmed. *)
Lemma trim_space w : trim_whitespace (SP :: w) = trim_whitespace w.
Proof.
  unfold trim_whitespace. f_equal. rewrite !trim_whitespace_left_strip. apply (strip_left_whitespace [SP]).
  now constructor; [|constructor].
Qed.

(** What may stand between the commas of a list: printable, without commas and blanks around it. *)
Definition list_text (w : bytes) : Prop :=
  Forall (fun b => 32 <= Byte.to_N b <= 126 /\ b <> ","%byte)%N w /\ trim_whitespace w = w.

Lemma list_text_no_comma w : list_text w -> ","%byte ∉ w.
Proof. intros [Hw _] Hc. rewrite Forall_forall in Hw. now destruct (Hw _ Hc). Qed.

(** A word is such a text. *)
Lemma word_text w : Forall (fun b => graphic b = true /\ b <> ","%byte) w -> list_text w.
Proof.
  intros Hw. split.
  - apply (Forall_impl _ _ _ Hw). intros b [Hb Hc]. split; [|done].
    apply andb_prop in Hb as [?%N.leb_le ?%N.leb_le]. lia.
  - apply trim_word. apply (Forall_impl _ _ _ Hw). intros b [Hb _]. now apply graphic_no_blank.
Qed.

(** ** The ordered set of the [linked_hash_set] crate *)

(** [LinkedHashSet::new], [insert], [iter]. *)
Class LinkedSetOps (S A : Type) := {
  set_new : S;
  set_insert : A -> S -> S;
  set_iter : S -> list A;
}.

(** An item that is inserted is the last one of the order, also when the set contained it. *)
Class LinkedSetLaws (S A : Type) `{EqDecision A} `{!LinkedSetOps S A} : Prop := {
  set_iter_new : set_iter set_new = [];
  set_iter_insert a s : set_iter (set_insert a s) = filter (fun b => b <> a) (set_iter s) ++ [a];
}.

(** Items in the order of their last occurrences. *)
Definition last_occurrences `{EqDecision A} (l : list A) : list A :=
  foldl (fun l a => filter (fun b => b <> a) l ++ [a]) [] l.

Lemma filter_ne_absent `{EqDecision A} (a : A) (l : list A) : a ∉ l -> filter (fun b => b <> a) l = l.
Proof.
  induction l as [|b l IH]; [done|]. rewrite not_elem_of_cons. intros [Hb Hl]. rewrite filter_cons.
  rewrite decide_True by congruence. now rewrite IH.
Qed.

Lemma last_occurrences_nodup `{EqDecision A} (l : list A) : NoDup l -> last_occurrences l = l.
Proof.
  enough (forall acc, NoDup (acc ++ l) ->
            foldl (fun l a => filter (fun b => b <> a) l ++ [a]) acc l = acc ++ l) as Hl
    by exact (Hl []).
  induction l as [|a l IH]; intros acc Hd; cbn; [now rewrite app_nil_r|].
  rewrite filter_ne_absent, IH; rewrite <- ?app_assoc; try done.
  apply NoDup_app in Hd as (_ & Hd & _). intros Ha. apply (Hd a Ha), list_elem_of_here.
Qed.

(** Only a list in which nothing is repeated keeps its length. *)
Lemma last_occurrences_length `{EqDecision A} (l : list A) :
  length (last_occurrences l) <= length l
  /\ (length (last_occurrences l) = length l -> last_occurrences l = l).
Proof.
  enough (forall acc, let r := foldl (fun l a => filter (fun b => b <> a) l ++ [a]) acc l in
            length r <= length acc + length l /\ (length r = length acc + length l -> r = acc ++ l)) as Hl
    by exact (Hl []).
  induction l as [|a l IH]; intros acc; cbn; [rewrite app_nil_r; split; [lia|done]|].
  pose proof (length_filter (fun b => b <> a) acc) as Hf.
  destruct (IH (filter (fun b => b <> a) acc ++ [a])) as [Hle Heq]. rewrite length_app in Hle, Heq. cbn in Hle, Heq.
  split; [lia|]. intros E. destruct (decide (a ∈ acc)) as [Ha|Ha].
  - pose proof (length_filter_lt (fun b => b <> a) acc a Ha ltac:(auto)). lia.
  - rewrite (filter_ne_absent a acc Ha) in *. rewrite Heq by lia. now rewrite <- app_assoc.
Qed.

(** ** The header *)

(** What an item is written as and read from. *)
Class ListItem (A E : Type) := {
  item_as_str : A -> bytes;
  item_try_from : bytes -> Result A E;
}.

(** The [valid] items are read back from what they are written as, which can stand in a list; the
    empty text is no item. *)
Class ListItemLaws (A E : Type) `{!ListItem A E} (valid : A -> Prop) : Prop := {
  item_roundtrip a : valid a -> item_try_from (item_as_str a) = Ok a;
  item_text a : valid a -> list_text (item_as_str a);
  item_empty : exists e, item_try_from [] = Err e;
}.

(** What is read is [valid]. *)
Class ListItemReads (A E : Type) `{!ListItem A E} (valid : A -> Prop) : Prop := {
  item_valid w a : item_try_from w = Ok a -> valid a;
}.

Section CommaList.
Context {S A E : Type} `{EqDecision A} `{!ListItem A E} `{!LinkedSetOps S A}.

(** The inner loop of [decode], over the parts of a value. *)
Fixpoint decode_parts (parts : list bytes) (items : S) : Result S E :=
  match parts with
  | [] => Ok items
  | part :: parts =>
      match item_try_from (trim_whitespace part) with
      | Ok item => decode_parts parts (set_insert item items)
      | Err e => Err e
      end
  end.

(** The outer loop, with the flag [present]. *)
Fixpoint decode_values (values : list HeaderValue) (items : S) (present : bool) :
    Result (S * bool) E :=
  match values with
  | [] => Ok (items, present)
  | value :: values =>
      match decode_parts (split_on ","%byte (as_str value)) items with
      | Ok items => decode_values values items true
      | Err e => Err e
      end
  end.

Definition list_decode (values : list HeaderValue) : Result (option S) E :=
  match decode_values values set_new false with
  | Ok (items, present) => Ok (if present then Some items else None)
  | Err e => Err e
  end.

Definition list_encode (self : S) : list HeaderValue :=
  [mkHeaderValue (join (bs ", ") (item_as_str <$> set_iter self))].

(** [FromIterator]. *)
Definition set_from_iter (items : list A) : S := foldl (fun s a => set_insert a s) set_new items.

(** The parts of the values, in order. *)
Definition value_parts (values : list HeaderValue) : list bytes :=
  trim_whitespace <$> (values ≫= fun v => split_on ","%byte (as_str v)).

(** Reading words one after the other: the first that is not an item gives the error. *)
Fixpoint read_items (words : list bytes) : Result (list A) E :=
  match words with
  | [] => Ok []
  | w :: words =>
      match item_try_from w with
      | Ok a => match read_items words with Ok l => Ok (a :: l) | Err e => Err e end
      | Err e => Err e
      end
  end.

Lemma decode_parts_read parts items :
  decode_parts parts items
  = match read_items (trim_whitespace <$> parts) with
    | Ok l => Ok (foldl (fun s a => set_insert a s) items l)
    | Err e => Err e
    end.
Proof.
  revert items. induction parts as [|p parts IH]; intros items; [done|]. cbn.
  destruct (item_try_from (trim_whitespace p)) as [a|e]; [|done]. rewrite IH.
  now destruct (read_items (trim_whitespace <$> parts)).
Qed.

Lemma read_items_app l k :
  read_items (l ++ k)
  = match read_items l with
    | Ok a => match read_items k with Ok b => Ok (a ++ b) | Err e => Err e end
    | Err e => Err e
    end.
Proof.
  induction l as [|w l IH]; cbn; [now destruct (read_items k)|].
  destruct (item_try_from w) as [a|e]; [|done]. rewrite IH.
  destruct (read_items l); [|done]. now destruct (read_items k).
Qed.

Lemma decode_values_read values items present :
  decode_values values items present
  = match read_items (value_parts values) with
    | Ok l => Ok (foldl (fun s a => set_insert a s) items l,
                  match values with [] => present | _ => true end)
    | Err e => Err e
    end.
Proof.
  revert items present. induction values as [|v values IH]; intros items present; [done|].
  unfold value_parts. cbn. rewrite fmap_app, read_items_app, decode_parts_read.
  destruct (read_items (_ <$> split_on _ (as_str v))) as [l|e]; [|done]. rewrite IH.
  unfold value_parts. destruct (read_items _) as [k|e]; [|done].
  rewrite foldl_app. now destruct values.
Qed.

(** Words that are all items, one by one. *)
Lemma read_items_Forall2 words l :
  read_items words = Ok l <-> Forall2 (fun w a => item_try_from w = Ok a) words l.
Proof.
  revert l. induction words as [|w words IH]; intros l; cbn [read_items].
  - split; [now intros [= <-]|]. intros Hl. now inversion Hl.
  - split.
    + destruct (item_try_from w) as [a|e] eqn:Ea; [|done]. destruct (read_items words) as [k|e]; [|done].
      intros [= <-]. constructor; [exact Ea|now apply IH].
    + intros Hl. inversion Hl as [|? a ? k Ha Hk]; subst. apply IH in Hk. now rewrite Ha, Hk.
Qed.

(** The parts have no commas. *)
Lemma value_parts_no_comma values : Forall (fun w => ","%byte ∉ w) (value_parts values).
Proof.
  unfold value_parts. apply Forall_fmap, Forall_bind, Forall_forall. intros v _.
  eapply Forall_impl; [exact (proj1 (split_on_parts ","%byte (as_str v)))|]. intros w Hw Hin. apply Hw.
  destruct (trim_whitespace_inv w) as (pre & post & Ew & _). rewrite Ew, !elem_of_app. tauto.
Qed.

(** The loops of [decode] read all the parts and collect what they read. *)
Lemma list_decode_read values :
  list_decode values
  = match read_items (value_parts values) with
    | Ok l => Ok (match values with [] => None | _ => Some (set_from_iter l) end)
    | Err e => Err e
    end.
Proof.
  unfold list_decode. rewrite decode_values_read.
  destruct (read_items (value_parts values)); [|done]. now destruct values.
Qed.

Context `{!LinkedSetLaws S A}.

Lemma set_iter_from_iter l : set_iter (set_from_iter l) = last_occurrences l.
Proof.
  enough (forall s, set_iter (foldl (fun s a => set_insert a s) s l)
            = foldl (fun l a => filter (fun b => b <> a) l ++ [a]) (set_iter s) l) as Hl
    by (unfold set_from_iter; now rewrite Hl, set_iter_new).
  induction l as [|a l IH]; intros s; [done|]. cbn. now rewrite IH, set_iter_insert.
Qed.

Context (valid : A -> Prop) `{!ListItemLaws A E valid}.

Lemma read_items_written items :
  Forall valid items -> read_items (item_as_str <$> items) = Ok items.
Proof.
  induction 1 as [|a items Ha _ IH]; [done|]. cbn. rewrite item_roundtrip by done. now rewrite IH.
Qed.

Lemma split_joined items :
  items <> [] -> Forall (fun a => list_text (item_as_str a)) items ->
  trim_whitespace <$> split_on ","%byte (join (bs ", ") (item_as_str <$> items)) = item_as_str <$> items.
Proof.
  intros Hne Hv. destruct items as [|a items]; [done|]. clear Hne.
  assert (Hrest : forall pre, ","%byte ∉ pre -> (forall w, trim_whitespace (pre ++ w) = trim_whitespace w) ->
            trim_whitespace <$> split_on ","%byte (pre ++ join (bs ", ") (item_as_str <$> a :: items))
            = item_as_str <$> a :: items).
  2:{ exact (Hrest [] (not_elem_of_nil _) (fun w => eq_refl)). }
  revert a Hv. induction items as [|b items IH]; intros a [Ha Hitems]%Forall_cons pre Hp Ht;
    pose proof (list_text_no_comma _ Ha) as Hc.
  - cbn [fmap list_fmap join]. rewrite split_on_word by (rewrite elem_of_app; tauto).
    cbn. rewrite Ht. f_equal. apply Ha.
  - change (join (bs ", ") (item_as_str <$> a :: b :: items))
      with (item_as_str a ++ ","%byte :: [SP] ++ join (bs ", ") (item_as_str <$> b :: items)).
    rewrite app_assoc, split_on_cons by (rewrite elem_of_app; tauto).
    rewrite fmap_cons, Ht, IH; [|done| |intros w; apply trim_space].
    + cbn. f_equal. apply Ha.
    + now rewrite list_elem_of_singleton.
Qed.

(** What is written is read back, in the same order, unless the set is empty: an empty value is not
    a list. *)
Lemma list_decode_encode (self : S) :
  Forall valid (set_iter self) -> NoDup (set_iter self) ->
  match set_iter self with
  | [] => exists e, list_decode (list_encode self) = Err e
  | _ => exists self', list_decode (list_encode self) = Ok (Some self')
           /\ set_iter self' = set_iter self
  end.
Proof.
  intros Hv Hd. rewrite list_decode_read. unfold list_encode, value_parts. cbn [mbind list_bind as_str].
  rewrite app_nil_r. destruct (set_iter self) as [|a items] eqn:Ei.
  - destruct item_empty as [e He]. exists e. cbn. rewrite trim_word by constructor. now rewrite He.
  - rewrite split_joined; [|done|now apply (Forall_impl _ _ _ Hv), item_text].
    rewrite read_items_written by done.
    eexists. split; [reflexivity|]. rewrite set_iter_from_iter. now apply last_occurrences_nodup.
Qed.

(** What is written is a header value. *)
Lemma list_encode_value (self : S) :
  Forall valid (set_iter self) ->
  Forall (fun v => HeaderValue.try_from (as_str v) = Ok v) (list_encode self).
Proof.
  intros Hv. constructor; [|constructor]. apply printable_value. cbn [as_str].
  apply (joined_all (fun b => 32 <= Byte.to_N b <= 126)%N); [repeat constructor; now vm_compute|].
  apply Forall_fmap. eapply Forall_impl; [exact Hv|]. intros a Ha.
  apply (Forall_impl _ _ _ (proj1 (item_text a Ha))). now intros b [Hb _].
Qed.

Context `{!ListItemReads A E valid}.

(** What is read is valid and is listed once. *)
Lemma read_items_valid words l : read_items words = Ok l -> Forall valid l.
Proof.
  revert l. induction words as [|w words IH]; intros l; cbn; [now intros [= <-]|].
  destruct (item_try_from w) as [a|e] eqn:Ea; [|done].
  destruct (read_items words) as [l'|e]; [|done]. intros [= <-].
  constructor; [exact (item_valid w a Ea)|now apply IH].
Qed.

(** Decoding, on every branch. *)
Lemma list_decode_spec values :
  match read_items (value_parts values) with
  | Err e => list_decode values = Err e
  | Ok l => Forall valid l
      /\ match values with
         | [] => list_decode values = Ok None
         | _ => exists s, list_decode values = Ok (Some s) /\ set_iter s = last_occurrences l
         end
  end.
Proof.
  rewrite list_decode_read. destruct (read_items (value_parts values)) as [l|e] eqn:El; [|done].
  split; [exact (read_items_valid _ _ El)|].
  destruct values; [done|]. eexists. split; [reflexivity|]. apply set_iter_from_iter.
Qed.
End CommaList.

(** A list of the items in their order is such a set. *)
#[export] Instance list_linked_set `{EqDecision A} : LinkedSetOps (list A) A := {|
  set_new := [];
  set_insert a s := filter (fun b => b <> a) s ++ [a];
  set_iter s := s;
|}.

#[export] Instance list_linked_set_laws `{EqDecision A} : LinkedSetLaws (list A) A.
Proof. now split. Qed.
