(* ===== verification/AcceptRanges.v ===== *)
(** * The Accept-Ranges header

    Model of [rtsp-2/src/header/types/accept_ranges.rs]: the range formats and the header, which is a
    set of them. *)

From Stdlib Require Import Strings.Byte.
From stdpp Require Import base list numbers strings.
From S2P Require Import Prelude Text Syntax HeaderName HeaderValue HeaderMap CommaList.

Local Open Scope nat_scope.

(** ** Range formats *)

Inductive RangeFormat :=
  | Clock | Extension (name : bytes) | NPT | SMPTE | SMPTE25 | SMPTE30Drop.

#[export] Instance range_format_eq_dec : EqDecision RangeFormat.
Proof. solve_decision. Defined.

Inductive RangeFormatError := Empty | InvalidCharacter.

#[export] Instance range_format_error_eq_dec : EqDecision RangeFormatError.
Proof. solve_decision. Defined.

Definition as_str (f : RangeFormat) : bytes :=
  match f with
  | Clock => bs "clock"
  | NPT => bs "npt"
  | SMPTE => bs "smpte"
  | SMPTE25 => bs "smpte-25"
  | SMPTE30Drop => bs "smpte-30-drop"
  | Extension name => name
  end.

Definition extension (value : bytes) : Result RangeFormat RangeFormatError :=
  if bool_decide (value = []) then Err Empty
  else if negb (is_token value) then Err InvalidCharacter
  else Ok (Extension (to_ascii_lowercase <$> value)).

(** The [check_range_format!] macro. *)
Definition check_range_format (f : RangeFormat) (value : bytes) : bool :=
  check_name to_ascii_lowercase (as_str f) value.

Definition try_from (value : bytes) : Result RangeFormat RangeFormatError :=
  match length value with
  | 3 => if check_range_format NPT value then Ok NPT else extension value
  | 5 => if check_range_format Clock value then Ok Clock
         else if check_range_format SMPTE value then Ok SMPTE
         else extension value
  | 8 => if check_range_format SMPTE25 value then Ok SMPTE25 else extension value
  | 13 => if check_range_format SMPTE30Drop value then Ok SMPTE30Drop else extension value
  | _ => extension value
  end.

(** [PartialEq] with [[u8]] and [str], in both directions. *)
Definition range_format_eq_bytes (f : RangeFormat) (other : bytes) : bool :=
  eq_ignore_ascii_case (as_str f) other.

Definition standard_formats : list RangeFormat := [Clock; NPT; SMPTE; SMPTE25; SMPTE30Drop].

(** An extension is a lower-case token that is not a standard name. *)
Definition range_format_wf (f : RangeFormat) : Prop :=
  match f with
  | Extension name =>
      is_token name = true /\ to_ascii_lowercase <$> name = name
      /\ Forall (fun f => as_str f <> name) standard_formats
  | _ => True
  end.

(** ** The header *)

#[export] Instance range_format_item : ListItem RangeFormat RangeFormatError := {|
  item_as_str := as_str;
  item_try_from := try_from;
|}.

Section AcceptRanges.
Context {S : Type} `{!LinkedSetOps S RangeFormat}.

(** [AcceptRanges(LinkedHashSet<RangeFormat>)]. *)
Record AcceptRanges := mkAcceptRanges { range_formats : S }.

Definition accept_ranges_new : AcceptRanges := mkAcceptRanges set_new.

Definition accept_ranges_from_iter (items : list RangeFormat) : AcceptRanges :=
  mkAcceptRanges (set_from_iter items).

Definition decode (values : list HeaderValue) : Result (option AcceptRanges) RangeFormatError :=
  result_map (fmap mkAcceptRanges) (list_decode values).

Definition encode (self : AcceptRanges) : list HeaderValue := list_encode (range_formats self).
End AcceptRanges.
Arguments AcceptRanges S : clear implicits.

#[export] Instance typed_header_accept_ranges {S} `{!LinkedSetOps S RangeFormat} :
    TypedHeader (AcceptRanges S) := {|
  HeaderDecodeError := RangeFormatError;
  typed_decode := decode;
  typed_encode := encode;
  header_name := HeaderName.AcceptRanges;
|}.

Example accept_ranges_ex :
  decode (S := list RangeFormat) [mkHeaderValue (bs "clock, NPT"); mkHeaderValue (bs "clock")]
  = Ok (Some (mkAcceptRanges [NPT; Clock]))
  /\ encode (accept_ranges_from_iter (S := list RangeFormat) [Clock; NPT])
     = [mkHeaderValue (bs "clock, npt")].
Proof. now vm_compute. Qed.

(** ** What decoding a format does *)

Lemma range_format_try_from_search value :
  try_from value = table_search to_ascii_lowercase as_str standard_formats extension value.
Proof.
  unfold try_from, table_search, standard_formats, check_range_format.
  destruct (length value) as [|n] eqn:Hn; [bucket Hn|].
  do 13 (destruct n as [|n]; [bucket Hn|]). bucket Hn.
Qed.

Lemma standard_format_inj f f' :
  In f standard_formats -> In f' standard_formats -> as_str f = as_str f' -> f = f'.
Proof. cbn. intros; destruct_or?; subst; done. Qed.

Lemma range_format_extension_Ok value f :
  extension value = Ok f <-> is_token value = true /\ f = Extension (to_ascii_lowercase <$> value).
Proof.
  unfold extension. case_bool_decide as Hv; [subst; naive_solver|].
  destruct (is_token value); naive_solver.
Qed.

Lemma range_format_try_from_iff value f :
  try_from value = Ok f <-> range_format_wf f /\ to_ascii_lowercase <$> value = as_str f.
Proof.
  rewrite range_format_try_from_search, table_search_iff by exact standard_format_inj.
  rewrite range_format_extension_Ok. split.
  - intros [[Hin Hf]|[Hall [Htok ->]]].
    + split; [|done]. cbn in Hin. now destruct_or? Hin; subst.
    + split; [|done]. cbn [range_format_wf]. now rewrite is_token_lowercase, lowercase_idemp.
  - intros [Hwf Hf]. destruct f as [|name| | | |]; try (left; split; [cbn; tauto|exact Hf]).
    right. destruct Hwf as (Htok & Hlow & Hall). cbn in Hf. subst name. split; [exact Hall|].
    now rewrite is_token_lowercase in Htok.
Qed.

(** What a valid format is written as is a word. *)
Lemma token_word name :
  is_token name = true -> Forall (fun b => graphic b = true /\ b <> ","%byte) name.
Proof.
  unfold is_token. case_bool_decide; [done|]. intros Ht. apply Forall_forall. intros b Hb.
  rewrite forallb_forall in Ht. apply list_elem_of_In in Hb. specialize (Ht b Hb). revert Ht.
  clear. byte_cases b; now split.
Qed.

#[export] Instance range_format_item_laws :
  ListItemLaws RangeFormat RangeFormatError range_format_wf.
Proof.
  split.
  - intros f Hf. apply range_format_try_from_iff. split; [done|].
    destruct f as [|name| | | |]; try reflexivity. now destruct Hf as (_ & Hl & _).
  - intros f Hf. apply word_text, token_word. destruct f as [|name| | | |]; try reflexivity. apply Hf.
  - now exists Empty.
Qed.

#[export] Instance range_format_item_reads : ListItemReads RangeFormat RangeFormatError range_format_wf.
Proof. split. now intros w f [Hf _]%range_format_try_from_iff. Qed.

(** ** Properties *)

(** Decoding a range format succeeds with [f] exactly when [f] is a valid format whose name is the
    lower-case form of the input, so that case is ignored and an extension is never a standard
    name; otherwise the error tells whether the input was empty. *)
Theorem range_format_try_from_spec (value : bytes) :
  (forall f, try_from value = Ok f <-> range_format_wf f /\ to_ascii_lowercase <$> value = as_str f)
  /\ (forall e, try_from value = Err e -> e = if bool_decide (value = []) then Empty else InvalidCharacter).
Proof.
  split; [exact (range_format_try_from_iff value)|]. rewrite range_format_try_from_search.
  unfold table_search, extension. intros e. destruct (List.find _ _); [done|].
  case_bool_decide; [now intros [= <-]|]. destruct (is_token value); [done|now intros [= <-]].
Qed.

(** The Accept-Ranges header. Decoding reads the parts of all the values in order: it fails with the
    error of the first part that is no range format, and otherwise gives the valid formats in the
    order of their last occurrences. What is encoded is a header value that decodes to the same
    formats in the same order, unless there are none: the header without formats is encoded as an
    empty value, which is refused. *)
Theorem accept_ranges_spec {S} `{!LinkedSetOps S RangeFormat} `{!LinkedSetLaws S RangeFormat}
    (values : list HeaderValue) (self : AcceptRanges S) :
  Forall range_format_wf (set_iter (range_formats self)) -> NoDup (set_iter (range_formats self)) ->
  (match read_items (value_parts values) with
   | Err e => decode (S := S) values = Err e
   | Ok l => Forall range_format_wf l
       /\ match values with
          | [] => decode (S := S) values = Ok None
          | _ => exists s, decode (S := S) values = Ok (Some (mkAcceptRanges s))
                   /\ set_iter s = last_occurrences l
          end
   end)
  /\ Forall (fun v => HeaderValue.try_from (HeaderValue.as_str v) = Ok v) (encode self)
  /\ match set_iter (range_formats self) with
     | [] => decode (S := S) (encode self) = Err Empty
     | _ => exists s, decode (S := S) (encode self) = Ok (Some (mkAcceptRanges s))
              /\ set_iter s = set_iter (range_formats self)
     end.
Proof.
  intros Hv Hd. unfold decode, encode. split; [|split].
  - pose proof (list_decode_spec (S := S) range_format_wf values) as Hs.
    destruct (read_items (value_parts values)) as [l|e]; [|now rewrite Hs].
    destruct Hs as [Hl Hs]. split; [done|]. destruct values; [now rewrite Hs|].
    destruct Hs as (s & -> & Hs). now exists s.
  - exact (list_encode_value range_format_wf (range_formats self) Hv).
  - pose proof (list_decode_encode range_format_wf (range_formats self) Hv Hd) as Hr.
    destruct (set_iter (range_formats self)) as [|f l] eqn:Ei.
    + unfold list_encode. rewrite Ei. reflexivity.
    + destruct Hr as (s & -> & Hs). now exists s.
Qed.

Lemma accept_ranges_spec_witness :
  decode (S := list RangeFormat) (encode (accept_ranges_new (S := list RangeFormat))) = Err Empty.
Proof.
  refine (proj2 (proj2 (accept_ranges_spec (S := list RangeFormat) [] accept_ranges_new _ _))); constructor.
Defined.
