(* ===== verification/Public.v ===== *)
(** * The Public header

    Model of [rtsp-2/src/header/types/public.rs]: the header is a set of methods. *)

From Stdlib Require Import Strings.Byte.
From stdpp Require Import base list numbers strings.
From S2P Require Import Prelude Text Syntax Method HeaderName HeaderValue HeaderMap CommaList AcceptRanges.

#[export] Instance method_item : ListItem Method MethodError := {|
  item_as_str := Method.as_str;
  item_try_from := Method.try_from;
|}.

Section Public.
Context {S : Type} `{!LinkedSetOps S Method}.

(** [Public(LinkedHashSet<Method>)]. *)
Record Public := mkPublic { methods : S }.

Definition public_new : Public := mkPublic set_new.

Definition public_from_iter (items : list Method) : Public := mkPublic (set_from_iter items).

Definition decode (values : list HeaderValue) : Result (option Public) MethodError :=
  result_map (fmap mkPublic) (list_decode values).

Definition encode (self : Public) : list HeaderValue := list_encode (methods self).
End Public.
Arguments Public S : clear implicits.

#[export] Instance typed_header_public {S} `{!LinkedSetOps S Method} : TypedHeader (Public S) := {|
  HeaderDecodeError := MethodError;
  typed_decode := decode;
  typed_encode := encode;
  header_name := HeaderName.Public;
|}.

Example public_ex :
  decode (S := list Method) [mkHeaderValue (bs "SETUP, play"); mkHeaderValue (bs "x-y")]
  = Ok (Some (mkPublic [Setup; Play; Method.Extension (bs "X-Y")]))
  /\ encode (public_from_iter (S := list Method) [Play; Setup]) = [mkHeaderValue (bs "PLAY, SETUP")].
Proof. now vm_compute. Qed.

#[export] Instance method_item_laws : ListItemLaws Method MethodError method_wf.
Proof.
  split.
  - intros m Hm. apply method_try_from_iff. split; [done|].
    destruct m as [| | | | | | | | | |name]; try reflexivity. now destruct Hm as (_ & _ & Hu & _).
  - intros m Hm. apply word_text, token_word. destruct m as [| | | | | | | | | |name]; try reflexivity. apply Hm.
  - now exists Method.Empty.
Qed.

#[export] Instance method_item_reads : ListItemReads Method MethodError method_wf.
Proof. split. now intros w m [Hm _]%method_try_from_iff. Qed.

(** ** Properties *)

(** The Public header. Decoding reads the parts of all the values in order: it fails with the error
    of the first part that is no method, and otherwise gives the valid methods in the order of
    their last occurrences. What is encoded is a header value that decodes to the same methods in
    the same order, unless there are none: the header without methods is encoded as an empty value,
    which is refused. *)
Theorem public_spec {S} `{!LinkedSetOps S Method} `{!LinkedSetLaws S Method}
    (values : list HeaderValue) (self : Public S) :
  Forall method_wf (set_iter (methods self)) -> NoDup (set_iter (methods self)) ->
  (match read_items (value_parts values) with
   | Err e => decode (S := S) values = Err e
   | Ok l => Forall method_wf l
       /\ match values with
          | [] => decode (S := S) values = Ok None
          | _ => exists s, decode (S := S) values = Ok (Some (mkPublic s))
                   /\ set_iter s = last_occurrences l
          end
   end)
  /\ Forall (fun v => HeaderValue.try_from (HeaderValue.as_str v) = Ok v) (encode self)
  /\ match set_iter (methods self) with
     | [] => decode (S := S) (encode self) = Err Method.Empty
     | _ => exists s, decode (S := S) (encode self) = Ok (Some (mkPublic s))
              /\ set_iter s = set_iter (methods self)
     end.
Proof.
  intros Hv Hd. unfold decode, encode. split; [|split].
  - pose proof (list_decode_spec (S := S) method_wf values) as Hs.
    destruct (read_items (value_parts values)) as [l|e]; [|now rewrite Hs].
    destruct Hs as [Hl Hs]. split; [done|]. destruct values; [now rewrite Hs|].
    destruct Hs as (s & -> & Hs). now exists s.
  - exact (list_encode_value method_wf (methods self) Hv).
  - pose proof (list_decode_encode method_wf (methods self) Hv Hd) as Hr.
    destruct (set_iter (methods self)) as [|f l] eqn:Ei.
    + unfold list_encode. rewrite Ei. reflexivity.
    + destruct Hr as (s & -> & Hs). now exists s.
Qed.

Lemma public_spec_witness :
  exists s, decode (S := list Method) (encode (mkPublic [Options; Setup])) = Ok (Some (mkPublic s))
    /\ set_iter s = [Options; Setup].
Proof.
  refine (proj2 (proj2 (public_spec (S := list Method) [] (mkPublic [Options; Setup]) _ _)));
    [repeat constructor|apply NoDup_cons; split; [now apply not_elem_of_cons|apply NoDup_singleton]].
Defined.
