(* ===== verification/Accept.v ===== *)
(** * The Accept header

    Model of [rtsp-2/src/header/types/accept.rs]: media types with a quality, which is kept as the
    bits of a number in floating point. The media types themselves are those of the [mime] crate: its
    operations are the class [MimeOps], what its documentation promises is the class [MimeLaws]. The
    header is a list, read and written by the loops of [CommaList]. *)

From Stdlib Require Import Strings.Byte ZArith Floats.SpecFloat.
From stdpp Require Import base list numbers strings.
From S2P Require Import Prelude Text Syntax HeaderName HeaderValue HeaderMap Float32 CommaList.

Local Open Scope N_scope.

(** ** Qualities *)

(** [QualityParam]: the bits of its number. *)
Record QualityParam := mkQualityParam { quality_bits : N }.

Inductive AcceptError := InvalidUtf8 | InvalidSyntax.

#[export] Instance quality_eq_dec : EqDecision QualityParam.
Proof. solve_decision. Defined.

(** [QualityParam::new]. *)
Definition quality_new (q_value : N) : QualityParam :=
  mkQualityParam
    (if f32_ltb q_value 0 then 0
     else if f32_ltb ONE q_value then ONE
     else q_value).

(** [QualityParam::try_from], on bytes: [rsplitn(2, "=")] gives the text after the last equals sign
    first. *)
Definition quality_try_from (value : bytes) : Result QualityParam AcceptError :=
  if is_utf8 value then
    match f32_parse (List.last (split_on "="%byte value) []) with
    | Some q => Ok (quality_new q)
    | None => Err InvalidSyntax
    end
  else Err InvalidUtf8.

(** [Display]. *)
Definition quality_to_string (self : QualityParam) : bytes := bs "q=" ++ f32_to_string (quality_bits self).

(** ** Media types *)

(** [Mime] up to its equality, with [FromStr] and [Display]. *)
Class MimeOps := {
  Mime : Type;
  #[global] mime_eq_dec :: EqDecision Mime;
  mime_parse : bytes -> option Mime;
  mime_to_string : Mime -> bytes;
}.

(** A media type is read back from its text, which is printable ASCII without blanks around it; the
    empty text is no media type; and only a media type with parameters, which has them in its text,
    is written with a semicolon or a comma. *)
Class MimeLaws `{!MimeOps} : Prop := {
  mime_roundtrip m : mime_parse (mime_to_string m) = Some m;
  mime_printable m : Forall (fun b => 32 <= Byte.to_N b <= 126) (mime_to_string m);
  mime_trimmed m : trim_whitespace (mime_to_string m) = mime_to_string m;
  mime_empty : mime_parse [] = None;
  mime_separators w m c :
    c = ";"%byte \/ c = ","%byte -> mime_parse w = Some m -> c ∉ w -> c ∉ mime_to_string m;
}.

Section MediaType.
Context `{!MimeOps}.

Record MediaType := mkMediaType { m_type : Mime; quality : option QualityParam }.

#[export] Instance media_type_eq_dec : EqDecision MediaType.
Proof. solve_decision. Defined.

(** [MediaType::new]. *)
Definition media_type_new (m_type : Mime) (quality : option QualityParam) : MediaType :=
  mkMediaType m_type quality.

(** [Display]. *)
Definition media_to_string (self : MediaType) : bytes :=
  match quality self with
  | Some quality => mime_to_string (m_type self) ++ bs " ;" ++ quality_to_string quality
  | None => mime_to_string (m_type self)
  end.

(** [MediaType::try_from], on bytes. *)
Definition media_try_from (value : bytes) : Result MediaType AcceptError :=
  let '(mediatype, rest) := split_once ";"%byte value in
  if is_utf8 mediatype then
    match mime_parse mediatype with
    | Some m_type =>
        match rest with
        | Some quality =>
            match quality_try_from quality with
            | Ok quality => Ok (mkMediaType m_type (Some quality))
            | Err _ => Err InvalidSyntax
            end
        | None => Ok (mkMediaType m_type None)
        end
    | None => Err InvalidSyntax
    end
  else Err InvalidUtf8.

#[export] Instance media_type_item : ListItem MediaType AcceptError := {|
  item_as_str := media_to_string;
  item_try_from := media_try_from;
|}.
End MediaType.
Arguments MediaType {_}.

(** ** The header *)

Section Accept.
Context `{!MimeOps} {S : Type} `{!LinkedSetOps S MediaType}.

Record Accept := mkAccept { media_types : S }.

(** [FromIterator]. *)
Definition accept_from_iter (items : list MediaType) : Accept := mkAccept (set_from_iter items).

Definition decode (values : list HeaderValue) : Result (option Accept) AcceptError :=
  result_map (fmap mkAccept) (list_decode values).

Definition encode (self : Accept) : list HeaderValue := list_encode (media_types self).
End Accept.
Arguments Accept S : clear implicits.

#[export] Instance typed_header_accept `{!MimeOps} {S} `{!LinkedSetOps S MediaType} : TypedHeader (Accept S) := {|
  HeaderDecodeError := AcceptError;
  typed_decode := decode;
  typed_encode := encode;
  header_name := HeaderName.Accept;
|}.

(** ** Qualities that are written in the syntax of the protocol *)

(** Lists of digits. *)
Definition DIGITS : list byte := [x30; x31; x32; x33; x34; x35; x36; x37; x38; x39].
Fixpoint digit_lists (n : nat) : list bytes :=
  match n with
  | O => [[]]
  | S n => ds ← digit_lists n; (fun d => d :: ds) <$> DIGITS
  end.

Lemma digit_lists_elem ds : Forall (fun b => is_ascii_digit b = true) ds -> ds ∈ digit_lists (length ds).
Proof.
  induction 1 as [|d ds Hd _ IH]; [apply list_elem_of_here|]. cbn [length digit_lists].
  apply list_elem_of_bind. exists ds. split; [|exact IH]. apply list_elem_of_fmap. exists d. split; [done|].
  revert Hd. clear. byte_cases d; try (intros _; repeat constructor).
Qed.

(** [qvalue = ( "0" [ "." *3DIGIT ] ) / ( "1" [ "." *3("0") ] )]. *)
Inductive Qvalue : bytes -> Prop :=
  | qvalue_zero : Qvalue (bs "0")
  | qvalue_part ds : Forall (fun b => is_ascii_digit b = true) ds -> (length ds <= 3)%nat -> Qvalue (bs "0." ++ ds)
  | qvalue_one : Qvalue (bs "1")
  | qvalue_ones n : (n <= 3)%nat -> Qvalue (bs "1." ++ repeat "0"%byte n).

Definition qvalues : list bytes :=
  [bs "0"; bs "1"] ++ (n ← [0; 1; 2; 3]%nat; (app (bs "0.") <$> digit_lists n) ++ [bs "1." ++ repeat "0"%byte n]).

Lemma qvalues_elem s : Qvalue s -> s ∈ qvalues.
Proof.
  assert (Hn : forall n, (n <= 3)%nat -> n ∈ [0; 1; 2; 3]%nat).
  { intros n Hn. do 4 (destruct n as [|n]; [repeat constructor|]). lia. }
  intros [|ds Hd Hl| |n Hl]; [repeat constructor| |repeat constructor|]; apply elem_of_app; right;
    apply list_elem_of_bind; [exists (length ds)|exists n]; (split; [|now apply Hn]); apply elem_of_app.
  - left. apply list_elem_of_fmap. exists ds. split; [done|]. now apply digit_lists_elem.
  - right. apply list_elem_of_here.
Qed.

(** A decimal without the zeros at its end, and without the point if nothing is left behind it. *)
Fixpoint drop_zeros (ds : bytes) : bytes :=
  match ds with
  | [] => []
  | d :: ds => match drop_zeros ds with [] => if bool_decide (d = "0"%byte) then [] else [d] | ds => d :: ds end
  end.
Definition canonical (s : bytes) : bytes :=
  match s with
  | d :: _ :: ds => match drop_zeros ds with [] => [d] | ds => d :: "."%byte :: ds end
  | _ => s
  end.

(** The value of a decimal, in thousandths. *)
Definition thousandths (s : bytes) : Z :=
  match parse_number s with Some (m, e10) => Z.of_N m * 10 ^ (3 + e10) | None => 0 end.

(** The bits of the number nearest to a thousandth. *)
Definition thousandth_bits (k : Z) : N := to_bits false (of_decimal false (Z.to_N k) (-3)).

(** What is computed for a quality: it is read with the bits of its value, written without needless
    zeros and read back. *)
Definition qvalue_check (s : bytes) : bool :=
  match quality_try_from (bs "q=" ++ s) with
  | Ok q =>
      (quality_bits q =? thousandth_bits (thousandths s)) && (0 <=? thousandths s)%Z && (thousandths s <=? 1000)%Z
      && bool_decide (quality_to_string q = bs "q=" ++ canonical s)
      && match quality_try_from (quality_to_string q) with Ok q' => bool_decide (q' = q) | Err _ => false end
  | Err _ => false
  end.

Lemma qvalues_check : forallb qvalue_check qvalues = true.
Proof. vm_compute. reflexivity. Qed.

Lemma thousandth_bits_step :
  forallb (fun k => thousandth_bits (Z.of_nat k) <? thousandth_bits (Z.of_nat (S k))) (seq 0 1000) = true.
Proof. vm_compute. reflexivity. Qed.

Lemma thousandth_bits_lt j k : (0 <= j < k)%Z -> (k <= 1000)%Z -> thousandth_bits j < thousandth_bits k.
Proof.
  intros Hj Hk. rewrite <- (Z2Nat.id j), <- (Z2Nat.id k) by lia.
  assert (Hlt : (Z.to_nat j < Z.to_nat k <= 1000)%nat) by lia. revert Hlt.
  generalize (Z.to_nat j) as m, (Z.to_nat k) as n. clear. intros m n [Hmn Hn].
  assert (Hstep : forall n, (n < 1000)%nat -> thousandth_bits (Z.of_nat n) < thousandth_bits (Z.of_nat (S n))).
  { intros i Hi. pose proof thousandth_bits_step as Hs. rewrite forallb_forall in Hs.
    apply N.ltb_lt, Hs. apply in_seq. lia. }
  induction Hmn as [|n Hmn IH]; [apply Hstep; lia|]. etransitivity; [apply IH; lia|]. apply Hstep. lia.
Qed.

(** The order of the bits is that of the values. *)
Lemma thousandth_bits_order j k :
  (0 <= j <= 1000)%Z -> (0 <= k <= 1000)%Z -> thousandth_bits j < thousandth_bits k <-> (j < k)%Z.
Proof.
  intros Hj Hk. destruct (Z.lt_trichotomy j k) as [Hlt|[->|Hlt]].
  - pose proof (thousandth_bits_lt j k ltac:(lia) ltac:(lia)). tauto.
  - lia.
  - pose proof (thousandth_bits_lt k j ltac:(lia) ltac:(lia)). lia.
Qed.

Lemma qvalue_spec s :
  Qvalue s ->
  exists q, quality_try_from (bs "q=" ++ s) = Ok q
    /\ quality_bits q = thousandth_bits (thousandths s) /\ (0 <= thousandths s <= 1000)%Z
    /\ quality_to_string q = bs "q=" ++ canonical s /\ quality_try_from (quality_to_string q) = Ok q.
Proof.
  intros Hs%qvalues_elem. pose proof qvalues_check as Hall. rewrite forallb_forall in Hall.
  apply list_elem_of_In, Hall in Hs. revert Hs. unfold qvalue_check.
  destruct (quality_try_from (bs "q=" ++ s)) as [q|e]; [|done].
  destruct (quality_try_from (quality_to_string q)) as [q'|e] eqn:Eback; [|now rewrite andb_false_r].
  intros [[[[Hb%N.eqb_eq Hz%Z.leb_le]%andb_prop Ho%Z.leb_le]%andb_prop Hw%bool_decide_eq_true]%andb_prop
          Hr%bool_decide_eq_true]%andb_prop.
  subst q'. exists q. split; [reflexivity|]. split; [exact Hb|]. split; [lia|]. split; [exact Hw|exact Eback].
Qed.

(** C34: Every quality in the syntax of RFC 7826 is read, as the number nearest to its value, which is between
    0 and 1; the bits of two qualities compare as their values do, so that equal qualities are equal
    however they are written; and it is written back without needless zeros, which is read as the
    same quality. *)
Theorem qvalues_read (s s' : bytes) :
  Qvalue s -> Qvalue s' ->
  exists q q', quality_try_from (bs "q=" ++ s) = Ok q /\ quality_try_from (bs "q=" ++ s') = Ok q'
    /\ quality_bits q <= ONE
    /\ (quality_bits q < quality_bits q' <-> (thousandths s < thousandths s')%Z)
    /\ (q = q' <-> thousandths s = thousandths s')
    /\ quality_to_string q = bs "q=" ++ canonical s /\ quality_try_from (quality_to_string q) = Ok q.
Proof.
  intros (q & Hq & Hb & Hr & Hw & Hback)%qvalue_spec (q' & Hq' & Hb' & Hr' & _)%qvalue_spec. exists q, q'.
  pose proof (thousandth_bits_order (thousandths s) (thousandths s') Hr Hr') as Hlt.
  pose proof (thousandth_bits_order (thousandths s') (thousandths s) Hr' Hr) as Hgt.
  pose proof (thousandth_bits_order 1000 (thousandths s) ltac:(lia) Hr) as Hone.
  change (thousandth_bits 1000) with ONE in Hone.
  rewrite <- Hb, <- Hb' in Hlt, Hgt. rewrite <- Hb in Hone.
  split; [exact Hq|]. split; [exact Hq'|]. split; [lia|]. split; [exact Hlt|]. split; [|split; [exact Hw|exact Hback]].
  split; [|intros E; destruct q, q'; cbn in *; f_equal; congruence]. intros <-. lia.
Qed.

(** ** The bits of a quality *)

Lemma bits_split b :
  b < 2 ^ 32 ->
  b = (if is_negative b then SIGN else 0) + N.shiftr b 23 mod 256 * 2 ^ 23 + b mod 2 ^ 23.
Proof.
  intros Hb. unfold is_negative, SIGN. rewrite N.shiftr_div_pow2.
  pose proof (N.div_mod b (2 ^ 23) ltac:(done)) as E1. pose proof (N.mod_lt b (2 ^ 23) ltac:(done)).
  set (h := b / 2 ^ 23) in *. pose proof (N.div_mod h 256 ltac:(done)) as E2. pose proof (N.mod_lt h 256 ltac:(done)).
  assert (Eh : h / 256 = b / 2 ^ 31).
  { unfold h. rewrite N.Div0.div_div. reflexivity. }
  rewrite N.testbit_eqb. rewrite <- Eh. assert (h / 256 < 2).
  { rewrite Eh. apply N.Div0.div_lt_upper_bound. exact Hb. }
  destruct (N.eqb_spec (h / 256 mod 2) 1) as [E3|E3];
    rewrite N.mod_small in E3 by done; lia.
Qed.

Lemma finite_inj s s' m m' e e' : S754_finite s m e = S754_finite s' m' e' -> s = s' /\ m = m' /\ e = e'.
Proof. now intros [= -> -> ->]. Qed.

Lemma ltb_one m e :
  SFltb (S754_finite false 8388608 (-23)) (S754_finite false m e) = false ->
  (e < -23 \/ e = -23 /\ Z.pos m <= 8388608)%Z.
Proof.
  unfold SFltb, SFcompare. destruct (Z.compare_spec (-23) e) as [Ee|Ee|Ee]; [|discriminate 1|now left].
  change (Pos.compare_cont Eq 8388608 m) with (8388608 ?= m)%positive.
  destruct (Pos.compare_spec 8388608 m) as [E|E|E]; [|discriminate 1|]; intros _; right;
    (split; [symmetry; exact Ee|]).
  - rewrite <- E. apply Z.le_refl.
  - now apply Z.lt_le_incl, Pos2Z.pos_lt_pos.
Qed.

(** The quality that is made of any number is a number from 0 to 1, the negative zero, or not a number:
    no comparison holds for that, so that it is kept. *)
Theorem quality_new_bits b :
  b < 2 ^ 32 ->
  quality_bits (quality_new b) <= ONE \/ quality_bits (quality_new b) = SIGN
  \/ from_bits (quality_bits (quality_new b)) = S754_nan.
Proof.
  intros Hb. pose proof (bits_split b Hb) as Esplit. unfold quality_new. cbn [quality_bits].
  destruct (f32_ltb b 0) eqn:E0; [left; done|]. destruct (f32_ltb ONE b) eqn:E1; [left; done|].
  revert E0 E1. unfold f32_ltb. change (from_bits 0) with (S754_zero false).
  change (from_bits ONE) with (S754_finite false 8388608 (-23)).
  destruct (from_bits b) as [s|s| |s m e] eqn:Ef.
  - intros _ _. revert Ef. unfold from_bits.
    destruct (N.eqb_spec (N.shiftr b 23 mod 256) 255); [now destruct (_ =? 0)|].
    destruct (N.eqb_spec (N.shiftr b 23 mod 256) 0) as [Ee|_]; [|destruct (b mod 2 ^ 23 + 2 ^ 23) eqn:Er; [now apply N.eq_add_0 in Er as [_ Er]|done]].
    destruct (b mod 2 ^ 23) eqn:Er; [|done]. intros _. rewrite Ee in Esplit.
    destruct (is_negative b); [right; left|left]; lia.
  - destruct s; [now intros ?|now intros ? ?].
  - intros _ _. now right; right.
  - destruct s; [now intros ?|]. intros _ E1. left. revert Ef. unfold from_bits.
    destruct (N.eqb_spec (N.shiftr b 23 mod 256) 255); [now destruct (_ =? 0)|].
    pose proof (N.mod_lt b (2 ^ 23) ltac:(done)) as Hlt.
    destruct (N.eqb_spec (N.shiftr b 23 mod 256) 0) as [Ee|Ee].
    + destruct (b mod 2 ^ 23) eqn:Er; [done|]. intros [= Hs <- <-]. rewrite Ee, Hs in Esplit.
      unfold ONE. lia.
    + destruct (b mod 2 ^ 23 + 2 ^ 23) as [|p] eqn:Er; [now apply N.eq_add_0 in Er as [_ Er]|].
      intros Eq. apply finite_inj in Eq as (Hs & Hm & He). subst m e. rewrite Hs in Esplit.
      apply ltb_one in E1. unfold ONE. lia.
Qed.

(** ** What is read is UTF-8 *)

Lemma is_utf8_cut a b s : is_ascii b = true -> is_utf8 (a ++ b :: s) = true -> is_utf8 a = true /\ is_utf8 s = true.
Proof.
  unfold is_utf8. intros Hb. destruct (utf8_chars (a ++ b :: s)) as [cs|] eqn:E; [|done]. intros _.
  now destruct (utf8_chars_cut a b s cs Hb E) as (ca & cs' & -> & ->).
Qed.

Lemma whitespace_ascii w : Whitespace w -> Forall (fun b => is_ascii b = true) w.
Proof.
  induction 1 as [|b s Hb _ IH|s _ IH]; [constructor| |]; repeat (constructor; [|try done]); try done.
  revert Hb. clear. byte_cases b.
Qed.

Lemma is_utf8_trim s : is_utf8 s = true -> is_utf8 (trim_whitespace s) = true.
Proof.
  destruct (trim_whitespace_inv s) as (pre & post & E & Hpre%whitespace_ascii & Hpost%whitespace_ascii).
  generalize (trim_whitespace s) as w, E. clear E. intros w ->. induction Hpre as [|b pre Hb _ IH]; cbn [app].
  - destruct Hpost as [|b post Hb _]; [now rewrite app_nil_r|]. intros Hu. now apply is_utf8_cut in Hu.
  - intros Hu. apply IH. now apply (is_utf8_cut [] b).
Qed.

Lemma is_utf8_parts c s : is_ascii c = true -> is_utf8 s = true -> Forall (fun part => is_utf8 part = true) (split_on c s).
Proof.
  intros Hc. pose proof (split_on_parts c s) as [_ E]. revert E. generalize (split_on c s) as parts.
  intros parts <-. induction parts as [|p [|p' parts] IH]; intros Hu; [constructor|now constructor|].
  cbn [join app] in Hu. apply is_utf8_cut in Hu as [Hp Hrest]; [|done]. constructor; [done|now apply IH].
Qed.

(** ** Reading a media type *)

Section Reading.
Context `{!MimeOps}.

(** A part of a header value is refused for one reason only. *)
Lemma media_try_from_error w e : is_utf8 w = true -> media_try_from w = Err e -> e = InvalidSyntax.
Proof.
  intros Hu. unfold media_try_from. destruct (split_once ";"%byte w) as [part rest] eqn:Hs.
  apply split_once_inv in Hs as [_ ->].
  assert (Hp : is_utf8 part = true) by (destruct rest as [rest|]; [now apply is_utf8_cut in Hu|done]).
  rewrite Hp. destruct (mime_parse part); [|now intros [= <-]].
  destruct rest as [q|]; [|done]. destruct (quality_try_from q); [done|now intros [= <-]].
Qed.

Lemma read_media_error words e :
  Forall (fun w => is_utf8 w = true) words -> read_items (A := MediaType) words = Err e -> e = InvalidSyntax.
Proof.
  induction 1 as [|w words Hw _ IH]; [done|]. cbn [read_items item_try_from media_type_item].
  destruct (media_try_from w) as [m|e'] eqn:Em.
  - destruct (read_items words) as [l|e']; [done|]. intros [= <-]. now apply IH.
  - intros [= <-]. exact (media_try_from_error w e' Hw Em).
Qed.

Lemma value_parts_utf8 values :
  Forall (fun v => is_utf8 (as_str v) = true) values -> Forall (fun w => is_utf8 w = true) (value_parts values).
Proof.
  intros Hv. unfold value_parts. apply Forall_fmap. induction Hv as [|v values Hv _ IH]; [constructor|].
  cbn [mbind list_bind]. apply Forall_app. split; [|exact IH].
  eapply Forall_impl; [exact (is_utf8_parts ","%byte _ eq_refl Hv)|]. intros w Hw. now apply is_utf8_trim.
Qed.

(** The items that are written as a list of media types and read back: the text of the media type
    has no parameters and no commas, the text of the quality gives its bits; and where a quality
    follows, the media type is read from its text with the blank that is written behind it. *)
Definition plain_text (w : bytes) : Prop := ";"%byte ∉ w /\ ","%byte ∉ w.
Definition quality_readable (q : QualityParam) : Prop := quality_try_from (quality_to_string q) = Ok q.
Definition media_written (m : MediaType) : Prop :=
  plain_text (mime_to_string (m_type m))
  /\ match quality m with Some q => quality_readable q | None => True end.
Definition reads_blank (m : MediaType) : Prop :=
  match quality m with
  | Some _ => mime_parse (mime_to_string (m_type m) ++ [SP]) = Some (m_type m)
  | None => True
  end.
Definition refuses_blank (m : MediaType) : Prop :=
  match quality m with
  | Some _ => mime_parse (mime_to_string (m_type m) ++ [SP]) = None
  | None => False
  end.

Context `{!MimeLaws}.

Lemma mime_utf8 m suffix : Forall (fun b => is_ascii b = true) suffix -> is_utf8 (mime_to_string m ++ suffix) = true.
Proof.
  intros Hs. unfold is_utf8. rewrite utf8_chars_ascii; [done|]. apply Forall_app. split; [|exact Hs].
  eapply Forall_impl; [exact (mime_printable m)|]. intros b Hb. apply N.ltb_lt. cbn beta in Hb. lia.
Qed.

(** A media type whose parameter takes the place of the quality, and is no number. *)
Definition refuses_parameters (m : MediaType) : Prop :=
  quality m = None
  /\ exists t parameters, mime_to_string (m_type m) = t ++ ";"%byte :: parameters /\ ";"%byte ∉ t
       /\ f32_parse (List.last (split_on "="%byte parameters) []) = None.

(** What a media type without parameters is read as. *)
Lemma media_read_plain m :
  plain_text (mime_to_string (m_type m)) ->
  media_try_from (media_to_string m)
  = match quality m with
    | Some q =>
        match mime_parse (mime_to_string (m_type m) ++ [SP]) with
        | Some m_type =>
            match quality_try_from (quality_to_string q) with
            | Ok q => Ok (mkMediaType m_type (Some q))
            | Err _ => Err InvalidSyntax
            end
        | None => Err InvalidSyntax
        end
    | None => Ok m
    end.
Proof.
  destruct m as [t [q|]]; intros [Hsemi _]; cbn [m_type quality] in *; unfold media_try_from, media_to_string;
    cbn [m_type quality].
  - change (bs " ;" ++ quality_to_string q) with ([SP] ++ ";"%byte :: quality_to_string q).
    rewrite app_assoc, split_once_at; [|rewrite elem_of_app, list_elem_of_singleton; now intros [?|?]].
    now rewrite mime_utf8 by now repeat constructor.
  - rewrite split_once_none by done. pose proof (mime_utf8 t [] (Forall_nil_2 _)) as Hu. rewrite app_nil_r in Hu.
    now rewrite Hu, mime_roundtrip.
Qed.

Lemma media_reads_back m :
  plain_text (mime_to_string (m_type m)) ->
  media_try_from (media_to_string m) = Ok m <-> media_written m /\ reads_blank m.
Proof.
  intros Hp. rewrite media_read_plain by done. unfold media_written, reads_blank, quality_readable.
  destruct m as [t [q|]]; cbn [m_type quality] in *; [|tauto].
  destruct (mime_parse _) as [t'|]; [|naive_solver]. destruct (quality_try_from _) as [q'|]; naive_solver.
Qed.

Lemma media_refused m :
  plain_text (mime_to_string (m_type m)) /\ refuses_blank m \/ refuses_parameters m ->
  media_try_from (media_to_string m) = Err InvalidSyntax.
Proof.
  intros [[Hp Hr]|(Hq & t & parameters & Et & Ht & Hn)].
  - rewrite media_read_plain by done. unfold refuses_blank in Hr. destruct (quality m); [now rewrite Hr|done].
  - unfold media_try_from, media_to_string. rewrite Hq, Et, split_once_at by done.
    pose proof (mime_utf8 (m_type m) [] (Forall_nil_2 _)) as Hu. rewrite app_nil_r, Et in Hu.
    apply is_utf8_cut in Hu as [-> Hu]; [|done]. unfold quality_try_from. rewrite Hu, Hn. now destruct (mime_parse t).
Qed.

(** No media type that is read has parameters. *)
Lemma media_try_from_plain w m :
  ","%byte ∉ w -> media_try_from w = Ok m -> plain_text (mime_to_string (m_type m)).
Proof.
  intros Hw. unfold media_try_from. destruct (split_once ";"%byte w) as [part rest] eqn:Hs.
  apply split_once_inv in Hs as [Hsemi Hpart].
  assert (Hcomma : ","%byte ∉ part).
  { intros Hin. apply Hw. rewrite Hpart. destruct rest; [|done]. rewrite elem_of_app. now left. }
  destruct (is_utf8 part); [|done]. destruct (mime_parse part) as [t|] eqn:Ep; [|done].
  assert (Ht : plain_text (mime_to_string t)) by (split; eapply mime_separators; eauto).
  destruct rest as [q|]; [destruct (quality_try_from q); [|done]|]; now intros [= <-].
Qed.
End Reading.

(** ** Writing *)

Notation word := (Forall (fun b => graphic b = true /\ b <> ","%byte)).

Lemma digits_word ds : Forall (fun b => is_ascii_digit b = true) ds -> word ds.
Proof. intros Hd. eapply Forall_impl; [exact Hd|]. clear. intros b. byte_cases b; now split. Qed.

Lemma positional_word m e10 : word (positional m e10).
Proof.
  unfold positional. pose proof (digits_word _ (to_string_digits (Z.to_N m))) as Hd.
  assert (Hz : forall n, word (repeat "0"%byte n)).
  { intros n. induction n as [|n IH]; [constructor|]. constructor; [now split|exact IH]. }
  repeat case_match.
  - now apply Forall_app.
  - apply Forall_app. split; [now apply Forall_take|]. constructor; [now split|now apply Forall_drop].
  - repeat (apply Forall_app; split); [|apply Hz|exact Hd]. now repeat constructor.
Qed.

Lemma f32_word bits : word (f32_to_string bits).
Proof.
  unfold f32_to_string.
  assert (Hs : word (if is_negative bits then bs "-" else [])) by (destruct (is_negative bits); now repeat constructor).
  destruct (from_bits bits) as [s|s| |s m e]; try (apply Forall_app; split; [exact Hs|]); try (now repeat constructor).
  destruct (shortest m e) as [d e10]. apply Forall_app. split; [exact Hs|]. apply positional_word.
Qed.

(** A printable text that nothing is trimmed of begins with a visible character. *)
Lemma trimmed_first b w : 32 <= Byte.to_N b <= 126 -> trim_whitespace (b :: w) = b :: w -> no_blank b = true.
Proof.
  intros Hb Ht. destruct (decide (b = SP)) as [->|Hne].
  - exfalso. rewrite trim_space in Ht. destruct (trim_whitespace_inv w) as (pre & post & E & _).
    apply (f_equal length) in E. rewrite Ht, !length_app in E. cbn [length] in E. lia.
  - revert Hb Hne. clear. byte_cases b; intros ? []; reflexivity.
Qed.

Section Written.
Context `{!MimeOps} `{!MimeLaws}.

Lemma media_printable m : Forall (fun b => 32 <= Byte.to_N b <= 126) (media_to_string m).
Proof.
  unfold media_to_string. destruct (quality m) as [q|]; [|apply mime_printable].
  apply Forall_app. split; [apply mime_printable|]. apply Forall_app. split; [repeat constructor; now vm_compute|].
  assert (Hword : word (quality_to_string q)) by (apply Forall_app; split; [now repeat constructor|apply f32_word]).
  eapply Forall_impl; [exact (proj1 (word_text _ Hword))|]. now intros b [Hb _].
Qed.

Lemma media_text m : ","%byte ∉ mime_to_string (m_type m) -> list_text (media_to_string m).
Proof.
  destruct m as [t q]. intros Hcomma. cbn [m_type] in Hcomma.
  assert (Hmime : Forall (fun b => 32 <= Byte.to_N b <= 126 /\ b <> ","%byte) (mime_to_string t)).
  { apply Forall_and. split; [exact (mime_printable t)|]. apply Forall_forall. intros b Hb ->. done. }
  unfold media_to_string. cbn [m_type quality]. destruct q as [q|]; [|split; [exact Hmime|exact (mime_trimmed t)]].
  assert (Hword : word (quality_to_string q)) by (apply Forall_app; split; [now repeat constructor|apply f32_word]).
  destruct (word_text _ Hword) as [Hprint _]. split.
  - apply Forall_app. split; [exact Hmime|]. apply Forall_app. split; [|exact Hprint].
    repeat constructor; now vm_compute.
  - pose proof (mime_trimmed t) as Ht. pose proof (mime_roundtrip t) as Hr.
    destruct (mime_to_string t) as [|b w]; [now rewrite mime_empty in Hr|].
    assert (Hb : no_blank b = true) by (apply (trimmed_first b w); [now inversion Hmime as [|? ? [? _]]|exact Ht]).
    assert (Hlast : exists k c, quality_to_string q = k ++ [c] /\ no_blank c = true).
    { destruct (exists_last (l := quality_to_string q)) as (k & c & E); [done|]. exists k, c. split; [exact E|].
      rewrite E in Hword. apply Forall_app in Hword as [_ Hc]. inversion Hc as [|? ? [Hg _]]. now apply graphic_no_blank. }
    destruct Hlast as (k & c & -> & Hc). cbn [app]. rewrite !app_assoc. now apply trim_enclosed.
Qed.

#[export] Instance media_item_laws : ListItemLaws MediaType AcceptError (fun m => media_written m /\ reads_blank m).
Proof.
  split.
  - intros m Hm. apply media_reads_back; [apply Hm|exact Hm].
  - intros m [[[_ Hm] _] _]. now apply media_text.
  - exists InvalidSyntax. cbn. now rewrite mime_empty.
Qed.

Lemma media_utf8 m : is_utf8 (media_to_string m) = true.
Proof.
  unfold is_utf8. rewrite utf8_chars_ascii; [done|]. eapply Forall_impl; [exact (media_printable m)|].
  intros b Hb. apply N.ltb_lt. cbn beta in Hb. lia.
Qed.

Lemma read_media_refused items :
  Exists (fun m => media_try_from (media_to_string m) = Err InvalidSyntax) items ->
  read_items (item_as_str <$> items) = Err InvalidSyntax.
Proof.
  intros Hex. destruct (read_items (item_as_str <$> items)) as [l|e] eqn:E.
  - exfalso. apply read_items_Forall2, Forall2_fmap_l in E. apply Exists_exists in Hex as (m & Hin & Hm).
    apply list_elem_of_lookup in Hin as [i Hi]. destruct (Forall2_lookup_l _ _ _ _ _ E Hi) as (a & _ & Ha).
    cbn in Ha. congruence.
  - f_equal. apply (read_media_error (item_as_str <$> items) e); [|exact E]. apply Forall_fmap, Forall_forall.
    intros m _. apply media_utf8.
Qed.
End Written.

(** ** The header *)

Section AcceptSpec.
Context `{!MimeOps} `{!MimeLaws} {S : Type} `{!LinkedSetOps S MediaType} `{!LinkedSetLaws S MediaType}.

(** Reading the header: the parts of all the values are read in order, between the commas, also those
    in quotes; the first that is no media type is an error of the syntax, and never one of UTF-8. *)
Theorem accept_decode_spec (values : list HeaderValue) :
  Forall (fun v => HeaderValue.try_from (as_str v) = Ok v) values ->
  match read_items (A := MediaType) (value_parts values) with
  | Err _ => decode (S := S) values = Err InvalidSyntax
  | Ok l =>
      match values with
      | [] => decode (S := S) values = Ok None
      | _ => exists s, decode (S := S) values = Ok (Some (mkAccept s)) /\ set_iter s = last_occurrences l
      end
  end.
Proof.
  intros Hv. unfold decode. rewrite list_decode_read.
  destruct (read_items (A := MediaType) (value_parts values)) as [l|e] eqn:El.
  - destruct values; [done|]. cbn. eexists. split; [reflexivity|]. apply set_iter_from_iter.
  - cbn. f_equal. apply (read_media_error (value_parts values) e); [|exact El]. apply value_parts_utf8.
    eapply Forall_impl; [exact Hv|]. intros v (_ & cs & Hu & _)%try_from_Some. unfold is_utf8. now rewrite Hu.
Qed.

(** Of what is read, no media type has parameters. *)
Lemma decode_plain values s :
  decode (S := S) values = Ok (Some (mkAccept s)) ->
  exists l, read_items (value_parts values) = Ok l /\ set_iter s = last_occurrences l
    /\ Forall (fun m => plain_text (mime_to_string (m_type m))) l.
Proof.
  unfold decode. rewrite list_decode_read. destruct (read_items (value_parts values)) as [l|e] eqn:E; [|done].
  destruct values as [|v values]; [done|]. cbn. intros [= <-]. exists l. split; [done|].
  split; [apply set_iter_from_iter|]. apply read_items_Forall2 in E. apply Forall_forall. intros m Hm.
  apply list_elem_of_lookup in Hm as [i Hi]. destruct (Forall2_lookup_r _ _ _ _ _ E Hi) as (w & Hw & Em).
  apply (media_try_from_plain w); [|exact Em].
  exact (proj1 (Forall_lookup _ _) (value_parts_no_comma (v :: values)) i w Hw).
Qed.

(** The parts of a written header without commas in the media types. *)
Lemma written_parts (self : Accept S) :
  set_iter (media_types self) <> [] ->
  Forall (fun m => ","%byte ∉ mime_to_string (m_type m)) (set_iter (media_types self)) ->
  value_parts (encode self) = item_as_str <$> set_iter (media_types self).
Proof.
  intros Hne Hc. unfold encode, list_encode, value_parts. cbn [mbind list_bind as_str].
  rewrite app_nil_r, split_joined; [done|done|]. eapply Forall_impl; [exact Hc|]. intros m. apply media_text.
Qed.

(** Items that are only reordered or repeated by the set are elements of the list that is read. *)
Lemma last_occurrences_elem (l : list MediaType) m : m ∈ last_occurrences l -> m ∈ l.
Proof.
  enough (forall acc, m ∈ foldl (fun l a => filter (fun b => b <> a) l ++ [a]) acc l -> m ∈ acc \/ m ∈ l) as Hl.
  { intros [Hm|Hm]%Hl; [now apply not_elem_of_nil in Hm|done]. }
  induction l as [|a l IH]; intros acc; cbn; [now left|]. intros [Hm|Hm]%IH.
  - apply elem_of_app in Hm as [[_ Hm]%list_elem_of_filter|Hm%list_elem_of_singleton]; [now left|].
    subst a. right. apply list_elem_of_here.
  - right. now apply list_elem_of_further.
Qed.

(** C33: Writing the header of a set of media types and reading it back. What is written is a header value. It
    is read back if and only if there is a media type, none has a semicolon or a comma in its text,
    the text of every quality gives its bits, and [mime] takes the media type of every quality with
    the blank that is written behind it. So a media type with parameters is never read back: none
    that is read has any. The header is refused if there is no media type, and, where no media type
    has a comma in its text, if [mime] refuses a blank behind a media type without parameters and
    with a quality, or if a media type without a quality has a parameter that is no number, which is
    read in its place. *)
Theorem accept_roundtrip (self : Accept S) :
  NoDup (set_iter (media_types self)) ->
  Forall (fun v => HeaderValue.try_from (as_str v) = Ok v) (encode self)
  /\ ((exists s, decode (S := S) (encode self) = Ok (Some (mkAccept s)) /\ set_iter s = set_iter (media_types self))
      <-> set_iter (media_types self) <> []
          /\ Forall (fun m => media_written m /\ reads_blank m) (set_iter (media_types self)))
  /\ (set_iter (media_types self) = []
      \/ Forall (fun m => ","%byte ∉ mime_to_string (m_type m)) (set_iter (media_types self))
         /\ Exists (fun m => plain_text (mime_to_string (m_type m)) /\ refuses_blank m \/ refuses_parameters m)
              (set_iter (media_types self)) ->
      decode (S := S) (encode self) = Err InvalidSyntax).
Proof.
  intros Hd.
  assert (Hempty : set_iter (media_types self) = [] -> decode (S := S) (encode self) = Err InvalidSyntax).
  { intros He. unfold decode, encode. rewrite list_decode_read. unfold list_encode. rewrite He.
    assert (E : value_parts [mkHeaderValue (join (bs ", ") (item_as_str <$> ([] : list MediaType)))] = [[]])
      by (unfold value_parts; cbn; now rewrite trim_word).
    rewrite E. cbn. now rewrite mime_empty. }
  split; [|split; [split|]].
  - constructor; [|constructor]. apply printable_value, (joined_all (fun b => 32 <= Byte.to_N b <= 126)).
    + repeat constructor; now vm_compute.
    + apply Forall_fmap, Forall_forall. intros m _. apply media_printable.
  - intros (s & E & Hs). assert (Hne : set_iter (media_types self) <> []) by (intros He; now rewrite Hempty in E).
    split; [exact Hne|]. destruct (decode_plain _ _ E) as (l & Hl & Hsl & Hplain).
    assert (Hitems : Forall (fun m => plain_text (mime_to_string (m_type m))) (set_iter (media_types self))).
    { rewrite <- Hs, Hsl. rewrite Forall_forall in Hplain |- *. intros m Hm. now apply Hplain, last_occurrences_elem. }
    rewrite written_parts in Hl; [|done|eapply Forall_impl; [exact Hitems|]; now intros m [_ Hm]].
    apply read_items_Forall2 in Hl. pose proof (Forall2_length _ _ _ Hl) as Hlen. rewrite length_fmap in Hlen.
    destruct (last_occurrences_length l) as [_ Hll]. rewrite <- Hsl, Hs in Hll. specialize (Hll Hlen).
    subst l. apply Forall2_fmap_l in Hl. apply Forall_lookup. intros i m Hm. apply media_reads_back.
    + exact (proj1 (Forall_lookup _ _) Hitems i m Hm).
    + exact (Forall2_lookup_lr _ _ _ _ _ _ Hl Hm Hm).
  - intros [Hne Hr]. pose proof (list_decode_encode (fun m => media_written m /\ reads_blank m) (media_types self) Hr Hd) as Hback.
    unfold decode, encode. destruct (set_iter (media_types self)) as [|m items]; [done|].
    destruct Hback as (s & E & Hs). exists s. now rewrite E.
  - intros [He|[Hc Hex]]; [now apply Hempty|]. assert (Hne : set_iter (media_types self) <> []).
    { intros E. rewrite E in Hex. inversion Hex. }
    unfold decode. rewrite list_decode_read, written_parts by done. rewrite read_media_refused; [done|].
    eapply Exists_impl; [exact Hex|]. intros m. apply media_refused.
Qed.
End AcceptSpec.

(** ** Instances *)

(** Four media types, two of them with a parameter, whose texts are read as they are written. *)
Module SmallMime.
Inductive Kind := Anything | Video | Level | Charset.

#[export] Instance kind_eq_dec : EqDecision Kind.
Proof. solve_decision. Defined.

Definition text (k : Kind) : bytes := 
  match k with
  | Anything => bs "*/*"
  | Video => bs "video/*"
  | Level => bs "video/*;level=1"
  | Charset => bs "video/*;charset=utf-8"
  end.

#[export] Instance ops : MimeOps := {|
  Mime := Kind;
  mime_parse w := List.find (fun k => bool_decide (text k = w)) [Anything; Video; Level; Charset];
  mime_to_string := text;
|}.

#[export] Instance laws : MimeLaws.
Proof.
  split; [now intros []| |now intros []|done|].
  - intros []; repeat constructor; now vm_compute.
  - intros w k c _ [_ <-%bool_decide_eq_true]%find_some. done.
Qed.
End SmallMime.
#[local] Existing Instances SmallMime.ops SmallMime.laws.

Definition half : QualityParam := mkQualityParam 0x3f000000.
Definition anything : MediaType := media_type_new SmallMime.Anything None.
Definition video : MediaType := media_type_new SmallMime.Video (Some half).
Definition level : MediaType := media_type_new SmallMime.Level None.
Definition charset : MediaType := media_type_new SmallMime.Charset None.

(** The examples of the documentation; a parameter of the media type that is taken for the quality, and
    a quality that is not a number. *)
Example accept_ex :
  decode (S := list MediaType) [mkHeaderValue (bs "*/*, video/*;q=0.5")] = Ok (Some (mkAccept [anything; video]))
  /\ encode (accept_from_iter (S := list MediaType) [anything; video]) = [mkHeaderValue (bs "*/*, video/* ;q=0.5")]
  /\ media_try_from (bs "video/*;level=1") = Ok (media_type_new SmallMime.Video (Some (mkQualityParam ONE)))
  /\ media_try_from (bs "video/*;charset=utf-8") = Err InvalidSyntax
  /\ media_try_from (bs "video/*;q=nan") = Ok (media_type_new SmallMime.Video (Some (mkQualityParam NAN)))
  /\ quality_try_from (bs "q=-3") = Ok (mkQualityParam 0) /\ quality_try_from (bs "7e9") = Ok (mkQualityParam ONE)
  /\ quality_try_from (bs "q=-0.0") = Ok (mkQualityParam SIGN) /\ quality_try_from (bs "q= 0.5") = Err InvalidSyntax.
Proof. repeat split; reflexivity. Qed.

Lemma qvalues_read_witness :
  exists q q', quality_try_from (bs "q=0.50") = Ok q /\ quality_try_from (bs "q=0.125") = Ok q'
    /\ ~ quality_bits q < quality_bits q' /\ quality_to_string q = bs "q=0.5".
Proof.
  assert (H1 : Qvalue (bs "0.50")) by (apply (qvalue_part (bs "50")); [repeat constructor|cbn; lia]).
  assert (H2 : Qvalue (bs "0.125")) by (apply (qvalue_part (bs "125")); [repeat constructor|cbn; lia]).
  destruct (qvalues_read _ _ H1 H2) as (q & q' & Hq & Hq' & _ & Hlt & _ & Hw & _).
  exists q, q'. split; [exact Hq|]. split; [exact Hq'|]. split; [|exact Hw].
  intros Hc. apply Hlt in Hc. vm_compute in Hc. discriminate Hc.
Defined.

Lemma accept_decode_spec_witness :
  exists s, decode (S := list MediaType) [mkHeaderValue (bs "video/*;q=0.5,*/*,video/*;q=.5")] = Ok (Some (mkAccept s))
    /\ set_iter s = [anything; video].
Proof.
  assert (E : read_items (A := MediaType) (value_parts [mkHeaderValue (bs "video/*;q=0.5,*/*,video/*;q=.5")])
              = Ok [video; anything; video]) by reflexivity.
  pose proof (accept_decode_spec (S := list MediaType) [mkHeaderValue (bs "video/*;q=0.5,*/*,video/*;q=.5")]) as Hs.
  rewrite E in Hs. apply Hs. constructor; [reflexivity|constructor].
Defined.

(** A header that is read back; one with a quality, which is refused; one with a parameter that is taken
    for a quality, so that another media type is read; and one with a parameter that is refused. *)
Lemma accept_roundtrip_witness :
  (exists s, decode (S := list MediaType) (encode (mkAccept [anything])) = Ok (Some (mkAccept s)) /\ set_iter s = [anything])
  /\ decode (S := list MediaType) (encode (mkAccept [anything; video])) = Err InvalidSyntax
  /\ ~ (exists s, decode (S := list MediaType) (encode (mkAccept [level])) = Ok (Some (mkAccept s)) /\ set_iter s = [level])
  /\ decode (S := list MediaType) (encode (mkAccept [charset])) = Err InvalidSyntax.
Proof.
  assert (Hd : forall m : MediaType, NoDup (set_iter [m])) by (intros m; apply NoDup_singleton).
  pose proof (fun m => accept_roundtrip (S := list MediaType) (mkAccept [m]) (Hd m)) as Hone.
  split; [|split; [|split]].
  - apply (Hone anything). split; [done|]. apply Forall_singleton.
    split; [|exact I]. split; [split; intros Hin%list_elem_of_In; cbn in Hin; intuition discriminate|exact I].
  - apply (accept_roundtrip (S := list MediaType) (mkAccept [anything; video])).
    + apply NoDup_cons. split; [|apply NoDup_singleton]. intros E%list_elem_of_singleton. discriminate E.
    + right. split.
      * repeat constructor; intros Hin%list_elem_of_In; cbn in Hin; intuition discriminate.
      * apply Exists_cons_tl, Exists_cons_hd. left. split; [|reflexivity].
        split; intros Hin%list_elem_of_In; cbn in Hin; intuition discriminate.
  - intros Hback. destruct (Hone level) as (_ & Hiff & _).
    apply Hiff in Hback as [_ Hw]. apply Forall_singleton in Hw as [[[Hsemi _] _] _]. apply Hsemi.
    apply list_elem_of_In. cbn. tauto.
  - apply (Hone charset). right. split.
    + repeat constructor; intros Hin%list_elem_of_In; cbn in Hin; intuition discriminate.
    + apply Exists_cons_hd. right. split; [done|]. exists (bs "video/*"), (bs "charset=utf-8").
      split; [done|]. split; [intros Hin%list_elem_of_In; cbn in Hin; intuition discriminate|reflexivity].
Defined.

Lemma quality_new_bits_witness :
  quality_bits (quality_new 3212836864) <= ONE \/ quality_bits (quality_new 3212836864) = SIGN
  \/ from_bits (quality_bits (quality_new 3212836864)) = S754_nan.
Proof. apply (quality_new_bits 3212836864). reflexivity. Defined.
