(* ===== verification/Session.v ===== *)
(** * Sessions

    Model of the session identifiers of [rtsp-2/src/session.rs] and of the Session header of
    [rtsp-2/src/header/types/session.rs]. *)

From Stdlib Require Import Strings.Byte.
From stdpp Require Import base list numbers strings.
From S2P Require Import Prelude Text Syntax HeaderName HeaderValue HeaderMap CommaList.

Local Open Scope N_scope.

(** ** Session identifiers *)

Definition SESSION_ID_ALPHABET : list byte :=
  bs "$-_.+0123456789abcdefghijklmnopqrstuvwxyzABCDEFGHIJKLMNOPQRSTUVWXYZ".

Definition SESSION_ID_GENERATED_LENGTH : nat := 22.

(** [SessionID(String)]. *)
Record SessionID := mkSessionID { session_id : bytes }.

#[export] Instance session_id_eq_dec : EqDecision SessionID.
Proof. solve_decision. Defined.

Inductive SessionIDError := InvalidCharacter | TooLong | TooShort.

#[export] Instance session_id_error_eq_dec : EqDecision SessionIDError.
Proof. solve_decision. Defined.

(** [random], where [choose i] is the [i]-th choice of the random number generator. *)
Definition random (choose : nat -> byte) : SessionID :=
  mkSessionID (choose <$> seq 0 SESSION_ID_GENERATED_LENGTH).

(** [char::is_alphanumeric] on an ASCII character. *)
Definition is_alphanumeric (b : byte) : bool :=
  is_ascii_uppercase b || is_ascii_lowercase b || is_ascii_digit b.

(** The test of the loop of [try_from]. *)
Definition bad_id_char (b : byte) : bool :=
  negb (is_ascii b)
  || (negb (is_alphanumeric b) && negb (bool_decide (b = "$"%byte)) && negb (bool_decide (b = "-"%byte))
      && negb (bool_decide (b = "_"%byte)) && negb (bool_decide (b = "."%byte))
      && negb (bool_decide (b = "+"%byte))).

(** [TryFrom<&[u8]>]. *)
Definition id_try_from (value : bytes) : Result SessionID SessionIDError :=
  if len value <? 8 then Err TooShort
  else if 256 <? len value then Err TooLong
  else if existsb bad_id_char value then Err InvalidCharacter
  else Ok (mkSessionID value).

(** [PartialEq<str>]. *)
Definition session_id_eq_str (self : SessionID) (other : bytes) : bool :=
  bool_decide (session_id self = other).

(** ** The header *)

(** [std::time::Duration]. *)
Record Duration := mkDuration { as_secs : N; subsec_nanos : N }.

#[export] Instance duration_eq_dec : EqDecision Duration.
Proof. solve_decision. Defined.

Definition DEFAULT_SESSION_TIMEOUT : Duration := mkDuration 60 0.
Definition MAX_SESSION_TIMEOUT : N := 9999999999999999999.

Record Session := mkSession { id : SessionID; timeout : option Duration }.

#[export] Instance session_eq_dec : EqDecision Session.
Proof. solve_decision. Defined.

(** [without_timeout] and [with_timeout]. *)
Definition without_timeout (value : bytes) : Result Session SessionIDError :=
  result_map (fun i => mkSession i None) (id_try_from value).
Definition with_timeout (value : bytes) (timeout : Duration) : Result Session SessionIDError :=
  result_map (fun i => mkSession i (Some timeout)) (id_try_from value).

Definition has_timeout (self : Session) : bool :=
  match timeout self with Some _ => true | None => false end.

Inductive TimeoutError := Empty | ExceedsMaximumLength | InvalidDigit | Overflow.

Inductive SessionError :=
  | InvalidParameterSyntax | MoreThanOneHeader
  | ESessionID (error : SessionIDError) | ETimeout (error : TimeoutError).

(** [TryFrom<IntErrorKind>] on the kinds that parsing an unsigned integer produces. *)
Definition from_int_error (value : IntErrorKind) : TimeoutError :=
  match value with
  | Text.Empty => Empty
  | Text.InvalidDigit => InvalidDigit
  | PosOverflow => Overflow
  end.

(** The parameter after the semicolon. The comparison is with [to_lowercase]: the only characters
    that are not ASCII and whose lower case has ASCII letters give a [k] or add a dot to an [i], so
    that for this word it is the comparison of the ASCII lower case. *)
Definition decode_timeout (parameter : bytes) : Result Duration SessionError :=
  match split_once "="%byte parameter with
  | (name, Some value) =>
      if negb (bool_decide (to_ascii_lowercase <$> trim_whitespace name = bs "timeout"))
      then Err InvalidParameterSyntax
      else
        match parse_unsigned U64_MAX (trim_whitespace value) with
        | Err kind => Err (ETimeout (from_int_error kind))
        | Ok delta =>
            if MAX_SESSION_TIMEOUT <? delta then Err (ETimeout ExceedsMaximumLength)
            else Ok (mkDuration delta 0)
        end
  | (_, None) => Err InvalidParameterSyntax
  end.

Definition decode (values : list HeaderValue) : Result (option Session) SessionError :=
  match values with
  | [] => Ok None
  | _ :: _ :: _ => Err MoreThanOneHeader
  | [value] =>
      let (first, parameter) := split_once ";"%byte (as_str value) in
      match id_try_from (trim_whitespace first) with
      | Err error => Err (ESessionID error)
      | Ok i =>
          match parameter with
          | None => Ok (Some (mkSession i None))
          | Some parameter =>
              result_map (fun t => Some (mkSession i (Some t))) (decode_timeout parameter)
          end
      end
  end.

Definition encode (self : Session) : list HeaderValue :=
  let value :=
    match timeout self with
    | Some timeout =>
        if as_secs timeout =? as_secs DEFAULT_SESSION_TIMEOUT then session_id (id self)
        else session_id (id self) ++ bs "; timeout = " ++ to_string (as_secs timeout)
    | None => session_id (id self)
    end in
  [mkHeaderValue value].

#[export] Instance typed_header_session : TypedHeader Session := {|
  HeaderDecodeError := SessionError;
  typed_decode := decode;
  typed_encode := encode;
  header_name := HeaderName.Session;
|}.

Definition sample_id : SessionID := mkSessionID (bs "QKyjN8nt2WqbWw4tIYof52").

Example session_ex :
  decode [mkHeaderValue (bs "QKyjN8nt2WqbWw4tIYof52; timeout = 180")]
  = Ok (Some (mkSession sample_id (Some (mkDuration 180 0))))
  /\ decode [mkHeaderValue (bs "invalid session")] = Err (ESessionID InvalidCharacter)
  /\ decode [mkHeaderValue (bs "12345678;a=1")] = Err InvalidParameterSyntax
  /\ encode (mkSession sample_id (Some DEFAULT_SESSION_TIMEOUT))
     = [mkHeaderValue (bs "QKyjN8nt2WqbWw4tIYof52")].
Proof. now vm_compute. Qed.

(** ** What decoding an identifier does *)

(** The identifiers: 8 to 256 characters of the alphabet. *)
Definition session_id_valid (i : SessionID) : Prop :=
  8 <= len (session_id i) <= 256 /\ Forall (fun b => b ∈ SESSION_ID_ALPHABET) (session_id i).

Lemma bad_id_char_spec b : bad_id_char b = negb (bool_decide (b ∈ SESSION_ID_ALPHABET)).
Proof. byte_cases b. Qed.

Lemma id_char_word b : b ∈ SESSION_ID_ALPHABET -> no_blank b = true /\ b <> ";"%byte
  /\ (32 <= Byte.to_N b <= 126)%N.
Proof.
  intros Hb. assert (Hc : bad_id_char b = false) by (rewrite bad_id_char_spec; now apply negb_false_iff, bool_decide_eq_true).
  revert Hc. clear. destruct b; vm_compute; try discriminate; intros _; repeat split; discriminate.
Qed.

Lemma id_try_from_iff value i :
  id_try_from value = Ok i <-> session_id_valid i /\ value = session_id i.
Proof.
  unfold id_try_from, session_id_valid.
  assert (Hall : existsb bad_id_char value = false <-> Forall (fun b => b ∈ SESSION_ID_ALPHABET) value).
  { rewrite Forall_forall, <- not_true_iff_false, existsb_exists. split.
    - intros Hn b Hb. destruct (decide (b ∈ SESSION_ID_ALPHABET)); [done|]. exfalso. apply Hn. exists b.
      split; [now apply list_elem_of_In|]. rewrite bad_id_char_spec. now apply negb_true_iff, bool_decide_eq_false.
    - intros Hf (b & Hb & Hbad). rewrite bad_id_char_spec in Hbad.
      apply negb_true_iff, bool_decide_eq_false in Hbad. apply Hbad, Hf. now apply list_elem_of_In. }
  destruct (N.ltb_spec (len value) 8); [split; [done|]; intros [[? _] ->]; lia|].
  destruct (N.ltb_spec 256 (len value)); [split; [done|]; intros [[? _] ->]; lia|].
  destruct (existsb bad_id_char value) eqn:Eb.
  - split; [done|]. intros [[_ Hv] ->]. now apply Hall in Hv.
  - split; [intros [= <-]; cbn|].
    + repeat split; [done|done|now apply Hall].
    + intros [_ ->]. now destruct i.
Qed.

Lemma session_id_word i : session_id_valid i ->
  Forall (fun b => no_blank b = true) (session_id i) /\ ";"%byte ∉ session_id i
  /\ Forall (fun b => (32 <= Byte.to_N b <= 126)%N) (session_id i).
Proof.
  intros [_ Hi]. split; [|split].
  - apply (Forall_impl _ _ _ Hi). intros b Hb. now apply id_char_word.
  - intros Hc. rewrite Forall_forall in Hi. now destruct (id_char_word _ (Hi _ Hc)) as (_ & ? & _).
  - apply (Forall_impl _ _ _ Hi). intros b Hb. now apply id_char_word.
Qed.

(** ** What splitting does *)

Lemma split_once_whitespace c pre w post :
  no_blank c = true -> Whitespace pre -> Whitespace post -> c ∉ w -> c ∉ pre ++ w ++ post.
Proof.
  intros [[Hs Hr]%andb_prop Hl]%andb_prop Hpre Hpost Hw.
  apply negb_true_iff in Hs. apply negb_true_iff, bool_decide_eq_false in Hr.
  apply negb_true_iff, bool_decide_eq_false in Hl. rewrite !not_elem_of_app.
  repeat split; [now apply whitespace_not_elem|done|now apply whitespace_not_elem].
Qed.

(** ** The grammar of the header *)

(** The texts of a header: an identifier, and maybe a timeout of decimal digits that fits the
    maximum, with whitespace around every part. *)
Inductive SessionText : bytes -> Session -> Prop :=
  | text_id ws1 i ws2 :
      Whitespace ws1 -> Whitespace ws2 -> session_id_valid i ->
      SessionText (ws1 ++ session_id i ++ ws2) (mkSession i None)
  | text_timeout ws1 i ws2 ws3 name ws4 ws5 digits ws6 n :
      Whitespace ws1 -> Whitespace ws2 -> Whitespace ws3 -> Whitespace ws4 -> Whitespace ws5 ->
      Whitespace ws6 -> session_id_valid i -> to_ascii_lowercase <$> name = bs "timeout" ->
      parse_unsigned U64_MAX digits = Ok n -> n <= MAX_SESSION_TIMEOUT ->
      SessionText ((ws1 ++ session_id i ++ ws2) ++ ";"%byte
                     :: (ws3 ++ name ++ ws4) ++ "="%byte :: ws5 ++ digits ++ ws6)
        (mkSession i (Some (mkDuration n 0))).

Lemma parse_digits_word max acc s n :
  parse_digits max acc s = Ok n -> Forall (fun b => no_blank b = true) s.
Proof.
  revert acc. induction s as [|b s IH]; intros acc; cbn [parse_digits]; [constructor|].
  unfold to_digit. destruct (is_ascii_digit b) eqn:Eb; [|done].
  repeat case_match; try done. intros Hp. constructor; [|exact (IH _ Hp)].
  revert Eb. clear. byte_cases b.
Qed.

Lemma parse_unsigned_word max s n :
  parse_unsigned max s = Ok n -> Forall (fun b => no_blank b = true) s.
Proof.
  unfold parse_unsigned. destruct s as [|b [|b' s]]; [done| |].
  - destruct (_ || _); [done|]. apply parse_digits_word.
  - case_bool_decide as Hb; [subst b; intros Hp; constructor; [done|]|]; now apply parse_digits_word in Hp || apply parse_digits_word.
Qed.

Lemma timeout_name_word name :
  to_ascii_lowercase <$> name = bs "timeout" ->
  Forall (fun b => no_blank b = true) name /\ "="%byte ∉ name.
Proof.
  intros Hn. assert (Hall : Forall (fun b => to_ascii_lowercase b ∈ bs "timeout") name).
  { apply Forall_forall. intros b Hb. rewrite <- Hn. now apply list_elem_of_fmap_2. }
  assert (Hb : forall b, to_ascii_lowercase b ∈ bs "timeout" -> no_blank b = true /\ b <> "="%byte).
  { intros b Hb. apply (bool_decide_eq_true_2 _) in Hb. revert Hb. destruct b; vm_compute; try discriminate; now split. }
  split; [now apply (Forall_impl _ _ _ Hall); intros b []%Hb|].
  intros He. rewrite Forall_forall in Hall. now destruct (Hb _ (Hall _ He)).
Qed.

Lemma decode_timeout_iff parameter t :
  decode_timeout parameter = Ok t <->
  exists ws3 name ws4 ws5 digits ws6,
    parameter = (ws3 ++ name ++ ws4) ++ "="%byte :: ws5 ++ digits ++ ws6
    /\ Whitespace ws3 /\ Whitespace ws4 /\ Whitespace ws5 /\ Whitespace ws6
    /\ to_ascii_lowercase <$> name = bs "timeout"
    /\ parse_unsigned U64_MAX digits = Ok (as_secs t) /\ as_secs t <= MAX_SESSION_TIMEOUT
    /\ subsec_nanos t = 0.
Proof.
  unfold decode_timeout. split.
  - destruct (split_once "="%byte parameter) as [name [value|]] eqn:Es; [|done].
    apply split_once_inv in Es as [_ ->]. case_bool_decide as Hn; [|done].
    destruct (parse_unsigned U64_MAX (trim_whitespace value)) as [n|e] eqn:Ep; [|done].
    cbn. destruct (N.ltb_spec MAX_SESSION_TIMEOUT n); [done|]. intros [= <-].
    destruct (trim_whitespace_inv name) as (ws3 & ws4 & E1 & W3 & W4).
    destruct (trim_whitespace_inv value) as (ws5 & ws6 & E2 & W5 & W6).
    exists ws3, (trim_whitespace name), ws4, ws5, (trim_whitespace value), ws6.
    rewrite <- E1, <- E2. now repeat split.
  - intros (ws3 & name & ws4 & ws5 & digits & ws6 & -> & W3 & W4 & W5 & W6 & Hn & Hp & Hm & Hs).
    destruct (timeout_name_word name Hn) as [Hw He].
    rewrite split_once_at by now apply split_once_whitespace.
    rewrite trim_surrounded, bool_decide_eq_true_2 by done. cbn [negb].
    rewrite trim_surrounded by (done || exact (parse_unsigned_word _ _ _ Hp)). rewrite Hp.
    destruct (N.ltb_spec MAX_SESSION_TIMEOUT (as_secs t)); [lia|]. destruct t; cbn in *. now subst.
Qed.

Lemma session_decode_iff v s : decode [v] = Ok (Some s) <-> SessionText (as_str v) s.
Proof.
  unfold decode. split.
  - destruct (split_once ";"%byte (as_str v)) as [first parameter] eqn:Es.
    apply split_once_inv in Es as [_ Es].
    destruct (id_try_from (trim_whitespace first)) as [i|e] eqn:Ei; [|done].
    apply id_try_from_iff in Ei as [Hi Ei].
    destruct (trim_whitespace_inv first) as (ws1 & ws2 & E1 & W1 & W2). rewrite Ei in E1.
    destruct parameter as [parameter|].
    + destruct (decode_timeout parameter) as [t|e] eqn:Et; [|done]. cbn. intros [= <-].
      apply decode_timeout_iff in Et as (ws3 & name & ws4 & ws5 & digits & ws6 & -> & W3 & W4 & W5 & W6 & Hn & Hp & Hm & Hs).
      rewrite Es, E1. destruct t as [n m]. cbn in *. subst m. now apply text_timeout.
    + intros [= <-]. rewrite Es, E1. now apply text_id.
  - intros Ht. destruct v as [text]. cbn [as_str] in *.
    destruct Ht as [ws1 i ws2 W1 W2 Hi|ws1 i ws2 ws3 name ws4 ws5 digits ws6 n W1 W2 W3 W4 W5 W6 Hi Hn Hp Hm];
      destruct (session_id_word i Hi) as (Hw & Hc & _).
    + rewrite split_once_none by now apply split_once_whitespace.
      rewrite trim_surrounded by done. now rewrite (proj2 (id_try_from_iff _ i)).
    + rewrite split_once_at by now apply split_once_whitespace.
      rewrite trim_surrounded by done. rewrite (proj2 (id_try_from_iff _ i)) by done.
      assert (decode_timeout ((ws3 ++ name ++ ws4) ++ "="%byte :: ws5 ++ digits ++ ws6) = Ok (mkDuration n 0)) as ->
        by (apply decode_timeout_iff; now exists ws3, name, ws4, ws5, digits, ws6).
      reflexivity.
Qed.

(** ** Properties *)

(** Session identifiers: the texts that are accepted are those of 8 to 256 characters of the
    alphabet, the length is checked first, and the identifiers that are generated are valid. *)
Theorem session_id_spec (value : bytes) (choose : nat -> byte) :
  (forall i, id_try_from value = Ok i <-> session_id_valid i /\ value = session_id i)
  /\ (forall e, id_try_from value = Err e ->
        e = if len value <? 8 then TooShort else if 256 <? len value then TooLong else InvalidCharacter)
  /\ ((forall i, choose i ∈ SESSION_ID_ALPHABET) -> session_id_valid (random choose)).
Proof.
  split; [exact (id_try_from_iff value)|]. split.
  - intros e. unfold id_try_from. destruct (len value <? 8); [now intros [= <-]|].
    destruct (256 <? len value); [now intros [= <-]|].
    destruct (existsb _ _); [now intros [= <-]|done].
  - intros Hc. split; [now vm_compute|]. cbn [session_id random].
    apply Forall_fmap, Forall_forall. intros i _. apply Hc.
Qed.

(** C31: The Session header: decoding succeeds exactly on one value whose text is an identifier, and
    maybe a timeout, in the grammar. *)
Theorem session_header_grammar (values : list HeaderValue) (s : Session) :
  (decode values = Ok None <-> values = [])
  /\ (decode values = Ok (Some s) <-> exists v, values = [v] /\ SessionText (as_str v) s).
Proof.
  destruct values as [|v [|v' values]].
  - split; [now split|]. split; [done|]. now intros (v & ? & _).
  - split.
    + split; [|done]. unfold decode. destruct (split_once _ _) as [first [p|]];
        destruct (id_try_from _); try done. now destruct (decode_timeout p).
    + rewrite session_decode_iff. split; [now exists v|]. now intros (v' & [= <-] & ?).
  - split; [now split|]. split; [done|]. now intros (? & ? & _).
Qed.

(** C32: What is encoded is a header value, and decoding it gives the session back, except that the
    default timeout is not written, that a timeout loses its fraction of a second, and that one
    above the maximum is refused. *)
Theorem session_roundtrip (s : Session) :
  session_id_valid (id s) -> (forall t, timeout s = Some t -> as_secs t <= U64_MAX) ->
  Forall (fun v => HeaderValue.try_from (as_str v) = Ok v) (encode s)
  /\ decode (encode s)
     = match timeout s with
       | None => Ok (Some s)
       | Some t =>
           if as_secs t =? 60 then Ok (Some (mkSession (id s) None))
           else if MAX_SESSION_TIMEOUT <? as_secs t then Err (ETimeout ExceedsMaximumLength)
           else Ok (Some (mkSession (id s) (Some (mkDuration (as_secs t) 0))))
       end.
Proof.
  intros Hid Ht. destruct (session_id_word _ Hid) as (Hw & Hc & Hp). unfold encode.
  assert (Hplain : decode [mkHeaderValue (session_id (id s))] = Ok (Some (mkSession (id s) None))).
  { apply session_decode_iff. rewrite <- (app_nil_r (session_id (id s))).
    apply (text_id [] (id s) []); done || constructor. }
  destruct (timeout s) as [t|] eqn:Et; [cbn [as_secs DEFAULT_SESSION_TIMEOUT]; destruct (as_secs t =? 60) eqn:E60|].
  - split; [constructor; [now apply printable_value|constructor]|exact Hplain].
  - split.
    + constructor; [|constructor]. apply printable_value. cbn [as_str]. rewrite !Forall_app.
      split; [done|]. split; [repeat constructor; now vm_compute|].
      apply (Forall_impl _ _ _ (to_string_digits (as_secs t))).
      intros b [?%N.leb_le ?%N.leb_le]%andb_prop. lia.
    + pose proof (parse_unsigned_to_string U64_MAX (as_secs t) (Ht t eq_refl)) as Hn.
      unfold decode. cbn [as_str].
      change (bs "; timeout = " ++ to_string (as_secs t)) with
        (";"%byte :: ([SP] ++ bs "timeout" ++ [SP]) ++ "="%byte :: [SP] ++ to_string (as_secs t)).
      rewrite split_once_at by done. rewrite trim_word, (proj2 (id_try_from_iff _ (id s))) by done.
      unfold decode_timeout. rewrite split_once_at by (apply (bool_decide_eq_true_1 _); reflexivity).
      rewrite trim_surrounded by (repeat constructor). cbn [negb].
      rewrite <- (app_nil_r (to_string (as_secs t))), trim_surrounded, Hn;
        [|repeat constructor|constructor|exact (parse_unsigned_word _ _ _ Hn)].
      cbn. now destruct (MAX_SESSION_TIMEOUT <? as_secs t).
  - split; [constructor; [now apply printable_value|constructor]|]. rewrite Hplain.
    destruct s; cbn in *; now subst.
Qed.

Lemma session_roundtrip_witness :
  decode (encode (mkSession sample_id (Some (mkDuration 180 5))))
  = Ok (Some (mkSession sample_id (Some (mkDuration 180 0)))).
Proof.
  refine (proj2 (session_roundtrip (mkSession sample_id (Some (mkDuration 180 5))) _ _)).
  - apply (id_try_from_iff (session_id sample_id)). reflexivity.
  - now intros t [= <-].
Defined.
