(* ===== verification/Transport.v ===== *)
(** * The parameters of the Transport header

    Model of the files under [rtsp-2/src/header/types/transport/]: the mode, setup, connection,
    delivery type, layers, interleaved, address and MIKEY parameters. *)

From Stdlib Require Import Strings.Byte.
From stdpp Require Import base list numbers strings.
From S2P Require Import Prelude Text Syntax Method HeaderName HeaderValue CommaList AcceptRanges.

Local Open Scope N_scope.
Local Open Scope rust_scope.

(** ** Mode ([mode.rs]) *)

Inductive Mode := MExtension (name : bytes) | Play.

#[export] Instance mode_eq_dec : EqDecision Mode.
Proof. solve_decision. Defined.

Inductive ModeError := MEmpty | MInvalidCharacter | MissingQuotes | Reserved.

#[export] Instance mode_error_eq_dec : EqDecision ModeError.
Proof. solve_decision. Defined.

Definition mode_as_str (m : Mode) : bytes :=
  match m with
  | Play => bs "PLAY"
  | MExtension name => name
  end.

Definition mode_default : Mode := Play.

Definition mode_extension (value : bytes) : Result Mode ModeError :=
  if bool_decide (value = []) then Err MEmpty
  else if eq_ignore_ascii_case value (bs "RECORD") then Err Reserved
  else if negb (is_token value) then Err MInvalidCharacter
  else Ok (MExtension (to_ascii_uppercase <$> value)).

(** [TryFrom<&[u8]>]. *)
Definition mode_try_from (value : bytes) : Result Mode ModeError :=
  if eq_ignore_ascii_case value (bs "PLAY") then Ok Play else mode_extension value.

(** [PartialEq] with [[u8]] and [str], in both directions. *)
Definition mode_eq_bytes (m : Mode) (other : bytes) : bool :=
  eq_ignore_ascii_case (mode_as_str m) other.

Definition DQUOTE : byte := x22.

Section Modes.
Context {S : Type} `{!LinkedSetOps S Mode}.

(** The loop of [parse_modes]. *)
Fixpoint insert_modes (parts : list bytes) (modes : S) : Result S ModeError :=
  match parts with
  | [] => Ok modes
  | part :: parts =>
      match mode_try_from (trim_bytes_whitespace part) with
      | Ok mode => insert_modes parts (set_insert mode modes)
      | Err e => Err e
      end
  end.

(** [parse_modes]; the slice [value[1..value.len() - 1]] of a value of one byte is a panic. *)
Definition parse_modes (value : bytes) : Outcome (Result S ModeError) :=
  let value := trim_bytes_whitespace value in
  if negb (starts_with [DQUOTE] value) || negb (ends_with [DQUOTE] value)
  then Return (Err MissingQuotes)
  else if (length value <? 2)%nat then Panic
  else
    let value := take (length value - 2) (drop 1 value) in
    Return (insert_modes (split_on ","%byte value) set_new).
End Modes.

(** ** Setup, connection, delivery type ([setup.rs], [connection.rs], [delivery_type.rs]) *)

Inductive Setup := Active | ActPass | Passive.

Inductive SetupError := setup_error.

Definition setup_as_str (s : Setup) : bytes :=
  match s with
  | Active => bs "active"
  | ActPass => bs "actpass"
  | Passive => bs "passive"
  end.

Definition setup_default : Setup := Active.

Definition setup_try_from (value : bytes) : Result Setup SetupError :=
  if eq_ignore_ascii_case value (bs "active") then Ok Active
  else if eq_ignore_ascii_case value (bs "actpass") then Ok ActPass
  else if eq_ignore_ascii_case value (bs "passive") then Ok Passive
  else Err setup_error.

Definition setup_eq_bytes (s : Setup) (other : bytes) : bool :=
  eq_ignore_ascii_case (setup_as_str s) other.

Inductive Connection := Existing | New.

Inductive ConnectionError := connection_error.

Definition connection_as_str (c : Connection) : bytes :=
  match c with
  | Existing => bs "existing"
  | New => bs "new"
  end.

Definition connection_default : Connection := Existing.

Definition connection_try_from (value : bytes) : Result Connection ConnectionError :=
  if eq_ignore_ascii_case value (bs "existing") then Ok Existing
  else if eq_ignore_ascii_case value (bs "new") then Ok New
  else Err connection_error.

Definition connection_eq_bytes (c : Connection) (other : bytes) : bool :=
  eq_ignore_ascii_case (connection_as_str c) other.

Inductive DeliveryType := Multicast | Unicast.

Inductive DeliveryTypeError := delivery_type_error.

Definition delivery_type_as_str (d : DeliveryType) : bytes :=
  match d with
  | Multicast => bs "multicast"
  | Unicast => bs "unicast"
  end.

Definition delivery_type_try_from (value : bytes) : Result DeliveryType DeliveryTypeError :=
  if eq_ignore_ascii_case value (bs "unicast") then Ok Unicast
  else if eq_ignore_ascii_case value (bs "multicast") then Ok Multicast
  else Err delivery_type_error.

Definition delivery_type_eq_bytes (d : DeliveryType) (other : bytes) : bool :=
  eq_ignore_ascii_case (delivery_type_as_str d) other.

(** ** Layers ([layers.rs]) *)

Record Layers := mkLayers { layers : N }.

Inductive LayersError := layers_error.

Definition layers_default : Layers := mkLayers 1.

(** [TryFrom<u8>]. *)
Definition layers_try_from (value : N) : Result Layers LayersError :=
  if (value =? 0) || (9 <? value) then Err layers_error else Ok (mkLayers value).

(** ** Interleaved ([interleaved.rs]) *)

(** [Interleaved(RangeInclusive<u8>)]. *)
Record Interleaved := mkInterleaved { channel_start : N; channel_end : N }.

#[export] Instance interleaved_eq_dec : EqDecision Interleaved.
Proof. solve_decision. Defined.

Inductive InterleavedError := IEmpty | IInvalidCharacter | IOverflow.

#[export] Instance interleaved_error_eq_dec : EqDecision InterleavedError.
Proof. solve_decision. Defined.

(** The loop of [parse_channel] with the bytes that are left, [checked_mul] and [checked_add] on
    [u8]. *)
Fixpoint channel_loop (value : bytes) (channel : N) (digits_found : nat) :
    Result (N * bytes) InterleavedError :=
  match value with
  | [] => if (digits_found =? 0)%nat then Err IEmpty else Ok (channel, [])
  | b :: rest =>
      if negb (is_ascii_digit b) then
        if (0 <? digits_found)%nat then Ok (channel, value) else Err IEmpty
      else if U8_MAX <? channel * 10 then Err IOverflow
      else if U8_MAX <? channel * 10 + (Byte.to_N b - 48) then Err IOverflow
      else channel_loop rest (channel * 10 + (Byte.to_N b - 48)) (S digits_found)
  end.

Definition parse_channel (value : bytes) : Result (N * bytes) InterleavedError :=
  channel_loop value 0 0.

(** [TryFrom<&[u8]>]. *)
Definition interleaved_try_from (value : bytes) : Result Interleaved InterleavedError :=
  match parse_channel value with
  | Err e => Err e
  | Ok (channel_start, value) =>
      if bool_decide (value = []) then Ok (mkInterleaved channel_start channel_start)
      else
        let value := trim_bytes_whitespace_left value in
        if negb (starts_with (bs "-") value) then Err IInvalidCharacter
        else
          match parse_channel (trim_bytes_whitespace_left (drop 1 value)) with
          | Err e => Err e
          | Ok (channel_end, value) =>
              if negb (bool_decide (value = [])) then Err IInvalidCharacter
              else Ok (mkInterleaved channel_start channel_end)
          end
  end.

(** [Display]. *)
Definition interleaved_to_string (i : Interleaved) : bytes :=
  to_string (channel_start i)
  ++ (if negb (channel_start i =? channel_end i) then bs "-" ++ to_string (channel_end i) else []).

(** ** Address ([address.rs]) *)

(** [uriparse::Host::try_from], the test for an empty registered name, [Display] for [Host], and
    [uriparse::authority::parse_port]. *)
Class HostOps := {
  Host : Type;
  host_try_from : bytes -> option Host;
  host_is_empty_name : Host -> bool;
  host_to_string : Host -> bytes;
  parse_port : bytes -> option (option N);
}.

Section Address.
Context `{HostOps}.

(** [str::to_lowercase], which also maps characters that are not ASCII. *)
Context (to_lowercase : bytes -> bytes).

Record HostPort := mkHostPort { host : option Host; port : option N }.

Inductive Address := AExtension (address : bytes) | AHostPort (host_port : HostPort).

Inductive AddressError := address_error.

Definition address_extension (value : bytes) : Result Address AddressError :=
  if negb (is_qdtext value) then Err address_error else Ok (AExtension (to_lowercase value)).

(** [TryFrom<&[u8]>]. *)
Definition address_try_from (value : bytes) : Result Address AddressError :=
  let '(host, port) :=
    match position (is_byte ":"%byte) value with
    | Some index => (take index value, Some (drop (S index) value))
    | None => (value, None)
    end in
  match host_try_from host with
  | None => address_extension value
  | Some host =>
      let host := if host_is_empty_name host then None else Some host in
      match port with
      | Some port =>
          match parse_port port with
          | Some port => Ok (AHostPort (mkHostPort host port))
          | None => address_extension value
          end
      | None => Ok (AHostPort (mkHostPort host None))
      end
  end.

(** [Display]. *)
Definition host_port_to_string (a : HostPort) : bytes :=
  match host a with Some host => host_to_string host | None => [] end
  ++ match port a with Some port => bs ":" ++ to_string port | None => [] end.

Definition address_to_string (a : Address) : bytes :=
  match a with
  | AExtension address => address
  | AHostPort a => host_port_to_string a
  end.
End Address.
Arguments HostPort {_}.
Arguments Address {_}.

(** ** MIKEY ([mikey.rs]) *)

Record MIKEY := mkMIKEY { mikey : bytes }.

(** [TryFrom<&[u8]>], over [base64::decode]. *)
Definition mikey_try_from {Base64DecodeError} (base64_decode : bytes -> Result bytes Base64DecodeError)
    (value : bytes) : Result MIKEY Base64DecodeError :=
  result_map mkMIKEY (base64_decode value).

Example transport_ex :
  parse_modes (S := list Mode) ([DQUOTE] ++ bs "PLAY, other" ++ [DQUOTE]) = Return (Ok [Play; MExtension (bs "OTHER")])
  /\ parse_modes (S := list Mode) (bs "PLAY") = Return (Err MissingQuotes)
  /\ setup_try_from (bs "ActPass") = Ok ActPass /\ layers_try_from 10 = Err layers_error
  /\ interleaved_try_from (bs "4 - 5") = Ok (mkInterleaved 4 5)
  /\ interleaved_try_from (bs "256") = Err IOverflow
  /\ interleaved_to_string (mkInterleaved 4 5) = bs "4-5".
Proof. now vm_compute. Qed.

(** ** What decoding does *)

Lemma eq_ignore_ascii_case_spec s t :
  eq_ignore_ascii_case s t = true <-> to_ascii_lowercase <$> s = to_ascii_lowercase <$> t.
Proof. apply bool_decide_eq_true. Qed.

(** A valid mode: an extension is an upper-case token that is neither the standard nor the reserved
    name. *)
Definition mode_wf (m : Mode) : Prop :=
  match m with
  | MExtension name =>
      is_token name = true /\ to_ascii_uppercase <$> name = name
      /\ name <> bs "PLAY" /\ name <> bs "RECORD"
  | Play => True
  end.

Lemma lower_upper_iff (s t : bytes) :
  to_ascii_uppercase <$> t = t ->
  (to_ascii_lowercase <$> s = to_ascii_lowercase <$> t <-> to_ascii_uppercase <$> s = t).
Proof.
  intros Ht. split.
  - intros H. rewrite <- Ht. clear Ht. revert t H. induction s as [|b s IH]; intros [|c t]; cbn; try done.
    intros [= Hb Hs]. f_equal; [|now apply IH].
    rewrite <- (to_ascii_upper_lower b), <- (to_ascii_upper_lower c). now f_equal.
  - intros <-. rewrite <- list_fmap_compose. apply list_fmap_ext. intros i b _. symmetry.
    apply to_ascii_lower_upper.
Qed.

Lemma mode_try_from_iff value m :
  mode_try_from value = Ok m <-> mode_wf m /\ to_ascii_uppercase <$> value = mode_as_str m.
Proof.
  unfold mode_try_from. destruct (eq_ignore_ascii_case value (bs "PLAY")) eqn:Ep.
  - apply eq_ignore_ascii_case_spec, lower_upper_iff in Ep; [|reflexivity]. split.
    + now intros [= <-].
    + intros [Hwf Hm]. destruct m as [name|]; [|done]. destruct Hwf as (_ & _ & Hn & _).
      cbn in Hm. congruence.
  - assert (Hplay : to_ascii_uppercase <$> value <> bs "PLAY").
    { intros H. apply not_true_iff_false in Ep. apply Ep, eq_ignore_ascii_case_spec.
      now apply lower_upper_iff. }
    unfold mode_extension. case_bool_decide as Hv.
    { subst. split; [done|]. intros [Hwf Hm]. destruct m as [name|]; [|done]. cbn in Hm. subst.
      now destruct Hwf. }
    destruct (eq_ignore_ascii_case value (bs "RECORD")) eqn:Er.
    { apply eq_ignore_ascii_case_spec, lower_upper_iff in Er; [|reflexivity]. split; [done|].
      intros [Hwf Hm]. destruct m as [name|]; [|done]. destruct Hwf as (_ & _ & _ & Hn). cbn in Hm. congruence. }
    assert (Hrecord : to_ascii_uppercase <$> value <> bs "RECORD").
    { intros H. apply not_true_iff_false in Er. apply Er, eq_ignore_ascii_case_spec.
      now apply lower_upper_iff. }
    destruct (is_token value) eqn:Et; cbn [negb].
    + split.
      * intros [= <-]. cbn. rewrite Method.is_token_uppercase, Method.uppercase_idemp. now repeat split.
      * intros [Hwf Hm]. destruct m as [name|]; [cbn in Hm; now rewrite Hm|now destruct Hplay].
    + split; [done|]. intros [Hwf Hm]. destruct m as [name|]; [|now destruct Hplay].
      cbn in Hm. destruct Hwf as [Ht _]. rewrite <- Hm, Method.is_token_uppercase in Ht. congruence.
Qed.

#[export] Instance mode_item : ListItem Mode ModeError := {|
  item_as_str := mode_as_str;
  item_try_from := mode_try_from;
|}.

#[export] Instance mode_item_laws : ListItemLaws Mode ModeError mode_wf.
Proof.
  split.
  - intros m Hm. apply mode_try_from_iff. split; [done|].
    destruct m as [name|]; [now destruct Hm as (_ & Hu & _)|reflexivity].
  - intros m Hm. apply word_text, token_word. destruct m as [name|]; [apply Hm|reflexivity].
  - now exists MEmpty.
Qed.

#[export] Instance mode_item_reads : ListItemReads Mode ModeError mode_wf.
Proof. split. now intros w m [Hm _]%mode_try_from_iff. Qed.

(** The loop reads the parts like that of a header, with the trimming of byte slices. *)
Lemma trim_bytes_string s : trim_bytes_whitespace s = trim_whitespace s.
Proof.
  unfold trim_whitespace, trim_bytes_whitespace.
  now rewrite trim_whitespace_left_strip, trim_bytes_whitespace_left_strip,
    trim_whitespace_right_strip, trim_bytes_whitespace_right_strip.
Qed.

Lemma insert_modes_parts {S} `{!LinkedSetOps S Mode} parts (modes : S) :
  insert_modes parts modes = decode_parts parts modes.
Proof.
  revert modes. induction parts as [|p parts IH]; intros modes; [done|].
  cbn [insert_modes decode_parts]. rewrite trim_bytes_string. change item_try_from with mode_try_from. destruct (mode_try_from (trim_whitespace p)); [apply IH|done].
Qed.

Lemma eq_ignore_unique v w w' :
  eq_ignore_ascii_case v w = true -> eq_ignore_ascii_case v w' = true ->
  to_ascii_lowercase <$> w = to_ascii_lowercase <$> w'.
Proof. rewrite !eq_ignore_ascii_case_spec. congruence. Qed.

(** Goals on a chain of comparisons with distinct words. *)
Ltac word_chain :=
  repeat match goal with
    | |- context [if eq_ignore_ascii_case ?v ?w then _ else _] =>
        destruct (eq_ignore_ascii_case v w) eqn:?
    end;
  (split; [try (intros [= <-]); try discriminate; try done|]);
  let Hw := fresh in
  intros Hw;
  match type of Hw with eq_ignore_ascii_case _ (_ ?a) = true => destruct a; cbn in Hw end;
  try reflexivity; try (unfold bs in *; cbn in *; congruence);
  match goal with
  | Ha : eq_ignore_ascii_case ?v _ = true, Hb : eq_ignore_ascii_case ?v _ = true |- _ =>
      now pose proof (eq_ignore_unique _ _ _ Ha Hb)
  end.

Lemma transport_words_iff v :
  (forall s, setup_try_from v = Ok s <-> eq_ignore_ascii_case v (setup_as_str s) = true)
  /\ (forall c, connection_try_from v = Ok c <-> eq_ignore_ascii_case v (connection_as_str c) = true)
  /\ (forall d, delivery_type_try_from v = Ok d
        <-> eq_ignore_ascii_case v (delivery_type_as_str d) = true).
Proof.
  unfold setup_try_from, connection_try_from, delivery_type_try_from.
  split; [intros s; word_chain|]. split; [intros s; word_chain|]. intros d; word_chain.
Qed.

(** The words of the closed parameters are read back without regard to case, and nothing else is
    read. *)
Theorem transport_words_spec v n :
  (forall s, setup_try_from v = Ok s <-> eq_ignore_ascii_case v (setup_as_str s) = true)
  /\ (forall c, connection_try_from v = Ok c <-> eq_ignore_ascii_case v (connection_as_str c) = true)
  /\ (forall d, delivery_type_try_from v = Ok d
        <-> eq_ignore_ascii_case v (delivery_type_as_str d) = true)
  /\ (forall l, layers_try_from n = Ok l <-> l = mkLayers n /\ 1 <= n <= 9).
Proof.
  destruct (transport_words_iff v) as (Hs & Hc & Hd). do 3 (split; [done|]).
  unfold layers_try_from.
  intros l. destruct (N.eqb_spec n 0), (N.ltb_spec 9 n); cbn; (split; [intros [= <-]|intros [-> ?]]);
    try done; solve [lia | split; [done|lia]].
Qed.

(** ** Mode parameters *)

(** What a list of modes is written as: the modes in quotes, separated by commas (RFC 7826,
    [mode-spec]). *)
Definition modes_text (modes : list Mode) : bytes :=
  [DQUOTE] ++ join (bs ", ") (mode_as_str <$> modes) ++ [DQUOTE].

Lemma quoted_middle w :
  take (length ([DQUOTE] ++ w ++ [DQUOTE]) - 2) (drop 1 ([DQUOTE] ++ w ++ [DQUOTE])) = w.
Proof.
  cbn [app drop length]. rewrite length_app. cbn [length].
  replace (S (length w + 1) - 2)%nat with (length w) by lia. rewrite drop_0. apply take_app_length.
Qed.

Lemma quoted_trim w : trim_bytes_whitespace ([DQUOTE] ++ w ++ [DQUOTE]) = [DQUOTE] ++ w ++ [DQUOTE].
Proof. rewrite trim_bytes_string. now apply (trim_enclosed DQUOTE w DQUOTE). Qed.

(** What starts and ends with a quote is a lone quote or is quoted. *)
Lemma quoted_cases value :
  starts_with [DQUOTE] value = true -> ends_with [DQUOTE] value = true ->
  value = [DQUOTE] \/ exists w, value = [DQUOTE] ++ w ++ [DQUOTE].
Proof.
  intros [k ->]%bool_decide_eq_true [k' Hk]%bool_decide_eq_true.
  destruct k as [|b k _] using rev_ind; [now left|]. right. exists k. rewrite app_assoc in Hk |- *.
  apply app_inj_tail in Hk as [_ ->]. reflexivity.
Qed.

Lemma mode_error_item words e : read_items (A := Mode) words = Err e -> e <> MissingQuotes.
Proof.
  induction words as [|w words IH]; [done|]. cbn [read_items item_try_from mode_item].
  destruct (mode_try_from w) as [m|e'] eqn:Ew.
  - destruct (read_items words); [done|]. intros [= <-]. now apply IH.
  - intros [= <-]. revert Ew. unfold mode_try_from, mode_extension.
    repeat case_match; intros; congruence.
Qed.

Section ModesSpec.
Context {S : Type} `{!LinkedSetOps S Mode, !LinkedSetLaws S Mode}.

(** [parse_modes] on every input: it panics on a lone quote; what is not quoted is refused; between
    the quotes it reads the parts, in order, each without its surrounding white space. *)
Theorem parse_modes_spec value :
  (parse_modes (S := S) value = Panic <-> trim_bytes_whitespace value = [DQUOTE])
  /\ (parse_modes (S := S) value = Return (Err MissingQuotes)
        <-> (forall w, trim_bytes_whitespace value <> [DQUOTE] ++ w ++ [DQUOTE])
            /\ trim_bytes_whitespace value <> [DQUOTE])
  /\ (forall w, trim_bytes_whitespace value = [DQUOTE] ++ w ++ [DQUOTE] ->
        match read_items (trim_whitespace <$> split_on ","%byte w) with
        | Err e => parse_modes (S := S) value = Return (Err e) /\ e <> MissingQuotes
        | Ok l => Forall mode_wf l /\ exists s, parse_modes value = Return (Ok s)
                    /\ set_iter s = last_occurrences l
        end).
Proof.
  pose proof (quoted_cases (trim_bytes_whitespace value)) as Hq. unfold parse_modes.
  destruct (starts_with [DQUOTE] (trim_bytes_whitespace value)) eqn:Hs.
  2: { assert (Hno : forall k, trim_bytes_whitespace value <> [DQUOTE] ++ k).
       { intros k Hk. rewrite Hk in Hs. unfold starts_with in Hs.
         apply bool_decide_eq_false in Hs. apply Hs. now exists k. }
       cbn [negb orb]. split; [split; [done|intros Hw; destruct (Hno [] Hw)]|].
       split; [|intros w Hw; destruct (Hno _ Hw)].
       split; [|done]. intros _. split; [intros w; apply Hno|apply (Hno [])]. }
  destruct (ends_with [DQUOTE] (trim_bytes_whitespace value)) eqn:He.
  2: { assert (Hno : forall k, trim_bytes_whitespace value <> k ++ [DQUOTE]).
       { intros k Hk. rewrite Hk in He. unfold ends_with in He.
         apply bool_decide_eq_false in He. apply He. now exists k. }
       cbn [negb orb]. split; [split; [done|intros Hw; destruct (Hno [] Hw)]|].
       split; [|intros w Hw; destruct (Hno ([DQUOTE] ++ w) Hw)].
       split; [|done]. intros _. split; [intros w; apply (Hno ([DQUOTE] ++ w))|apply (Hno [])]. }
  destruct (Hq eq_refl eq_refl) as [-> | [w ->]]; clear Hq Hs He.
  - split; [done|]. split; [split; [done|now intros [_ []]]|]. intros w Hw. apply (f_equal length) in Hw.
    rewrite !length_app in Hw. cbn in Hw. lia.
  - assert (Hlen : (length ([DQUOTE] ++ w ++ [DQUOTE]) <? 2)%nat = false).
    { apply Nat.ltb_ge. rewrite !length_app. cbn. lia. }
    rewrite Hlen, quoted_middle, insert_modes_parts, decode_parts_read. cbn [negb orb].
    split; [split; [done|]|split; [split|]].
    + intros Hw. now rewrite Hw in Hlen.
    + destruct (read_items _) eqn:Er; [done|]. intros [= ->]. now apply mode_error_item in Er.
    + intros [Hw _]. now destruct (Hw w).
    + intros w' Hw. apply app_inv_head, app_inv_tail in Hw as <-.
      destruct (read_items (trim_whitespace <$> split_on _ w)) as [l|e] eqn:Er.
      * split; [exact (read_items_valid mode_wf _ _ Er)|]. eexists. split; [reflexivity|].
        apply set_iter_from_iter.
      * split; [done|]. exact (mode_error_item _ _ Er).
Qed.
End ModesSpec.

(** Modes that are written as a quoted list are read back in the same order. *)
Theorem modes_roundtrip (modes : list Mode) :
  modes <> [] -> Forall mode_wf modes -> NoDup modes ->
  parse_modes (modes_text modes) = Return (Ok modes).
Proof.
  intros Hne Hwf Hd. unfold parse_modes, modes_text.
  rewrite quoted_trim, quoted_middle.
  set (text := [DQUOTE] ++ _ ++ [DQUOTE]).
  assert (Hs : starts_with [DQUOTE] text = true) by (apply bool_decide_eq_true; now eexists).
  assert (He : ends_with [DQUOTE] text = true).
  { apply bool_decide_eq_true. exists ([DQUOTE] ++ join (bs ", ") (mode_as_str <$> modes)).
    unfold text. now rewrite app_assoc. }
  assert (Hl : (length text <? 2)%nat = false).
  { apply Nat.ltb_ge. unfold text. rewrite !length_app. cbn. lia. }
  rewrite Hs, He, Hl. cbn [negb orb]. do 2 f_equal.
  change mode_as_str with item_as_str.
  rewrite insert_modes_parts, decode_parts_read, split_joined by (done || now apply (Forall_impl _ _ _ Hwf), item_text).
  rewrite (read_items_written mode_wf) by done. f_equal.
  change (foldl _ set_new modes) with (last_occurrences modes). now apply last_occurrences_nodup.
Qed.

(** ** Interleaved channels *)

Definition all_digits (w : bytes) : Prop := Forall (fun b => is_ascii_digit b = true) w.

(** [parse_channel] reads the digits that [str::parse] would read, and leaves the rest. *)
Lemma channel_loop_digits w rest n k :
  all_digits w -> (k <> 0%nat \/ w <> []) -> n <= U8_MAX ->
  (forall b s, rest = b :: s -> is_ascii_digit b = false) ->
  channel_loop (w ++ rest) n k
  = match parse_digits U8_MAX n w with
    | Ok m => Ok (m, rest)
    | Err _ => Err IOverflow
    end.
Proof.
  intros Hw Hk Hn Hrest. revert n k Hk Hn. induction Hw as [|b w Hb _ IH]; intros n k Hk Hn.
  - cbn. destruct Hk as [Hk|]; [|done]. destruct k as [|k]; [done|].
    destruct rest as [|b s]; cbn; [done|]. now rewrite (Hrest b s eq_refl).
  - cbn [app channel_loop parse_digits]. unfold to_digit. rewrite Hb. cbn [negb].
    destruct (N.ltb_spec U8_MAX (n * 10)); [done|].
    destruct (N.ltb_spec U8_MAX (n * 10 + (Byte.to_N b - 48))); [done|]. apply IH; [now left|done].
Qed.

Lemma channel_loop_none rest n :
  (forall b s, rest = b :: s -> is_ascii_digit b = false) -> channel_loop rest n 0 = Err IEmpty.
Proof. intros H. destruct rest as [|b s]; cbn; [done|]. now rewrite (H b s eq_refl). Qed.

(** Every text starts with its digits. *)
Lemma span_digits value :
  exists w rest, value = w ++ rest /\ all_digits w
    /\ (forall b s, rest = b :: s -> is_ascii_digit b = false).
Proof.
  induction value as [|b value (w & rest & -> & Hw & Hrest)].
  { exists [], []. split; [done|]. split; [constructor|done]. }
  destruct (is_ascii_digit b) eqn:Hb.
  - exists (b :: w), rest. repeat split; [now constructor|done].
  - exists [], (b :: w ++ rest). repeat split; [constructor|]. now intros ? ? [= <- <-].
Qed.

(** The text of a channel: digits that are worth at most 255. *)
Definition channel_text (w : bytes) (n : N) : Prop :=
  w <> [] /\ all_digits w /\ parse_digits U8_MAX 0 w = Ok n.

Lemma parse_channel_iff value n rest :
  parse_channel value = Ok (n, rest) <->
  exists w, value = w ++ rest /\ channel_text w n
    /\ (forall b s, rest = b :: s -> is_ascii_digit b = false).
Proof.
  unfold parse_channel, channel_text. split.
  - destruct (span_digits value) as (w & rest' & -> & Hw & Hrest).
    destruct (decide (w = [])) as [-> | Hne]; [now rewrite channel_loop_none|].
    rewrite channel_loop_digits by (done || now right). destruct (parse_digits _ _ _) eqn:Ep; [|done].
    intros [= -> ->]. now exists w.
  - intros (w & -> & (Hne & Hw & Hp) & Hrest).
    rewrite channel_loop_digits by (done || now right). now rewrite Hp.
Qed.

(** What [Interleaved] is read from: one channel, or two with a dash between them and white space
    around the dash. *)
Inductive InterleavedText : bytes -> Interleaved -> Prop :=
  | text_channel w n : channel_text w n -> InterleavedText w (mkInterleaved n n)
  | text_channels w s s' w' n n' :
      channel_text w n -> Whitespace s -> Whitespace s' -> channel_text w' n' ->
      InterleavedText (w ++ s ++ bs "-" ++ s' ++ w') (mkInterleaved n n').

Lemma trim_left_word pre b w :
  Whitespace pre -> no_blank b = true -> trim_bytes_whitespace_left (pre ++ b :: w) = b :: w.
Proof.
  intros Hpre Hb. rewrite trim_bytes_whitespace_left_strip, strip_left_whitespace by done.
  apply strip_of_stripped. now apply stripped_no_blank; [left|].
Qed.

Lemma trim_left_inv s : exists pre, s = pre ++ trim_bytes_whitespace_left s /\ Whitespace pre.
Proof. rewrite trim_bytes_whitespace_left_strip. apply strip_left_prefix. Qed.

Lemma whitespace_no_digit s t b k :
  Whitespace s -> is_ascii_digit b = false -> s ++ b :: t = k -> forall b' k', k = b' :: k' -> is_ascii_digit b' = false.
Proof.
  intros Hs Hb <- b' k' Hk. destruct Hs as [|b0 s Hb0 _|s _]; injection Hk as <- <-; [done| |done].
  revert Hb0. byte_cases b0.
Qed.

Lemma interleaved_text_iff value i :
  interleaved_try_from value = Ok i <-> InterleavedText value i.
Proof.
  unfold interleaved_try_from. split.
  - destruct (parse_channel value) as [[n rest]|e] eqn:Ec; [|done].
    apply parse_channel_iff in Ec as (w & -> & Hw & _).
    case_bool_decide as Hrest; [intros [= <-]; subst; rewrite app_nil_r; now constructor|].
    destruct (trim_left_inv rest) as (pre & Hpre & Hws).
    destruct (starts_with (bs "-") (trim_bytes_whitespace_left rest)) eqn:Es; [|done].
    apply bool_decide_eq_true in Es as [k Hk]. rewrite Hk in *. cbn [negb].
    change (drop 1 (bs "-" ++ k)) with (drop 0 k). rewrite drop_0.
    destruct (trim_left_inv k) as (pre' & Hpre' & Hws').
    destruct (parse_channel (trim_bytes_whitespace_left k)) as [[n' rest']|e] eqn:Ec'; [|done].
    apply parse_channel_iff in Ec' as (w' & Hk' & Hw' & _). rewrite Hk' in *.
    case_bool_decide as Hrest'; [|done]. intros [= <-]. subst rest'. rewrite app_nil_r in *.
    subst rest k. now constructor.
  - destruct 1 as [w n Hw|w s s' w' n n' Hw Hs Hs' Hw'].
    + rewrite (proj2 (parse_channel_iff w n [])); [done|]. exists w. now rewrite app_nil_r.
    + rewrite (proj2 (parse_channel_iff _ n (s ++ bs "-" ++ s' ++ w'))).
      2: { exists w. repeat split; try apply Hw. intros b k Hk.
           now apply (whitespace_no_digit s (s' ++ w') "-"%byte _ Hs eq_refl eq_refl b k). }
      rewrite bool_decide_eq_false_2 by now destruct s.
      change (s ++ bs "-" ++ s' ++ w') with (s ++ "-"%byte :: (s' ++ w')).
      rewrite trim_left_word by done.
      change (starts_with (bs "-") ("-"%byte :: s' ++ w')) with true. cbn [negb drop]. rewrite drop_0.
      destruct w' as [|b' w']; [now destruct Hw' as [[] _]|].
      assert (Hb' : is_ascii_digit b' = true) by (destruct Hw' as (_ & Hd & _); now inversion Hd).
      rewrite trim_left_word by (done || (revert Hb'; clear; byte_cases b')).
      rewrite (proj2 (parse_channel_iff _ n' [])); [done|]. exists (b' :: w'). now rewrite app_nil_r.
Qed.

(** Reading a channel or a range of channels succeeds on that grammar only, and the channels are
    bytes. *)
Theorem interleaved_grammar value i :
  (interleaved_try_from value = Ok i <-> InterleavedText value i)
  /\ (interleaved_try_from value = Ok i -> channel_start i <= U8_MAX /\ channel_end i <= U8_MAX).
Proof.
  split; [apply interleaved_text_iff|]. rewrite interleaved_text_iff.
  destruct 1 as [w n (_ & _ & Hw)|w s s' w' n n' (_ & _ & Hw) _ _ (_ & _ & Hw')];
    split; (exact (parse_digits_bound _ _ _ _ (N.le_0_l _) Hw)
            || exact (parse_digits_bound _ _ _ _ (N.le_0_l _) Hw')).
Qed.

(** What [Display] writes for channels of one byte is read back. *)
Theorem interleaved_roundtrip i :
  channel_start i <= U8_MAX -> channel_end i <= U8_MAX ->
  interleaved_try_from (interleaved_to_string i) = Ok i.
Proof.
  assert (Hc : forall n, n <= U8_MAX -> channel_text (to_string n) n).
  { intros n Hn. split; [apply to_string_nonempty|]. split; [apply to_string_digits|].
    now apply parse_digits_to_string. }
  destruct i as [n n']. cbn [channel_start channel_end]. intros Hn Hn'.
  apply interleaved_text_iff. unfold interleaved_to_string. cbn [channel_start channel_end].
  destruct (N.eqb_spec n n') as [<- | _]; cbn [negb].
  - rewrite app_nil_r. constructor. now apply Hc.
  - now apply (text_channels _ [] [] _ n n'); [apply Hc|constructor..|apply Hc].
Qed.

(** ** Addresses *)

(** The host is cut off at the first colon, so a literal IPv6 host in brackets is never read as a
    host: when the host parser refuses an unclosed bracket, such an address is kept as an
    extension (in lower case). *)
Theorem address_ipv6_extension `{HostOps} (to_lowercase : bytes -> bytes) digits rest :
  (forall w, "]"%byte ∉ w -> host_try_from ("["%byte :: w) = None) ->
  ":"%byte ∉ digits -> "]"%byte ∉ digits -> is_qdtext ("["%byte :: digits ++ ":"%byte :: rest) = true ->
  address_try_from to_lowercase ("["%byte :: digits ++ ":"%byte :: rest)
  = Ok (AExtension (to_lowercase ("["%byte :: digits ++ ":"%byte :: rest))).
Proof.
  intros Hhost Hcolon Hclose Hq. unfold address_try_from, address_extension.
  rewrite Hq. set (value := "["%byte :: digits ++ ":"%byte :: rest) in *.
  assert (Hp : position (is_byte ":"%byte) value = Some (S (length digits))).
  { pose proof (position_word ":"%byte ("["%byte :: digits) rest (length value)) as Hp.
    cbn [app length] in Hp. fold value in Hp. rewrite firstn_all in Hp. apply Hp.
    - rewrite not_elem_of_cons. now split.
    - unfold value. cbn. rewrite length_app. cbn. lia. }
  rewrite Hp. change (take (S (length digits)) value) with ("["%byte :: take (length digits) (digits ++ ":"%byte :: rest)).
  rewrite take_app_length, Hhost by done. reflexivity.
Qed.

(** ** Instances *)

Lemma parse_modes_spec_witness :
  trim_bytes_whitespace ([DQUOTE] ++ bs "PLAY, record" ++ [DQUOTE]) = [DQUOTE] ++ bs "PLAY, record" ++ [DQUOTE]
  /\ parse_modes (S := list Mode) ([DQUOTE] ++ bs "PLAY, record" ++ [DQUOTE]) = Return (Err Reserved).
Proof.
  assert (Ht : trim_bytes_whitespace ([DQUOTE] ++ bs "PLAY, record" ++ [DQUOTE])
               = [DQUOTE] ++ bs "PLAY, record" ++ [DQUOTE]) by reflexivity.
  split; [exact Ht|].
  exact (proj1 (proj2 (proj2 (parse_modes_spec (S := list Mode) _)) (bs "PLAY, record") Ht)).
Defined.

Lemma modes_roundtrip_witness :
  parse_modes (modes_text [MExtension (bs "X-PAUSE"); Play]) = Return (Ok [MExtension (bs "X-PAUSE"); Play]).
Proof.
  apply modes_roundtrip; [done|repeat constructor; done|].
  apply (bool_decide_unpack (NoDup [MExtension (bs "X-PAUSE"); Play])). vm_compute. exact I.
Defined.

Lemma interleaved_grammar_witness : 4 <= U8_MAX /\ 255 <= U8_MAX.
Proof. exact (proj2 (interleaved_grammar (bs "004 - 255") (mkInterleaved 4 255)) eq_refl). Defined.

Lemma interleaved_roundtrip_witness :
  interleaved_try_from (interleaved_to_string (mkInterleaved 4 255)) = Ok (mkInterleaved 4 255).
Proof. now apply (interleaved_roundtrip (mkInterleaved 4 255)). Defined.

(** A host parser that knows registered names of unreserved characters only. *)
Definition sample_hosts : HostOps := {|
  Host := bytes;
  host_try_from w := if forallb (fun b => is_ascii_digit b || is_ascii_lowercase b || is_ascii_uppercase b) w then Some w else None;
  host_is_empty_name w := bool_decide (w = []);
  host_to_string w := w;
  parse_port p := match parse_unsigned U16_MAX p with Ok n => Some (Some n) | Err _ => None end;
|}.

Lemma address_ipv6_extension_witness :
  address_try_from (H := sample_hosts) (fmap to_ascii_lowercase) (bs "[2001:DB8]:554")
  = Ok (AExtension (bs "[2001:db8]:554")).
Proof.
  exact (address_ipv6_extension (H := sample_hosts) (fmap to_ascii_lowercase) (bs "2001") (bs "DB8]:554")
           (fun w _ => eq_refl) ltac:(now apply (bool_decide_unpack _)) ltac:(now apply (bool_decide_unpack _)) eq_refl).
Defined.
