(* ===== verification/Comparisons.v ===== *)
(** * Comparisons

    The instances of [PartialEq] and [Ord] that compare the values of the protocol with texts and
    numbers: those of [rtsp-2/src/method.rs], [rtsp-2/src/status.rs] and [rtsp-2/src/header/value.rs],
    and, with the definitions of the other files, those of the header names, the range formats, the
    identifiers of sessions and the transport parameters. A
    comparison is another way to parse, and agrees with the parser. *)

From Stdlib Require Import Strings.Byte ZArith.
From stdpp Require Import base list numbers strings.
From S2P Require Import Prelude Text Syntax Method HeaderName HeaderValue Status CommaList AcceptRanges.
From S2P Require Import Session Transport.

Local Open Scope N_scope.

(** ** Methods, extensions, header values and status codes *)

(** [PartialEq] of [Method] and [ExtensionMethod] with [[u8]] and [str], in both directions. *)
Definition method_eq_bytes (m : Method) (other : bytes) : bool :=
  eq_ignore_ascii_case (Method.as_str m) other.
Definition extension_method_eq_bytes (name : bytes) (other : bytes) : bool :=
  eq_ignore_ascii_case name other.

(** Those of the other extensions. *)
Definition extension_header_name_eq_bytes (name name_lowercase other : bytes) : bool :=
  eq_ignore_ascii_case name_lowercase other.
Definition extension_range_format_eq_bytes (name other : bytes) : bool := eq_ignore_ascii_case name other.
Definition extension_mode_eq_bytes (name other : bytes) : bool := eq_ignore_ascii_case name other.

(** [PartialEq] and [PartialOrd] of [HeaderValue], which do not ignore the case. *)
Definition value_eq_bytes (v : HeaderValue) (other : bytes) : bool := bool_decide (HeaderValue.as_str v = other).
Definition value_partial_cmp (v : HeaderValue) (other : bytes) : option comparison :=
  Some (str_cmp (HeaderValue.as_str v) other).
Definition str_partial_cmp_value (other : bytes) (v : HeaderValue) : option comparison :=
  Some (str_cmp other (HeaderValue.as_str v)).

(** [From<StatusCode>] for [i16], a cast that would wrap around, and for the wider integers. *)
Definition status_to_i16 (s : StatusCode) : Z :=
  let n := Z.of_N (to_u16 s) in if (2 ^ 15 <=? n)%Z then (n - 2 ^ 16)%Z else n.
Definition status_to_integer (s : StatusCode) : Z := Z.of_N (to_u16 s).

(** [PartialEq] with the integers. *)
Definition status_eq_i16 (s : StatusCode) (other : Z) : bool := (status_to_i16 s =? other)%Z.
Definition status_eq_integer (s : StatusCode) (other : Z) : bool := (status_to_integer s =? other)%Z.

(** [Ord]. *)
Definition status_cmp (s other : StatusCode) : comparison := to_u16 s ?= to_u16 other.

(** ** Comparing is parsing *)

(** The two ways to ignore the case agree on a text that is in upper case, and on one in lower case. *)
Lemma eq_ignore_upper name value :
  to_ascii_uppercase <$> name = name ->
  eq_ignore_ascii_case name value = true <-> to_ascii_uppercase <$> value = name.
Proof.
  intros Hn. rewrite eq_ignore_ascii_case_spec. rewrite <- (lower_upper_iff value name Hn).
  split; intros E; now symmetry.
Qed.

Lemma eq_ignore_lower name value :
  to_ascii_lowercase <$> name = name ->
  eq_ignore_ascii_case name value = true <-> to_ascii_lowercase <$> value = name.
Proof. intros Hn. rewrite eq_ignore_ascii_case_spec, Hn. split; intros E; now symmetry. Qed.

Lemma eq_ignore_sym s t : eq_ignore_ascii_case s t = eq_ignore_ascii_case t s.
Proof. apply Bool.eq_iff_eq_true. rewrite !eq_ignore_ascii_case_spec. split; intros E; now symmetry. Qed.

Lemma method_upper m : method_wf m -> to_ascii_uppercase <$> Method.as_str m = Method.as_str m.
Proof. destruct m as [| | | | | | | | | |name]; try reflexivity. now intros (_ & _ & Hu & _). Qed.

Lemma mode_upper m : mode_wf m -> to_ascii_uppercase <$> mode_as_str m = mode_as_str m.
Proof. destruct m as [name|]; [now intros (_ & Hu & _)|reflexivity]. Qed.

Lemma range_format_lower f : range_format_wf f -> to_ascii_lowercase <$> AcceptRanges.as_str f = AcceptRanges.as_str f.
Proof. destruct f as [|name| | | |]; try reflexivity. now intros (_ & Hl & _). Qed.

(** C35: A valid value of each of the types is equal to a text, in either order, exactly when the text is
    parsed as the value: as that very value, or, for header names, which keep the spelling of
    extensions, as an equal one; header values and session identifiers with the very text. *)
Theorem text_comparisons (value : bytes) :
  (forall m, method_wf m -> method_eq_bytes m value = true <-> Method.try_from value = Ok m)
  /\ (forall h, header_name_wf h ->
        header_name_eq_bytes h value = true <-> exists h', HeaderName.try_from value = Ok h' /\ h' ≡ h)
  /\ (forall f, range_format_wf f -> range_format_eq_bytes f value = true <-> AcceptRanges.try_from value = Ok f)
  /\ (forall m, mode_wf m -> mode_eq_bytes m value = true <-> mode_try_from value = Ok m)
  /\ (forall s, setup_eq_bytes s value = true <-> setup_try_from value = Ok s)
  /\ (forall c, connection_eq_bytes c value = true <-> connection_try_from value = Ok c)
  /\ (forall d, delivery_type_eq_bytes d value = true <-> delivery_type_try_from value = Ok d)
  /\ (forall v, HeaderValue.try_from (HeaderValue.as_str v) = Ok v ->
        value_eq_bytes v value = true <-> HeaderValue.try_from value = Ok v)
  /\ (forall i, session_id_valid i -> session_id_eq_str i value = true <-> id_try_from value = Ok i).
Proof.
  destruct (transport_words_iff value) as (Hs & Hc & Hd).
  split_and!.
  - intros m Hm. unfold method_eq_bytes. rewrite eq_ignore_upper, method_try_from_iff by now apply method_upper. tauto.
  - intros h Hh. unfold header_name_eq_bytes. destruct (wf_as_str h Hh) as (_ & Hl & Ht & _).
    rewrite eq_ignore_lower by done. split.
    + intros E. destruct (header_name_parses value) as [h' Hp]; [now rewrite <- is_token_lowercase, E|].
      exists h'. split; [exact Hp|]. apply try_from_Ok in Hp as (Hw & Hv & _).
      apply header_name_equiv_as_str; congruence.
    + intros (h' & (Hw & Hv & _)%try_from_Ok & Heq). rewrite Hv. now apply header_name_equiv_as_str.
  - intros f Hf. unfold range_format_eq_bytes. rewrite eq_ignore_lower, range_format_try_from_iff by now apply range_format_lower. tauto.
  - intros m Hm. unfold mode_eq_bytes. rewrite eq_ignore_upper, mode_try_from_iff by now apply mode_upper. tauto.
  - intros s. unfold setup_eq_bytes. rewrite eq_ignore_sym. symmetry. apply Hs.
  - intros c. unfold connection_eq_bytes. rewrite eq_ignore_sym. symmetry. apply Hc.
  - intros d. unfold delivery_type_eq_bytes. rewrite eq_ignore_sym. symmetry. apply Hd.
  - intros v Hv. unfold value_eq_bytes. rewrite bool_decide_eq_true. split; [now intros <-|].
    now intros [-> _]%try_from_Some.
  - intros i Hi. unfold session_id_eq_str. rewrite bool_decide_eq_true, id_try_from_iff.
    split; [now intros <-|now intros [_ ->]].
Qed.

(** The order of header values and texts is a total order of the bytes, consistent in both directions
    and with the equality. *)
Lemma value_comparisons v w s :
  (value_partial_cmp v s = Some Eq <-> value_eq_bytes v s = true)
  /\ str_partial_cmp_value s v = (CompOpp <$> value_partial_cmp v s)
  /\ (value_partial_cmp v s = Some Lt -> str_partial_cmp_value s w = Some Lt ->
        value_partial_cmp v (HeaderValue.as_str w) = Some Lt).
Proof.
  unfold value_partial_cmp, str_partial_cmp_value, value_eq_bytes. rewrite bool_decide_eq_true. split_and!.
  - rewrite <- str_cmp_eq. split; [now intros [= ->]|now intros ->].
  - cbn. now rewrite str_cmp_antisym.
  - intros [= H1] [= H2]. f_equal. exact (str_cmp_trans _ _ _ H1 H2).
Qed.

(** Every valid status code is in the class of its first digit, and in no other. *)
Lemma status_predicates s :
  status_wf s ->
  is_informational s = Return (to_u16 s / 100 =? 1) /\ is_success s = Return (to_u16 s / 100 =? 2)
  /\ is_redirection s = Return (to_u16 s / 100 =? 3) /\ is_client_error s = Return (to_u16 s / 100 =? 4)
  /\ is_server_error s = Return (to_u16 s / 100 =? 5).
Proof.
  intros Hs. destruct status_code_spec as (_ & _ & _ & Hc & _). destruct (Hc s Hs) as [_ E].
  unfold is_informational, is_success, is_redirection, is_client_error, is_server_error. rewrite E.
  pose proof (status_range s Hs) as Hr.
  assert (to_u16 s / 100 = 1 \/ to_u16 s / 100 = 2 \/ to_u16 s / 100 = 3 \/ to_u16 s / 100 = 4 \/ to_u16 s / 100 = 5)
    as [-> | [-> | [-> | [-> | ->]]]]; [|done..].
  clear - Hr. pose proof (N.Div0.div_mod (to_u16 s) 100) as E1. pose proof (N.mod_lt (to_u16 s) 100 ltac:(done)) as E2.
  set (q := to_u16 s / 100) in *. set (r := to_u16 s mod 100) in *. clearbody q r. rewrite E1 in Hr. lia.
Qed.

(** The integers of a valid status code do not wrap around, and the code is equal to a number exactly
    when the number is converted to the code; the order of the codes is a total order that is equal
    only for equal codes. *)
Theorem status_comparisons (s s' : StatusCode) (n : Z) :
  status_wf s -> status_wf s' ->
  status_to_i16 s = status_to_integer s
  /\ (status_eq_i16 s n = true <-> try_from_integer n = Ok s)
  /\ (status_eq_integer s n = true <-> try_from_integer n = Ok s)
  /\ (status_cmp s s' = Eq <-> s = s') /\ status_cmp s' s = CompOpp (status_cmp s s').
Proof.
  intros Hs Hs'. pose proof (status_range s Hs) as Hr.
  assert (E : status_to_i16 s = status_to_integer s).
  { unfold status_to_i16, status_to_integer. destruct (Z.leb_spec (2 ^ 15) (Z.of_N (to_u16 s))); [lia|done]. }
  assert (Hi : status_eq_integer s n = true <-> try_from_integer n = Ok s).
  { unfold status_eq_integer, status_to_integer, try_from_integer. rewrite Z.eqb_eq.
    destruct (Z.leb_spec 0 n); [|split; [lia|done]]. destruct (Z.leb_spec n (Z.of_N U16_MAX)) as [Hn|Hn]; cbn [andb].
    - rewrite try_from_u16_Ok. split; [intros <-; split; [done|lia]|intros [_ ->]; lia].
    - split; [|done]. intros <-. exfalso. unfold U16_MAX in Hn. lia. }
  split; [exact E|]. split; [unfold status_eq_i16; now rewrite E|]. split; [exact Hi|]. unfold status_cmp. split.
  - rewrite N.compare_eq_iff. split; [now apply to_u16_inj|now intros ->].
  - apply N.compare_antisym.
Qed.

Example comparisons_ex :
  method_eq_bytes Method.Play (bs "play") = true /\ method_eq_bytes Method.Play (bs "pla") = false
  /\ status_eq_i16 NotFound 404 = true /\ status_eq_integer NotFound (-404) = false /\ status_cmp OK NotFound = Lt.
Proof. now vm_compute. Qed.

Lemma status_comparisons_witness :
  (status_eq_i16 NotFound 404 = true <-> try_from_integer 404 = Ok NotFound)
  /\ status_cmp OK NotFound = CompOpp (status_cmp NotFound OK).
Proof.
  destruct (status_comparisons NotFound OK 404 I I) as (_ & Hi & _ & _ & Hc). split; [exact Hi|exact Hc].
Defined.

Lemma text_comparisons_witness :
  method_eq_bytes Method.Play (bs "pLaY") = true <-> Method.try_from (bs "pLaY") = Ok Method.Play.
Proof. apply (text_comparisons (bs "pLaY")). exact I. Defined.
