(* ===== verification/DateParser.v ===== *)
(** * The date parser

    Model of [rtsp-2/src/header/common/date.rs], the parser of the dates of RFC 5322 with comments
    and folding white space. A [&str] is its UTF-8 bytes; [chars] decodes it, and [split_at] panics
    inside a character. The calendar is that of the [chrono] crate, behind [ChronoOps]. *)

From Stdlib Require Import Strings.Byte.
From stdpp Require Import base list numbers strings.
From S2P Require Import Prelude Text Syntax.

Local Open Scope nat_scope.
Local Open Scope rust_scope.

Inductive DateTimeError := date_time_error.

#[export] Instance date_time_error_eq_dec : EqDecision DateTimeError.
Proof. solve_decision. Defined.

(** Parsing may fail with the one error, or panic. *)
Definition Parse (A : Type) : Type := Outcome (Result A DateTimeError).

Definition ok {A} (a : A) : Parse A := Return (Ok a).
Definition fail {A} : Parse A := Return (Err date_time_error).

Definition parse_bind {A B} (m : Parse A) (k : A -> Parse B) : Parse B :=
  match m with
  | Return (Ok a) => k a
  | Return (Err e) => Return (Err e)
  | Panic => Panic
  end.

(** [let x = m?; k]. *)
Notation "'try!' x ':=' m 'in' k" := (parse_bind m (fun y => match y with x => k end))
  (at level 10, x pattern, m at level 100, k at level 200) : rust_scope.

(** ** Strings *)

(** [value.chars()]; a character is its code point. *)
Definition chars (value : bytes) : list N := default [] (utf8_chars value).

(** A character literal. *)
Definition chr (b : byte) : N := Byte.to_N b.

(** [str::is_char_boundary] up to the length. *)
Definition is_char_boundary (value : bytes) (mid : nat) : bool :=
  match mid with
  | O => true
  | _ => match value !! mid with
         | Some b => negb (byte_in 128 191 b)
         | None => true
         end
  end.

(** [str::split_at]. *)
Definition split_at (mid : nat) (value : bytes) : Outcome (bytes * bytes) :=
  if (mid <=? length value) && is_char_boundary value mid
  then Return (take mid value, drop mid value)
  else Panic.

(** [Ok(value.split_at(mid))] and [value.split_at(mid).1]. *)
Definition ok_split_at (mid : nat) (value : bytes) : Parse (bytes * bytes) :=
  let! parts := split_at mid value in ok parts.

Definition skip (mid : nat) (value : bytes) : Parse bytes :=
  let! (_, value) := split_at mid value in ok value.

Definition is_blank (c : N) : bool := N.eqb c (chr SP) || N.eqb c (chr HT).

Definition char_to_digit (c : N) : option N :=
  if (48 <=? c)%N && (c <=? 57)%N then Some (c - 48)%N else None.

(** ** Comments and folding white space *)

Definition get_new_iter (value : bytes) (parse_function : bytes -> Parse (bytes * bytes))
    (bytes_parsed : nat) : Parse (list N * nat) :=
  let! (_, rest) := split_at bytes_parsed value in
  try! (part_1, part_2) := parse_function rest in
  ok (chars part_2, bytes_parsed + length part_1).

Definition is_comment_text (c : N) : bool :=
  ((chr "!" <=? c)%N && (c <=? chr "'")%N)
  || ((chr "*" <=? c)%N && (c <=? chr "[")%N)
  || ((chr "]" <=? c)%N && (c <=? chr "~")%N).

Inductive ParseState := StateCRLF | InitialWhitespace | StateWhitespace (required : bool).

(** The loops of [parse_folding_whitespace] with the characters that are left; the inner loop is
    the outer one in the state [Whitespace]. Without fuel the model panics. *)
Fixpoint folding_loop (fuel : nat) (value : bytes) (parse_state : ParseState) (cs : list N)
    (bytes_parsed : nat) : Parse (bytes * bytes) :=
  match fuel with
  | O => Panic
  | S fuel =>
      match parse_state with
      | StateCRLF =>
          match cs with
          | c :: cs =>
              if N.eqb c (chr CR) then
                match cs with
                | c :: cs =>
                    if N.eqb c (chr LF)
                    then folding_loop fuel value (StateWhitespace true) cs (bytes_parsed + 2)
                    else fail
                | [] => fail
                end
              else ok_split_at bytes_parsed value
          | [] => ok_split_at bytes_parsed value
          end
      | StateWhitespace required =>
          match cs with
          | c :: cs' =>
              if is_blank c then
                folding_loop fuel value (StateWhitespace false) cs' (bytes_parsed + 1)
              else if required then fail
              else if N.eqb c (chr CR) then folding_loop fuel value StateCRLF cs bytes_parsed
              else ok_split_at bytes_parsed value
          | [] => if required then fail else ok_split_at bytes_parsed value
          end
      | InitialWhitespace =>
          match cs with
          | c :: cs =>
              if is_blank c
              then folding_loop fuel value (StateWhitespace false) cs (bytes_parsed + 1)
              else fail
          | [] => fail
          end
      end
  end.

Definition parse_folding_whitespace (value : bytes) : Parse (bytes * bytes) :=
  folding_loop (2 * length value + 2) value InitialWhitespace (chars value) 0.

Definition parse_quoted_pair (value : bytes) : Parse (bytes * bytes) :=
  match chars value with
  | char_1 :: char_2 :: _ =>
      if N.eqb char_1 (chr "\")
         && (((chr "!" <? char_2)%N && (char_2 <? chr "~")%N)
             || N.eqb char_2 (chr SP) || N.eqb char_2 (chr HT))
      then ok_split_at 2 value
      else fail
  | _ => fail
  end.

(** The loop of [parse_comment], and [parse_comment] with the loop. Every iteration and every
    nested comment takes a byte of the text at least; without fuel the model panics. *)
Definition comment_with (loop : bytes -> list N -> nat -> Parse (bytes * bytes)) (value : bytes) :
    Parse (bytes * bytes) :=
  match chars value with
  | c :: cs => if negb (N.eqb c (chr "(")) then fail else loop value cs 1
  | [] => fail
  end.

Fixpoint comment_loop (fuel : nat) (value : bytes) (cs : list N) (bytes_parsed : nat) :
    Parse (bytes * bytes) :=
  match fuel with
  | O => Panic
  | S fuel =>
      match cs with
      | [] => fail
      | c :: cs =>
          if is_blank c then
            try! (cs, bytes_parsed) := get_new_iter value parse_folding_whitespace bytes_parsed in
            comment_loop fuel value cs bytes_parsed
          else if N.eqb c (chr "(") then
            try! (cs, bytes_parsed) :=
              get_new_iter value (comment_with (comment_loop fuel)) bytes_parsed in
            comment_loop fuel value cs bytes_parsed
          else if N.eqb c (chr ")") then ok_split_at (bytes_parsed + 1) value
          else if N.eqb c (chr "\") then
            try! (cs, bytes_parsed) := get_new_iter value parse_quoted_pair bytes_parsed in
            comment_loop fuel value cs bytes_parsed
          else if is_comment_text c then comment_loop fuel value cs (bytes_parsed + 1)
          else fail
      end
  end.

Definition parse_comment (value : bytes) : Parse (bytes * bytes) :=
  comment_with (comment_loop (length value)) value.

(** The loop of [parse_comment_and_folding_whitespace]. *)
Fixpoint skip_loop (fuel : nat) (value : bytes) (optional : bool) (cs : list N)
    (bytes_parsed : nat) (first_found : bool) : Parse (bytes * bytes) :=
  match fuel with
  | O => Panic
  | S fuel =>
      let stop :=
        if first_found || optional then ok_split_at bytes_parsed value else fail in
      match cs with
      | c :: _ =>
          if N.eqb c (chr "(") then
            try! (cs, bytes_parsed) := get_new_iter value parse_comment bytes_parsed in
            skip_loop fuel value optional cs bytes_parsed true
          else if is_blank c then
            try! (cs, bytes_parsed) := get_new_iter value parse_folding_whitespace bytes_parsed in
            skip_loop fuel value optional cs bytes_parsed true
          else stop
      | [] => stop
      end
  end.

Definition parse_comment_and_folding_whitespace (value : bytes) (optional : bool) :
    Parse (bytes * bytes) :=
  skip_loop (length value + 1) value optional (chars value) 0 false.

(** ** The parts of a date *)

(** [chrono::Weekday]. *)
Inductive Weekday := Mon | Tue | Wed | Thu | Fri | Sat | Sun.

#[export] Instance weekday_eq_dec : EqDecision Weekday.
Proof. solve_decision. Defined.

(** [I32_MIN <= z <= I32_MAX], and what additions wrap to. *)
Definition I32_MAX : Z := 2 ^ 31 - 1.
Definition i32_wrap (z : Z) : Z := (z + 2 ^ 31) mod 2 ^ 32 - 2 ^ 31.

Definition parse_day (value : bytes) : Parse (N * bytes) :=
  match chars value with
  | [] => fail
  | c :: cs =>
      match char_to_digit c with
      | None => fail
      | Some first_digit =>
          match match cs with c :: _ => char_to_digit c | [] => None end with
          | Some second_digit =>
              try! value := skip 2 value in ok (first_digit * 10 + second_digit, value)%N
          | None => try! value := skip 1 value in ok (first_digit, value)
          end
      end
  end.

(** A [match] of [part.to_lowercase()] with words of three ASCII letters: three bytes with a
    character that is not ASCII are never mapped to three ASCII letters. *)
Definition match_lowercase {A} (part : bytes) (table : list (bytes * A)) : Parse A :=
  match List.find (fun '(word, _) => bool_decide (to_ascii_lowercase <$> part = word)) table with
  | Some (_, a) => ok a
  | None => fail
  end.

Definition weekdays : list (bytes * Weekday) :=
  [(bs "sun", Sun); (bs "mon", Mon); (bs "tue", Tue); (bs "wed", Wed); (bs "thu", Thu);
   (bs "fri", Fri); (bs "sat", Sat)].

Definition parse_day_of_week (value : bytes) : Parse (Weekday * bytes) :=
  if length value <? 3 then fail
  else
    let! (part_1, part_2) := split_at 3 value in
    try! weekday := match_lowercase part_1 weekdays in
    ok (weekday, part_2).

Definition months : list (bytes * N) :=
  [(bs "jan", 1%N); (bs "feb", 2%N); (bs "mar", 3%N); (bs "apr", 4%N); (bs "may", 5%N);
   (bs "jun", 6%N); (bs "jul", 7%N); (bs "aug", 8%N); (bs "sep", 9%N); (bs "oct", 10%N);
   (bs "nov", 11%N); (bs "dec", 12%N)].

Definition parse_month (value : bytes) : Parse (N * bytes) :=
  if length value <? 3 then fail
  else
    let! (part_1, part_2) := split_at 3 value in
    try! month := match_lowercase part_1 months in
    ok (month, part_2).

(** The loop of [parse_year]: [checked_mul] and a plain addition. *)
Fixpoint year_loop (cs : list N) (year : Z) (bytes_parsed : nat) : Parse (Z * nat) :=
  match cs with
  | [] => ok (year, bytes_parsed)
  | c :: cs =>
      match char_to_digit c with
      | Some digit =>
          if ((year * 10 <? - 2 ^ 31) || (I32_MAX <? year * 10))%Z then fail
          else year_loop cs (i32_wrap (year * 10 + Z.of_N digit)) (bytes_parsed + 1)
      | None => ok (year, bytes_parsed)
      end
  end.

Definition parse_year (value : bytes) : Parse (Z * bytes) :=
  try! (year, bytes_parsed) := year_loop (chars value) 0 0 in
  if bytes_parsed <? 2 then fail
  else
    let year :=
      match bytes_parsed with
      | 2 => if ((0 <=? year) && (year <=? 49))%Z then (year + 2000)%Z else (year + 1900)%Z
      | 3 => (year + 1900)%Z
      | _ => year
      end in
    try! value := skip bytes_parsed value in
    ok (year, value).

Definition parse_date (value : bytes) : Parse (N * N * Z * bytes) :=
  try! (day, value) := parse_day value in
  try! (_, value) := parse_comment_and_folding_whitespace value false in
  try! (month, value) := parse_month value in
  try! (_, value) := parse_comment_and_folding_whitespace value false in
  try! (year, value) := parse_year value in
  ok (day, month, year, value).

Definition parse_2_digit_number (value : bytes) : Parse (N * bytes) :=
  match chars value with
  | c1 :: c2 :: _ =>
      match char_to_digit c1, char_to_digit c2 with
      | Some first_digit, Some second_digit =>
          try! value := skip 2 value in ok (first_digit * 10 + second_digit, value)%N
      | _, _ => fail
      end
  | _ => fail
  end.

Definition parse_colon (original_value : bytes) (optional : bool) : Parse bytes :=
  try! (_, value) := parse_comment_and_folding_whitespace original_value true in
  match chars value with
  | c :: _ =>
      if N.eqb c (chr ":") then
        try! value := skip 1 value in
        try! (_, value) := parse_comment_and_folding_whitespace value true in
        ok value
      else if optional then ok original_value else fail
  | [] => if optional then ok original_value else fail
  end.

Definition parse_time_of_day (value : bytes) : Parse (N * N * option N * bytes) :=
  try! (hour, value) := parse_2_digit_number value in
  try! value := parse_colon value false in
  try! (minute, value) := parse_2_digit_number value in
  let original_value := value in
  try! value := parse_colon value true in
  if negb (length original_value =? length value) then
    try! (second, value) := parse_2_digit_number value in
    ok (hour, minute, Some second, value)
  else ok (hour, minute, None, original_value).

(** [str::parse::<i32>]. *)
Definition parse_i32 (s : bytes) : option Z :=
  match s with
  | [] => None
  | b :: s' =>
      if bool_decide (b = "-"%byte) && negb (bool_decide (s' = [])) then
        match parse_digits (2 ^ 31) 0 s' with Ok n => Some (- Z.of_N n)%Z | Err _ => None end
      else
        match parse_unsigned (2 ^ 31 - 1) s with Ok n => Some (Z.of_N n) | Err _ => None end
  end.

(** The UTF-8 encoding of a character, for collecting characters into a [String]. *)
Definition encode_utf8 (c : N) : bytes :=
  let tail n := byte_of_N (128 + N.land n 63) in
  (if c <? 128 then [byte_of_N c]
   else if c <? 2048 then [byte_of_N (192 + N.shiftr c 6); tail c]
   else if c <? 65536 then
     [byte_of_N (224 + N.shiftr c 12); tail (N.shiftr c 6); tail c]
   else
     [byte_of_N (240 + N.shiftr c 18); tail (N.shiftr c 12); tail (N.shiftr c 6); tail c])%N.

Definition string_of_chars (cs : list N) : bytes := cs ≫= encode_utf8.

Definition is_alphabetic_char (c : N) : bool :=
  (c <? 128)%N && (is_ascii_uppercase (byte_of_N c) || is_ascii_lowercase (byte_of_N c)).

Fixpoint take_while {A} (f : A -> bool) (l : list A) : list A :=
  match l with
  | [] => []
  | x :: l => if f x then x :: take_while f l else []
  end.

(** The match on the names of the zones. *)
Definition zone_offset (timezone : bytes) : Parse Z :=
  let named (word : string) := bool_decide (timezone = bs word) in
  if named "ut" || named "gmt" then ok 0%Z
  else if named "edt" then ok (-400)%Z
  else if named "est" then ok (-500)%Z
  else if named "cdt" then ok (-500)%Z
  else if named "cst" then ok (-600)%Z
  else if named "mdt" then ok (-600)%Z
  else if named "mst" then ok (-700)%Z
  else if named "pdt" then ok (-700)%Z
  else if named "pst" then ok (-800)%Z
  else
    match timezone with
    | [b] => if byte_in 97 105 b || byte_in 107 122 b then ok 0%Z else fail
    | _ => fail
    end.

Definition parse_time_zone (value : bytes) : Parse (Z * bytes) :=
  if starts_with (bs "+") value || starts_with (bs "-") value then
    match chars value with
    | [] => Panic
    | sign :: cs =>
        let offset := string_of_chars (take 4 cs) in
        if negb (length offset =? 4) then fail
        else
          match parse_i32 offset with
          | None => fail
          | Some offset =>
              let offset := if N.eqb sign (chr "-") then (offset * -1)%Z else offset in
              try! value := skip 5 value in
              ok (offset, value)
          end
    end
  else
    let timezone :=
      to_ascii_lowercase <$> (byte_of_N <$> take_while is_alphabetic_char (take 3 (chars value))) in
    try! offset := zone_offset timezone in
    try! value := skip (length timezone) value in
    ok (offset, value).

Definition parse_time (value : bytes) : Parse (N * N * option N * Z * bytes) :=
  try! (hour, minute, second, value) := parse_time_of_day value in
  try! (_, value) := parse_comment_and_folding_whitespace value false in
  try! (offset, value) := parse_time_zone value in
  ok (hour, minute, second, offset, value).

(** ** Dates *)

(** The [chrono] crate: the point in time of a local date and time at an offset of some seconds
    ([FixedOffset::east_opt], [ymd_opt], [and_hms_opt], [single], [with_timezone(&Utc)]), its
    weekday in UTC, and its formatting. *)
Class ChronoOps := {
  DateTime : Type;
  date_time_at : Z -> Z -> N -> N -> N -> N -> N -> option DateTime;
  weekday_utc : DateTime -> Weekday;
  format_utc : bytes -> DateTime -> bytes;
}.

(** The day of the week and the comma of [parse_date_time]. *)
Definition parse_weekday_part (value : bytes) : Parse (option Weekday * bytes) :=
  match chars value with
  | [] => fail
  | c :: _ =>
      if is_alphabetic_char c then
        try! (weekday, value) := parse_day_of_week value in
        try! (_, value) := parse_comment_and_folding_whitespace value true in
        match chars value with
        | [] => fail
        | c :: _ =>
            if negb (N.eqb c (chr ",")) then fail
            else
              try! value := skip 1 value in
              try! (_, value) := parse_comment_and_folding_whitespace value true in
              ok (Some weekday, value)
        end
      else ok (None, value)
  end.

Definition parse_date_time `{ChronoOps} (value : bytes) : Parse DateTime :=
  try! (_, value) := parse_comment_and_folding_whitespace value true in
  try! (weekday, value) := parse_weekday_part value in
  try! (day, month, year, value) := parse_date value in
  try! (_, value) := parse_comment_and_folding_whitespace value false in
  try! (hour, minute, second, offset, value) := parse_time value in
  try! _ := parse_comment_and_folding_whitespace value true in
  let offset := (Z.quot offset 100 * 3600 + Z.rem offset 100 * 60)%Z in
  match date_time_at offset year month day hour minute (default 0%N second) with
  | None => fail
  | Some date_time =>
      match weekday with
      | Some weekday => if negb (bool_decide (weekday = weekday_utc date_time)) then fail else ok date_time
      | None => ok date_time
      end
  end.

Example date_parser_ex :
  parse_comment (bs "(here (are " ++ CRLF ++ bs " (some nested" ++ [HT] ++ bs "(comments)))) x")
    = ok (bs "(here (are " ++ CRLF ++ bs " (some nested" ++ [HT] ++ bs "(comments))))", bs " x")
  /\ parse_date (bs "60       Dec " ++ CRLF ++ [HT] ++ bs "130test") = ok (60%N, 12%N, 2030%Z, bs "test")
  /\ parse_date (bs "1Jan 2018") = fail /\ parse_year (bs "9999999999999999999") = fail
  /\ parse_time_of_day (bs "99 : " ++ CRLF ++ [HT] ++ bs "99(comment): 99test")
     = ok (99%N, 99%N, Some 99%N, bs "test")
  /\ parse_time_of_day (bs "23:09 (comment) test:") = ok (23%N, 9%N, None, bs " (comment) test:")
  /\ parse_time (bs "10:30 EDT") = ok (10%N, 30%N, None, (-400)%Z, [])
  /\ parse_time_zone (bs "+9999test") = ok (9999%Z, bs "test")
  /\ parse_time_zone (bs "+-123") = ok ((-123)%Z, [])
  /\ parse_time_zone (bs "psttest") = ok ((-800)%Z, bs "test") /\ parse_time_zone (bs "j") = fail.
Proof. now vm_compute. Qed.

(** ** Positions in a string *)

(** [bytes_parsed] is the start of a character of [value], and the characters from there are [cs]. *)
Definition aligned (value : bytes) (bytes_parsed : nat) (cs : list N) : Prop :=
  bytes_parsed <= length value /\ utf8_chars (drop bytes_parsed value) = Some cs.

Definition is_str (value : bytes) : Prop := exists cs, utf8_chars value = Some cs.

Lemma utf8_first_byte b s cs : utf8_chars (b :: s) = Some cs -> byte_in 128 191 b = false.
Proof.
  intros Hs. destruct (byte_in 128 191 b) eqn:Hb; [|done]. exfalso. revert Hs. cbn [utf8_chars].
  assert (Ho : byte_in 0 127 b = false /\ byte_in 194 223 b = false
               /\ byte_in 224 239 b = false /\ byte_in 240 244 b = false).
  { revert Hb. clear. byte_cases b. }
  destruct Ho as (-> & -> & -> & ->). done.
Qed.

Lemma aligned_split value n cs :
  aligned value n cs -> split_at n value = Return (take n value, drop n value).
Proof.
  intros [Hn Hs]. unfold split_at. rewrite (proj2 (Nat.leb_le _ _) Hn).
  assert (Hb : is_char_boundary value n = true).
  { unfold is_char_boundary. destruct n as [|n]; [done|]. destruct (value !! S n) as [b|] eqn:Hl; [|done].
    rewrite (drop_S _ _ _ Hl) in Hs. now rewrite (utf8_first_byte _ _ _ Hs). }
  now rewrite Hb.
Qed.

Lemma aligned_start value : is_str value -> aligned value 0 (chars value).
Proof. intros [cs Hs]. split; [lia|]. unfold chars. now rewrite drop_0, Hs. Qed.

Lemma aligned_str value n cs : aligned value n cs -> is_str (drop n value) /\ chars (drop n value) = cs.
Proof. intros [Hn Hs]. unfold chars, is_str. rewrite Hs. eauto. Qed.

Lemma aligned_step value n c cs :
  aligned value n (c :: cs) -> (c < 128)%N ->
  aligned value (n + 1) cs /\ n + 1 <= length value
  /\ take (n + 1) value = take n value ++ [byte_of_N c].
Proof.
  intros [Hn Hs] Hc. apply utf8_chars_cons in Hs as (p & s & Hd & Hs & [[_ ->]|[Hc' _]]); [|lia].
  cbn [app] in Hd. assert (Hl : n < length value).
  { apply (f_equal length) in Hd. rewrite length_drop in Hd. cbn in Hd. lia. }
  assert (Hv : value !! n = Some (byte_of_N c)).
  { rewrite <- (Nat.add_0_r n), <- lookup_drop, Hd. reflexivity. }
  rewrite Nat.add_1_r. split; [|split; [lia|now apply take_S_r]]. split; [lia|].
  rewrite (drop_S _ _ _ Hv) in Hd. now injection Hd as ->.
Qed.

Lemma aligned_length value n cs : aligned value n cs -> length cs <= length value - n.
Proof.
  intros [Hn Hs]. rewrite <- length_drop. revert Hs. generalize (drop n value). clear.
  intros s. revert cs. remember (length s) as l eqn:Hl. revert s Hl.
  induction l as [l IH] using lt_wf_ind. intros s -> [|c cs] Hs; [cbn; lia|].
  apply utf8_chars_cons in Hs as (p & s' & -> & Hs & Hp). rewrite length_app in *. cbn [length].
  assert (Hne : 1 <= length p) by (destruct Hp as [[_ ->]|(_ & Hp & _)]; [done|destruct p; [done|cbn; lia]]).
  specialize (IH (length s') ltac:(lia) s' eq_refl cs Hs). lia.
Qed.

(** ** What comments and folding white space are *)

(** [obs-FWS = 1*WSP *(CRLF 1*WSP)]. *)
Inductive FWS : bytes -> Prop :=
  | fws_blank b : is_blank (Byte.to_N b) = true -> FWS [b]
  | fws_more s b : FWS s -> is_blank (Byte.to_N b) = true -> FWS (s ++ [b])
  | fws_fold s b : FWS s -> is_blank (Byte.to_N b) = true -> FWS ((s ++ CRLF) ++ [b]).

(** [comment = "(" *([FWS] ccontent) [FWS] ")"], [ccontent = ctext / quoted-pair / comment], where a
    quoted pair has a blank or a byte between [!] and [~], these two excluded. *)
Inductive Comment : bytes -> Prop :=
  | comment s : CommentText s -> Comment (("("%byte :: s) ++ [")"%byte])
with CommentText : bytes -> Prop :=
  | text_nil : CommentText []
  | text_char s b : CommentText s -> is_comment_text (Byte.to_N b) = true -> CommentText (s ++ [b])
  | text_fws s f : CommentText s -> FWS f -> CommentText (s ++ f)
  | text_pair s b : CommentText s -> is_blank (Byte.to_N b) || byte_in 34 125 b = true ->
      CommentText (s ++ ["\"%byte; b])
  | text_comment s c : CommentText s -> Comment c -> CommentText (s ++ c).

(** Comments and folding white space, in any order. *)
Inductive CFWS : bytes -> Prop :=
  | cfws_nil : CFWS []
  | cfws_fws s f : CFWS s -> FWS f -> CFWS (s ++ f)
  | cfws_comment s c : CFWS s -> Comment c -> CFWS (s ++ c).

Lemma FWS_nonempty s : FWS s -> s <> [].
Proof. destruct 1; [done|..]; now intros ?%app_nil. Qed.

Lemma Comment_nonempty s : Comment s -> s <> [].
Proof. now destruct 1. Qed.

(** A parser that splits its input: it does not panic; what it takes is in the language [P], and
    what it leaves is a string. *)
Definition splits (P : bytes -> Prop) (value : bytes) (m : Parse (bytes * bytes)) : Prop :=
  ends False (fun r => match r with
                       | Ok (a, b) => value = a ++ b /\ is_str b /\ P a
                       | Err _ => True
                       end) m.

Lemma splits_fail P value : splits P value fail.
Proof. exact I. Qed.

Lemma splits_at (P : bytes -> Prop) value n cs :
  aligned value n cs -> P (take n value) -> splits P value (ok_split_at n value).
Proof.
  intros Ha HP. unfold ok_split_at. rewrite (aligned_split _ _ _ Ha). cbn.
  rewrite take_drop. split; [done|]. split; [apply (aligned_str _ _ _ Ha)|done].
Qed.

Lemma splits_mono (P Q : bytes -> Prop) value m :
  splits P value m -> (forall a, P a -> Q a) -> splits Q value m.
Proof.
  intros Hm HPQ. apply (ends_mono _ _ _ _ Hm). intros [[a b]|]; [|done]. naive_solver.
Qed.

#[export] Hint Resolve splits_fail : core.

Lemma get_new_iter_spec P value f n cs :
  aligned value n cs -> (is_str (drop n value) -> splits P (drop n value) (f (drop n value))) ->
  ends False (fun r => match r with
      | Ok (cs', n') => aligned value n' cs'
          /\ exists a, P a /\ n' = n + length a /\ take n' value = take n value ++ a
      | Err _ => True
      end) (get_new_iter value f n).
Proof.
  intros Ha Hf. unfold get_new_iter. rewrite (aligned_split _ _ _ Ha). cbn.
  specialize (Hf (proj1 (aligned_str _ _ _ Ha))). destruct Ha as [Hn _].
  destruct (f (drop n value)) as [[[a b]|e]|]; cbn in Hf |- *; [|done..].
  destruct Hf as (Hd & Hb & HP).
  assert (Hn' : n + length a <= length value).
  { apply (f_equal length) in Hd. rewrite length_drop, length_app in Hd. lia. }
  assert (Hdrop : drop (n + length a) value = b) by now rewrite <- drop_drop, Hd, drop_app_length.
  split.
  - split; [done|]. destruct Hb as [cs' Hcs]. unfold chars. now rewrite Hdrop, Hcs.
  - exists a. repeat split; [done|].
    assert (Hv : value = (take n value ++ a) ++ b).
    { rewrite <- app_assoc, <- Hd. now rewrite take_drop. }
    rewrite Hv at 1. apply take_app_length'. rewrite length_app, length_take. lia.
Qed.

Lemma ends_try {A B} P (Q : A -> Prop) (Q' : Result B DateTimeError -> Prop) (m : Parse A) (k : A -> Parse B) :
  ends P (fun r => match r with Ok a => Q a | Err _ => True end) m ->
  (forall a, Q a -> ends P Q' (k a)) -> Q' (Err date_time_error) -> ends P Q' (parse_bind m k).
Proof. destruct m as [[a|[]]|]; cbn; auto. Qed.

(** Taking one more ASCII character. *)
Lemma aligned_snoc value n c cs b :
  aligned value n (c :: cs) -> c = Byte.to_N b -> (Byte.to_N b < 128)%N ->
  aligned value (n + 1) cs /\ n + 1 <= length value /\ take (n + 1) value = take n value ++ [b].
Proof.
  intros Ha -> Hb. destruct (aligned_step _ _ _ _ Ha Hb) as (H1 & H2 & H3).
  now rewrite byte_of_N_to_N in H3.
Qed.

Lemma is_blank_ascii c : is_blank c = true -> exists b, c = Byte.to_N b /\ (Byte.to_N b < 128)%N
  /\ is_blank (Byte.to_N b) = true.
Proof.
  unfold is_blank. intros [->%N.eqb_eq | ->%N.eqb_eq]%orb_prop; [exists SP|exists HT]; now vm_compute.
Qed.

Lemma folding_loop_spec fuel value st cs n :
  aligned value n cs ->
  match st with
  | InitialWhitespace => n = 0
  | StateCRLF => FWS (take n value) /\ exists cs', cs = chr CR :: cs'
  | StateWhitespace false => FWS (take n value)
  | StateWhitespace true => exists s, FWS s /\ take n value = s ++ CRLF
  end ->
  2 * length cs + (match st with StateWhitespace _ => 2 | _ => 1 end) <= fuel ->
  splits FWS value (folding_loop fuel value st cs n).
Proof.
  revert st cs n. induction fuel as [|fuel IH]; intros st cs n Ha Hst Hf; [destruct st; lia|].
  assert (Hblank : forall c cs', cs = c :: cs' -> is_blank c = true ->
            match st with StateCRLF => False | _ => True end ->
            splits FWS value (folding_loop fuel value (StateWhitespace false) cs' (n + 1))).
  { intros c cs' -> (b & -> & Hlt & Hb)%is_blank_ascii Hno.
    destruct (aligned_snoc _ _ _ _ b Ha eq_refl Hlt) as (Ha' & _ & Ht).
    apply IH; [done| |destruct st; cbn [length] in Hf; lia]. rewrite Ht.
    destruct st as [| |[]]; [done|subst n; now constructor| |now constructor].
    destruct Hst as (s & Hs & ->). now constructor. }
  cbn [folding_loop]. destruct st as [| |required].
  - destruct Hst as (Hs & cs' & ->). cbn [N.eqb].
    rewrite (proj2 (N.eqb_eq _ _)) by reflexivity. destruct cs' as [|c cs']; [done|].
    destruct (N.eqb_spec c (chr LF)) as [->|]; [|done].
    destruct (aligned_snoc _ _ _ _ CR Ha eq_refl ltac:(done)) as (Ha1 & _ & Ht1).
    destruct (aligned_snoc _ _ _ _ LF Ha1 eq_refl ltac:(done)) as (Ha2 & _ & Ht2).
    rewrite <- Nat.add_assoc in Ha2, Ht2. cbn [Nat.add] in Ha2, Ht2. apply IH; [done| |cbn [length] in Hf; lia].
    exists (take n value). split; [done|]. now rewrite Ht2, Ht1, <- app_assoc.
  - destruct cs as [|c cs']; [done|]. destruct (is_blank c) eqn:Hb; [|done]. now apply (Hblank c).
  - destruct cs as [|c cs'].
    + destruct required; [done|]. now apply (splits_at _ _ _ []).
    + destruct (is_blank c) eqn:Hb; [now apply (Hblank c)|]. destruct required; [done|].
      destruct (N.eqb_spec c (chr CR)) as [->|]; [|now apply (splits_at _ _ _ (c :: cs'))].
      apply IH; [done|split; [done|now exists cs']|lia].
Qed.

Lemma parse_folding_whitespace_splits value :
  is_str value -> splits FWS value (parse_folding_whitespace value).
Proof.
  intros Hv%aligned_start. apply folding_loop_spec; [done|done|].
  apply aligned_length in Hv. lia.
Qed.

(** A quoted pair, in the language of its bytes. *)
Definition QuotedPair (p : bytes) : Prop :=
  exists b, p = ["\"%byte; b] /\ is_blank (Byte.to_N b) || byte_in 34 125 b = true.

Lemma parse_quoted_pair_splits value :
  is_str value -> splits QuotedPair value (parse_quoted_pair value).
Proof.
  intros Hv%aligned_start. unfold parse_quoted_pair.
  destruct (chars value) as [|c1 [|c2 cs]]; [done..|].
  destruct (N.eqb_spec c1 (chr "\")) as [->|]; [|done]. cbn [andb].
  destruct (_ || N.eqb c2 (chr HT)) eqn:Hc; [|done].
  assert (Hb : exists b, c2 = Byte.to_N b /\ (Byte.to_N b < 128)%N
            /\ is_blank (Byte.to_N b) || byte_in 34 125 b = true).
  { assert (Hlt : (c2 < 128)%N).
    { repeat (apply orb_prop in Hc as [Hc|Hc]); [apply andb_prop in Hc as [_ Hc%N.ltb_lt]| |];
        [cbn in Hc; lia|apply N.eqb_eq in Hc as ->..]; done. }
    exists (byte_of_N c2). rewrite to_N_byte_of_N by lia. split; [done|]. split; [done|].
    rewrite <- (to_N_byte_of_N c2) in Hc |- * by lia. rewrite byte_of_N_to_N in *.
    revert Hc. generalize (byte_of_N c2). clear. intros b. byte_cases b. }
  destruct Hb as (b & -> & Hlt & Hb).
  destruct (aligned_snoc _ _ _ _ "\"%byte Hv eq_refl ltac:(done)) as (Ha1 & _ & Ht1).
  destruct (aligned_snoc _ _ _ _ b Ha1 eq_refl Hlt) as (Ha2 & _ & Ht2).
  apply (splits_at _ _ _ _ Ha2). exists b. split; [|done].
  now rewrite Ht2, Ht1.
Qed.

Lemma is_comment_text_ascii c : is_comment_text c = true ->
  exists b, c = Byte.to_N b /\ (Byte.to_N b < 128)%N /\ is_comment_text (Byte.to_N b) = true.
Proof.
  intros Hc. assert (Hlt : (c < 128)%N).
  { unfold is_comment_text in Hc. repeat (apply orb_prop in Hc as [Hc|Hc]);
      apply andb_prop in Hc as [_ Hc%N.leb_le]; cbn in Hc; lia. }
  exists (byte_of_N c). now rewrite to_N_byte_of_N by lia.
Qed.

Lemma comment_loop_spec fuel value cs n :
  aligned value n cs -> (exists s, take n value = "("%byte :: s /\ CommentText s) ->
  length value - n < fuel -> splits Comment value (comment_loop fuel value cs n).
Proof.
  revert value cs n. induction fuel as [|fuel IH]; intros value cs n Ha (s & Hs & Ht) Hf; [lia|].
  assert (Hnew : forall P f, (is_str (drop n value) -> splits P (drop n value) (f (drop n value))) ->
            (forall a, P a -> a <> [] /\ CommentText (s ++ a)) ->
            splits Comment value (try! (cs, n) := get_new_iter value f n in
                                  comment_loop fuel value cs n)).
  { intros P f Hfs HP. apply (ends_try _ _ _ _ _ (get_new_iter_spec P value f n cs Ha Hfs)); [|done].
    intros [cs' n'] (Ha' & a & [Hne Hsa]%HP & -> & Hta). apply IH; [done| |].
    - exists (s ++ a). split; [now rewrite Hta, Hs|done].
    - destruct Ha' as [Hn' _]. destruct a; [done|]. cbn in Hn' |- *. lia. }
  cbn [comment_loop]. destruct cs as [|c cs]; [done|].
  destruct (is_blank c) eqn:Hb.
  { apply (Hnew FWS); [apply parse_folding_whitespace_splits|]. intros a Hfa.
    split; [now apply FWS_nonempty|now apply text_fws]. }
  clear Hb. destruct (N.eqb_spec c (chr "(")) as [->|_].
  { apply (Hnew Comment).
    - intros Hv. unfold comment_with. rewrite (proj2 (aligned_str _ _ _ Ha)).
      rewrite N.eqb_refl. cbn [negb].
      destruct (aligned_snoc _ _ _ _ "("%byte Ha eq_refl ltac:(done)) as (_ & Hle & _).
      destruct (aligned_start _ Hv) as [Hz Hu]. rewrite (proj2 (aligned_str _ _ _ Ha)) in Hu.
      destruct (aligned_snoc _ 0 _ _ "("%byte (conj Hz Hu) eq_refl ltac:(done)) as (Ha' & _ & Ht').
      apply (IH _ _ _ Ha').
      + exists []. split; [exact Ht'|constructor].
      + rewrite length_drop. lia.
    - intros a Hc. split; [now apply Comment_nonempty|now apply text_comment]. }
  destruct (N.eqb_spec c (chr ")")) as [->|_].
  { destruct (aligned_snoc _ _ _ _ ")"%byte Ha eq_refl ltac:(done)) as (Ha' & _ & Ht').
    apply (splits_at _ _ _ _ Ha'). rewrite Ht', Hs. now constructor. }
  destruct (N.eqb_spec c (chr "\")) as [->|_].
  { apply (Hnew QuotedPair); [apply parse_quoted_pair_splits|].
    intros a (b & -> & Hb). split; [done|now apply text_pair]. }
  destruct (is_comment_text c) eqn:Hc; [|done].
  apply is_comment_text_ascii in Hc as (b & -> & Hlt & Hc).
  destruct (aligned_snoc _ _ _ _ b Ha eq_refl Hlt) as (Ha' & Hle & Ht').
  apply (IH _ _ _ Ha'); [|lia]. exists (s ++ [b]). split; [now rewrite Ht', Hs|now constructor].
Qed.

Lemma parse_comment_splits value : is_str value -> splits Comment value (parse_comment value).
Proof.
  intros Hv%aligned_start. unfold parse_comment, comment_with.
  destruct (chars value) as [|c cs] eqn:Ec; [done|].
  destruct (N.eqb_spec c (chr "(")) as [->|]; [|done]. cbn [negb].
  destruct (aligned_snoc _ _ _ _ "("%byte Hv eq_refl ltac:(done)) as (Ha & Hle & Ht).
  apply (comment_loop_spec _ _ _ _ Ha); [|lia]. exists []. split; [exact Ht|constructor].
Qed.

Lemma skip_loop_spec fuel value optional cs n found :
  aligned value n cs -> CFWS (take n value) -> (found = true -> take n value <> []) ->
  length value - n < fuel ->
  splits (fun a => CFWS a /\ (optional = false -> a <> [])) value
    (skip_loop fuel value optional cs n found).
Proof.
  revert cs n found. induction fuel as [|fuel IH]; intros cs n found Ha Hs Hfound Hf; [lia|].
  assert (Hnew : forall P f, (is_str (drop n value) -> splits P (drop n value) (f (drop n value))) ->
            (forall a, P a -> a <> [] /\ CFWS (take n value ++ a)) ->
            splits (fun a => CFWS a /\ (optional = false -> a <> [])) value
              (try! (cs, n) := get_new_iter value f n in skip_loop fuel value optional cs n true)).
  { intros P f Hfs HP. apply (ends_try _ _ _ _ _ (get_new_iter_spec P value f n cs Ha Hfs)); [|done].
    intros [cs' n'] (Ha' & a & [Hne Hsa]%HP & -> & Hta). apply IH; [done|now rewrite Hta| |].
    - intros _. rewrite Hta. now intros [_ ?]%app_nil.
    - destruct Ha' as [Hn' _]. destruct a; [done|]. cbn in Hn' |- *. lia. }
  assert (Hstop : splits (fun a => CFWS a /\ (optional = false -> a <> [])) value
            (if found || optional then ok_split_at n value else fail)).
  { destruct (found || optional) eqn:E; [|done]. apply (splits_at _ _ _ _ Ha). split; [done|].
    intros ->. apply Hfound. now rewrite orb_false_r in E. }
  cbn [skip_loop]. destruct cs as [|c cs]; [done|]. destruct (N.eqb c (chr "(")).
  { apply (Hnew Comment); [apply parse_comment_splits|]. intros a Hc.
    split; [now apply Comment_nonempty|now apply cfws_comment]. }
  destruct (is_blank c); [|done].
  apply (Hnew FWS); [apply parse_folding_whitespace_splits|]. intros a Hc.
  split; [now apply FWS_nonempty|now apply cfws_fws].
Qed.

Lemma parse_cfws_splits value optional :
  is_str value ->
  splits (fun a => CFWS a /\ (optional = false -> a <> [])) value
    (parse_comment_and_folding_whitespace value optional).
Proof.
  intros Hv%aligned_start. apply (skip_loop_spec _ _ _ _ _ _ Hv); [constructor|done|lia].
Qed.

(** ** ASCII texts *)

Definition ascii (value : bytes) : Prop := Forall (fun b => is_ascii b = true) value.

Lemma ascii_str value : ascii value -> is_str value.
Proof. intros Hv. exists (Byte.to_N <$> value). now apply utf8_chars_ascii. Qed.

Lemma ascii_chars value : ascii value -> chars value = Byte.to_N <$> value.
Proof. intros Hv. unfold chars. now rewrite utf8_chars_ascii. Qed.

Lemma ascii_app a b : ascii (a ++ b) <-> ascii a /\ ascii b.
Proof. apply Forall_app. Qed.

(** A parser that does not panic, and leaves an ASCII text with its result. *)
Definition leaves_ascii {A} (rest : A -> bytes) (m : Parse A) : Prop :=
  ends False (fun r => match r with Ok a => ascii (rest a) | Err _ => True end) m.

Lemma leaves_fail {A} (rest : A -> bytes) : leaves_ascii rest fail.
Proof. exact I. Qed.

Lemma leaves_try {A B} (rest : A -> bytes) (rest' : B -> bytes) m k :
  leaves_ascii rest m -> (forall a, ascii (rest a) -> leaves_ascii rest' (k a)) ->
  leaves_ascii rest' (parse_bind m k).
Proof. intros Hm Hk. now apply (ends_try _ _ _ _ _ Hm Hk). Qed.

Lemma split_ascii n value :
  ascii value -> n <= length value -> split_at n value = Return (take n value, drop n value).
Proof.
  intros Hv Hn. apply (aligned_split _ _ (Byte.to_N <$> drop n value)). split; [done|].
  apply utf8_chars_ascii. now apply Forall_drop.
Qed.

Lemma skip_ascii n value : ascii value -> n <= length value -> leaves_ascii id (skip n value).
Proof.
  intros Hv Hn. unfold skip. rewrite split_ascii by done. cbn. now apply Forall_drop.
Qed.

Lemma cfws_ascii optional value :
  ascii value -> leaves_ascii snd (parse_comment_and_folding_whitespace value optional).
Proof.
  intros Hv. apply (ends_mono _ _ _ _ (parse_cfws_splits value optional (ascii_str _ Hv))).
  intros [[a b]|]; [|done]. intros (-> & _). now apply ascii_app in Hv.
Qed.

Lemma ascii_chars_length value n : ascii value -> n <= length (chars value) -> n <= length value.
Proof. intros Hv. now rewrite ascii_chars, length_fmap. Qed.

Lemma match_lowercase_leaves {A B} part (table : list (bytes * A)) (rest : bytes) (k : A -> B) :
  ascii rest -> leaves_ascii snd (try! a := match_lowercase part table in ok (k a, rest)).
Proof. intros Hr. unfold match_lowercase. now destruct (List.find _ _) as [[w a]|]. Qed.

Lemma parse_day_ascii value : ascii value -> leaves_ascii snd (parse_day value).
Proof.
  intros Hv. unfold parse_day. pose proof (ascii_chars_length value) as Hl.
  destruct (chars value) as [|c cs]; [done|]. destruct (char_to_digit c); [|done].
  assert (H1 : 1 <= length value) by (apply Hl; [done|cbn; lia]).
  destruct cs as [|c' cs]; [|destruct (char_to_digit c')];
    (eapply leaves_try; [apply skip_ascii; [done|]|done]); try done. apply Hl; [done|cbn; lia].
Qed.

Lemma parse_day_of_week_ascii value : ascii value -> leaves_ascii snd (parse_day_of_week value).
Proof.
  intros Hv. unfold parse_day_of_week. destruct (Nat.ltb_spec (length value) 3); [done|].
  rewrite split_ascii by done. apply (match_lowercase_leaves _ _ _ id). now apply Forall_drop.
Qed.

Lemma parse_month_ascii value : ascii value -> leaves_ascii snd (parse_month value).
Proof.
  intros Hv. unfold parse_month. destruct (Nat.ltb_spec (length value) 3); [done|].
  rewrite split_ascii by done. apply (match_lowercase_leaves _ _ _ id). now apply Forall_drop.
Qed.

Lemma year_loop_ends cs year n :
  ends False (fun r => match r with Ok (_, n') => n <= n' <= n + length cs | Err _ => True end)
    (year_loop cs year n).
Proof.
  revert year n. induction cs as [|c cs IH]; intros year n; cbn [year_loop length]; [cbn; lia|].
  destruct (char_to_digit c); [|cbn; lia]. destruct (_ || _); [done|].
  apply (ends_mono _ _ _ _ (IH _ _)). intros [[y n']|]; [lia|done].
Qed.

Lemma parse_year_ascii value : ascii value -> leaves_ascii snd (parse_year value).
Proof.
  intros Hv. unfold parse_year. eapply (ends_try _ (fun p => p.2 <= length value)); [|intros [y n] Hn|done].
  - apply (ends_mono _ _ _ _ (year_loop_ends _ _ _)). intros [[y n]|]; [|done].
    rewrite ascii_chars, length_fmap by done. cbn. lia.
  - destruct (n <? 2); [done|]. eapply leaves_try; [now apply skip_ascii|done].
Qed.

Lemma parse_2_digit_ascii value : ascii value -> leaves_ascii snd (parse_2_digit_number value).
Proof.
  intros Hv. unfold parse_2_digit_number. pose proof (ascii_chars_length value 2 Hv) as Hl.
  destruct (chars value) as [|c1 [|c2 cs]]; [done..|].
  destruct (char_to_digit c1); [|done]. destruct (char_to_digit c2); [|done].
  eapply leaves_try; [apply skip_ascii; [done|apply Hl; cbn; lia]|done].
Qed.

Lemma parse_colon_ascii optional value : ascii value -> leaves_ascii id (parse_colon value optional).
Proof.
  intros Hv. unfold parse_colon. eapply leaves_try; [now apply cfws_ascii|intros [a v] Hv'; cbn in Hv'].
  pose proof (ascii_chars_length v 1 Hv') as Hl. destruct (chars v); [now destruct optional|].
  destruct (N.eqb _ _); [|now destruct optional].
  eapply leaves_try; [apply skip_ascii; [done|apply Hl; cbn; lia]|].
  intros v' Hv''. eapply leaves_try; [now apply cfws_ascii|now intros []].
Qed.

Lemma string_of_chars_ascii value : ascii value -> string_of_chars (Byte.to_N <$> value) = value.
Proof.
  unfold string_of_chars. induction 1 as [|b value Hb _ IH]; [done|]. cbn. rewrite IH.
  unfold encode_utf8. unfold is_ascii in Hb. rewrite Hb. cbn. now rewrite byte_of_N_to_N.
Qed.

Lemma take_while_length {A} (f : A -> bool) l : length (take_while f l) <= length l.
Proof. induction l as [|x l IH]; cbn; [lia|]. destruct (f x); cbn; lia. Qed.

Lemma zone_offset_returns timezone : exists r, zone_offset timezone = Return r.
Proof. unfold zone_offset. repeat case_match; now eexists. Qed.

Lemma parse_time_zone_ascii value : ascii value -> leaves_ascii snd (parse_time_zone value).
Proof.
  intros Hv. unfold parse_time_zone. rewrite ascii_chars by done.
  destruct (starts_with _ value || _) eqn:Hs.
  - destruct Hv as [|b v Hb Hv]; [done|]. cbn [fmap list_fmap].
    rewrite <- fmap_take, string_of_chars_ascii by now apply Forall_take.
    destruct (Nat.eqb_spec (length (take 4 v)) 4) as [Hl|]; [|done]. cbn [negb].
    destruct (parse_i32 _); [|done].
    eapply leaves_try; [apply skip_ascii|done].
    + now constructor.
    + rewrite length_take in Hl. cbn. lia.
  - match goal with |- context [zone_offset ?t] => destruct (zone_offset_returns t) as [[z|e] ->]; [|done] end.
    cbn [parse_bind]. eapply leaves_try; [apply skip_ascii; [done|]|done].
    rewrite !length_fmap. etransitivity; [apply take_while_length|]. rewrite length_take, length_fmap. lia.
Qed.

#[export] Hint Resolve cfws_ascii parse_day_ascii parse_day_of_week_ascii parse_month_ascii
  parse_year_ascii parse_2_digit_ascii parse_colon_ascii parse_time_zone_ascii leaves_fail : rtsp.

(** A sequence of such parsers. *)
Ltac leaves_seq :=
  repeat (eapply leaves_try; [solve [eauto with rtsp]|
            let a := fresh "a" in let Ha := fresh "Ha" in
            intros a Ha; repeat (destruct a as [a ?]); cbn [snd id] in Ha]).

Lemma parse_date_ascii value : ascii value -> leaves_ascii snd (parse_date value).
Proof. intros Hv. unfold parse_date. now leaves_seq. Qed.

Lemma parse_time_of_day_ascii value : ascii value -> leaves_ascii snd (parse_time_of_day value).
Proof.
  intros Hv. unfold parse_time_of_day. leaves_seq. destruct (negb _); [|done]. now leaves_seq.
Qed.
#[export] Hint Resolve parse_date_ascii parse_time_of_day_ascii : rtsp.

Lemma parse_time_ascii value : ascii value -> leaves_ascii snd (parse_time value).
Proof. intros Hv. unfold parse_time. now leaves_seq. Qed.

Lemma parse_weekday_part_ascii value : ascii value -> leaves_ascii snd (parse_weekday_part value).
Proof.
  intros Hv. unfold parse_weekday_part. destruct (chars value) as [|c cs]; [done|].
  destruct (is_alphabetic_char c); [|done]. leaves_seq. cbn beta.
  match goal with Ha : ascii ?v |- context [chars ?v] => pose proof (ascii_chars_length v 1 Ha) as Hl end.
  destruct (chars _) as [|c' cs']; [done|]. destruct (negb _); [done|].
  eapply leaves_try; [apply skip_ascii; [done|apply Hl; cbn; lia]|]. intros v Hv'. now leaves_seq.
Qed.
#[export] Hint Resolve parse_time_ascii parse_weekday_part_ascii : rtsp.

(** On a text in ASCII the parser returns, with a date or the error: no slice is out of bounds, no
    loop runs out of the model's fuel. *)
Theorem parse_date_time_total `{ChronoOps} (value : bytes) :
  ascii value -> exists r, parse_date_time value = Return r.
Proof.
  intros Hv. enough (leaves_ascii (fun _ => []) (parse_date_time value)) as Hp.
  { destruct (parse_date_time value) as [r|]; [now exists r|done]. }
  unfold parse_date_time. leaves_seq. cbn beta zeta.
  repeat case_match; first [exact I|now constructor].
Qed.

(** ** Reading a written date *)

Lemma str_cons b s : is_ascii b = true -> is_str s -> is_str (b :: s).
Proof.
  intros Hb [cs Hs]. exists (Byte.to_N b :: cs). cbn [utf8_chars].
  now rewrite <- is_ascii_byte_in, Hb, Hs.
Qed.

Lemma str_app a s : ascii a -> is_str s -> is_str (a ++ s).
Proof. induction 1 as [|b a Hb _ IH]; [done|]. intros Hs. apply str_cons; auto. Qed.

Lemma chars_cons b s : is_ascii b = true -> is_str s -> chars (b :: s) = Byte.to_N b :: chars s.
Proof.
  intros Hb [cs Hs]. unfold chars. cbn [utf8_chars]. now rewrite <- is_ascii_byte_in, Hb, Hs.
Qed.

Lemma chars_first b s : is_str (b :: s) -> is_ascii b = true -> exists cs, chars (b :: s) = Byte.to_N b :: cs.
Proof.
  intros [cs Hs] Hb. unfold chars. rewrite Hs. cbn [utf8_chars] in Hs.
  rewrite <- is_ascii_byte_in, Hb in Hs. destruct (utf8_chars s) as [cs'|]; [|done].
  injection Hs as <-. now exists cs'.
Qed.

Lemma str_nil : is_str [].
Proof. now exists []. Qed.
#[export] Hint Resolve str_nil : rtsp.

(** Cutting off a prefix in ASCII. *)
Lemma split_app a s : ascii a -> is_str s -> split_at (length a) (a ++ s) = Return (a, s).
Proof.
  intros Ha [cs Hs]. rewrite (aligned_split _ _ cs).
  - now rewrite take_app_length, drop_app_length.
  - split; [rewrite length_app; lia|now rewrite drop_app_length].
Qed.

Lemma skip_app a s : ascii a -> is_str s -> skip (length a) (a ++ s) = ok s.
Proof. intros Ha Hs. unfold skip. now rewrite split_app. Qed.

(** A text that starts with neither a blank nor a comment; [ends_fold] excludes a line break too. *)
Definition starts_word (s : bytes) : Prop :=
  is_str s /\ match chars s with c :: _ => is_blank c = false /\ c <> chr "(" /\ c <> chr CR | [] => True end.

Definition blanks (pre : bytes) : Prop := Forall (fun b => is_blank (Byte.to_N b) = true) pre.

Lemma blank_ascii b : is_blank (Byte.to_N b) = true -> is_ascii b = true.
Proof. byte_cases b. Qed.

Lemma blanks_ascii pre : blanks pre -> ascii pre.
Proof. intros H. exact (Forall_impl _ _ _ H blank_ascii). Qed.

Lemma folding_loop_blanks fuel pre pre' s :
  starts_word s -> blanks pre -> blanks pre' -> length pre < fuel ->
  folding_loop fuel (pre' ++ pre ++ s) (StateWhitespace false) (chars (pre ++ s)) (length pre')
  = ok (pre' ++ pre, s).
Proof.
  intros [Hs Hw] Hpre. revert fuel pre'. induction Hpre as [|b pre Hb Hpre IH]; intros fuel pre' Hpre' Hf.
  - destruct fuel as [|fuel]; [cbn in Hf; lia|]. cbn [app folding_loop]. rewrite app_nil_r.
    assert (Hstop : ok_split_at (length pre') (pre' ++ s) = ok (pre', s)).
    { unfold ok_split_at. now rewrite split_app by (done || now apply blanks_ascii). }
    destruct (chars s) as [|c cs]; [done|]. destruct Hw as (-> & _ & Hcr).
    now rewrite (proj2 (N.eqb_neq _ _) Hcr).
  - destruct fuel as [|fuel]; [cbn in Hf; lia|]. cbn [app]. rewrite chars_cons.
    2: now apply blank_ascii.
    2: apply str_app; [now apply blanks_ascii|done].
    cbn [folding_loop]. rewrite Hb. specialize (IH fuel (pre' ++ [b])).
    rewrite length_app, <- !app_assoc in IH. cbn [length app] in IH, Hf. apply IH; [|lia].
    apply Forall_app. split; [done|]. now constructor.
Qed.

Lemma parse_folding_whitespace_blanks b pre s :
  starts_word s -> blanks (b :: pre) ->
  parse_folding_whitespace ((b :: pre) ++ s) = ok (b :: pre, s).
Proof.
  intros Hs Hpre. inversion Hpre as [|? ? Hb Hpre']; subst. unfold parse_folding_whitespace.
  destruct (2 * length ((b :: pre) ++ s) + 2) as [|fuel] eqn:Ef; [lia|].
  rewrite length_app in Ef. cbn [length] in Ef. cbn [folding_loop app]. rewrite chars_cons, Hb.
  2: now apply blank_ascii.
  2: apply str_app; [now apply blanks_ascii|apply Hs].
  apply (folding_loop_blanks _ pre [b] s Hs Hpre'); [now constructor|]. lia.
Qed.

(** Nothing is skipped before a word, and exactly the blanks are before one. *)
Lemma skip_loop_stop fuel pre s optional found :
  starts_word s -> ascii pre -> found || optional = true -> 0 < fuel ->
  skip_loop fuel (pre ++ s) optional (chars s) (length pre) found = ok (pre, s).
Proof.
  intros [Hs Hw] Hpre Hf Hfuel. destruct fuel as [|fuel]; [lia|]. cbn [skip_loop]. rewrite Hf.
  assert (Hstop : ok_split_at (length pre) (pre ++ s) = ok (pre, s))
    by (unfold ok_split_at; now rewrite split_app).
  destruct (chars s) as [|c cs]; [done|]. destruct Hw as (-> & Hp & _).
  now rewrite (proj2 (N.eqb_neq _ _) Hp).
Qed.

Lemma cfws_word s : starts_word s -> parse_comment_and_folding_whitespace s true = ok ([], s).
Proof.
  intros Hs. unfold parse_comment_and_folding_whitespace.
  apply (skip_loop_stop _ [] s true false Hs); [constructor|done|lia].
Qed.

Lemma cfws_blanks b pre s optional :
  starts_word s -> blanks (b :: pre) ->
  parse_comment_and_folding_whitespace (b :: pre ++ s) optional = ok (b :: pre, s).
Proof.
  intros Hs Hpre. unfold parse_comment_and_folding_whitespace. rewrite Nat.add_1_r.
  pose proof (Forall_inv Hpre) as Hb.
  assert (Hfuel : 0 < length (b :: pre ++ s)) by (cbn; lia). revert Hfuel.
  generalize (length (b :: pre ++ s)). intros fuel Hfuel. cbn [skip_loop].
  rewrite chars_cons by (now apply blank_ascii || (apply str_app;
    [now apply blanks_ascii; inversion Hpre|apply Hs])).
  assert (Hp : N.eqb (Byte.to_N b) (chr "(") = false) by (revert Hb; clear; byte_cases b).
  rewrite Hp, Hb. unfold get_new_iter. cbn [split_at]. change (split_at 0 ?v) with (Return (take 0 v, drop 0 v)).
  cbn [outcome_bind]. rewrite drop_0.
  rewrite (parse_folding_whitespace_blanks b pre s Hs Hpre : parse_folding_whitespace (b :: pre ++ s) = _). cbn [parse_bind ok Nat.add].
  now apply (skip_loop_stop _ (b :: pre) s optional true Hs); [apply blanks_ascii|..].
Qed.

(** The written forms: [%a], [%b], and numbers of two and of four digits. *)
Definition weekday_name (w : Weekday) : bytes :=
  match w with
  | Mon => bs "Mon" | Tue => bs "Tue" | Wed => bs "Wed" | Thu => bs "Thu" | Fri => bs "Fri"
  | Sat => bs "Sat" | Sun => bs "Sun"
  end.

Definition month_names : list bytes :=
  [bs "Jan"; bs "Feb"; bs "Mar"; bs "Apr"; bs "May"; bs "Jun"; bs "Jul"; bs "Aug"; bs "Sep";
   bs "Oct"; bs "Nov"; bs "Dec"].

Definition month_name (month : N) : bytes := nth (N.to_nat month - 1) month_names [].

Definition two (n : N) : bytes := [digit (n / 10); digit (n mod 10)].
Definition four (n : N) : bytes := two (n / 100) ++ two (n mod 100).

Definition zone_text (offset : Z) : bytes :=
  (if (offset <? 0)%Z then bs "-" else bs "+") ++ four (Z.to_N (Z.abs offset)).

(** The text of a date in the format [%a, %e %b %Y %H:%M:%S %z]. *)
Definition date_time_text (weekday : Weekday) (year month day hour minute second : N) (offset : Z) :
    bytes :=
  weekday_name weekday ++ bs ", "
  ++ (if (day <? 10)%N then [SP; digit day] else two day) ++ [SP]
  ++ month_name month ++ [SP] ++ four year ++ [SP]
  ++ two hour ++ bs ":" ++ two minute ++ bs ":" ++ two second ++ [SP] ++ zone_text offset.

Lemma digit_ascii d : (d < 10)%N -> is_ascii (digit d) = true.
Proof. intros Hd. unfold is_ascii. rewrite digit_lt by done. apply N.ltb_lt. lia. Qed.

Lemma char_to_digit_digit d : (d < 10)%N -> char_to_digit (Byte.to_N (digit d)) = Some d.
Proof.
  intros Hd. rewrite digit_lt by done. unfold char_to_digit.
  rewrite !(proj2 (N.leb_le _ _)) by lia. cbn. f_equal. lia.
Qed.

Lemma two_digits n : (n < 100)%N -> (n / 10 < 10)%N /\ (n mod 10 < 10)%N /\ (n / 10 * 10 + n mod 10 = n)%N.
Proof.
  intros Hn. repeat split; [apply N.Div0.div_lt_upper_bound; lia|apply N.mod_lt; lia|].
  pose proof (N.div_mod n 10). lia.
Qed.

Lemma two_ascii n : (n < 100)%N -> ascii (two n).
Proof. intros (H1 & H2 & _)%two_digits. now repeat constructor; apply digit_ascii. Qed.

Lemma four_parts n : (n < 10000)%N -> (n / 100 < 100)%N /\ (n mod 100 < 100)%N /\ (n / 100 * 100 + n mod 100 = n)%N.
Proof.
  intros Hn. repeat split; [apply N.Div0.div_lt_upper_bound; lia|apply N.mod_lt; lia|].
  pose proof (N.div_mod n 100). lia.
Qed.

Lemma four_ascii n : (n < 10000)%N -> ascii (four n).
Proof. intros (H1 & H2 & _)%four_parts. apply ascii_app. now split; apply two_ascii. Qed.

Lemma weekday_name_ascii w : ascii (weekday_name w).
Proof. destruct w; repeat constructor. Qed.

Lemma month_cases month (P : N -> Prop) :
  (forall i, i < 12 -> P (N.of_nat (S i))) -> (1 <= month <= 12)%N -> P month.
Proof.
  intros HP Hm. replace month with (N.of_nat (S (N.to_nat month - 1))) by lia. apply HP. lia.
Qed.

Lemma month_name_ascii month : (1 <= month <= 12)%N -> ascii (month_name month).
Proof.
  apply (month_cases month (fun month => ascii (month_name month))).
  intros i Hi. do 12 (destruct i as [|i]; [repeat constructor|]). lia.
Qed.

Lemma zone_ascii offset : (Z.abs offset < 10000)%Z -> ascii (zone_text offset).
Proof.
  intros Ho. apply ascii_app. split; [destruct (_ <? _)%Z; repeat constructor|apply four_ascii; lia].
Qed.

#[export] Hint Resolve digit_ascii two_ascii four_ascii weekday_name_ascii month_name_ascii zone_ascii
  str_app str_cons : rtsp.

Lemma parse_day_of_week_name w s : is_str s -> parse_day_of_week (weekday_name w ++ s) = ok (w, s).
Proof.
  intros Hs. unfold parse_day_of_week. rewrite length_app.
  assert (Hl : length (weekday_name w) = 3) by now destruct w. rewrite Hl. cbn [Nat.add Nat.ltb Nat.leb].
  rewrite <- Hl, split_app by auto with rtsp. now destruct w.
Qed.

Lemma parse_month_name month s :
  (1 <= month <= 12)%N -> is_str s -> parse_month (month_name month ++ s) = ok (month, s).
Proof.
  intros Hm Hs. revert Hm.
  assert (Hi : forall i, i < 12 -> length (month_name (N.of_nat (S i))) = 3
            /\ match_lowercase (month_name (N.of_nat (S i))) months = ok (N.of_nat (S i))).
  { intros i Hi. do 12 (destruct i as [|i]; [now vm_compute|]). lia. }
  apply (month_cases month (fun month => parse_month (month_name month ++ s) = ok (month, s))).
  intros i Hlt. destruct (Hi i Hlt) as [Hl Hm'].
  unfold parse_month. rewrite length_app, Hl. cbn [Nat.add Nat.ltb Nat.leb].
  rewrite <- Hl at 1. rewrite split_app; [cbn [outcome_bind]; now rewrite Hm'| |done].
  apply month_name_ascii. lia.
Qed.

(** Skips the written piece [a] in front of [s]. *)
Ltac skip_piece a s :=
  let Hk := fresh in
  assert (Hk : skip (length a) (a ++ s) = ok s) by
    (apply skip_app; [solve [auto with rtsp | repeat constructor; auto with rtsp]|auto with rtsp]);
  cbn [two four app length] in Hk; rewrite Hk; clear Hk; cbn [parse_bind ok].

Lemma parse_2_digit_two n s : (n < 100)%N -> is_str s -> parse_2_digit_number (two n ++ s) = ok (n, s).
Proof.
  intros Hn Hs. destruct (two_digits n Hn) as (H1 & H2 & H3). unfold parse_2_digit_number.
  cbn [two app]. rewrite !chars_cons by auto with rtsp. rewrite !char_to_digit_digit, H3 by done.
  now skip_piece (two n) s.
Qed.

Lemma parse_day_text day s :
  (day < 100)%N -> is_str s ->
  parse_day ((if day <? 10 then [digit day] else two day)%N ++ SP :: s) = ok (day, SP :: s).
Proof.
  intros Hd Hs. assert (Hsp : is_str (SP :: s)) by now apply str_cons. unfold parse_day.
  destruct (N.ltb_spec day 10).
  - cbn [app]. rewrite !chars_cons, char_to_digit_digit by auto with rtsp.
    now skip_piece [digit day] (SP :: s).
  - destruct (two_digits day Hd) as (H1 & H2 & H3). cbn [two app].
    rewrite !chars_cons, !char_to_digit_digit, H3 by auto with rtsp.
    now skip_piece (two day) (SP :: s).
Qed.

Lemma i32_wrap_small z : (0 <= z <= I32_MAX)%Z -> i32_wrap z = z.
Proof. unfold i32_wrap, I32_MAX. intros Hz. rewrite Z.mod_small; lia. Qed.

Lemma year_loop_digit d cs year n :
  (d < 10)%N -> (0 <= year <= 1000)%Z ->
  year_loop (Byte.to_N (digit d) :: cs) year n = year_loop cs (year * 10 + Z.of_N d) (n + 1).
Proof.
  intros Hd Hy. cbn [year_loop]. rewrite char_to_digit_digit by done. unfold I32_MAX.
  destruct (Z.ltb_spec (year * 10) (- 2 ^ 31)); [lia|]. destruct (Z.ltb_spec (2 ^ 31 - 1) (year * 10)); [lia|].
  cbn. rewrite i32_wrap_small by (unfold I32_MAX; lia). reflexivity.
Qed.

Lemma parse_year_four year s :
  (year < 10000)%N -> is_str s -> parse_year (four year ++ SP :: s) = ok (Z.of_N year, SP :: s).
Proof.
  intros Hy Hs. assert (Hsp : is_str (SP :: s)) by now apply str_cons.
  destruct (four_parts year Hy) as (Hh & Hl & Hp). unfold parse_year.
  destruct (two_digits _ Hh) as (Ha & Hb & Hab). destruct (two_digits _ Hl) as (Hc & Hd & Hcd).
  assert (Hloop : year_loop (chars (four year ++ SP :: s)) 0 0 = ok (Z.of_N year, 4)).
  { unfold four, two. cbn [app]. rewrite !chars_cons by auto 10 with rtsp.
    rewrite !year_loop_digit by (done || lia). cbn. do 3 f_equal. lia. }
  rewrite Hloop. cbn [parse_bind ok Nat.ltb Nat.leb].
  change (skip 4) with (skip (length (four year))). now rewrite skip_app by auto with rtsp.
Qed.

(** A byte a word may start with, in front of a string. *)
Definition word_byte (b : byte) : bool :=
  is_ascii b && negb (is_blank (Byte.to_N b)) && negb (bool_decide (b = "("%byte)) && negb (bool_decide (b = CR)).

Lemma starts_word_cons b s : word_byte b = true -> is_str s -> starts_word (b :: s).
Proof.
  intros Hb Hs. assert (Ha : is_ascii b = true) by (revert Hb; byte_cases b).
  split; [now apply str_cons|]. rewrite chars_cons by done. revert Hb. clear. byte_cases b; now intros _.
Qed.

Lemma digit_word d : (d < 10)%N -> word_byte (digit d) = true.
Proof.
  intros Hd. unfold word_byte. rewrite digit_ascii, digit_lt by done.
  rewrite !bool_decide_eq_false_2 by (intros Heq%(f_equal Byte.to_N); rewrite digit_lt in Heq by done; cbn in Heq; lia).
  unfold is_blank. now rewrite !(proj2 (N.eqb_neq _ _)) by (cbn; lia).
Qed.

Lemma two_word n s : (n < 100)%N -> is_str s -> starts_word (two n ++ s).
Proof.
  intros Hn Hs. pose proof (two_digits n Hn) as (? & ? & _). cbn [two app].
  apply starts_word_cons; [now apply digit_word|auto with rtsp].
Qed.

Lemma four_word n s : (n < 10000)%N -> is_str s -> starts_word (four n ++ s).
Proof.
  intros Hn Hs. pose proof (four_parts n Hn) as (? & ? & _). unfold four. rewrite <- app_assoc.
  apply two_word; auto with rtsp.
Qed.

Lemma month_word month s : (1 <= month <= 12)%N -> is_str s -> starts_word (month_name month ++ s).
Proof.
  intros Hm Hs. apply (month_cases month (fun month => starts_word (month_name month ++ s))); [|done].
  intros i Hi. do 12 (destruct i as [|i]; [apply starts_word_cons; [reflexivity|now repeat apply str_cons]|]).
  lia.
Qed.

Lemma starts_word_str s : starts_word s -> is_str s.
Proof. now intros []. Qed.
#[export] Hint Resolve two_word four_word month_word starts_word_cons starts_word_str : rtsp.

#[export] Hint Extern 1 (ascii (bs _)) => solve [repeat constructor] : rtsp.
#[export] Hint Extern 1 (ascii [_]) => solve [repeat constructor; auto with rtsp] : rtsp.

Lemma parse_colon_text s optional : starts_word s -> parse_colon (bs ":" ++ s) optional = ok s.
Proof.
  intros Hs. unfold parse_colon. rewrite cfws_word by (apply starts_word_cons; [reflexivity|apply Hs]).
  cbn [parse_bind ok bs app]. change (bs ":" ++ s) with (":"%byte :: s).
  rewrite chars_cons, N.eqb_refl by (done || apply Hs).
  skip_piece [":"%byte] s. now rewrite cfws_word.
Qed.

Lemma parse_time_of_day_text hour minute second s :
  (hour < 100)%N -> (minute < 100)%N -> (second < 100)%N -> is_str s ->
  parse_time_of_day (two hour ++ bs ":" ++ two minute ++ bs ":" ++ two second ++ s)
  = ok (hour, minute, Some second, s).
Proof.
  intros Hh Hm Hsec Hs. unfold parse_time_of_day.
  rewrite parse_2_digit_two by auto 10 with rtsp. cbn [parse_bind ok].
  rewrite parse_colon_text by auto 10 with rtsp. cbn [parse_bind ok].
  rewrite parse_2_digit_two by auto 10 with rtsp. cbn [parse_bind ok].
  rewrite parse_colon_text by auto 10 with rtsp. cbn [parse_bind ok].
  rewrite (proj2 (Nat.eqb_neq _ _)) by (rewrite (length_app (bs ":")); cbn; lia). cbn [negb].
  now rewrite parse_2_digit_two by auto with rtsp.
Qed.

Lemma parse_digits_cons max acc d s :
  (d < 10)%N -> (acc * 10 + d <= max)%N -> parse_digits max acc (digit d :: s) = parse_digits max (acc * 10 + d) s.
Proof.
  intros Hd Hm. cbn [parse_digits]. rewrite to_digit_digit by done.
  destruct (N.ltb_spec max (acc * 10)); [lia|]. now destruct (N.ltb_spec max (acc * 10 + d)); [lia|].
Qed.

Lemma parse_i32_four n : (n < 10000)%N -> parse_i32 (four n) = Some (Z.of_N n).
Proof.
  intros Hn. destruct (four_parts n Hn) as (Hh & Hl & Hp).
  destruct (two_digits _ Hh) as (H1 & H2 & H12). destruct (two_digits _ Hl) as (H3 & H4 & H34).
  unfold four, two. cbn [app]. unfold parse_i32. cbv iota beta. rewrite bool_decide_eq_false_2.
  2: { intros Heq%(f_equal Byte.to_N). rewrite digit_lt in Heq by done. cbn in Heq. lia. }
  cbn [andb]. rewrite parse_unsigned_digits by now apply is_ascii_digit_digit.
  rewrite !parse_digits_cons by (done || lia). cbn [parse_digits]. do 2 f_equal. lia.
Qed.

Lemma parse_time_zone_text offset s :
  (Z.abs offset < 10000)%Z -> is_str s -> parse_time_zone (zone_text offset ++ s) = ok (offset, s).
Proof.
  intros Ho Hs. set (n := Z.to_N (Z.abs offset)). assert (Hn : (n < 10000)%N) by lia.
  unfold zone_text. fold n. set (sign := if (offset <? 0)%Z then "-"%byte else "+"%byte).
  replace (if (offset <? 0)%Z then bs "-" else bs "+") with [sign] by now destruct (offset <? 0)%Z.
  cbn [app]. unfold parse_time_zone.
  assert (Hsign : is_ascii sign = true) by now unfold sign; destruct (offset <? 0)%Z.
  assert (Hstart : starts_with (bs "+") (sign :: four n ++ s) || starts_with (bs "-") (sign :: four n ++ s) = true).
  { unfold sign. apply orb_true_iff.
    destruct (offset <? 0)%Z; [right|left]; apply bool_decide_eq_true; now eexists. }
  rewrite Hstart, chars_cons by auto with rtsp.
  assert (Htake : take 4 (chars (four n ++ s)) = Byte.to_N <$> four n).
  { pose proof (four_parts n Hn) as (Hh & Hl & _).
    pose proof (two_digits _ Hh) as (? & ? & _). pose proof (two_digits _ Hl) as (? & ? & _).
    unfold four, two. cbn [app]. now rewrite !chars_cons by auto 10 with rtsp. }
  rewrite Htake, string_of_chars_ascii, parse_i32_four by auto with rtsp.
  change (length (four n) =? 4) with true. cbn [negb]. change (skip 5) with (skip (length (sign :: four n))).
  change (sign :: four n ++ s) with ((sign :: four n) ++ s).
  rewrite skip_app by first [done|constructor; [done|now apply four_ascii]]. cbn [parse_bind ok]. do 3 f_equal.
  unfold sign. destruct (Z.ltb_spec offset 0); cbn; lia.
Qed.

Lemma weekday_name_first w s :
  is_str s -> exists c cs, chars (weekday_name w ++ s) = c :: cs /\ is_alphabetic_char c = true.
Proof.
  intros Hs. assert (Hw : exists b t, weekday_name w = b :: t /\ is_ascii b = true
    /\ is_alphabetic_char (Byte.to_N b) = true /\ ascii t).
  { destruct w; do 2 eexists; (split; [reflexivity|]); repeat constructor. }
  destruct Hw as (b & t & -> & Hb & Halpha & Ht). cbn [app].
  rewrite chars_cons by auto with rtsp. now do 2 eexists.
Qed.

Lemma parse_weekday_part_name w pre s :
  starts_word s -> blanks (SP :: pre) ->
  parse_weekday_part (weekday_name w ++ bs "," ++ SP :: pre ++ s) = ok (Some w, s).
Proof.
  intros Hs Hpre. set (text := SP :: pre ++ s).
  assert (Ht : is_str text) by (apply (str_app (SP :: pre) s); [now apply blanks_ascii|apply Hs]).
  assert (Hc : starts_word (bs "," ++ text)) by now apply starts_word_cons.
  unfold parse_weekday_part.
  destruct (weekday_name_first w (bs "," ++ text)) as (c & cs & -> & ->); [now apply starts_word_str|].
  rewrite parse_day_of_week_name by now apply starts_word_str. cbn [parse_bind ok].
  rewrite cfws_word by done. cbn [parse_bind ok].
  change (bs "," ++ text) with (","%byte :: text). rewrite chars_cons, N.eqb_refl by done. cbn [negb].
  skip_piece [","%byte] text. unfold text. now rewrite cfws_blanks.
Qed.

Lemma weekday_word w s : is_str s -> starts_word (weekday_name w ++ s).
Proof.
  intros Hs. split; [auto with rtsp|].
  destruct (weekday_name_first w s Hs) as (c & cs & -> & Hc). unfold is_alphabetic_char in Hc.
  apply andb_prop in Hc as [Hlt%N.ltb_lt Hc]. rewrite <- (to_N_byte_of_N c) by lia.
  revert Hc. generalize (byte_of_N c). clear. intros b. byte_cases b; now intros _.
Qed.

Lemma day_word day s :
  (day < 100)%N -> is_str s -> starts_word ((if (day <? 10)%N then [digit day] else two day) ++ s).
Proof.
  intros Hd Hs. destruct (N.ltb_spec day 10); [|auto with rtsp].
  apply starts_word_cons; [now apply digit_word|done].
Qed.

Lemma zone_word offset s :
  (Z.abs offset < 10000)%Z -> is_str s -> starts_word (zone_text offset ++ s).
Proof.
  intros Ho Hs. unfold zone_text. rewrite <- app_assoc.
  assert (Hn : (Z.to_N (Z.abs offset) < 10000)%N) by lia.
  destruct (offset <? 0)%Z; apply starts_word_cons; auto with rtsp.
Qed.
#[export] Hint Extern 1 (is_ascii SP = true) => reflexivity : rtsp.
#[export] Hint Extern 1 (blanks [SP]) => solve [repeat constructor] : rtsp.

(** What the parser makes of the fields it has read. *)
Definition checked_date_time `{ChronoOps} (weekday : Weekday) (date_time : option DateTime) : Parse DateTime :=
  match date_time with
  | Some date_time => if bool_decide (weekday = weekday_utc date_time) then ok date_time else fail
  | None => fail
  end.

(** Of what follows, the comments and the white space at its start are read. *)
Lemma parse_date_time_rest `{ChronoOps} weekday year month day hour minute second offset junk :
  (year < 10000)%N -> (1 <= month <= 12)%N -> (day < 100)%N ->
  (hour < 100)%N -> (minute < 100)%N -> (second < 100)%N -> (Z.abs offset < 10000)%Z ->
  is_str junk ->
  parse_date_time (date_time_text weekday year month day hour minute second offset ++ junk)
  = try! _ := parse_comment_and_folding_whitespace junk true in
    checked_date_time weekday
      (date_time_at (Z.quot offset 100 * 3600 + Z.rem offset 100 * 60)
         (Z.of_N year) month day hour minute second).
Proof.
  intros Hy Hmo Hd Hh Hmi Hse Ho Hj. unfold date_time_text.
  set (pre := if (day <? 10)%N then [SP] else []).
  replace (if (day <? 10)%N then [SP; digit day] else two day)
    with (pre ++ (if (day <? 10)%N then [digit day] else two day)) by now unfold pre; destruct (day <? 10)%N.
  rewrite <- !app_assoc.
  set (zone := zone_text offset ++ junk).
  set (time := two hour ++ bs ":" ++ two minute ++ bs ":" ++ two second ++ [SP] ++ zone).
  set (date := (if (day <? 10)%N then [digit day] else two day) ++ [SP] ++ month_name month ++ [SP] ++ four year ++ [SP] ++ time).
  assert (Hzone : starts_word zone) by now apply zone_word.
  assert (Htime : starts_word time) by (apply two_word; auto 10 with rtsp).
  assert (Hdate : starts_word date) by (apply day_word; auto 12 with rtsp).
  assert (Hpre : blanks (SP :: pre)) by (unfold pre; destruct (day <? 10)%N; now repeat constructor).
  unfold parse_date_time. rewrite cfws_word by
    (apply weekday_word, str_app; [repeat constructor|]; apply str_app; [|apply Hdate];
     apply blanks_ascii; now inversion Hpre).
  cbn [parse_bind ok]. change (bs ", " ++ pre ++ date) with (bs "," ++ SP :: pre ++ date).
  rewrite parse_weekday_part_name by done. cbn [parse_bind ok].
  unfold parse_date, date. cbn [app]. rewrite parse_day_text by auto 10 with rtsp. cbn [parse_bind ok].
  rewrite (cfws_blanks SP [] (month_name month ++ SP :: four year ++ SP :: time)) by auto 10 with rtsp.
  cbn [parse_bind ok]. rewrite parse_month_name by auto 10 with rtsp. cbn [parse_bind ok].
  rewrite (cfws_blanks SP [] (four year ++ SP :: time)) by auto 10 with rtsp. cbn [parse_bind ok].
  rewrite parse_year_four by auto 10 with rtsp. cbn [parse_bind ok].
  rewrite (cfws_blanks SP [] time) by auto 10 with rtsp. cbn [parse_bind ok].
  unfold parse_time, time. rewrite parse_time_of_day_text by auto 10 with rtsp. cbn [parse_bind ok app].
  rewrite (cfws_blanks SP [] zone) by auto 10 with rtsp. cbn [parse_bind ok].
  unfold zone. rewrite parse_time_zone_text by auto 10 with rtsp. cbn [parse_bind ok].
  destruct (parse_comment_and_folding_whitespace junk true) as [[]|]; [|done..].
  cbn [parse_bind default]. unfold checked_date_time.
  destruct (date_time_at _ _ _ _ _ _ _); [|done]. now destruct (bool_decide _).
Qed.

(** A word at its start is not looked at. *)
Lemma parse_date_time_text `{ChronoOps} weekday year month day hour minute second offset junk :
  (year < 10000)%N -> (1 <= month <= 12)%N -> (day < 100)%N ->
  (hour < 100)%N -> (minute < 100)%N -> (second < 100)%N -> (Z.abs offset < 10000)%Z ->
  starts_word junk ->
  parse_date_time (date_time_text weekday year month day hour minute second offset ++ junk)
  = checked_date_time weekday
      (date_time_at (Z.quot offset 100 * 3600 + Z.rem offset 100 * 60)
         (Z.of_N year) month day hour minute second).
Proof.
  intros Hy Hmo Hd Hh Hmi Hse Ho Hj. rewrite parse_date_time_rest by (done || now apply starts_word_str).
  now rewrite cfws_word.
Qed.

Lemma parse_date_time_splits_char `{ChronoOps} a b c d rest :
  is_str (a :: b :: c :: d :: rest) -> is_alphabetic_char (Byte.to_N a) = true ->
  byte_in 128 191 d = true ->
  parse_date_time (a :: b :: c :: d :: rest) = Panic.
Proof.
  intros Hs Ha Hd. assert (Haa : is_ascii a = true).
  { apply andb_prop in Ha as [Ha _]. exact Ha. }
  destruct (chars_first a (b :: c :: d :: rest) Hs Haa) as [cs' Hchars].
  assert (Hw : starts_word (a :: b :: c :: d :: rest)).
  { split; [done|]. rewrite Hchars. revert Ha. clear. byte_cases a; now intros _. }
  unfold parse_date_time. rewrite cfws_word by done. cbn [parse_bind ok].
  unfold parse_weekday_part. rewrite Hchars, Ha. unfold parse_day_of_week. cbn [length Nat.ltb Nat.leb].
  unfold split_at, is_char_boundary. cbn [lookup list_lookup]. rewrite Hd. now rewrite andb_false_r.
Qed.

(** ** Properties *)

(** Comments and folding white space: on every string the parser returns, without a panic; what it
    skips is a sequence of comments, nested as deep as they may be, and of folding white space, and
    is not empty unless it may be. *)
Theorem skipped_text_spec (value : bytes) (optional : bool) :
  is_str value ->
  match parse_comment_and_folding_whitespace value optional with
  | Return (Ok (skipped, rest)) =>
      value = skipped ++ rest /\ is_str rest /\ CFWS skipped /\ (optional = false -> skipped <> [])
  | Return (Err _) => True
  | Panic => False
  end.
Proof.
  intros Hv. pose proof (parse_cfws_splits value optional Hv) as Hs.
  now destruct (parse_comment_and_folding_whitespace value optional) as [[[a b]|]|].
Qed.

(** C29: A date in the format [%a, %e %b %Y %H:%M:%S %z], with as many digits as that has and any text
    behind it. Of that text only the comments and the white space at its start are read, and if they are
    malformed the date is refused; a text that starts with something else is not looked at. The date
    is also refused if there is no such point in time, and if its day of the week is not that of
    the point in UTC, which may be another day than at the offset. Otherwise the result is the point in time
    of these fields at this offset. *)
Theorem written_date_spec `{ChronoOps} weekday year month day hour minute second offset junk :
  (year < 10000)%N -> (1 <= month <= 12)%N -> (day < 100)%N ->
  (hour < 100)%N -> (minute < 100)%N -> (second < 100)%N -> (Z.abs offset < 10000)%Z ->
  is_str junk ->
  let point :=
    date_time_at (Z.quot offset 100 * 3600 + Z.rem offset 100 * 60) (Z.of_N year) month day hour minute second in
  let result := parse_date_time (date_time_text weekday year month day hour minute second offset ++ junk) in
  match parse_comment_and_folding_whitespace junk true with
  | Return (Ok _) =>
      match point with
      | Some d => result = if bool_decide (weekday = weekday_utc d) then ok d else fail
      | None => result = fail
      end
  | Return (Err _) => result = fail
  | Panic => False
  end
  /\ (starts_word junk -> parse_comment_and_folding_whitespace junk true = ok ([], junk)).
Proof.
  intros Hy Hmo Hd Hh Hmi Hse Ho Hj. cbn zeta. split; [|exact (cfws_word junk)].
  rewrite parse_date_time_rest by done. pose proof (parse_cfws_splits junk true Hj) as Hs.
  destruct (parse_comment_and_folding_whitespace junk true) as [[skipped|[]]|]; [|done..].
  cbn [parse_bind]. unfold checked_date_time. now destruct (date_time_at _ _ _ _ _ _ _).
Qed.

Lemma letters_ascii name :
  Forall (fun b => is_ascii_uppercase b || is_ascii_lowercase b = true) name -> ascii name.
Proof. intros Hn. apply (Forall_impl _ _ _ Hn). intros b. byte_cases b. Qed.

Lemma chars_app name rest : ascii name -> is_str rest -> chars (name ++ rest) = (Byte.to_N <$> name) ++ chars rest.
Proof.
  intros Hn Hr. induction Hn as [|b name Hb Hn IH]; [done|]. cbn [app fmap list_fmap].
  now rewrite chars_cons, IH by auto with rtsp.
Qed.

(** The letters at the start, at most three of them. *)
Lemma take_while_letters name rest :
  Forall (fun b => is_ascii_uppercase b || is_ascii_lowercase b = true) name ->
  length name <= 3 -> is_str rest ->
  (length name = 3 \/ match chars rest with c :: _ => is_alphabetic_char c = false | [] => True end) ->
  byte_of_N <$> take_while is_alphabetic_char (take 3 (chars (name ++ rest))) = name.
Proof.
  intros Hname Hlen Hrest Hnext. rewrite chars_app by (done || now apply letters_ascii).
  rewrite take_app, length_fmap, take_ge by (rewrite length_fmap; lia).
  assert (Htail : take_while is_alphabetic_char (take (3 - length name) (chars rest)) = []).
  { destruct Hnext as [->|Hnext]; [done|]. destruct (chars rest) as [|c cs]; [now rewrite take_nil|].
    destruct (3 - length name); [done|]. cbn. now rewrite Hnext. }
  clear Hlen Hnext. revert Htail. generalize (take (3 - length name) (chars rest)). intros l Htail.
  induction Hname as [|b name Hb _ IH]; cbn [app fmap list_fmap]; [cbn; now rewrite Htail|].
  cbn [take_while]. assert (Hl : is_alphabetic_char (Byte.to_N b) = true).
  { unfold is_alphabetic_char. rewrite byte_of_N_to_N, Hb, andb_true_r. revert Hb. clear. byte_cases b. }
  rewrite Hl. cbn [fmap list_fmap]. rewrite byte_of_N_to_N. f_equal. apply IH.
Qed.

(** The names of the zones, without regard to case: nothing else in letters is read. *)
Theorem zone_names_spec (name rest : bytes) :
  Forall (fun b => is_ascii_uppercase b || is_ascii_lowercase b = true) name ->
  length name <= 3 -> is_str rest ->
  (length name = 3 \/ match chars rest with c :: _ => is_alphabetic_char c = false | [] => True end) ->
  name <> [] ->
  parse_time_zone (name ++ rest)
  = try! offset := zone_offset (to_ascii_lowercase <$> name) in ok (offset, rest).
Proof.
  intros Hname Hlen Hrest Hnext Hne. pose proof (letters_ascii name Hname) as Hascii.
  assert (Hsign : forall c, is_ascii_uppercase c || is_ascii_lowercase c = false ->
            starts_with [c] (name ++ rest) = false).
  { intros c Hc. destruct Hname as [|b name Hb _]; [done|]. cbn [app]. rewrite starts_with_1.
    apply bool_decide_eq_false. congruence. }
  unfold parse_time_zone.
  rewrite (Hsign "+"%byte eq_refl : starts_with (bs "+") (name ++ rest) = false).
  rewrite (Hsign "-"%byte eq_refl : starts_with (bs "-") (name ++ rest) = false). cbn [orb].
  rewrite take_while_letters by done. rewrite length_fmap.
  destruct (zone_offset _) as [[z|e]|]; [|done..]. cbn [parse_bind]. now rewrite skip_app.
Qed.

(** The day of the week and the month are cut off after three bytes: a character that lies across
    that boundary makes the parser panic. *)
Theorem parse_date_time_panics `{ChronoOps} a b c d rest :
  is_str (a :: b :: c :: d :: rest) -> is_alphabetic_char (Byte.to_N a) = true ->
  byte_in 128 191 d = true ->
  parse_date_time (a :: b :: c :: d :: rest) = Panic.
Proof. apply parse_date_time_splits_char. Qed.
