(* ===== verification/Date.v ===== *)
(** * The Date and Expires headers

    Model of [rtsp-2/src/header/types/date.rs] and [rtsp-2/src/header/types/expires.rs]. Decoding may
    panic, with the date parser, so the two headers have their own [decode] and [encode] instead of
    an instance of [TypedHeader]. *)

From Stdlib Require Import Strings.Byte.
From stdpp Require Import base list numbers strings.
From S2P Require Import Prelude Text Syntax HeaderValue DateParser.

Local Open Scope N_scope.
Local Open Scope rust_scope.

(** The format string of [encode]. *)
Definition DATE_FORMAT : bytes := bs "%a, %e %b %Y %H:%M:%S %z".

(** What the headers rely on of [chrono]: the text of a date of whole seconds in the years 0 to
    9999 is that of its fields, and these fields are those of the date. *)
Class ChronoLaws `{ChronoOps} (representable : DateTime -> Prop) : Prop := {
  format_fields dt : representable dt ->
    exists year month day hour minute second,
      (year < 10000 /\ 1 <= month <= 12 /\ day < 100 /\ hour < 100 /\ minute < 100 /\ second < 100)
      /\ format_utc DATE_FORMAT dt
         = date_time_text (weekday_utc dt) year month day hour minute second 0
      /\ date_time_at 0 (Z.of_N year) month day hour minute second = Some dt;
}.

Section Date.
Context `{ChronoOps}.

Record Date := mkDate { date : DateTime }.

Inductive DateError := InvalidDateTime | MoreThanOneHeader.

Definition from_date_time_error (_ : DateTimeError) : DateError := InvalidDateTime.

(** [Date::new], and the default: the current time is an argument. *)
Definition date_new (now : DateTime) : Date := mkDate now.

Definition decode (values : list HeaderValue) : Outcome (Result (option Date) DateError) :=
  match values with
  | [] => Return (Ok None)
  | value :: rest =>
      match rest with
      | _ :: _ => Return (Err MoreThanOneHeader)
      | [] =>
          let! date_time := parse_date_time (as_str value) in
          Return (result_map (fun d => Some (mkDate d)) (result_map_err from_date_time_error date_time))
      end
  end.

Definition encode (self : Date) : list HeaderValue :=
  [mkHeaderValue (format_utc DATE_FORMAT (date self))].

Record Expires := mkExpires { expires : DateTime }.

Inductive ExpiresError := ExpiresInvalidDateTime | ExpiresMoreThanOneHeader.

Definition expires_from_date_time_error (_ : DateTimeError) : ExpiresError := ExpiresInvalidDateTime.

Definition expires_decode (values : list HeaderValue) :
    Outcome (Result (option Expires) ExpiresError) :=
  match values with
  | [] => Return (Ok None)
  | value :: rest =>
      match rest with
      | _ :: _ => Return (Err ExpiresMoreThanOneHeader)
      | [] =>
          let! date_time := parse_date_time (as_str value) in
          Return (result_map (fun d => Some (mkExpires d))
                    (result_map_err expires_from_date_time_error date_time))
      end
  end.

Definition expires_encode (self : Expires) : list HeaderValue :=
  [mkHeaderValue (format_utc DATE_FORMAT (expires self))].
End Date.
Arguments Date {_}.
Arguments Expires {_}.

(** ** What decoding does *)

Lemma decode_one `{ChronoOps} v :
  decode [v] = match parse_date_time (as_str v) with
               | Return (Ok d) => Return (Ok (Some (mkDate d)))
               | Return (Err _) => Return (Err InvalidDateTime)
               | Panic => Panic
               end.
Proof. unfold decode. now destruct (parse_date_time (as_str v)) as [[d|e]|]. Qed.

Lemma expires_decode_one `{ChronoOps} v :
  expires_decode [v] = match parse_date_time (as_str v) with
                       | Return (Ok d) => Return (Ok (Some (mkExpires d)))
                       | Return (Err _) => Return (Err ExpiresInvalidDateTime)
                       | Panic => Panic
                       end.
Proof. unfold expires_decode. now destruct (parse_date_time (as_str v)) as [[d|e]|]. Qed.

Lemma starts_word_nil : starts_word [].
Proof. split; [apply str_nil|exact I]. Qed.

Definition printable (s : bytes) : Prop := Forall (fun b => 32 <= Byte.to_N b <= 126) s.

Lemma digit_printable d : d < 10 -> 32 <= Byte.to_N (digit d) <= 126.
Proof. intros Hd. rewrite digit_lt by done. lia. Qed.

Lemma two_printable n : n < 100 -> printable (two n).
Proof. intros (H1 & H2 & _)%two_digits. constructor; [|constructor; [|constructor]]; now apply digit_printable. Qed.

Lemma four_printable n : n < 10000 -> printable (four n).
Proof. intros (H1 & H2 & _)%four_parts. apply Forall_app. now split; apply two_printable. Qed.

(** A written date is a header value. *)
Lemma date_time_text_printable weekday year month day hour minute second offset :
  year < 10000 -> 1 <= month <= 12 -> day < 100 ->
  hour < 100 -> minute < 100 -> second < 100 -> (Z.abs offset < 10000)%Z ->
  printable (date_time_text weekday year month day hour minute second offset).
Proof.
  intros Hy Hmo Hd Hh Hmi Hs Ho.
  assert (Hname : forall s, forallb (fun b => (32 <=? Byte.to_N b) && (Byte.to_N b <=? 126)) s = true -> printable s).
  { intros s Hs'. apply Forall_forall. intros b Hb%list_elem_of_In.
    rewrite forallb_forall in Hs'. apply Hs' in Hb as [?%N.leb_le ?%N.leb_le]%andb_prop. lia. }
  unfold printable, date_time_text, zone_text. rewrite !Forall_app. repeat split; try (now apply two_printable); try (now apply Hname);
    try (apply four_printable; lia).
  - apply Hname. now destruct weekday.
  - destruct (N.ltb_spec day 10); [|now apply two_printable].
    constructor; [cbn; lia|]. constructor; [now apply digit_printable|constructor].
  - apply (month_cases month (fun month => printable (month_name month))); [|done].
    intros i Hi. apply Hname. do 12 (destruct i as [|i]; [reflexivity|]). lia.
  - apply Hname. now destruct (offset <? 0)%Z.
Qed.

Section Laws.
Context `{HC : ChronoOps} (representable : DateTime -> Prop) `{!ChronoLaws representable}.

Lemma representable_text (dt : DateTime) (junk : bytes) :
  representable dt -> starts_word junk ->
  parse_date_time (format_utc DATE_FORMAT dt ++ junk) = ok dt
  /\ printable (format_utc DATE_FORMAT dt).
Proof.
  intros (y & mo & d & h & mi & s & (Hy & Hmo & Hd & Hh & Hmi & Hs) & -> & Ht)%format_fields Hj.
  split; [|now apply date_time_text_printable].
  rewrite parse_date_time_text by done. change (Z.quot 0 100 * 3600 + Z.rem 0 100 * 60)%Z with 0%Z.
  rewrite Ht. cbn. now rewrite bool_decide_eq_true_2.
Qed.

(** C30: Both headers write the same text, which is a header value, and read it back. *)
Theorem date_roundtrip (dt : DateTime) :
  representable dt ->
  (exists v, encode (mkDate dt) = [v] /\ expires_encode (mkExpires dt) = [v]
     /\ HeaderValue.try_from (as_str v) = Ok v)
  /\ decode (encode (mkDate dt)) = Return (Ok (Some (mkDate dt)))
  /\ expires_decode (expires_encode (mkExpires dt)) = Return (Ok (Some (mkExpires dt))).
Proof.
  intros Hr. destruct (representable_text dt [] Hr starts_word_nil) as [Hp Hv]. rewrite app_nil_r in Hp.
  split; [eexists; repeat split; now apply printable_value|].
  unfold encode, expires_encode. rewrite decode_one, expires_decode_one. cbn [as_str date expires].
  now rewrite Hp.
Qed.

(** A date that is followed by anything but a blank or a comment is read as if nothing followed. *)
Theorem date_trailing_text (dt : DateTime) (junk : bytes) :
  representable dt -> starts_word junk ->
  decode [mkHeaderValue (format_utc DATE_FORMAT dt ++ junk)] = Return (Ok (Some (mkDate dt))).
Proof.
  intros Hr Hj. rewrite decode_one. cbn [as_str]. now rewrite (proj1 (representable_text dt junk Hr Hj)).
Qed.
End Laws.

(** A value that is valid as the value of a header can make decoding it panic. *)
Theorem date_decode_panics `{ChronoOps} rest v :
  HeaderValue.try_from (bs "Mo" ++ [xc3; xa9] ++ rest) = Ok v ->
  decode [v] = Panic /\ expires_decode [v] = Panic.
Proof.
  intros (-> & cs & Hcs & _)%try_from_Some. rewrite decode_one, expires_decode_one. cbn [as_str].
  assert (Hp : parse_date_time (bs "Mo" ++ [xc3; xa9] ++ rest) = Panic); [|now rewrite Hp].
  now apply parse_date_time_splits_char; [exists cs|..].
Qed.

(** The day of the week is compared with the date in UTC: a date that is written at an offset where
    the day is another one is refused, when its day of the week is right. *)
Theorem date_local_weekday `{ChronoOps} weekday year month day hour minute second offset dt :
  year < 10000 -> 1 <= month <= 12 -> day < 100 ->
  hour < 100 -> minute < 100 -> second < 100 -> (Z.abs offset < 10000)%Z ->
  date_time_at (Z.quot offset 100 * 3600 + Z.rem offset 100 * 60)
    (Z.of_N year) month day hour minute second = Some dt ->
  weekday_utc dt <> weekday ->
  decode [mkHeaderValue (date_time_text weekday year month day hour minute second offset)]
  = Return (Err InvalidDateTime).
Proof.
  intros. rewrite decode_one. cbn [as_str]. rewrite <- (app_nil_r (date_time_text _ _ _ _ _ _ _ _)).
  rewrite parse_date_time_text by (done || apply starts_word_nil).
  match goal with Hd : date_time_at _ _ _ _ _ _ _ = Some dt |- _ => rewrite Hd end.
  cbn. now rewrite bool_decide_eq_false_2 by congruence.
Qed.

(** ** Instances

    The proleptic Gregorian calendar in whole seconds since 1970, for concrete runs. *)
Module Calendar.
Local Open Scope Z_scope.

Definition leap (y : Z) : bool := (y mod 4 =? 0) && (negb (y mod 100 =? 0) || (y mod 400 =? 0)).

Definition month_days (y : Z) (m : N) : N :=
  match m with
  | 2%N => if leap y then 29 else 28
  | 4%N | 6%N | 9%N | 11%N => 30
  | _ => 31
  end.

(** The number of a day, the year starting in March. *)
Definition days_from_civil (y : Z) (m d : N) : Z :=
  let m := Z.of_N m in
  let y := if m <=? 2 then y - 1 else y in
  let m := if m <=? 2 then m + 9 else m - 3 in
  365 * y + y / 4 - y / 100 + y / 400 + (153 * m + 2) / 5 + Z.of_N d - 1 - 719468.

Definition civil_from_days (days : Z) : Z * N * N :=
  let z := days + 719468 in
  let era := z / 146097 in
  let doe := z mod 146097 in
  let yoe := (doe - doe / 1460 + doe / 36524 - doe / 146096) / 365 in
  let doy := doe - (365 * yoe + yoe / 4 - yoe / 100) in
  let mp := (5 * doy + 2) / 153 in
  let d := doy - (153 * mp + 2) / 5 + 1 in
  let m := if mp <? 10 then mp + 3 else mp - 9 in
  (yoe + era * 400 + (if m <=? 2 then 1 else 0), Z.to_N m, Z.to_N d).

Definition at_offset (offset y : Z) (m d h mi s : N) : option Z :=
  if (-86400 <? offset) && (offset <? 86400)
     && ((1 <=? m) && (m <=? 12) && (1 <=? d) && (d <=? month_days y m)
         && (h <? 24) && (mi <? 60) && (s <? 60))%N
  then Some (days_from_civil y m d * 86400 + Z.of_N (h * 3600 + mi * 60 + s) - offset)
  else None.

Definition weekday (t : Z) : Weekday :=
  nth (Z.to_nat ((t / 86400) mod 7)) [Thu; Fri; Sat; Sun; Mon; Tue; Wed] Thu.

(** The fields of a point in time. *)
Definition fields (t : Z) : Z * N * N * (N * N * N) :=
  let secs := Z.to_N (t mod 86400) in
  (civil_from_days (t / 86400), (secs / 3600, secs / 60 mod 60, secs mod 60)%N).

Definition format (fmt : bytes) (t : Z) : bytes :=
  if bool_decide (fmt = DATE_FORMAT) then
    let '(y, m, d, (h, mi, s)) := fields t in
    date_time_text (weekday t) (Z.to_N y) m d h mi s 0
  else [].

(** The dates whose fields are in range and determine them. *)
Definition in_range (t : Z) : bool :=
  let '(y, m, d, (h, mi, s)) := fields t in
  (0 <=? y) && (y <? 10000) && ((1 <=? m) && (m <=? 12) && (d <? 100) && (h <? 100) && (mi <? 100) && (s <? 100))%N
  && bool_decide (at_offset 0 y m d h mi s = Some t).

Definition chrono : ChronoOps := {|
  DateTime := Z;
  date_time_at := at_offset;
  weekday_utc := weekday;
  format_utc := format;
|}.

Lemma chrono_laws : ChronoLaws (H := chrono) (fun t => in_range t = true).
Proof.
  split. intros t. unfold in_range. cbn [weekday_utc format_utc date_time_at chrono].
  unfold format. rewrite (bool_decide_eq_true_2 (DATE_FORMAT = DATE_FORMAT)) by done.
  destruct (fields t) as [[[y m] d] [[h mi] s]]. rewrite !andb_true_iff, bool_decide_eq_true.
  rewrite !Z.leb_le, !Z.ltb_lt, !N.leb_le, !N.ltb_lt. intros [[[Hy Hy'] Hr] Ht].
  exists (Z.to_N y), m, d, h, mi, s. rewrite Z2N.id by done. repeat split; tauto || lia.
Qed.
End Calendar.

(** Thu, 10 Jul 2014 09:10:11 +0000, the example of the documentation. *)
Definition sample_time : Z := 1404983411.

Example date_ex :
  encode (H := Calendar.chrono) (mkDate (H := Calendar.chrono) sample_time)
  = [mkHeaderValue (bs "Thu, 10 Jul 2014 09:10:11 +0000")]
  /\ decode (H := Calendar.chrono) [mkHeaderValue (bs "Mon, 1 Jan 2018 08:00:00 +0000")]
     = Return (Ok (Some (mkDate (H := Calendar.chrono) 1514793600%Z)))
  /\ decode (H := Calendar.chrono) [mkHeaderValue (bs "1 Jan 2018 08:00 EDT")]
     = Return (Ok (Some (mkDate (H := Calendar.chrono) 1514808000%Z)))
  /\ decode (H := Calendar.chrono) [mkHeaderValue (bs "29 Feb 2018 08:00 EDT")] = Return (Err InvalidDateTime).
Proof. repeat split; reflexivity. Qed.

Lemma date_roundtrip_witness :
  decode (H := Calendar.chrono) (encode (mkDate (H := Calendar.chrono) sample_time))
  = Return (Ok (Some (mkDate (H := Calendar.chrono) sample_time))).
Proof.
  exact (proj1 (proj2 (@date_roundtrip Calendar.chrono _ Calendar.chrono_laws sample_time eq_refl))).
Defined.

Lemma date_trailing_text_witness :
  decode (H := Calendar.chrono) [mkHeaderValue (bs "Thu, 10 Jul 2014 09:10:11 +0000, or so")]
  = Return (Ok (Some (mkDate (H := Calendar.chrono) sample_time))).
Proof.
  assert (Hj : starts_word (bs ", or so")) by (apply starts_word_cons; [reflexivity|now eexists]).
  exact (@date_trailing_text Calendar.chrono _ Calendar.chrono_laws sample_time _ eq_refl Hj).
Defined.

Lemma date_decode_panics_witness :
  decode (H := Calendar.chrono) [mkHeaderValue (bs "Mo" ++ [xc3; xa9] ++ bs ", 10 Jul 2014")] = Panic.
Proof.
  exact (proj1 (date_decode_panics (H := Calendar.chrono) (bs ", 10 Jul 2014")
                  (mkHeaderValue (bs "Mo" ++ [xc3; xa9] ++ bs ", 10 Jul 2014")) eq_refl)).
Defined.

(** Half past midnight on Monday, 1 January 2018, in Central Europe. *)
Lemma date_local_weekday_witness :
  decode (H := Calendar.chrono) [mkHeaderValue (bs "Mon,  1 Jan 2018 00:30:00 +0100")]
  = Return (Err InvalidDateTime).
Proof.
  now apply (date_local_weekday (H := Calendar.chrono) Mon 2018 1 1 0 30 0 100 1514763000%Z).
Defined.

Lemma parse_date_time_total_witness :
  exists r, parse_date_time (H := Calendar.chrono) (bs "1 Jan (") = Return r.
Proof. apply parse_date_time_total. repeat constructor. Defined.

(** A date in the west, with any text behind it, and with a comment that does not end. *)
Lemma written_date_spec_witness :
  parse_date_time (H := Calendar.chrono) (bs "Tue,  2 Jan 2018 00:30:00 -0100" ++ bs "!") = ok 1514856600%Z
  /\ parse_date_time (H := Calendar.chrono) (bs "Tue,  2 Jan 2018 00:30:00 -0100" ++ bs " (") = fail
  /\ parse_date_time (H := Calendar.chrono) (bs "Mon,  1 Jan 2018 00:30:00 +0100" ++ []) = fail.
Proof.
  split; [|split].
  - apply (written_date_spec (H := Calendar.chrono) Tue 2018 1 2 0 30 0 (-100) (bs "!")); try done. now eexists.
  - apply (written_date_spec (H := Calendar.chrono) Tue 2018 1 2 0 30 0 (-100) (bs " (")); try done. now eexists.
  - apply (written_date_spec (H := Calendar.chrono) Mon 2018 1 1 0 30 0 100 []); try done. now eexists.
Defined.

Lemma skipped_text_spec_witness :
  bs "(a (b)) 1 Jan" = bs "(a (b)) " ++ bs "1 Jan" /\ is_str (bs "1 Jan") /\ CFWS (bs "(a (b)) ")
  /\ (false = false -> bs "(a (b)) " <> []).
Proof. exact (skipped_text_spec (bs "(a (b)) 1 Jan") false (ex_intro _ _ eq_refl)). Defined.

Lemma zone_names_spec_witness : parse_time_zone (bs "pStx") = ok ((-800)%Z, bs "x").
Proof.
  apply (zone_names_spec (bs "pSt") (bs "x")); [repeat constructor|cbn; lia|now eexists|now left|done].
Defined.

Lemma parse_date_time_panics_witness :
  parse_date_time (H := Calendar.chrono) (bs "Mo" ++ [xc3; xa9]) = Panic.
Proof. now apply (parse_date_time_panics (H := Calendar.chrono) "M"%byte "o"%byte xc3 xa9 []); [eexists|..]. Defined.
