(* ===== verification/Uri.v ===== *)
(** * Request URIs

    Model of [rtsp-2/src/uri/request.rs] and [rtsp-2/src/uri/mod.rs]: request URIs, which are an
    asterisk or an absolute URI with one of the schemes of RTSP and a host. Parsing, printing and
    normalising the components is done by the [uriparse] crate, behind [UriparseOps]. *)

From Stdlib Require Import Strings.Byte.
From stdpp Require Import base list numbers strings.
From S2P Require Import Prelude HeaderName HeaderValue HeaderMap Method Version Request.

Local Open Scope rust_scope.

(** ** The [uriparse] crate *)

Class UriparseOps := {
  Scheme : Type;
  scheme_eq_dec :: EqDecision Scheme;
  RTSP : Scheme;
  RTSPS : Scheme;
  RTSPU : Scheme;
  scheme_as_str : Scheme -> bytes;
  Host : Type;
  Username : Type;
  Password : Type;
  Authority : Type;
  authority_host : Authority -> Host;
  (** [Host::RegisteredName(name) if name.as_str().is_empty()]. *)
  is_empty_name : Host -> bool;
  authority_username : Authority -> option Username;
  authority_password : Authority -> option Password;
  authority_port : Authority -> option N;
  authority_set_port : option N -> Authority -> Authority;
  authority_normalize : Authority -> Authority;
  authority_is_normalized : Authority -> bool;
  authority_to_string : Authority -> bytes;
  (** [Authority::try_from(""),] [Path::try_from("")] and [Path::try_from("*")], of the statics. *)
  SENTINEL_AUTHORITY : Authority;
  Path : Type;
  SENTINEL_PATH : Path;
  ASTERISK_PATH : Path;
  path_segments : Path -> list bytes;
  (** [set_absolute(true)], [normalize(false)], [is_normalized(false)]. *)
  path_set_absolute : Path -> Path;
  path_normalize : Path -> Path;
  path_is_normalized : Path -> bool;
  path_to_string : Path -> bytes;
  Query : Type;
  query_normalize : Query -> Query;
  query_is_normalized : Query -> bool;
  query_as_str : Query -> bytes;
  Fragment : Type;
  AuthorityError : Type;
  FragmentError : Type;
  PathError : Type;
  QueryError : Type;
  SchemeError : Type;
  OtherError : Type;
}.

Section Reference.
Context `{UriparseOps}.

(** The components of a [URIReference], which its accessors give. *)
Record URIReference := mkURIReference {
  reference_scheme : option Scheme;
  reference_authority : option Authority;
  reference_path : Path;
  reference_query : option Query;
  reference_fragment : option Fragment;
}.

(** [URIReferenceError], with the kinds that the crate has besides the ones this code names. *)
Inductive URIReferenceError :=
  | RAuthority (error : AuthorityError)
  | RFragment (error : FragmentError)
  | RMissingPath
  | RPath (error : PathError)
  | RQuery (error : QueryError)
  | RScheme (error : SchemeError)
  | ROther (error : OtherError).

Class ReferenceOps := {
  reference_try_from : bytes -> Result URIReference URIReferenceError;
  reference_from_parts : option Scheme -> option Authority -> Path -> option Query -> option Fragment ->
    Result URIReference URIReferenceError;
}.
End Reference.
Arguments URIReference {_}.
Arguments URIReferenceError {_}.
Arguments ReferenceOps {_}.

(** ** Request URIs *)

Definition RTSP_DEFAULT_PORT : N := 554.
Definition RTSPS_DEFAULT_PORT : N := 332.
Definition RTSPU_DEFAULT_PORT : N := 554.

Section URI.
Context `{UP : UriparseOps} `{!ReferenceOps}.

Record Components := mkComponents {
  c_scheme : Scheme;
  c_authority : Authority;
  c_path : Path;
  c_query : option Query;
}.

Record URI := mkURI { components : option Components }.

Inductive URIError :=
  | EAuthority (error : AuthorityError)
  | EmptyHost
  | FragmentNotAllowed
  | InvalidRelativeReference
  | MissingAuthority
  | MissingPath
  | MissingScheme
  | NonRTSPScheme
  | EPath (error : PathError)
  | EQuery (error : QueryError)
  | EScheme (error : SchemeError).

(** [TryFrom<URIReferenceError>]. *)
Definition from_reference_error (value : URIReferenceError) : option URIError :=
  match value with
  | RAuthority error => Some (EAuthority error)
  | RFragment _ => Some FragmentNotAllowed
  | RMissingPath => Some MissingPath
  | RPath error => Some (EPath error)
  | RQuery error => Some (EQuery error)
  | RScheme error => Some (EScheme error)
  | ROther _ => None
  end.

Definition is_rtsp_scheme (scheme : Scheme) : bool :=
  bool_decide (scheme = RTSP) || bool_decide (scheme = RTSPS) || bool_decide (scheme = RTSPU).

Definition has_empty_host (authority : Authority) : bool := is_empty_name (authority_host authority).

(** [TryFrom<URIReference>]; the [expect]s are of accessors that were tested before. *)
Definition from_reference (value : URIReference) : Outcome (Result URI URIError) :=
  if is_some (reference_fragment value) then Return (Err FragmentNotAllowed)
  else if is_some (reference_scheme value) && negb (is_some (reference_authority value))
  then Return (Err MissingAuthority)
  else if negb (is_some (reference_scheme value)) && is_some (reference_authority value)
  then Return (Err MissingScheme)
  else
    match reference_scheme value with
    | None =>
        let segments := path_segments (reference_path value) in
        if negb (length segments =? 1) || negb (bool_decide (head segments = Some (bs "*")))
           || is_some (reference_query value)
        then Return (Err InvalidRelativeReference)
        else Return (Ok (mkURI None))
    | Some scheme =>
        if negb (is_rtsp_scheme scheme) then Return (Err NonRTSPScheme)
        else
          match reference_authority value with
          | None => Panic
          | Some authority =>
              if has_empty_host authority then Return (Err EmptyHost)
              else
                Return (Ok (mkURI (Some (mkComponents scheme authority (reference_path value)
                                           (reference_query value)))))
          end
    end.

(** [map_err(|error| URIError::try_from(error).expect(..))?] and the conversion. *)
Definition from_reference_result (r : Result URIReference URIReferenceError) :
    Outcome (Result URI URIError) :=
  match r with
  | Ok reference => from_reference reference
  | Err error =>
      match from_reference_error error with
      | Some error => Return (Err error)
      | None => Panic
      end
  end.

(** [TryFrom<&[u8]>] and [TryFrom<&str>]. *)
Definition try_from (value : bytes) : Outcome (Result URI URIError) :=
  from_reference_result (reference_try_from value).

Definition asterisk : URI := mkURI None.

(** The accessors. *)
Definition authority (self : URI) : option Authority := c_authority <$> components self.
Definition scheme (self : URI) : option Scheme := c_scheme <$> components self.
Definition path (self : URI) : Path :=
  match components self with Some c => c_path c | None => ASTERISK_PATH end.
Definition query (self : URI) : option Query := components self ≫= c_query.
Definition host (self : URI) : option Host := (fun c => authority_host (c_authority c)) <$> components self.
Definition port (self : URI) : option N := components self ≫= fun c => authority_port (c_authority c).
Definition username (self : URI) : option Username :=
  components self ≫= fun c => authority_username (c_authority c).
Definition password (self : URI) : option Password :=
  components self ≫= fun c => authority_password (c_authority c).
Definition has_authority (self : URI) : bool := is_some (components self).
Definition has_host (self : URI) : bool := is_some (components self).
Definition has_port (self : URI) : bool := is_some (port self).
Definition has_username (self : URI) : bool := is_some (username self).
Definition has_password (self : URI) : bool := is_some (password self).
Definition has_query (self : URI) : bool := is_some (query self).
Definition is_asterisk (self : URI) : bool := negb (is_some (components self)).

Definition into_parts (self : URI) : option (Scheme * Authority * Path * option Query) :=
  (fun c => (c_scheme c, c_authority c, c_path c, c_query c)) <$> components self.

Definition default_port (self : URI) : Outcome (option N) :=
  match scheme self with
  | None => Return None
  | Some scheme =>
      if bool_decide (scheme = RTSP) then Return (Some RTSP_DEFAULT_PORT)
      else if bool_decide (scheme = RTSPS) then Return (Some RTSPS_DEFAULT_PORT)
      else if bool_decide (scheme = RTSPU) then Return (Some RTSPU_DEFAULT_PORT)
      else Panic
  end.

(** [port == default_port.expect(..)]. *)
Definition is_default_port (default : option N) (port : N) : Outcome bool :=
  match default with
  | Some default => Return (port =? default)%N
  | None => Panic
  end.

Definition is_normalized (self : URI) : Outcome bool :=
  match components self with
  | None => Return true
  | Some c =>
      let! default_is_used :=
        match authority_port (c_authority c) with
        | Some port =>
            let! default := default_port self in
            is_default_port default port
        | None => Return false
        end in
      Return (negb default_is_used
              && match c_query c with Some query => query_is_normalized query | None => true end
              && authority_is_normalized (c_authority c) && path_is_normalized (c_path c))
  end.

Definition normalize (self : URI) : Outcome URI :=
  let! default := default_port self in
  match components self with
  | None => Return self
  | Some c =>
      let authority := authority_normalize (c_authority c) in
      let path := path_normalize (c_path c) in
      let query := query_normalize <$> c_query c in
      let! default_is_used :=
        match authority_port authority with
        | Some port => is_default_port default port
        | None => Return false
        end in
      let authority := if default_is_used then authority_set_port None authority else authority in
      Return (mkURI (Some (mkComponents (c_scheme c) authority path query)))
  end.

(** The setters; on an asterisk they change nothing. *)
Definition set_authority (authority : Authority) (self : URI) : Result (option Authority) URIError * URI :=
  if has_empty_host authority then (Err EmptyHost, self)
  else
    let self :=
      match components self with
      | Some c => mkURI (Some (mkComponents (c_scheme c) authority (c_path c) (c_query c)))
      | None => self
      end in
    (Ok (c_authority <$> components self), self).

Definition set_path (path : Path) (self : URI) : URI :=
  match components self with
  | Some c => mkURI (Some (mkComponents (c_scheme c) (c_authority c) (path_set_absolute path) (c_query c)))
  | None => self
  end.

Definition set_query (query : option Query) (self : URI) : URI :=
  match components self with
  | Some c => mkURI (Some (mkComponents (c_scheme c) (c_authority c) (c_path c) query))
  | None => self
  end.

Definition set_scheme (scheme : Scheme) (self : URI) : Result (option Scheme) URIError * URI :=
  if negb (is_rtsp_scheme scheme) then (Err NonRTSPScheme, self)
  else
    let self :=
      match components self with
      | Some c => mkURI (Some (mkComponents scheme (c_authority c) (c_path c) (c_query c)))
      | None => self
      end in
    (Ok (c_scheme <$> components self), self).

(** The mappers, which put a sentinel in place of what they map; a mapped component that the setter
    refuses is a panic. *)
Definition map_authority (mapper : Authority -> Authority) (self : URI) : Outcome URI :=
  match components self with
  | Some c =>
      let mapped := mapper (c_authority c) in
      let self := mkURI (Some (mkComponents (c_scheme c) SENTINEL_AUTHORITY (c_path c) (c_query c))) in
      match set_authority mapped self with
      | (Ok _, self) => Return self
      | (Err _, _) => Panic
      end
  | None => Return self
  end.

Definition map_path (mapper : Path -> Path) (self : URI) : URI :=
  match components self with
  | Some c =>
      let mapped := mapper (c_path c) in
      let self := mkURI (Some (mkComponents (c_scheme c) (c_authority c) SENTINEL_PATH (c_query c))) in
      set_path mapped self
  | None => self
  end.

Definition map_query (mapper : option Query -> option Query) (self : URI) : URI :=
  match components self with
  | Some c =>
      let mapped := mapper (c_query c) in
      let self := mkURI (Some (mkComponents (c_scheme c) (c_authority c) (c_path c) None)) in
      set_query mapped self
  | None => self
  end.

Definition map_scheme (mapper : Scheme -> Scheme) (self : URI) : Outcome URI :=
  match components self with
  | Some c =>
      match set_scheme (mapper (c_scheme c)) self with
      | (Ok _, self) => Return self
      | (Err _, _) => Panic
      end
  | None => Return self
  end.

(** [Display]. *)
Definition to_string (self : URI) : bytes :=
  match components self with
  | Some c =>
      scheme_as_str (c_scheme c) ++ bs "://" ++ authority_to_string (c_authority c)
      ++ path_to_string (c_path c)
      ++ match c_query c with Some query => bs "?" ++ query_as_str query | None => [] end
  | None => bs "*"
  end.

(** [From<URI> for URIReference]. *)
Definition into_reference (self : URI) : Outcome URIReference :=
  match match components self with
        | Some c =>
            reference_from_parts (Some (c_scheme c)) (Some (c_authority c)) (c_path c) (c_query c) None
        | None => reference_from_parts None None ASTERISK_PATH None None
        end with
  | Ok reference => Return reference
  | Err _ => Panic
  end.

(** ** The builder *)

Record Builder := mkBuilder {
  b_authority : option Authority;
  b_path : option Path;
  b_query : option Query;
  b_scheme : option Scheme;
}.

Definition builder_new : Builder := mkBuilder None None None None.
Definition with_authority (a : Authority) (self : Builder) : Builder :=
  mkBuilder (Some a) (b_path self) (b_query self) (b_scheme self).
Definition with_path (p : Path) (self : Builder) : Builder :=
  mkBuilder (b_authority self) (Some p) (b_query self) (b_scheme self).
Definition with_query (q : option Query) (self : Builder) : Builder :=
  mkBuilder (b_authority self) (b_path self) q (b_scheme self).
Definition with_scheme (s : Scheme) (self : Builder) : Builder :=
  mkBuilder (b_authority self) (b_path self) (b_query self) (Some s).

Definition build (self : Builder) : Outcome (Result URI URIError) :=
  match b_scheme self with
  | None => Return (Err MissingScheme)
  | Some scheme =>
      match b_authority self with
      | None => Return (Err MissingAuthority)
      | Some authority =>
          match b_path self with
          | None => Return (Err MissingPath)
          | Some path =>
              from_reference_result
                (reference_from_parts (Some scheme) (Some authority) path (b_query self) None)
          end
      end
  end.

Definition from_parts (scheme : Scheme) (authority : Authority) (path : Path) (query : option Query) :
    Outcome (Result URI URIError) :=
  build (with_query query (with_path path (with_authority authority (with_scheme scheme builder_new)))).

Definition into_builder (self : URI) : option Builder :=
  match into_parts self with
  | None => None
  | Some (scheme, authority, path, query) =>
      Some (with_query query (with_path path (with_authority authority (with_scheme scheme builder_new))))
  end.
End URI.
Arguments Components {_}.
Arguments URI {_}.
Arguments URIError {_}.
Arguments Builder {_}.

(** ** What the crate promises *)

(** The text of an absolute URI with these components. *)
Definition components_text `{UriparseOps} (s : Scheme) (a : Authority) (p : Path) (q : option Query) : bytes :=
  scheme_as_str s ++ bs "://" ++ authority_to_string a ++ path_to_string p
  ++ match q with Some query => bs "?" ++ query_as_str query | None => [] end.

Definition absolute `{UriparseOps} (p : Path) : Prop := path_set_absolute p = p.

(** Normalising a component makes it normalised, leaves it alone if it is, and keeps what the code
    relies on; a reference with an authority has an absolute path; what is printed is read back, and
    nothing with a space is read. *)
Class UriparseLaws `{UP : UriparseOps} `{!ReferenceOps} : Prop := {
  set_absolute_absolute p : absolute (path_set_absolute p);
  normalize_absolute p : absolute p -> absolute (path_normalize p);
  path_normalize_normalized p : path_is_normalized (path_normalize p) = true;
  path_normalize_id p : path_is_normalized p = true -> path_normalize p = p;
  query_normalize_normalized q : query_is_normalized (query_normalize q) = true;
  query_normalize_id q : query_is_normalized q = true -> query_normalize q = q;
  authority_normalize_normalized a : authority_is_normalized (authority_normalize a) = true;
  authority_normalize_id a : authority_is_normalized a = true -> authority_normalize a = a;
  authority_normalize_port a : authority_port (authority_normalize a) = authority_port a;
  authority_normalize_host a : has_empty_host (authority_normalize a) = has_empty_host a;
  set_port_port a : authority_port (authority_set_port None a) = None;
  set_port_host a : authority_host (authority_set_port None a) = authority_host a;
  set_port_normalized a :
    authority_is_normalized (authority_set_port None a) = authority_is_normalized a;
  from_parts_path s a p q f r :
    reference_from_parts s (Some a) p q f = Ok r ->
    r = mkURIReference s (Some a) (path_set_absolute p) q f;
  from_parts_absolute s a p q :
    absolute p ->
    reference_from_parts (Some s) (Some a) p q None = Ok (mkURIReference (Some s) (Some a) p q None);
  from_parts_asterisk :
    reference_from_parts None None ASTERISK_PATH None None
    = Ok (mkURIReference None None ASTERISK_PATH None None);
  reference_absolute v r :
    reference_try_from v = Ok r -> is_Some (reference_authority r) -> absolute (reference_path r);
  reference_roundtrip s a p q :
    absolute p -> reference_try_from (components_text s a p q)
                  = Ok (mkURIReference (Some s) (Some a) p q None);
  reference_asterisk : reference_try_from (bs "*") = Ok (mkURIReference None None ASTERISK_PATH None None);
  asterisk_segments : path_segments ASTERISK_PATH = [bs "*"];
  reference_no_space v r : reference_try_from v = Ok r -> SP ∉ v;
}.

Section URISpec.
Context `{UL : UriparseLaws}.

(** ** The invariant *)

Definition components_wf (c : Components) : Prop :=
  is_rtsp_scheme (c_scheme c) = true /\ has_empty_host (c_authority c) = false /\ absolute (c_path c).

Definition uri_wf (u : URI) : Prop :=
  match components u with Some c => components_wf c | None => True end.

(** The URIs a program can make. *)
Inductive uri_made : URI -> Prop :=
  | made_asterisk : uri_made asterisk
  | made_try_from v u : try_from v = Return (Ok u) -> uri_made u
  | made_reference r u :
      (is_Some (reference_authority r) -> absolute (reference_path r)) ->
      from_reference r = Return (Ok u) -> uri_made u
  | made_build b u : build b = Return (Ok u) -> uri_made u
  | made_set_authority a u : uri_made u -> uri_made (snd (set_authority a u))
  | made_set_path p u : uri_made u -> uri_made (set_path p u)
  | made_set_query q u : uri_made u -> uri_made (set_query q u)
  | made_set_scheme s u : uri_made u -> uri_made (snd (set_scheme s u))
  | made_map_authority f u u' : uri_made u -> map_authority f u = Return u' -> uri_made u'
  | made_map_path f u : uri_made u -> uri_made (map_path f u)
  | made_map_query f u : uri_made u -> uri_made (map_query f u)
  | made_map_scheme f u u' : uri_made u -> map_scheme f u = Return u' -> uri_made u'
  | made_normalize u u' : uri_made u -> normalize u = Return u' -> uri_made u'.

Lemma from_reference_wf r u :
  (is_Some (reference_authority r) -> absolute (reference_path r)) ->
  from_reference r = Return (Ok u) -> uri_wf u.
Proof.
  intros Habs. unfold from_reference.
  destruct (is_some (reference_fragment r)); [done|].
  destruct (reference_scheme r) as [s|] eqn:Es, (reference_authority r) as [a|] eqn:Ea; cbn; try done.
  - destruct (is_rtsp_scheme s) eqn:Hs; [|done]. destruct (has_empty_host a) eqn:Hh; [done|].
    intros [= <-]. cbn. split; [done|]. split; [done|]. apply Habs. now eexists.
  - destruct (_ || _); [done|]. now intros [= <-].
Qed.

Lemma from_reference_result_wf r u :
  (forall ref, r = Ok ref -> is_Some (reference_authority ref) -> absolute (reference_path ref)) ->
  from_reference_result r = Return (Ok u) -> uri_wf u.
Proof.
  intros Hr. destruct r as [ref|e]; cbn; [now apply from_reference_wf, Hr|].
  now destruct (from_reference_error e).
Qed.

Lemma set_authority_wf a u : uri_wf u -> uri_wf (snd (set_authority a u)).
Proof.
  unfold set_authority. intros Hw. destruct (has_empty_host a) eqn:Ha; [done|].
  destruct u as [[c|]]; [|done]. cbn. now destruct Hw as (? & _ & ?).
Qed.

Lemma set_scheme_wf s u : uri_wf u -> uri_wf (snd (set_scheme s u)).
Proof.
  unfold set_scheme. intros Hw. destruct (is_rtsp_scheme s) eqn:Hs; [|done].
  destruct u as [[c|]]; [|done]. cbn. now destruct Hw as (_ & ? & ?).
Qed.

Lemma set_path_wf p u : uri_wf u -> uri_wf (set_path p u).
Proof.
  destruct u as [[c|]]; [|done]. intros (? & ? & _). repeat split; try done. apply set_absolute_absolute.
Qed.

(** The setters overwrite what the mappers leave in their place, so they do not see the sentinels. *)
Lemma map_authority_set f u u' :
  map_authority f u = Return u' ->
  exists a, u' = snd (set_authority a u).
Proof.
  destruct u as [[c|]]; cbn; unfold set_authority.
  - destruct (has_empty_host (f (c_authority c))) eqn:Ha; [done|]. cbn. intros [= <-].
    exists (f (c_authority c)). now rewrite Ha.
  - intros [= <-]. exists SENTINEL_AUTHORITY. now destruct (has_empty_host _).
Qed.

Lemma map_scheme_set f u u' : map_scheme f u = Return u' -> exists s, u' = snd (set_scheme s u).
Proof.
  destruct u as [[c|]]; cbn; unfold set_scheme.
  - destruct (is_rtsp_scheme (f (c_scheme c))) eqn:Hs; [|done]. cbn. intros [= <-].
    exists (f (c_scheme c)). now rewrite Hs.
  - intros [= <-]. exists RTSP. now destruct (is_rtsp_scheme _).
Qed.

Lemma default_port_ends u :
  uri_wf u -> exists d, default_port u = Return d /\ (d = None <-> components u = None).
Proof.
  unfold default_port, scheme. destruct u as [[c|]]; cbn; [|intros _; now exists None].
  intros (Hs & _). unfold is_rtsp_scheme in Hs.
  repeat case_bool_decide; try done; eexists; (split; [reflexivity|done]).
Qed.

(** What normalising does to the components. *)
Definition normal_authority (d : option N) (a : Authority) : Authority :=
  if match authority_port a, d with Some p, Some d => (p =? d)%N | _, _ => false end
  then authority_set_port None (authority_normalize a) else authority_normalize a.

Lemma normalize_ends u :
  uri_wf u ->
  exists d, default_port u = Return d /\
  normalize u
  = Return (mkURI ((fun c => mkComponents (c_scheme c) (normal_authority d (c_authority c))
                               (path_normalize (c_path c)) (query_normalize <$> c_query c))
                     <$> components u)).
Proof.
  intros Hw. destruct (default_port_ends u Hw) as (d & Hd & Hn). exists d. split; [done|].
  unfold normalize. rewrite Hd. cbn. destruct u as [[c|]]; [|done]. cbn in *.
  rewrite authority_normalize_port. unfold normal_authority, is_default_port.
  destruct d as [d|]; [|discriminate (proj1 Hn eq_refl)].
  now destruct (authority_port (c_authority c)).
Qed.

Lemma normal_authority_host d a : has_empty_host (normal_authority d a) = has_empty_host a.
Proof.
  unfold normal_authority. destruct (match authority_port a with Some _ => _ | None => _ end).
  - unfold has_empty_host. rewrite set_port_host. apply authority_normalize_host.
  - apply authority_normalize_host.
Qed.

Lemma normalize_wf u u' : uri_wf u -> normalize u = Return u' -> uri_wf u'.
Proof.
  intros Hw. destruct (normalize_ends u Hw) as (d & _ & ->). intros [= <-].
  destruct u as [[c|]]; [|done]. destruct Hw as (Hs & Hh & Hp). split; [done|].
  split; [exact (eq_trans (normal_authority_host _ _) Hh)|now apply normalize_absolute].
Qed.

Lemma uri_made_wf u : uri_made u -> uri_wf u.
Proof.
  induction 1 as [|v u Hv|r u Hr Hf|b u Hb|a u _ IH|p u _ IH|q u _ IH|s u _ IH
    |f u u' _ IH Hm|f u _ IH|f u _ IH|f u u' _ IH Hm|u u' _ IH Hn].
  - done.
  - apply (from_reference_result_wf _ _ (fun r => reference_absolute v r) Hv).
  - exact (from_reference_wf r u Hr Hf).
  - unfold build in Hb. destruct (b_scheme b) as [s|], (b_authority b) as [a|], (b_path b) as [p|]; try done.
    refine (from_reference_result_wf _ _ _ Hb). intros ref Href _.
    rewrite (from_parts_path _ _ _ _ _ _ Href). apply set_absolute_absolute.
  - now apply set_authority_wf.
  - now apply set_path_wf.
  - destruct u as [[c|]]; [exact IH|done].
  - now apply set_scheme_wf.
  - destruct (map_authority_set _ _ _ Hm) as [a ->]. now apply set_authority_wf.
  - destruct u as [[c|]]; [|done]. destruct IH as (? & ? & _). repeat split; try done. apply set_absolute_absolute.
  - destruct u as [[c|]]; [exact IH|done].
  - destruct (map_scheme_set _ _ _ Hm) as [s ->]. now apply set_scheme_wf.
  - exact (normalize_wf _ _ IH Hn).
Qed.

Lemma from_reference_made (c : Components) :
  components_wf c ->
  from_reference (mkURIReference (Some (c_scheme c)) (Some (c_authority c)) (c_path c) (c_query c) None)
  = Return (Ok (mkURI (Some c))).
Proof. intros (Hs & Hh & _). unfold from_reference. cbn. rewrite Hs, Hh. now destruct c. Qed.

Lemma from_reference_asterisk :
  from_reference (mkURIReference None None ASTERISK_PATH None None) = Return (Ok asterisk).
Proof. unfold from_reference. cbn. now rewrite asterisk_segments. Qed.

Lemma to_string_reference u :
  uri_wf u -> exists r, reference_try_from (to_string u) = Ok r /\ from_reference r = Return (Ok u).
Proof.
  destruct u as [[c|]]; intros Hw.
  - eexists. split; [apply reference_roundtrip, Hw|]. now apply from_reference_made.
  - eexists. split; [apply reference_asterisk|]. apply from_reference_asterisk.
Qed.

Lemma normal_authority_port d a :
  match authority_port (normal_authority (Some d) a) with Some p => (p =? d)%N | None => false end = false.
Proof.
  unfold normal_authority. destruct (authority_port a) as [p|] eqn:Ep.
  - destruct (p =? d)%N eqn:E'; [now rewrite set_port_port|]. now rewrite authority_normalize_port, Ep.
  - now rewrite authority_normalize_port, Ep.
Qed.

Lemma normal_authority_normalized d a : authority_is_normalized (normal_authority d a) = true.
Proof.
  unfold normal_authority. destruct (match authority_port a with Some _ => _ | None => _ end);
    rewrite ?set_port_normalized; apply authority_normalize_normalized.
Qed.

Lemma is_normalized_ends u :
  uri_wf u ->
  exists d, default_port u = Return d /\
  is_normalized u
  = Return match components u with
           | None => true
           | Some c =>
               negb match authority_port (c_authority c), d with Some p, Some d => (p =? d)%N | _, _ => false end
               && match c_query c with Some query => query_is_normalized query | None => true end
               && authority_is_normalized (c_authority c) && path_is_normalized (c_path c)
           end.
Proof.
  intros Hw. destruct (default_port_ends u Hw) as (d & Hd & Hn). exists d. split; [done|].
  unfold is_normalized. destruct u as [[c|]]; [|done]. cbn [components] in *. rewrite Hd.
  destruct d as [d|]; [|discriminate (proj1 Hn eq_refl)].
  now destruct (authority_port (c_authority c)).
Qed.

(** Normalising leaves a normalised URI alone. *)
Lemma normalized_fixed u : uri_wf u -> is_normalized u = Return true -> normalize u = Return u.
Proof.
  intros Hw. destruct (is_normalized_ends u Hw) as (d & Hd & ->).
  destruct (normalize_ends u Hw) as (d' & Hd' & ->). rewrite Hd in Hd'. injection Hd' as <-.
  destruct u as [[c|]]; [|done]. cbn. intros [= Hc]. rewrite !andb_true_iff, negb_true_iff in Hc.
  destruct Hc as [[[Hp Hq] Ha] Hpath]. do 3 f_equal. destruct c as [s a p q]; cbn in *.
  unfold normal_authority. rewrite Hp, authority_normalize_id, path_normalize_id by done.
  destruct q as [q|]; cbn; [now rewrite query_normalize_id|done].
Qed.

Lemma normalize_normalized u :
  uri_wf u ->
  exists u', normalize u = Return u' /\ uri_wf u' /\ is_normalized u' = Return true /\ scheme u' = scheme u.
Proof.
  intros Hw. destruct (normalize_ends u Hw) as (d & Hd & Hu). eexists. split; [exact Hu|].
  set (u' := mkURI _) in *. assert (Hw' : uri_wf u') by exact (normalize_wf _ _ Hw Hu).
  assert (Hs : scheme u' = scheme u) by (unfold scheme, u'; now destruct (components u)).
  split; [done|]. split; [|done].
  destruct (is_normalized_ends u' Hw') as (d' & Hd' & ->). f_equal.
  assert (Hdd : Return d' = Return d) by (rewrite <- Hd, <- Hd'; unfold default_port; now rewrite Hs).
  injection Hdd as ->. destruct (default_port_ends u Hw) as (d' & Hd'' & Hnone).
  rewrite Hd in Hd''. injection Hd'' as <-.
  unfold u'. destruct u as [[c|]]; [|done]. destruct d as [d|]; [|discriminate (proj1 Hnone eq_refl)].
  cbn [components fmap option_fmap option_map c_authority c_query c_path].
  pose proof (normal_authority_port d (c_authority c)) as Hp.
  rewrite normal_authority_normalized, path_normalize_normalized.
  destruct (authority_port (normal_authority _ _)); rewrite ?Hp; cbn;
    (destruct (c_query c); cbn; [now rewrite query_normalize_normalized|done]).
Qed.

(** The URI that a reference is: without a fragment, a lone asterisk segment, or an absolute URI
    with one of the schemes of RTSP and a host that is not empty. *)
Definition accepted (r : URIReference) (u : URI) : Prop :=
  reference_fragment r = None
  /\ ((reference_scheme r = None /\ reference_authority r = None /\ reference_query r = None
        /\ path_segments (reference_path r) = [bs "*"] /\ u = asterisk)
      \/ exists s a, reference_scheme r = Some s /\ reference_authority r = Some a
           /\ is_rtsp_scheme s = true /\ has_empty_host a = false
           /\ u = mkURI (Some (mkComponents s a (reference_path r) (reference_query r)))).

Ltac refused :=
  let u := fresh "u" in let Hf := fresh "Hf" in let H1' := fresh "Hs" in let H2' := fresh "Ha" in
  let H3' := fresh "Hq" in let H4' := fresh "Hp" in
  intros u [Hf [(H1' & H2' & H3' & H4' & _)|(? & ? & H1' & H2' & H3' & H4' & _)]];
  cbn in Hf, H1', H2', H3', H4'; congruence.

(** ** Properties *)

(** C22: Every URI that can be made is an asterisk or has one of the three schemes, a host that is not
    empty, and an absolute path; the default port, which panics on other schemes, is always there. *)
Theorem uri_invariant u :
  uri_made u ->
  uri_wf u
  /\ (exists d, default_port u = Return d /\ (d = None <-> is_asterisk u = true))
  /\ (forall a, authority u = Some a -> has_empty_host a = false)
  /\ (forall s, scheme u = Some s -> s = RTSP \/ s = RTSPS \/ s = RTSPU).
Proof.
  intros Hw%uri_made_wf. split; [done|]. split; [|split].
  - destruct (default_port_ends u Hw) as (d & Hd & Hn). exists d. split; [done|]. rewrite Hn.
    unfold is_asterisk. now destruct (components u).
  - destruct u as [[c|]]; [|done]. destruct Hw as (_ & Hh & _). now intros a [= <-].
  - destruct u as [[c|]]; [|done]. destruct Hw as (Hs & _). intros s [= <-]. revert Hs.
    unfold is_rtsp_scheme. repeat case_bool_decide; cbn; auto; discriminate.
Qed.

(** C23: Every URI that can be made is read back from its text, which has no space, from the reference it
    is turned into, and from its builder. *)
Theorem uri_roundtrip u :
  uri_made u ->
  try_from (to_string u) = Return (Ok u)
  /\ SP ∉ to_string u
  /\ (exists r, into_reference u = Return r /\ from_reference r = Return (Ok u))
  /\ match into_builder u with Some b => build b = Return (Ok u) | None => u = asterisk end.
Proof.
  intros Hw%uri_made_wf. destruct (to_string_reference u Hw) as (r & Hr & Hu).
  split; [unfold try_from; now rewrite Hr|]. split; [exact (reference_no_space _ _ Hr)|].
  destruct u as [[c|]]; cbn.
  - unfold into_reference, build. cbn. rewrite from_parts_absolute by apply Hw.
    split; [eexists; split; [reflexivity|]|]; now apply from_reference_made.
  - unfold into_reference. cbn. rewrite from_parts_asterisk. split; [|done].
    eexists. split; [reflexivity|]. apply from_reference_asterisk.
Qed.

(** C27: Normalising never panics and gives a normalised URI of the same kind; it changes nothing exactly
    when the URI was normalised already, so that doing it twice is doing it once. *)
Theorem uri_normalize_spec u :
  uri_made u ->
  exists u', normalize u = Return u' /\ uri_wf u' /\ is_normalized u' = Return true
    /\ normalize u' = Return u' /\ scheme u' = scheme u
    /\ (is_normalized u = Return true <-> u' = u).
Proof.
  intros Hw%uri_made_wf. destruct (normalize_normalized u Hw) as (u' & Hu & Hw' & Hn & Hs).
  exists u'. split; [done|]. split; [done|]. split; [done|]. split; [now apply normalized_fixed|].
  split; [done|]. split; [|congruence].
  intros Hnu. pose proof (normalized_fixed u Hw Hnu) as Hsu. congruence.
Qed.

(** Parsing: it panics exactly on the errors of the other crate that this one does not know; it
    accepts a text exactly when its reference has no fragment and is either a lone asterisk segment,
    or has one of the schemes of RTSP and a host that is not empty. *)
Theorem uri_try_from_spec value :
  (try_from value = Panic <-> exists e, reference_try_from value = Err (ROther e))
  /\ forall u, try_from value = Return (Ok u) <->
       exists r, reference_try_from value = Ok r /\ accepted r u.
Proof.
  unfold try_from. destruct (reference_try_from value) as [r|e] eqn:Er; cbn [from_reference_result].
  2: { split; [destruct e; cbn; split; naive_solver|]. intros u. split.
       - now destruct (from_reference_error e).
       - now intros (r & ? & _). }
  assert (Hseg : forall l : list bytes,
            negb (length l =? 1)%nat || negb (bool_decide (head l = Some (bs "*"))) = false
            <-> l = [bs "*"]).
  { intros l. rewrite orb_false_iff, !negb_false_iff, Nat.eqb_eq, bool_decide_eq_true.
    destruct l as [|x [|y l]]; cbn; naive_solver. }
  assert (Hrefused : forall e : URIError,
            (forall u, ~ accepted r u) ->
            (Return (@Err URI _ e) = Panic <-> exists e, Ok r = Err (ROther e))
            /\ (forall u, Return (Err e) = Return (Ok u) <->
                  exists r', @Ok _ URIReferenceError r = Ok r' /\ accepted r' u)).
  { intros e Hr. split; [split; [done|now intros [? ?]]|]. intros u. split; [done|].
    intros (r' & [= <-] & Ha). now destruct (Hr u). }
  assert (Haccepted : forall u0 : URI,
            (forall u, accepted r u <-> u = u0) ->
            (Return (@Ok _ URIError u0) = Panic <-> exists e, Ok r = Err (ROther e))
            /\ (forall u, Return (@Ok _ URIError u0) = Return (Ok u) <->
                  exists r', @Ok _ URIReferenceError r = Ok r' /\ accepted r' u)).
  { intros u0 Hr. split; [split; [done|now intros [? ?]]|]. intros u. split.
    - intros [= <-]. exists r. split; [done|]. now apply Hr.
    - intros (r' & [= <-] & ->%Hr). done. }
  unfold from_reference. destruct r as [s a p q f]. cbn [reference_scheme reference_authority
    reference_path reference_query reference_fragment] in *.
  destruct f as [f|]; [apply Hrefused; refused|].
  destruct s as [s|], a as [a|]; cbn [is_some andb negb].
  - destruct (is_rtsp_scheme s) eqn:Hs; [cbn [negb]|apply Hrefused; refused].
    destruct (has_empty_host a) eqn:Ha; [apply Hrefused; refused|apply Haccepted]. intros u. split.
    + intros [_ [(? & _)|(s' & a' & [= <-] & [= <-] & _ & _ & ->)]]; done.
    + intros ->. split; [done|]. right. now exists s, a.
  - apply Hrefused. refused.
  - apply Hrefused. refused.
  - destruct (negb (length (path_segments p) =? 1)%nat || _) eqn:E'; cbn [orb].
    + apply Hrefused. intros u [_ [(_ & _ & _ & Hp & _)|(s & a & ? & _)]]; [|done].
      cbn in Hp. apply Hseg in Hp. congruence.
    + apply Hseg in E'. destruct q as [q|]; cbn [is_some]; [apply Hrefused; refused|apply Haccepted].
      intros u. split; [now intros [_ [(_ & _ & _ & _ & ->)|(s & a & ? & _)]]|].
      intros ->. split; [done|]. now left.
Qed.
End URISpec.

(** A URI as the messages use it; a text on which parsing would panic is not a URI. *)
#[export] Instance uri_ops `{UP : UriparseOps} `{!ReferenceOps} : URIOps := {|
  Request.URI := URI;
  Request.URIError := URIError;
  uri_try_from value := match try_from value with Return r => r | Panic => Err InvalidRelativeReference end;
  uri_to_string := to_string;
|}.

(** A URI that can be made satisfies what encoding a request asks of its URI. *)
Lemma uri_encodable `{UL : UriparseLaws} u :
  uri_made u -> uri_try_from (uri_to_string u) = Ok u /\ SP ∉ uri_to_string u.
Proof.
  intros Hw%uri_made_wf. destruct (to_string_reference u Hw) as (r & Hr & Hu). split.
  - cbn. unfold try_from. rewrite Hr. cbn. now rewrite Hu.
  - exact (reference_no_space _ _ Hr).
Qed.

(** ** Instances

    A small world of URIs, whose references are read by looking them up among all of them. *)
Module SmallWorld.

Inductive scheme := rtsp | rtsps | rtspu | http.
Inductive host := no_name | camera | shouted_camera.
Inductive auth := mk_auth (h : host) (with_port : bool).
Inductive path := root | movie | dotted_movie | relative_movie | star | absolute_star.
Inductive query := letter_a | escaped_a.

#[export] Instance scheme_eq : EqDecision scheme. Proof. solve_decision. Defined.

Definition scheme_text (s : scheme) : bytes :=
  match s with rtsp => bs "rtsp" | rtsps => bs "rtsps" | rtspu => bs "rtspu" | http => bs "http" end.
Definition auth_host (a : auth) : host := let 'mk_auth h _ := a in h.
Definition auth_text (a : auth) : bytes :=
  let 'mk_auth h p := a in
  match h with no_name => [] | camera => bs "cam" | shouted_camera => bs "CAM" end
  ++ (if p then bs ":554" else []).
Definition path_text (p : path) : bytes :=
  match p with
  | root => bs "/" | movie => bs "/movie" | dotted_movie => bs "/./movie" | relative_movie => bs "movie"
  | star => bs "*" | absolute_star => bs "/*"
  end.
Definition query_text (q : query) : bytes := match q with letter_a => bs "a" | escaped_a => bs "%61" end.

#[export] Instance ops : UriparseOps := {|
  Scheme := scheme; RTSP := rtsp; RTSPS := rtsps; RTSPU := rtspu; scheme_as_str := scheme_text;
  Host := host; Username := unit; Password := unit; Authority := auth;
  authority_host := auth_host;
  is_empty_name h := match h with no_name => true | _ => false end;
  authority_username _ := None; authority_password _ := None;
  authority_port a := let 'mk_auth _ p := a in if p then Some 554%N else None;
  authority_set_port p a := let 'mk_auth h _ := a in mk_auth h (is_some p);
  authority_normalize a :=
    let 'mk_auth h p := a in mk_auth (match h with shouted_camera => camera | _ => h end) p;
  authority_is_normalized a := match auth_host a with shouted_camera => false | _ => true end;
  authority_to_string := auth_text;
  SENTINEL_AUTHORITY := mk_auth no_name false;
  Path := path; SENTINEL_PATH := root; ASTERISK_PATH := star;
  path_segments p :=
    match p with
    | root => [[]] | movie | relative_movie => [bs "movie"] | dotted_movie => [bs "."; bs "movie"]
    | star | absolute_star => [bs "*"]
    end;
  path_set_absolute p := match p with relative_movie => movie | star => absolute_star | _ => p end;
  path_normalize p := match p with dotted_movie => movie | _ => p end;
  path_is_normalized p := match p with dotted_movie => false | _ => true end;
  path_to_string := path_text;
  Query := query; query_normalize _ := letter_a;
  query_is_normalized q := match q with letter_a => true | escaped_a => false end;
  query_as_str := query_text;
  Fragment := unit; AuthorityError := unit; FragmentError := unit; PathError := unit;
  QueryError := unit; SchemeError := unit; OtherError := unit;
|}.

Definition reference_text (r : URIReference) : bytes :=
  match reference_scheme r, reference_authority r with
  | Some s, Some a => components_text s a (reference_path r) (reference_query r)
  | _, _ => path_text (reference_path r)
  end.

Definition all_references : list URIReference :=
  List.map (fun p => mkURIReference None None p None None)
    [root; movie; dotted_movie; relative_movie; star; absolute_star].
Definition absolute_references : list URIReference :=
  s ← [rtsp; rtsps; rtspu; http]; h ← [no_name; camera; shouted_camera]; port ← [true; false];
  p ← [root; movie; dotted_movie; absolute_star]; q ← [None; Some letter_a; Some escaped_a];
  [mkURIReference (Some s) (Some (mk_auth h port)) p q None].

Definition read (v : bytes) : Result URIReference URIReferenceError :=
  match List.find (fun r => bool_decide (reference_text r = v)) (all_references ++ absolute_references) with
  | Some r => Ok r
  | None => Err (if bool_decide (v = bs ":") then ROther tt else RScheme tt)
  end.

#[export] Instance references : ReferenceOps := {|
  reference_try_from := read;
  reference_from_parts s a p q f :=
    Ok (mkURIReference s a (if is_some a then path_set_absolute p else p) q f);
|}.

Lemma read_in v r : read v = Ok r -> reference_text r = v /\ In r (all_references ++ absolute_references).
Proof.
  unfold read. destruct (List.find _ _) as [r'|] eqn:E'; [|done]. intros [= <-].
  apply find_some in E' as [Hin Ht%bool_decide_eq_true]. done.
Qed.

Definition good_reference (r : URIReference) : bool :=
  bool_decide (SP ∉ reference_text r)
  && match reference_authority r, reference_path r with
     | Some _, (relative_movie | star) => false
     | _, _ => true
     end.

Lemma read_good v r : read v = Ok r -> good_reference r = true.
Proof.
  intros [_ Hin]%read_in.
  assert (Hall : forallb good_reference (all_references ++ absolute_references) = true) by now vm_compute.
  rewrite forallb_forall in Hall. now apply Hall.
Qed.

#[export] Instance laws : UriparseLaws.
Proof.
  split; cbn [authority_host path_set_absolute path_normalize path_is_normalized query_normalize
    query_is_normalized authority_normalize authority_is_normalized authority_port authority_set_port ops].
  - now intros [].
  - now intros [].
  - now intros [].
  - now intros [].
  - done.
  - now intros [].
  - now intros [[]].
  - now intros [[] ?].
  - now intros [].
  - now intros [[] ?].
  - now intros [].
  - now intros [].
  - now intros [].
  - now intros s a p q f r [= <-].
  - intros s a p q Ha. cbn. now rewrite Ha.
  - done.
  - intros v r Hr [a Ha]. apply read_good, andb_prop in Hr as [_ Hr]. rewrite Ha in Hr.
    now destruct (reference_path r).
  - intros [] [[] []] [] [[]|]; intros Ha; try discriminate Ha; vm_compute; reflexivity.
  - now vm_compute.
  - done.
  - intros v r Hr. pose proof (read_good v r Hr) as Hg. apply read_in in Hr as [<- _].
    now apply andb_prop in Hg as [Hg%bool_decide_eq_true _].
Qed.
End SmallWorld.

#[local] Existing Instances SmallWorld.ops SmallWorld.references SmallWorld.laws.

Definition sample_uri : URI :=
  mkURI (Some (mkComponents SmallWorld.rtsp (SmallWorld.mk_auth SmallWorld.shouted_camera true)
                 SmallWorld.dotted_movie (Some SmallWorld.escaped_a))).

Lemma sample_uri_made : uri_made sample_uri.
Proof. now apply (made_try_from (bs "rtsp://CAM:554/./movie?%61")). Qed.

Example uri_ex :
  (let! u := normalize sample_uri in Return (to_string u)) = Return (bs "rtsp://cam/movie?a")
  /\ try_from (bs "rtsp:///movie") = Return (Err EmptyHost)
  /\ try_from (bs "http://cam/") = Return (Err NonRTSPScheme)
  /\ try_from (bs "/movie") = Return (Err InvalidRelativeReference)
  /\ try_from (bs "/*") = Return (Ok asterisk)
  /\ try_from (bs ":") = Panic.
Proof. repeat split; reflexivity. Qed.

Lemma uri_invariant_witness : exists d, default_port sample_uri = Return d /\ (d = None <-> is_asterisk sample_uri = true).
Proof. exact (proj1 (proj2 (uri_invariant sample_uri sample_uri_made))). Defined.

Lemma uri_roundtrip_witness : try_from (to_string sample_uri) = Return (Ok sample_uri).
Proof. exact (proj1 (uri_roundtrip sample_uri sample_uri_made)). Defined.

Lemma uri_normalize_spec_witness : exists u', normalize sample_uri = Return u' /\ is_normalized u' = Return true.
Proof.
  destruct (uri_normalize_spec sample_uri sample_uri_made) as (u' & H1 & _ & H2 & _).
  exists u'. now split.
Defined.

(** The text of an absolute path is read as an asterisk, because only its segments are looked at. *)
Lemma uri_slash_asterisk :
  try_from (bs "/*") = Return (Ok asterisk)
  /\ to_string asterisk = bs "*".
Proof. now split. Qed.
