(* ===== verification/Texts.v ===== *)
(** * Texts

    The instances of [Display], [Debug], [Hash] and [From] that the other files have no use for:
    what is written for a value or for an error, what of a header name is hashed, and the errors
    that are made of others. *)

From Stdlib Require Import Strings.Byte.
From stdpp Require Import base list numbers strings sets.
From S2P Require Import Prelude Text Syntax Version Method HeaderName HeaderValue Reason Status CSeq ContentLength.
From S2P Require Import HeaderMap Request Response RequestDecoder ResponseDecoder Codec Forwarding Pending CommaList AcceptRanges.
From S2P Require Import Session Transport Comparisons DateParser Date Uri.

Local Open Scope nat_scope.

(** ** Values *)

(** [Display], and [Debug] where it is written by hand. *)
Definition method_fmt (m : Method) : bytes := Method.as_str m.
Definition method_debug (m : Method) : bytes := Method.as_str m.
Definition extension_method_fmt (name : bytes) : bytes := name.
Definition header_name_fmt (h : HeaderName) : bytes := HeaderName.canonical_name h.
Definition header_name_debug (h : HeaderName) : bytes := HeaderName.canonical_name h.
(** An extension by itself is written in lower case. *)
Definition extension_header_name_fmt (name name_lowercase : bytes) : bytes := name_lowercase.
Definition extension_header_name_debug (name name_lowercase : bytes) : bytes := name_lowercase.
Definition header_value_fmt (v : HeaderValue) : bytes := HeaderValue.as_str v.
Definition reason_fmt (r : ReasonPhrase) : bytes := Reason.as_str r.
Definition status_fmt (s : StatusCode) : bytes := Text.to_string (to_u16 s).
Definition status_debug (s : StatusCode) : bytes := Text.to_string (to_u16 s).
Definition session_id_fmt (i : SessionID) : bytes := session_id i.
Definition session_id_debug (i : SessionID) : bytes := session_id i.
Definition range_format_fmt (f : RangeFormat) : bytes := AcceptRanges.as_str f.
Definition extension_range_format_fmt (name : bytes) : bytes := name.
Definition mode_fmt (m : Mode) : bytes := mode_as_str m.
Definition extension_mode_fmt (name : bytes) : bytes := name.
Definition setup_fmt (s : Setup) : bytes := setup_as_str s.
Definition connection_fmt (c : Transport.Connection) : bytes := connection_as_str c.
Definition delivery_type_fmt (d : DeliveryType) : bytes := delivery_type_as_str d.

(** [From<..> for String], which is [to_string] of [Display]. *)
Definition method_into_string (value : Method) : bytes := method_fmt value.
Definition extension_method_into_string (value : bytes) : bytes := extension_method_fmt value.
Definition header_name_into_string (value : HeaderName) : bytes := header_name_fmt value.
Definition extension_header_name_into_string (name name_lowercase : bytes) : bytes :=
  extension_header_name_fmt name name_lowercase.
Definition header_value_into_string (value : HeaderValue) : bytes := header_value_fmt value.
Definition reason_into_string (value : ReasonPhrase) : bytes := reason_fmt value.
Definition range_format_into_string (value : RangeFormat) : bytes := range_format_fmt value.
Definition extension_range_format_into_string (value : bytes) : bytes := extension_range_format_fmt value.
Definition mode_into_string (value : Mode) : bytes := mode_fmt value.
Definition extension_mode_into_string (value : bytes) : bytes := extension_mode_fmt value.
Definition setup_into_string (value : Setup) : bytes := setup_fmt value.
Definition connection_into_string (value : Transport.Connection) : bytes := connection_fmt value.
Definition delivery_type_into_string (value : DeliveryType) : bytes := delivery_type_fmt value.

(** ** Hashing *)

(** What a [Hasher] is given: an integer for the variant of an enum, and strings. *)
Class Hasher (State : Type) := {
  write_isize : N -> State -> State;
  write_str : bytes -> State -> State;
}.

Section Hash.
Context `{Hasher State}.

Definition extension_header_name_hash (name name_lowercase : bytes) (state : State) : State :=
  write_str name_lowercase state.

(** The derived instance of [HeaderName] writes the number of the variant first, in the order of the
    declaration, in which the extensions are the last. *)
Definition variant (h : HeaderName) : N :=
  N.of_nat (default (length standard_header_names)
              (position (fun h' => bool_decide (HeaderName.as_str h' = HeaderName.as_str h)) standard_header_names)).

Definition header_name_hash (h : HeaderName) (state : State) : State :=
  match h with
  | HeaderName.Extension name name_lowercase =>
      extension_header_name_hash name name_lowercase (write_isize (N.of_nat (length standard_header_names)) state)
  | _ => write_isize (variant h) state
  end.
End Hash.

(** ** Errors *)

Definition version_error_fmt (e : Version.DecodeError) : bytes :=
  match e with
  | Version.Invalid => bs "invalid version"
  | Unknown major minor =>
      bs "unknown version '" ++ Text.to_string major ++ bs "." ++ Text.to_string minor ++ bs "'"
  end.

Definition method_error_fmt (e : MethodError) : bytes :=
  match e with
  | Method.Empty => bs "empty method"
  | Method.InvalidCharacter => bs "invalid method character"
  | StartsWithDollarSign => bs "method starts with '$'"
  end.

Definition header_name_error_fmt (e : HeaderNameError) : bytes :=
  match e with
  | HeaderName.Empty => bs "empty header name"
  | HeaderName.InvalidCharacter => bs "invalid header name character"
  end.

Definition header_value_error_fmt (e : HeaderValueError) : bytes :=
  match e with
  | HeaderValue.InvalidASCII => bs "invalid header value ASCII character"
  | InvalidLineBreak => bs "invalid header value line break"
  | HeaderValue.InvalidUTF8 => bs "invalid header value UTF-8"
  end.

Definition reason_error_fmt (e : ReasonPhraseError) : bytes :=
  match e with
  | Reason.Empty => bs "empty reason phrase"
  | Reason.InvalidASCII => bs "invalid reason phrase ASCII character"
  | Reason.InvalidUTF8 => bs "invalid reason phrase UTF-8"
  end.

Definition status_error_fmt (e : StatusCodeError) : bytes :=
  match e with
  | Status.Invalid => bs "invalid status code"
  | OutOfRange => bs "out of range status code"
  | Removed => bs "removed status codes cannot be used"
  end.

Definition cseq_error_fmt (e : CSeqError) : bytes :=
  match e with
  | CSeq.Empty => bs "empty content length"
  | CSeq.ExceedsMaximumLength => bs "content length exceeds maximum length"
  | CSeq.InvalidDigit => bs "invalid content length digit"
  | CSeq.MoreThanOneHeader => bs "more than one content length header"
  | CSeq.Overflow => bs "content length overflow"
  end.

Definition content_length_error_fmt (e : ContentLengthError) : bytes :=
  match e with
  | ContentLength.Empty => bs "empty content length"
  | ContentLength.ExceedsMaximumLength => bs "content length exceeds maximum length"
  | ContentLength.InvalidDigit => bs "invalid content length digit"
  | ContentLength.MoreThanOneHeader => bs "more than one content length header"
  | ContentLength.Overflow => bs "content length overflow"
  end.

Definition date_time_error_fmt (e : DateTimeError) : bytes := bs "invalid date time".

Definition date_error_fmt (e : DateError) : bytes :=
  match e with
  | InvalidDateTime => bs "invalid date time"
  | Date.MoreThanOneHeader => bs "more than one date header"
  end.

Definition expires_error_fmt (e : ExpiresError) : bytes :=
  match e with
  | ExpiresInvalidDateTime => bs "invalid date time"
  | ExpiresMoreThanOneHeader => bs "more than one expires header"
  end.

Definition session_id_error_fmt (e : SessionIDError) : bytes :=
  match e with
  | Session.InvalidCharacter => bs "invalid session identifier character"
  | TooLong => bs "session identifier is too long"
  | TooShort => bs "session identifier is too short"
  end.

Definition timeout_error_fmt (e : TimeoutError) : bytes :=
  match e with
  | Session.Empty => bs "empty session header timeout"
  | Session.ExceedsMaximumLength => bs "session header timeout exceeds maximum length"
  | Session.InvalidDigit => bs "invalid session header timeout digit"
  | Session.Overflow => bs "session header timeout overflow"
  end.

Definition session_error_fmt (e : SessionError) : bytes :=
  match e with
  | InvalidParameterSyntax => bs "invalid session header parameter syntax"
  | Session.MoreThanOneHeader => bs "more than one session header"
  | ESessionID error => session_id_error_fmt error
  | ETimeout error => timeout_error_fmt error
  end.

Definition mode_error_fmt (e : ModeError) : bytes :=
  match e with
  | MEmpty => bs "empty mode"
  | MInvalidCharacter => bs "invalid mode character"
  | MissingQuotes => bs "missing quotes for modes"
  | Reserved => bs "reserved mode"
  end.

Definition setup_error_fmt (e : SetupError) : bytes := bs "unknown setup parameter".
Definition connection_error_fmt (e : ConnectionError) : bytes := bs "unknown connection parameter".
Definition delivery_type_error_fmt (e : DeliveryTypeError) : bytes := bs "unknown delivery type parameter".
Definition layers_error_fmt (e : LayersError) : bytes := bs "invalid layer parameter".
Definition address_error_fmt (e : AddressError) : bytes := bs "invalid address".

Definition interleaved_error_fmt (e : InterleavedError) : bytes :=
  match e with
  | IEmpty => bs "empty interleaved parameter"
  | IInvalidCharacter => bs "invalid interleaved parameter character"
  | IOverflow => bs "interleaved channel overflow"
  end.

Definition request_error_fmt (e : RequestError) : bytes :=
  match e with
  | Request.MissingBody => bs "missing request body"
  | MissingMethod => bs "missing request method"
  | MissingURI => bs "missing request URI"
  | Request.UnsupportedVersion => bs "unsupported request version"
  end.

Definition response_error_fmt (e : ResponseError) : bytes :=
  match e with
  | Response.MissingBody => bs "missing response body"
  | MissingReasonPhrase => bs "missing response reason phrase"
  | Response.UnsupportedVersion => bs "unsupported response version"
  end.

Definition request_receiver_error_fmt (e : RequestReceiverError) : bytes :=
  match e with
  | Forwarding.BadRequest => bs "bad request"
  | CSeqDifferenceTooLarge => bs "CSeq difference too large"
  end.

Definition operation_error_fmt (e : OperationError) : bytes :=
  match e with
  | Closed => bs "closed"
  | RequestCancelled => bs "request cancelled"
  | RequestTimedOut Long => bs "request timed out (long)"
  | RequestTimedOut Short => bs "request timed out (short)"
  end.

(** The texts of the errors of [uriparse] are its own. *)
Section URIErrors.
Context `{UriparseOps} (authority_fmt : AuthorityError -> bytes) (path_fmt : PathError -> bytes)
  (query_fmt : QueryError -> bytes) (scheme_fmt : SchemeError -> bytes).

Definition uri_error_fmt (e : Uri.URIError) : bytes :=
  match e with
  | EAuthority error => authority_fmt error
  | EmptyHost => bs "empty URI host"
  | FragmentNotAllowed => bs "fragment not allowed in request URI"
  | InvalidRelativeReference => bs "invalid URI relative reference"
  | MissingAuthority => bs "missing URI authority"
  | MissingPath => bs "missing URI path"
  | MissingScheme => bs "missing URI scheme"
  | NonRTSPScheme => bs "non-RTSP URI scheme"
  | EPath error => path_fmt error
  | EQuery error => query_fmt error
  | EScheme error => scheme_fmt error
  end.
End URIErrors.

(** The texts of the errors of a URI and of the socket are given. *)
Section DecodeErrors.
Context `{HeaderMapOps} `{URIOps} (uri_fmt : Request.URIError -> bytes) (io_text : bytes).

Definition request_decode_error_fmt (e : RequestDecoder.DecodeError) : bytes :=
  match e with
  | RequestDecoder.EBodyTooLong => bs "body too long"
  | RequestDecoder.EHeaderName error => header_name_error_fmt error
  | RequestDecoder.EHeaderNameTooLong => bs "header name too long"
  | RequestDecoder.EHeaderValue error => header_value_error_fmt error
  | RequestDecoder.EHeaderValueTooLong => bs "header value too long"
  | RequestDecoder.EInvalidContentLength => bs "invalid content length header"
  | EMethod error => method_error_fmt error
  | EMethodTooLong => bs "method too long"
  | RequestDecoder.ETooManyHeaders => bs "too many headers"
  | EURI error => uri_fmt error
  | EURITooLong => bs "URI too long"
  | RequestDecoder.EUnsupportedVersion => bs "unsupported version"
  | RequestDecoder.EVersion error => version_error_fmt error
  end.

Definition response_decode_error_fmt (e : ResponseDecoder.DecodeError) : bytes :=
  match e with
  | EBodyTooLong => bs "body too long"
  | EHeaderName error => header_name_error_fmt error
  | EHeaderNameTooLong => bs "header name too long"
  | EHeaderValue error => header_value_error_fmt error
  | EHeaderValueTooLong => bs "header value too long"
  | EInvalidContentLength => bs "invalid content length header"
  | EReasonPhrase error => reason_error_fmt error
  | EReasonPhraseTooLong => bs "reason phrase too long"
  | EStatusCode error => status_error_fmt error
  | ETooManyHeaders => bs "too many headers"
  | EUnsupportedVersion => bs "unsupported version"
  | EVersion error => version_error_fmt error
  end.

Definition decode_error_fmt (e : Codec.DecodeError) : bytes :=
  match e with
  | DERequest error => request_decode_error_fmt error
  | DEResponse error => response_decode_error_fmt error
  end.

Definition protocol_error_fmt (e : ProtocolError) : bytes :=
  match e with
  | PEDecodeError error => decode_error_fmt error
  | DecodingTimedOut => bs "decoding timed out"
  | IO => io_text
  | UnexpectedEOF => bs "unexpected EOF"
  end.
End DecodeErrors.

(** ** Errors made of others *)

(** The conversions that [?] and [into] use. *)
Section Conversions.
Context `{HeaderMapOps} `{URIOps}.

Definition request_error_from_header_name (value : HeaderNameError) : RequestDecoder.DecodeError :=
  RequestDecoder.EHeaderName value.
Definition request_error_from_header_value (value : HeaderValueError) : RequestDecoder.DecodeError :=
  RequestDecoder.EHeaderValue value.
Definition request_error_from_method (value : MethodError) : RequestDecoder.DecodeError := EMethod value.
Definition request_error_from_uri (value : Request.URIError) : RequestDecoder.DecodeError := EURI value.
Definition request_error_from_version (value : Version.DecodeError) : RequestDecoder.DecodeError :=
  RequestDecoder.EVersion value.

Definition response_error_from_header_name (value : HeaderNameError) : ResponseDecoder.DecodeError := EHeaderName value.
Definition response_error_from_header_value (value : HeaderValueError) : ResponseDecoder.DecodeError :=
  EHeaderValue value.
Definition response_error_from_reason (value : ReasonPhraseError) : ResponseDecoder.DecodeError := EReasonPhrase value.
Definition response_error_from_status (value : StatusCodeError) : ResponseDecoder.DecodeError := EStatusCode value.
Definition response_error_from_version (value : Version.DecodeError) : ResponseDecoder.DecodeError := EVersion value.

Definition decode_error_from_request (value : RequestDecoder.DecodeError) : Codec.DecodeError := DERequest value.
Definition decode_error_from_response (value : ResponseDecoder.DecodeError) : Codec.DecodeError := DEResponse value.
(** The error of the socket is kept, and not modelled. *)
Definition protocol_error_from_io {IOError} (value : IOError) : ProtocolError := IO.
End Conversions.

Definition session_error_from_id (value : SessionIDError) : SessionError := ESessionID value.
Definition session_error_from_timeout (value : TimeoutError) : SessionError := ETimeout value.

(** ** A value is read from its text *)

(** C36: What is written for a valid value is read as the value: by [to_string] and [try_from] it makes
    the round trip through a text, header names with the spelling of an extension, status codes by
    their digits. *)
Theorem texts_read_back :
  (forall m, method_wf m -> Method.try_from (method_fmt m) = Ok m)
  /\ (forall h, header_name_wf h -> HeaderName.try_from (header_name_fmt h) = Ok h)
  /\ (forall r, reason_wf r -> Reason.try_from (reason_fmt r) = Ok r)
  /\ (forall s, status_wf s -> Status.try_from (status_fmt s) = Ok s)
  /\ (forall i, session_id_valid i -> id_try_from (session_id_fmt i) = Ok i)
  /\ (forall f, range_format_wf f -> AcceptRanges.try_from (range_format_fmt f) = Ok f)
  /\ (forall m, mode_wf m -> mode_try_from (mode_fmt m) = Ok m)
  /\ (forall s, setup_try_from (setup_fmt s) = Ok s)
  /\ (forall c, connection_try_from (connection_fmt c) = Ok c)
  /\ (forall d, delivery_type_try_from (delivery_type_fmt d) = Ok d).
Proof.
  split_and!.
  - intros m Hm. apply method_try_from_iff. split; [done|now apply method_upper].
  - exact try_from_canonical_name.
  - intros r Hr. exact Hr.
  - exact try_from_to_string.
  - intros i Hi. now apply id_try_from_iff.
  - intros f Hf. apply range_format_try_from_iff. split; [done|now apply range_format_lower].
  - intros m Hm. apply mode_try_from_iff. split; [done|now apply mode_upper].
  - intros s. now destruct s.
  - intros c. now destruct c.
  - intros d. now destruct d.
Qed.

Lemma texts_read_back_witness :
  HeaderName.try_from (header_name_fmt (HeaderName.Extension (bs "X-Ext") (bs "x-ext")))
    = Ok (HeaderName.Extension (bs "X-Ext") (bs "x-ext"))
  /\ Method.try_from (method_fmt PlayNotify) = Ok PlayNotify
  /\ Status.try_from (status_fmt NotFound) = Ok NotFound.
Proof.
  destruct texts_read_back as (Hm & Hh & _ & Hs & _).
  split; [apply Hh|split; [now apply Hm|now apply Hs]].
  assert (E : HeaderName.try_from (bs "X-Ext") = Ok (HeaderName.Extension (bs "X-Ext") (bs "x-ext"))) by reflexivity.
  now apply header_name_try_from_spec in E as (Hwf & _).
Defined.

(** ** Equal names are hashed alike *)

(** The hasher that keeps what it is given. *)
Definition trace_hasher : Hasher (list (N + bytes)) := {|
  write_isize n state := state ++ [inl n];
  write_str s state := state ++ [inr s];
|}.

Lemma variant_standard h :
  is_extension h = false -> exists i, variant h = N.of_nat i /\ standard_header_names !! i = Some h.
Proof.
  intros He. unfold variant. destruct (position _ standard_header_names) as [i|] eqn:Ep.
  - exists i. split; [done|]. apply position_Some in Ep as [(x & Hx & Ht) _].
    apply bool_decide_eq_true in Ht. rewrite Hx. f_equal. apply header_standard_as_str_inj; [|done|done].
    apply standard_header_names_spec, list_elem_of_In. now apply list_elem_of_lookup_2 with i.
  - apply standard_header_names_spec, list_elem_of_In in He. rewrite position_None in Ep.
    rewrite Forall_forall in Ep. specialize (Ep h He). now apply bool_decide_eq_false in Ep.
Qed.

Lemma standard_hash `{Hasher State} h (state : State) :
  is_extension h = false -> header_name_hash h state = write_isize (variant h) state.
Proof. now destruct h. Qed.

(** The instance of [Hash] agrees with that of [PartialEq], which headers as the keys of a map rely on:
    two valid header names are equal, extensions without regard to their case, if and only if every
    hasher is given the same for them. *)
Theorem names_hash h1 h2 :
  header_name_wf h1 -> header_name_wf h2 ->
  h1 ≡ h2 <-> forall State (H : Hasher State) (state : State), header_name_hash h1 state = header_name_hash h2 state.
Proof.
  intros W1 W2. split.
  - rewrite header_name_equiv_spec. intros [->|(n1 & l1 & n2 & l2 & -> & -> & E)] State H state; [done|].
    destruct W1 as (_ & -> & _), W2 as (_ & -> & _). rewrite !lowercase_idemp in E. cbn. unfold extension_header_name_hash.
    now rewrite E.
  - intros Hh. specialize (Hh _ trace_hasher []).
    destruct (header_name_cases h1) as [E1|(n1 & l1 & ->)]; destruct (header_name_cases h2) as [E2|(n2 & l2 & ->)].
    + rewrite !standard_hash in Hh by done. injection Hh as Hv. apply header_name_equiv_spec. left.
      destruct (variant_standard h1 E1) as (i & Ei & Hi), (variant_standard h2 E2) as (j & Ej & Hj).
      assert (i = j) as -> by lia. congruence.
    + rewrite (standard_hash h1) in Hh by done. discriminate Hh.
    + rewrite (standard_hash h2) in Hh by done. discriminate Hh.
    + injection Hh as ->. apply header_name_equiv_as_str; done.
Qed.

(** Two headers that are named the same but for the case of an extension. *)
Lemma names_hash_witness :
  exists h1 h2, HeaderName.try_from (bs "X-Ext") = Ok h1 /\ HeaderName.try_from (bs "x-EXT") = Ok h2
    /\ forall State (H : Hasher State) (state : State), header_name_hash h1 state = header_name_hash h2 state.
Proof.
  assert (E1 : HeaderName.try_from (bs "X-Ext") = Ok (HeaderName.Extension (bs "X-Ext") (bs "x-ext"))) by reflexivity.
  assert (E2 : HeaderName.try_from (bs "x-EXT") = Ok (HeaderName.Extension (bs "x-EXT") (bs "x-ext"))) by reflexivity.
  do 2 eexists. split; [exact E1|]. split; [exact E2|].
  apply header_name_try_from_spec in E1 as (W1 & _). apply header_name_try_from_spec in E2 as (W2 & _).
  apply (names_hash _ _ W1 W2). apply header_name_equiv_as_str; done.
Defined.

(** ** An error is known by its text *)

(** A text up to a delimiter that is not in it. *)
Lemma delimited_inj (d : byte) l1 l2 r1 r2 :
  d ∉ l1 -> d ∉ l2 -> l1 ++ d :: r1 = l2 ++ d :: r2 -> l1 = l2 /\ r1 = r2.
Proof.
  revert l2. induction l1 as [|b l1 IH]; intros [|b' l2] H1 H2 E; cbn in E.
  - now injection E.
  - injection E as -> _. destruct H2. apply list_elem_of_here.
  - injection E as -> _. destruct H1. apply list_elem_of_here.
  - apply not_elem_of_cons in H1 as [_ H1], H2 as [_ H2]. injection E as -> E.
    destruct (IH l2 H1 H2 E) as [-> ->]. done.
Qed.

Lemma to_string_inj n m : Text.to_string n = Text.to_string m -> n = m.
Proof.
  intros E. pose proof (parse_unsigned_to_string (N.max n m) n (N.le_max_l n m)) as Hn. rewrite E in Hn.
  rewrite parse_unsigned_to_string in Hn by apply N.le_max_r. now injection Hn.
Qed.

Lemma to_string_no_byte n b : is_ascii_digit b = false -> b ∉ Text.to_string n.
Proof.
  intros Hb Hin. pose proof (to_string_digits n) as Hd. rewrite Forall_forall in Hd. rewrite (Hd b Hin) in Hb. done.
Qed.

#[export] Instance version_error_fmt_inj : Inj (=) (=) version_error_fmt.
Proof.
  intros [|a b] [|a' b']; try discriminate; [done|]. unfold version_error_fmt. intros E%app_inv_head.
  apply delimited_inj in E as [->%to_string_inj E]; [|now apply to_string_no_byte..].
  apply app_inj_tail in E as [->%to_string_inj _]. done.
Qed.

(** Errors with constant texts. *)
Ltac tell_apart := intros [] []; solve [discriminate | done].

#[export] Instance method_error_fmt_inj : Inj (=) (=) method_error_fmt. Proof. tell_apart. Qed.
#[export] Instance header_name_error_fmt_inj : Inj (=) (=) header_name_error_fmt. Proof. tell_apart. Qed.
#[export] Instance header_value_error_fmt_inj : Inj (=) (=) header_value_error_fmt. Proof. tell_apart. Qed.
#[export] Instance reason_error_fmt_inj : Inj (=) (=) reason_error_fmt. Proof. tell_apart. Qed.
#[export] Instance status_error_fmt_inj : Inj (=) (=) status_error_fmt. Proof. tell_apart. Qed.
#[export] Instance session_id_error_fmt_inj : Inj (=) (=) session_id_error_fmt. Proof. tell_apart. Qed.
#[export] Instance timeout_error_fmt_inj : Inj (=) (=) timeout_error_fmt. Proof. tell_apart. Qed.

(** Two errors of a decoder: of the same kind, which is told apart by itself, or of two kinds, the
    texts of which differ. *)
Ltac tell_kinds E :=
  first [ done | discriminate E
        | f_equal; first [ exact (header_name_error_fmt_inj _ _ E) | exact (header_value_error_fmt_inj _ _ E)
                         | exact (method_error_fmt_inj _ _ E) | exact (reason_error_fmt_inj _ _ E)
                         | exact (status_error_fmt_inj _ _ E) | exact (version_error_fmt_inj _ _ E)
                         | exact (session_id_error_fmt_inj _ _ E) | exact (timeout_error_fmt_inj _ _ E) ]
        | repeat match goal with
                 | x : HeaderNameError |- _ => destruct x
                 | x : HeaderValueError |- _ => destruct x
                 | x : MethodError |- _ => destruct x
                 | x : ReasonPhraseError |- _ => destruct x
                 | x : StatusCodeError |- _ => destruct x
                 | x : Version.DecodeError |- _ => destruct x
                 | x : SessionIDError |- _ => destruct x
                 | x : TimeoutError |- _ => destruct x
                 end; discriminate E ].

Lemma session_error_fmt_inj : Inj (=) (=) session_error_fmt.
Proof. intros [] []; cbn [session_error_fmt]; intros E; tell_kinds E. Qed.

Section ErrorTexts.
Context `{HeaderMapOps} `{URIOps} (uri_fmt : Request.URIError -> bytes).

Lemma response_decode_error_fmt_inj : Inj (=) (=) response_decode_error_fmt.
Proof. intros [] []; cbn [response_decode_error_fmt]; intros E; tell_kinds E. Qed.

(** An error of the request decoder that does not come from the URI. *)
Definition not_of_uri (e : RequestDecoder.DecodeError) : bool := match e with EURI _ => false | _ => true end.

Lemma request_decode_error_fmt_inj e e' :
  not_of_uri e = true -> not_of_uri e' = true ->
  request_decode_error_fmt uri_fmt e = request_decode_error_fmt uri_fmt e' -> e = e'.
Proof.
  destruct e, e'; cbn [request_decode_error_fmt not_of_uri]; intros He He' E;
    first [discriminate He | discriminate He' | tell_kinds E].
Qed.

(** The text of an error identifies it: two errors of a type are written differently, those of the two
    decoders with the errors of names, values, codes and versions that are inside of them included,
    but for the errors of a URI, whose texts are those of its parser. The errors of a CSeq, however,
    are all written as errors of a content length. *)
Theorem error_texts :
  Inj (=) (=) version_error_fmt /\ Inj (=) (=) method_error_fmt /\ Inj (=) (=) header_name_error_fmt
  /\ Inj (=) (=) header_value_error_fmt /\ Inj (=) (=) reason_error_fmt /\ Inj (=) (=) status_error_fmt
  /\ Inj (=) (=) cseq_error_fmt /\ Inj (=) (=) content_length_error_fmt /\ Inj (=) (=) date_error_fmt
  /\ Inj (=) (=) expires_error_fmt /\ Inj (=) (=) session_error_fmt /\ Inj (=) (=) mode_error_fmt
  /\ Inj (=) (=) interleaved_error_fmt /\ Inj (=) (=) request_error_fmt /\ Inj (=) (=) response_error_fmt
  /\ Inj (=) (=) request_receiver_error_fmt /\ Inj (=) (=) operation_error_fmt
  /\ Inj (=) (=) response_decode_error_fmt
  /\ (forall e e', not_of_uri e = true -> not_of_uri e' = true ->
        request_decode_error_fmt uri_fmt e = request_decode_error_fmt uri_fmt e' -> e = e')
  /\ (forall e, exists e', cseq_error_fmt e = content_length_error_fmt e').
Proof.
  split_and!; try (intros [] []; solve [discriminate | done]); try exact _.
  - exact session_error_fmt_inj.
  - intros [| |[]] [| |[]]; solve [discriminate | done].
  - exact response_decode_error_fmt_inj.
  - exact request_decode_error_fmt_inj.
  - intros []; [now exists ContentLength.Empty|now exists ContentLength.ExceedsMaximumLength
      |now exists ContentLength.InvalidDigit|now exists ContentLength.MoreThanOneHeader|now exists ContentLength.Overflow].
Qed.
End ErrorTexts.

Lemma error_texts_witness :
  request_decode_error_fmt (H0:=text_uri) (fun _ => []) EMethodTooLong
  <> request_decode_error_fmt (H0:=text_uri) (fun _ => []) EURITooLong.
Proof.
  intros E. pose proof (error_texts (H0:=text_uri) (fun _ => [])) as Hall.
  do 18 (destruct Hall as [_ Hall]). destruct Hall as [Hr _]. discriminate (Hr EMethodTooLong EURITooLong eq_refl eq_refl E).
Defined.
