(* ===== verification/Server.v ===== *)
(** * The server's service

    Model of the service of [rtsp-2/src/server.rs], which answers the requests of a connection, of
    its sessions with the [Session] trait of [rtsp-2/src/session.rs], and of the service without
    requests of [rtsp-2/src/protocol/service.rs]. The server that accepts connections is in [Endpoints]. *)

From Stdlib Require Import Strings.Byte.
From stdpp Require Import base list numbers strings.
From S2P Require Import Prelude Text Version Method HeaderName HeaderValue HeaderMap Reason Status.
From S2P Require Import Request Response Futures CommaList AcceptRanges Public Session Uri.

Local Open Scope rust_scope.

(** ** Sessions *)

(** The points in time of [chrono]: now plus a duration, if it can be represented ([from_std],
    [checked_add_signed]); the order; and the time from the second to the first, if it is not
    negative ([signed_duration_since], [to_std]). *)
Class TimeOps := {
  Time : Type;
  time_add : Time -> Duration -> option Time;
  time_after : Time -> Time -> bool;
  time_since : Time -> Time -> option Duration;
}.

Section ServerSession.
Context `{TimeOps}.

Record ServerSession := mkServerSession { expire_time : Time; session_id : SessionID }.

(** [Session::is_expired] and [Session::timeout]. *)
Definition is_expired (now : Time) (self : ServerSession) : bool := time_after now (expire_time self).
Definition session_timeout (now : Time) (self : ServerSession) : option Duration :=
  time_since (expire_time self) now.

Definition set_expire_time (t : Time) (self : ServerSession) : ServerSession :=
  mkServerSession t (session_id self).

(** [Session::set_timeout] for [ServerSession]. *)
Definition set_timeout (now : Time) (timeout : Duration) (self : ServerSession) :
    Result unit unit * ServerSession :=
  match time_add now timeout with
  | Some t => (Ok tt, set_expire_time t self)
  | None => (Err tt, self)
  end.

(** [touch]: [unwrap] on the result. *)
Definition touch (now : Time) (self : ServerSession) : Outcome ServerSession :=
  match set_timeout now DEFAULT_SESSION_TIMEOUT self with
  | (Ok _, self) => Return self
  | (Err _, _) => Panic
  end.

(** [ServerSession::with_timeout] and [ServerSession::new], with the random identifier. *)
Definition session_with_timeout (expire_time : Time) (id : SessionID) : ServerSession :=
  mkServerSession expire_time id.
Definition session_new (now : Time) (id : SessionID) : Outcome ServerSession :=
  match time_add now DEFAULT_SESSION_TIMEOUT with
  | Some t => Return (session_with_timeout t id)
  | None => Panic
  end.

(** [try_from_session_with_timeout] and [try_from_session_without_timeout] of the Session header. *)
Definition try_from_session_with_timeout (now : Time) (value : ServerSession) : Session :=
  mkSession (session_id value) (session_timeout now value).
Definition try_from_session_without_timeout (value : ServerSession) : Session :=
  mkSession (session_id value) None.
End ServerSession.
Arguments ServerSession {_}.

(** ** The service of a connection *)

(** [EmptyService]: always ready for a request, which it never answers. *)
Definition empty_poll_ready {E} : Poll unit E := Ok (Ready tt).
Definition empty_call_poll {A E} : Poll A E := Ok NotReady.

Definition SUPPORTED_METHODS : list Method := [Options; Setup].

Section Service.
Context `{HeaderMapOps} `{UP : UriparseOps} `{!ReferenceOps} `{TimeOps}
  {SM SR : Type} `{!LinkedSetOps SM Method} `{!LinkedSetOps SR RangeFormat}.

(** [ConnectionService]; its server is not used by what it does. *)
Record ConnectionService := mkConnectionService { session : option ServerSession }.

(** [unwrap] on the result of a builder. *)
Definition unwrap_response (r : Outcome (Result (Response bytes) ResponseError)) :
    Outcome (Response bytes) :=
  match r with
  | Return (Ok response) => Return response
  | _ => Panic
  end.

Definition handle_method_options (now : Time) (request : Request bytes) (self : ConnectionService) :
    Outcome (Response bytes * ConnectionService) :=
  let! session :=
    match session self with
    | Some session => let! session := touch now session in Return (Some session)
    | None => Return None
    end in
  let request := request_map (fun _ => [] : bytes) request in
  let! response :=
    if is_asterisk (uri request) then
      unwrap_response
        (Response.build
           (Response.with_body []
              (Response.with_typed_header (public_from_iter (S := SM) SUPPORTED_METHODS) (Response.new unit))))
    else
      unwrap_response
        (Response.build (Response.with_body [] (Response.with_status_code NotFound (Response.new unit)))) in
  Return (response, mkConnectionService session).

Definition handle_method_setup (request : Request bytes) (self : ConnectionService) :
    Outcome (Response bytes * ConnectionService) :=
  let request := request_map (fun _ => [] : bytes) request in
  match typed_try_get (AcceptRanges SR) (Request.headers request) with
  | Ok _ =>
      let! response :=
        unwrap_response
          (Response.build
             (Response.with_body []
                (Response.with_typed_header (accept_ranges_new (S := SR))
                   (Response.with_status_code HeaderFieldNotValidForResource (Response.new unit))))) in
      Return (response, self)
  | Err _ => Return (BAD_REQUEST_RESPONSE, self)
  end.

(** [request.uri_mut().normalize()]. *)
Definition normalize_uri (request : Request bytes) : Outcome (Request bytes) :=
  let! uri := Uri.normalize (uri request) in
  Return (mkRequest (Request.body request) (Request.headers request) (method request) uri
            (Request.version request)).

(** [Service::call]; the future it returns is ready. *)
Definition call (now : Time) (request : Request bytes) (self : ConnectionService) :
    Outcome (Response bytes * ConnectionService) :=
  let! request := normalize_uri request in
  match method request with
  | Options => handle_method_options now request self
  | Setup => handle_method_setup request self
  | _ => Return (NOT_IMPLEMENTED_RESPONSE, self)
  end.

Definition service_poll_ready {E} : Poll unit E := Ok (Ready tt).
End Service.
Arguments ConnectionService {_}.

(** ** What the service answers *)

Section ServiceSpec.
Context `{HeaderMapLaws} `{UL : UriparseLaws} `{TimeOps}
  {SM SR : Type} `{!LinkedSetOps SM Method} `{!LinkedSetLaws SM Method}
  `{!LinkedSetOps SR RangeFormat} `{!LinkedSetLaws SR RangeFormat}.

Notation service_call := (call (SM := SM) (SR := SR)).

(** The status of the answer to a request. *)
Definition answer_status (request : Request bytes) : StatusCode :=
  match method request with
  | Options => if is_asterisk (uri request) then OK else NotFound
  | Setup =>
      match typed_try_get (AcceptRanges SR) (Request.headers request) with
      | Ok _ => HeaderFieldNotValidForResource
      | Err _ => BadRequest
      end
  | _ => NotImplemented
  end.

(** The session after a request: OPTIONS gives it its full time from now. *)
Definition session_after (now : Time) (request : Request bytes) (session : option ServerSession)
    (session' : option ServerSession) : Prop :=
  match method request, session with
  | Options, Some s =>
      exists t, time_add now DEFAULT_SESSION_TIMEOUT = Some t /\ session' = Some (mkServerSession t (session_id s))
  | _, _ => session' = session
  end.

(** The methods the answer to OPTIONS lists are read back as they are. *)
Lemma supported_methods_read m :
  exists s, typed_try_get (Public SM) (typed_insert (public_from_iter (S := SM) SUPPORTED_METHODS) m)
            = Ok (Some (mkPublic s))
    /\ set_iter s = SUPPORTED_METHODS.
Proof.
  assert (Hiter : set_iter (set_from_iter (S := SM) SUPPORTED_METHODS) = SUPPORTED_METHODS)
    by exact (set_iter_from_iter SUPPORTED_METHODS).
  assert (Hv : Forall method_wf (set_iter (set_from_iter (S := SM) SUPPORTED_METHODS)))
    by (rewrite Hiter; repeat constructor).
  assert (Hd : NoDup (set_iter (set_from_iter (S := SM) SUPPORTED_METHODS))).
  { rewrite Hiter. apply NoDup_cons. split; [now apply not_elem_of_cons|apply NoDup_singleton]. }
  pose proof (list_decode_encode method_wf _ Hv Hd) as Hr. rewrite Hiter in Hr.
  destruct Hr as (s & Hr & Hs). exists s. split; [|done].
  unfold typed_try_get. rewrite typed_insert_get_all by done.
  exact (f_equal (result_map (fmap mkPublic)) Hr).
Qed.

(** No list of range formats is read from the answer to SETUP. *)
Lemma no_ranges_read m :
  exists e, typed_try_get (AcceptRanges SR) (typed_insert (accept_ranges_new (S := SR)) m) = Err e.
Proof.
  unfold typed_try_get. rewrite typed_insert_get_all by done.
  pose proof (list_decode_encode (S := SR) range_format_wf set_new) as Hr. rewrite set_iter_new in Hr.
  destruct (Hr (Forall_nil_2 _) (NoDup_nil_2)) as [e He]. exists e.
  exact (f_equal (result_map (fmap mkAcceptRanges)) He).
Qed.

(** The answers the service has, by their status and headers. *)
Inductive service_answer : StatusCode -> HeaderMap -> Prop :=
  | answer_options : service_answer OK (typed_insert (public_from_iter (S := SM) SUPPORTED_METHODS) map_default)
  | answer_setup :
      service_answer HeaderFieldNotValidForResource (typed_insert (accept_ranges_new (S := SR)) map_default)
  | answer_plain status :
      status ∈ [NotFound; Status.BadRequest; NotImplemented] -> service_answer status map_default.

Lemma service_call_shape now (request : Request bytes) self response self' :
  service_call now request self = Return (response, self') ->
  exists status headers reason, response = mkResponse [] headers reason status Rtsp2_0
    /\ canonical_reason status = Some reason /\ service_answer status headers.
Proof.
  unfold call. destruct (normalize_uri request) as [r|]; [|done]. cbn [outcome_bind].
  assert (Hplain : forall status reason, canonical_reason status = Some reason ->
            status ∈ [NotFound; Status.BadRequest; NotImplemented] ->
            exists status' headers reason', mkResponse ([] : bytes) map_default reason status Rtsp2_0
              = mkResponse [] headers reason' status' Rtsp2_0
              /\ canonical_reason status' = Some reason' /\ service_answer status' headers).
  { intros status reason Hr Hs. do 3 eexists. split; [reflexivity|]. split; [exact Hr|now constructor]. }
  destruct (method r); try (intros [= <- _]; apply Hplain; [reflexivity|now repeat constructor]; fail).
  - unfold handle_method_options. destruct (match session self with Some _ => _ | None => _ end); [|done].
    cbn [outcome_bind request_map uri]. destruct (is_asterisk _).
    + intros [= <- _]. do 3 eexists. split; [reflexivity|]. split; [reflexivity|constructor].
    + intros [= <- _]. apply Hplain; [reflexivity|now repeat constructor].
  - unfold handle_method_setup. cbn [request_map Request.headers]. destruct (typed_try_get _ _).
    + intros [= <- _]. do 3 eexists. split; [reflexivity|]. split; [reflexivity|constructor].
    + intros [= <- _]. apply Hplain; [reflexivity|now repeat constructor].
Qed.

Lemma not_supported (m : Method) : m ∉ SUPPORTED_METHODS <-> m <> Options /\ m <> Setup.
Proof. unfold SUPPORTED_METHODS. rewrite !not_elem_of_cons. pose proof (not_elem_of_nil m). tauto. Qed.

Ltac answered :=
  eexists _, _; split; [reflexivity|]; split; [reflexivity|]; split; [reflexivity|];
  split; [rewrite not_supported; split; try done; now intros []|];
  split; [try done|split; [try done|try done]]; try (intros _).

Lemma service_call_answers now (request : Request bytes) (self : ConnectionService) :
  uri_made (uri request) ->
  (session self <> None -> is_Some (time_add now DEFAULT_SESSION_TIMEOUT)) ->
  exists response self', service_call now request self = Return (response, self')
    /\ Response.body response = [] /\ status_code response = answer_status request
    /\ (status_code response = NotImplemented <-> method request ∉ SUPPORTED_METHODS)
    /\ (status_code response = OK ->
        exists s, typed_try_get (Public SM) (Response.headers response) = Ok (Some (mkPublic s))
          /\ set_iter s = SUPPORTED_METHODS)
    /\ (status_code response = HeaderFieldNotValidForResource ->
        exists e, typed_try_get (AcceptRanges SR) (Response.headers response) = Err e)
    /\ session_after now request (session self) (session self').
Proof.
  intros Hu Ht. unfold call, normalize_uri.
  destruct (normalize_normalized _ (uri_made_wf _ Hu)) as (u & -> & _ & _ & Hs).
  assert (Ha : is_asterisk u = is_asterisk (uri request)).
  { destruct u as [[?|]], (uri request) as [[?|]]; done. }
  destruct request as [b h m u0 v]. destruct self as [[s|]]; cbn in *.
  - unfold answer_status, session_after. cbn. destruct m; try (answered; fail).
    + unfold handle_method_options, touch, set_timeout. cbn.
      destruct (Ht ltac:(done)) as [t ->]. cbn. rewrite Ha.
      destruct (is_asterisk u0); answered; first [exact (supported_methods_read _)|now exists t].
    + unfold handle_method_setup. cbn.
      destruct (typed_try_get _ _); answered. exact (no_ranges_read _).
  - unfold answer_status, session_after. cbn. destruct m; try (answered; fail).
    + unfold handle_method_options. cbn. rewrite Ha.
      destruct (is_asterisk u0); answered. exact (supported_methods_read _).
    + unfold handle_method_setup. cbn.
      destruct (typed_try_get _ _); answered. exact (no_ranges_read _).
Qed.

(** C37: The service answers every request whose URI was made by this library, as long as a session it
    has can be given its time. The answer has an empty body; it is Not Implemented exactly for the
    methods that are not supported. The answer to OPTIONS on an asterisk lists exactly the supported
    methods, in order. The answer to a valid SETUP has an Accept-Ranges header that lists no range
    format, which its receiver cannot decode. Only OPTIONS prolongs the session, and nothing changes
    its identifier. *)
Theorem service_call_spec now (request : Request bytes) (self : ConnectionService) :
  uri_made (uri request) ->
  (session self <> None -> is_Some (time_add now DEFAULT_SESSION_TIMEOUT)) ->
  exists response self', service_call now request self = Return (response, self')
    /\ Response.body response = [] /\ status_code response = answer_status request
    /\ (status_code response = NotImplemented <-> method request ∉ SUPPORTED_METHODS)
    /\ (status_code response = OK ->
        exists s, typed_try_get (Public SM) (Response.headers response) = Ok (Some (mkPublic s))
          /\ set_iter s = SUPPORTED_METHODS)
    /\ (status_code response = HeaderFieldNotValidForResource ->
        exists e, typed_try_get (AcceptRanges SR) (Response.headers response) = Err e)
    /\ session_after now request (session self) (session self').
Proof. exact (service_call_answers now request self). Qed.
End ServiceSpec.

(** ** A concrete run *)

(** Time in seconds, which ends. *)
Module Seconds.
#[export] Instance time : TimeOps := {|
  Time := N;
  time_add t d := if (t + as_secs d <=? 1000)%N then Some (t + as_secs d)%N else None;
  time_after t u := (u <? t)%N;
  time_since t u := if (u <=? t)%N then Some (mkDuration (t - u) 0) else None;
|}.
End Seconds.
#[local] Existing Instance Seconds.time.
#[local] Existing Instances SmallWorld.ops SmallWorld.references SmallWorld.laws.

Definition sample_session : ServerSession := mkServerSession (100%N : @Time Seconds.time) sample_id.

Definition sample_request (m : Method) (u : URI) : Request bytes :=
  mkRequest (bs "body") [] m u Rtsp2_0.

Notation sample_call := (call (SM := list Method) (SR := list RangeFormat)).

Example server_session_ex :
  is_expired 101%N sample_session = true /\ is_expired 100%N sample_session = false
  /\ session_timeout 90%N sample_session = Some (mkDuration 10 0) /\ session_timeout 101%N sample_session = None
  /\ touch 941%N sample_session = Panic.
Proof. now vm_compute. Qed.

Example service_ex :
  (let! r := sample_call 90%N (sample_request Options asterisk) (mkConnectionService (Some sample_session)) in
   Return (status_code (fst r), Response.headers (fst r), expire_time <$> session (snd r)))
  = Return (OK, [(HeaderName.Public, mkHeaderValue (bs "OPTIONS, SETUP"))], Some 150%N)
  /\ (let! r := sample_call 90%N (sample_request Setup sample_uri) (mkConnectionService None) in
      Return (status_code (fst r), Response.headers (fst r)))
     = Return (HeaderFieldNotValidForResource, [(HeaderName.AcceptRanges, mkHeaderValue [])])
  /\ (let! r := sample_call 90%N (sample_request Play sample_uri) (mkConnectionService None) in
      Return (status_code (fst r)))
     = Return NotImplemented.
Proof. repeat split; reflexivity. Qed.

Lemma service_call_spec_witness :
  exists response self',
    sample_call 90%N (sample_request Options asterisk) (mkConnectionService (Some sample_session))
    = Return (response, self')
    /\ status_code response = OK
    /\ exists t, time_add (TimeOps := Seconds.time) 90%N DEFAULT_SESSION_TIMEOUT = Some t
         /\ session self' = Some (mkServerSession t sample_id).
Proof.
  destruct (service_call_spec (SM := list Method) (SR := list RangeFormat) (90%N : @Time Seconds.time)
              (sample_request Options asterisk) (mkConnectionService (Some sample_session)))
    as (r & s & H1 & _ & H2 & _ & _ & _ & H3); [exact made_asterisk|now eexists|].
  exists r, s. split; [exact H1|]. split; [exact H2|exact H3].
Defined.
