(* ===== verification/Serving.v ===== *)
(** * From the receiver to the service

    The composition of the forwarding receiver and of the request handler over the bounded channel
    between them, which [Connection::with_config] of [rtsp-2/src/protocol/connection/mod.rs] makes,
    in any interleaving of the two tasks; and the service of [rtsp-2/src/server.rs] as the service
    of the request handler. *)

From Stdlib Require Import Strings.Byte.
From stdpp Require Import base list numbers gmap strings.
From S2P Require Import Prelude Text Version Method HeaderName HeaderValue HeaderMap CSeq.
From S2P Require Import ContentLength Status Request Response Codec Futures Forwarding Handler.

Local Open Scope N_scope.
Local Open Scope rust_scope.

(** ** A channel of which both ends are used *)

(** What the sink takes is what the stream has given, in order, and what it has not given yet. Each
    sender has a place of its own, besides those of the buffer, so that a full channel is not empty. *)
Class BoundedLaws (C Item E : Type) `{!StreamOps C Item} `{!SinkOps C Item E} := {
  #[global] bounded_stream :: StreamLaws C Item;
  #[global] bounded_sink :: SinkLaws C Item E;
  delivered : C -> list Item;
  delivered_pending : forall c, taken (E:=E) c = delivered c ++ pending c;
  delivered_start_send : forall c item, delivered (start_send (E:=E) c item).2 = delivered c;
  delivered_stream_poll : forall c,
    match stream_poll c with
    | (Ready (Some item), c') => delivered c' = delivered c ++ [item]
    | (_, c') => delivered c' = delivered c
    end;
  full_pending : forall c item item' c',
    start_send (E:=E) c item = (Ok (SinkNotReady item'), c') -> pending c <> [];
}.

(** A channel of one sender for runs of the model: what was read, what waits, the size of the buffer,
    and whether the receiver and the sender are there. *)
Record Channel (Item : Type) := mkChannel {
  was_read : list Item;
  waits : list Item;
  room : nat;
  reader : bool;
  writer : bool;
}.
Arguments mkChannel {Item} _ _ _ _ _.
Arguments was_read {Item} _.
Arguments waits {Item} _.
Arguments room {Item} _.
Arguments reader {Item} _.
Arguments writer {Item} _.

#[export] Instance channel_stream {Item} : StreamOps (Channel Item) Item := {|
  stream_poll c :=
    match waits c with
    | item :: rest => (Ready (Some item), mkChannel (was_read c ++ [item]) rest (room c) (reader c) (writer c))
    | [] => (if writer c then NotReady else Ready None, c)
    end;
|}.

#[export] Instance channel_sink {Item} : SinkOps (Channel Item) Item unit := {|
  start_send c item :=
    if negb (reader c) then (Err tt, c)
    else if (length (waits c) <=? room c)%nat
    then (Ok SinkReady, mkChannel (was_read c) (waits c ++ [item]) (room c) (reader c) (writer c))
    else (Ok (SinkNotReady item), c);
|}.

#[export] Instance channel_laws {Item} : BoundedLaws (Channel Item) Item unit.
Proof.
  unshelve refine {| bounded_stream := {| pending := waits |};
                     bounded_sink := {| taken c := was_read c ++ waits c |};
                     delivered := was_read |}.
  - intros [l [|item rest] n r []]; now repeat split.
  - intros [l w n [] b] item; unfold start_send, channel_sink; cbn [reader room waits was_read negb]; [|done].
    destruct (length w <=? n)%nat; cbn; [now rewrite app_assoc|done].
  - done.
  - intros [l w n [] b] item; unfold start_send, channel_sink; cbn [reader room waits was_read negb]; [|done].
    now destruct (length w <=? n)%nat.
  - now intros [l [|item rest] n r []].
  - intros [l w n [] b] item item' c'; unfold start_send, channel_sink; cbn [reader room waits negb]; [|done].
    destruct (Nat.leb_spec (length w) n); [done|]. intros _. cbn. now destruct w.
Defined.

Section Serving.
Context `{HeaderMapLaws} `{URIOps} `{ClockOps} {C Tx TService TFuture TResponse TxEvent : Type}
  `{!StreamOps C (CSeq * Request bytes)} `{!SinkOps C (CSeq * Request bytes) unit}
  `{!BoundedLaws C (CSeq * Request bytes) unit} `{!UnboundedOps Tx Message} `{!UnboundedLaws Tx Message}.
Context (is_rtspu : URI -> bool) (call : TService -> Request bytes -> TFuture * TService)
  (into : TResponse -> Response bytes).

Notation Forwarding := (ForwardingReceiver (Chan := C)).
Notation Handler := (RequestHandler (Rx := C) (Tx := Tx) (TService := TService) (TFuture := TFuture)
                       (TxEvent := TxEvent)).
Notation HEnv := (Env (TFuture := TFuture) (TResponse := TResponse)).
Notation poll := (handler_poll (TxEvent := TxEvent) is_rtspu call into).
Notation continue_loop := (continue_loop (TResponse := TResponse)).

(** ** What the request handler does to the channel *)

(** The channel after the items have been read from it. *)
Inductive polled : C -> list (CSeq * Request bytes) -> C -> Prop :=
  | polled_nil c : polled c [] c
  | polled_empty c c1 item l c' :
      stream_poll c = (item, c1) -> (forall i, item <> Ready (Some i)) -> polled c1 l c' -> polled c l c'
  | polled_item c c1 i l c' :
      stream_poll c = (Ready (Some i), c1) -> polled c1 l c' -> polled c (i :: l) c'.

Lemma polled_delivered c l c' :
  polled c l c' -> delivered c' = delivered c ++ l /\ pending c = l ++ pending c'.
Proof.
  induction 1 as [c|c c1 item l c' Hc Hi _ [IHd IHp]|c c1 i l c' Hc _ [IHd IHp]].
  - now rewrite app_nil_r.
  - pose proof (delivered_stream_poll c) as Hd. pose proof (pending_stream_poll c) as Hp.
    rewrite Hc in Hd, Hp. destruct item as [[i|]|]; [now destruct (Hi i)| |];
      destruct Hp as [Hp Hp1]; rewrite Hp1 in IHp; now rewrite IHd, Hd, Hp.
  - pose proof (delivered_stream_poll c) as Hd. pose proof (pending_stream_poll c) as Hp.
    rewrite Hc in Hd, Hp. rewrite IHd, Hd, Hp, IHp. now rewrite <- app_assoc.
Qed.

Lemma continue_loop_same fuel (env : HEnv) cseq (self : Handler) r self' :
  continue_loop fuel env cseq self = Return (r, self') -> same_work self self'.
Proof.
  revert self. induction fuel as [|fuel IH]; intros self; [done|]. cbn [Handler.continue_loop].
  destruct (continue_timer self) as [t|]; [|now intros [= _ <-]].
  destruct (delay_poll env t) as [[[]|]|[]]; try done.
  - destruct (send_response_frame cseq CONTINUE_RESPONSE self) as [Hsame _].
    unfold reset_continue_timer. destruct (continue_wait_duration _); cbn [outcome_bind].
    + destruct (delay_after _ _); [|done]. cbn [outcome_bind]. intros E%IH. etransitivity; [exact Hsame|exact E].
    + intros E%IH. now transitivity (send_response cseq CONTINUE_RESPONSE self).
  - now intros [= _ <-].
  - intros E%IH. exact E.
Qed.

Lemma poll_serviced_request_rx (env : HEnv) (self : Handler) r self' :
  poll_serviced_request into env self = Return (r, self') ->
  rx_incoming_request self' = rx_incoming_request self.
Proof.
  unfold poll_serviced_request. destruct (serviced_request self) as [[cseq f]|]; [|now intros [= _ <-]].
  destruct (service_poll env f) as [[[response|]|e] f'].
  - intros [= _ <-]. exact (proj1 (proj1 (send_response_frame cseq (into response) self))).
  - unfold poll_continue_timer. destruct (continue_loop _ _ _ _) as [[r1 self1]|] eqn:E; [|done].
    intros [= _ <-]. exact (proj1 (continue_loop_same _ _ _ _ _ _ E)).
  - intros [= _ <-]. exact (proj1 (proj1 (send_response_frame cseq INTERNAL_SERVER_ERROR_RESPONSE self))).
Qed.

Lemma process_request_rx (env : HEnv) cseq request (self self' : Handler) :
  process_request is_rtspu call env cseq request self = Return self' ->
  rx_incoming_request self' = rx_incoming_request self.
Proof.
  unfold process_request. destruct (is_rtspu _).
  { intros [= <-]. exact (proj1 (proj1 (send_response_frame cseq NOT_IMPLEMENTED_RESPONSE self))). }
  destruct (missing_content_type _).
  { intros [= <-]. exact (proj1 (proj1 (send_response_frame cseq BAD_REQUEST_RESPONSE self))). }
  unfold reset_continue_timer. destruct (continue_wait_duration self); cbn [outcome_bind].
  - destruct (delay_after _ _); [|done]. cbn [outcome_bind]. destruct (call _ _). now intros [= <-].
  - destruct (call _ _). now intros [= <-].
Qed.

Lemma handler_poll_polled fuel (env : HEnv) (self : Handler) r self' sent :
  poll fuel env self = Return (r, self', sent) ->
  exists l, polled (rx_incoming_request self) l (rx_incoming_request self').
Proof.
  revert self. induction fuel as [|fuel IH]; intros self; [done|]. cbn [handler_poll].
  destruct (poll_serviced_request into env self) as [[r1 self1]|] eqn:E1; [|done]. cbn [outcome_bind].
  apply poll_serviced_request_rx in E1. destruct r1 as [[]|].
  2:{ intros [= _ <- _]. exists []. rewrite E1. constructor. }
  rewrite E1. destruct (stream_poll (rx_incoming_request self)) as [item rx] eqn:Ep.
  assert (Hend : (forall i, item <> Ready (Some i)) -> polled (rx_incoming_request self) [] rx).
  { intros Hi. eapply polled_empty; [exact Ep|exact Hi|constructor]. }
  destruct item as [[[cseq request]|]|].
  - clear Hend. destruct (process_request _ _ _ _ _ _) as [self2|] eqn:E2; [|done]. cbn [outcome_bind].
    apply process_request_rx in E2. intros [l Hl]%IH. exists ((cseq, request) :: l).
    eapply polled_item; [exact Ep|]. now rewrite E2 in Hl.
  - unfold handler_shutdown. intros [= _ <- _]. exists []. now apply Hend.
  - intros [= _ <- _]. exists []. now apply Hend.
Qed.

(** ** What the forwarding receiver does to it *)

Lemma forward_loop_delivered fuel expected (self : Forwarding) r self' :
  forward_loop fuel expected self = Return (r, self') ->
  delivered (tx_incoming_request self') = delivered (tx_incoming_request self).
Proof.
  revert expected self. induction fuel as [|fuel IH]; intros expected self; [done|]. cbn [forward_loop].
  destruct (buffered_requests self !! expected) as [request|]; [|now intros [= _ <-]].
  pose proof (delivered_start_send (tx_incoming_request self) (expected, request)) as Hd.
  destruct (start_send _ _) as [[[|[c req]]|[]] tx]; cbn [snd] in Hd.
  - intros E%IH. now rewrite E.
  - now intros [= _ <-].
  - now intros [= _ <-].
Qed.

(** The items that a poll forwards join the end of those that wait. *)
Lemma forwarding_poll_channel (self : Forwarding) r self' :
  forwarding_poll self = Return (r, self') ->
  delivered (tx_incoming_request self') = delivered (tx_incoming_request self)
  /\ exists sent, pending (tx_incoming_request self') = pending (tx_incoming_request self) ++ sent.
Proof.
  unfold forwarding_poll. destruct (incoming_sequence_number self) as [e|].
  2:{ intros [= _ <-]. split; [done|]. exists []. now rewrite app_nil_r. }
  intros E. pose proof (forward_loop_delivered _ _ _ _ _ E) as Hd. split; [exact Hd|].
  destruct (forward_loop_spec (S (size (buffered_requests self))) e self ltac:(lia))
    as (r1 & self1 & E1 & sent & Hlog & _).
  rewrite E in E1. injection E1 as <- <-. exists sent.
  rewrite !delivered_pending, Hd, <- app_assoc in Hlog. now apply app_inv_head in Hlog.
Qed.

Lemma handle_request_channel request (self : Forwarding) r self' :
  handle_request request self = Return (r, self') ->
  tx_incoming_request self' = tx_incoming_request self.
Proof.
  unfold handle_request, incoming_sequence_number_or_default.
  destruct (typed_get CSeq (Request.headers request)) as [c|]; [|now intros [= _ <-]].
  destruct (incoming_sequence_number self); cbn;
    (destruct (_ <? _); [now intros [= _ <-]|]; destruct (_ <? _); [|done]; cbn;
     destruct (_ !! c); now intros [= _ <-]).
Qed.

(** ** The two tasks *)

(** The receiver's half and the handler, which hold the two ends of one channel. *)
Record Pipe := mkPipe { incoming : Forwarding; handler : Handler }.

Definition set_channel (c : C) (self : Forwarding) : Forwarding :=
  mkForwardingReceiver (buffered_requests self) (incoming_sequence_number self)
    (request_buffer_size self) c.

(** The runs of the two tasks, with the requests that were accepted and those the handler has taken:
    the connection hands over a request when the buffer has room, polls the forwarding receiver, and
    the handler is polled with enough fuel, in any order, in environments that are [allowed]. *)
Inductive pipe_run (allowed : HEnv -> Prop) (service : TService) (c : C) (n : N) (log : list Message) :
    list (CSeq * Request bytes) -> list (CSeq * Request bytes) -> Pipe -> Prop :=
  | pipe_new tx event wait :
      taken (E:=unit) c = [] -> posted tx = log ->
      pipe_run allowed service c n log [] [] (mkPipe (forwarding_new c n) (handler_new service c tx event wait))
  | pipe_accept accepted handled p request r fwd :
      pipe_run allowed service c n log accepted handled p -> is_full (incoming p) = false ->
      handle_request request (incoming p) = Return (r, fwd) ->
      pipe_run allowed service c n log (accepted ++ Forwarding.accepted request r) handled (mkPipe fwd (handler p))
  | pipe_forward accepted handled p a fwd :
      pipe_run allowed service c n log accepted handled p -> forwarding_poll (incoming p) = Return (Ok a, fwd) ->
      pipe_run allowed service c n log accepted handled
        (mkPipe fwd (set_rx_incoming_request (tx_incoming_request fwd) (handler p)))
  | pipe_serve accepted handled p fuel env r h sent more :
      pipe_run allowed service c n log accepted handled p -> allowed env -> good_env env (continue_wait_duration (handler p)) ->
      (length (pending (rx_incoming_request (handler p))) < fuel)%nat ->
      poll fuel env (handler p) = Return (r, h, sent) ->
      pending (rx_incoming_request (handler p)) = more ++ pending (rx_incoming_request h) ->
      pipe_run allowed service c n log accepted (handled ++ more)
        (mkPipe (set_channel (rx_incoming_request h) (incoming p)) h).

(** Each task runs as its own file says, and what the handler has taken is what the channel has
    delivered. *)
Lemma pipe_run_inv allowed service c n log accepted handled p :
  pipe_run allowed service c n log accepted handled p ->
  fwd_run c n accepted (incoming p)
  /\ handler_run (TResponse := TResponse) is_rtspu call into log handled (handler p)
  /\ tx_incoming_request (incoming p) = rx_incoming_request (handler p)
  /\ delivered (rx_incoming_request (handler p)) = handled /\ taken (E:=unit) c = [].
Proof.
  induction 1 as [tx event wait Hc Hlog
    |accepted handled p request r fwd _ (Hf & Hh & Hch & Hd & Hc) Hfull Hr
    |accepted handled p a fwd _ (Hf & Hh & Hch & Hd & Hc) Hp
    |accepted handled p fuel env r h sent more _ (Hf & Hh & Hch & Hd & Hc) _ Henv Hfuel Hp Hmore]; cbn.
  - split; [constructor|]. split; [now constructor|]. split; [done|]. split; [|done].
    rewrite delivered_pending in Hc. now apply app_eq_nil in Hc as [? _].
  - pose proof (handle_request_channel _ _ _ _ Hr) as E. split; [now apply (fwd_handle _ _ _ (incoming p))|].
    rewrite E. now repeat (split; [done|]).
  - destruct (forwarding_poll_channel _ _ _ Hp) as [Hd' [new Hnew]].
    split; [now apply (fwd_poll _ _ _ (incoming p) a)|].
    split; [apply (handler_run_arrive _ _ _ _ _ _ _ new); [done|now rewrite Hnew, Hch]|].
    split; [done|]. split; [|done]. rewrite Hd', Hch. exact Hd.
  - destruct (handler_poll_polled _ _ _ _ _ _ Hp) as [l Hl].
    destruct (polled_delivered _ _ _ Hl) as [Hdl Hpl].
    assert (more = l) as -> by (rewrite Hmore in Hpl; now apply app_inv_tail in Hpl).
    split.
    { apply (fwd_read _ _ _ (incoming p) (rx_incoming_request h)); [exact Hf|].
      rewrite Hch, !delivered_pending, Hdl, Hpl, <- app_assoc. done. }
    split; [now apply (handler_run_poll _ _ _ _ _ _ fuel env (handler p) r h sent)|].
    split; [done|]. split; [|done]. now rewrite Hdl, Hd.
Qed.

(** ** A service whose futures are ready *)

(** [ready] is what a future answers at its first poll. *)
Context (ready : TFuture -> option TResponse).

Definition immediate (env : HEnv) : Prop :=
  forall f response, ready f = Some response -> service_poll env f = (Ok (Ready response), f).

(** The messages that answer the requests one after the other, and the service after them, when all
    its futures are ready. *)
Fixpoint replies (service : TService) (requests : list (CSeq * Request bytes)) :
    option (list Message * TService) :=
  match requests with
  | [] => Some ([], service)
  | (c, request) :: requests =>
      match refusal is_rtspu request with
      | Some response =>
          prod_map (cons (answer c response)) id <$> replies service requests
      | None =>
          let '(f, service) := call service request in
          response ← ready f;
          prod_map (cons (answer c (into response))) id <$> replies service requests
      end
  end.

Lemma replies_app service l1 l2 :
  replies service (l1 ++ l2)
  = '(m1, service1) ← replies service l1;
    '(m2, service2) ← replies service1 l2;
    Some (m1 ++ m2, service2).
Proof.
  revert service. induction l1 as [|[c r] l1 IH]; intros service; cbn [app replies].
  { cbn. now destruct (replies service l2) as [[]|]. }
  destruct (refusal is_rtspu r) as [response|].
  - rewrite IH. destruct (replies service l1) as [[m1 s1]|]; [|done]. cbn.
    now destruct (replies s1 l2) as [[m2 s2]|].
  - destruct (call service r) as [f s]. destruct (ready f) as [response|]; [|done]. cbn. rewrite IH.
    destruct (replies s l1) as [[m1 s1]|]; [|done]. cbn. now destruct (replies s1 l2) as [[m2 s2]|].
Qed.

(** A handler that has just finished its requests. *)
Definition at_rest (log : list Message) (service : TService) (self : Handler) : Prop :=
  serviced_request self = None /\ Handler.service self = service
  /\ (continue_wait_duration self = None -> continue_timer self = None)
  /\ forall tx, sender_handle self = Some tx -> posted tx = log.

Lemma send_response_at_rest log cseq response (self : Handler) s :
  at_rest log s self ->
  at_rest (log ++ [answer cseq response]) s (send_response cseq response self)
  /\ rx_incoming_request (send_response cseq response self) = rx_incoming_request self
  /\ continue_wait_duration (send_response cseq response self) = continue_wait_duration self.
Proof.
  intros (Hn & Hs & Hw & Hlog).
  destruct (send_response_frame cseq response self) as [(Hrx & Hsv & Hsr & _ & Hwait) Ht].
  pose proof (send_response_posted cseq response self _ Hlog) as Hp.
  split; [|now split]. split; [congruence|]. split; [congruence|]. split; [now rewrite Ht, Hwait|done].
Qed.

(** One request, taken and answered: the handler is where it was, with one message more. *)
Lemma process_ready env log (self : Handler) cseq request fuel :
  at_rest log (service self) self -> good_env env (continue_wait_duration self) -> immediate env ->
  forall messages s', replies (service self) [(cseq, request)] = Some (messages, s') ->
  exists self1 self', process_request is_rtspu call env cseq request self = Return self1
    /\ poll (S fuel) env self1 = poll (S fuel) env self'
    /\ at_rest (log ++ messages) s' self'
    /\ rx_incoming_request self' = rx_incoming_request self
    /\ continue_wait_duration self' = continue_wait_duration self.
Proof.
  intros Hrest Henv Him messages s'. cbn [replies]. unfold refusal, process_request.
  assert (Hrefused : forall response,
            Some (prod_map (cons (answer cseq response)) id ([] : list Message, service self))
            = Some (messages, s') ->
            exists self1 self', Return (send_response cseq response self) = Return self1
              /\ poll (S fuel) env self1 = poll (S fuel) env self'
              /\ at_rest (log ++ messages) s' self'
              /\ rx_incoming_request self' = rx_incoming_request self
              /\ continue_wait_duration self' = continue_wait_duration self).
  { intros response [= <- <-]. do 2 eexists. split; [reflexivity|]. split; [reflexivity|].
    exact (send_response_at_rest log cseq response self _ Hrest). }
  destruct (is_rtspu (uri request)); [apply Hrefused|].
  destruct (missing_content_type request); [apply Hrefused|]. clear Hrefused.
  destruct Hrest as (Hn & _ & Hw & Hlog).
  destruct (reset_continue_timer_spec env self Henv Hw) as (self1 & -> & Hsame & Htx & Hw1 & _).
  destruct Hsame as (Hrx & Hsv & _ & _ & Hwait). cbn [outcome_bind]. rewrite Hsv.
  destruct (call (service self) request) as [f s]. destruct (ready f) as [response|] eqn:Ef; [|done].
  cbn. intros [= <- <-].
  set (self2 := mkRequestHandler _ _ _ _ _ _ _).
  exists self2, (finish_request (send_response cseq (into response) self2)).
  split; [reflexivity|]. split.
  - cbn [handler_poll]. unfold poll_serviced_request at 1. cbn [serviced_request self2].
    rewrite (Him f response Ef). reflexivity.
  - destruct (send_response_frame cseq (into response) self2) as [(Hrx2 & Hsv2 & _ & _ & Hwait2) _].
    assert (Hlog2 : forall tx, sender_handle self2 = Some tx -> posted tx = log)
      by (cbn; rewrite Htx; exact Hlog).
    pose proof (send_response_posted cseq (into response) self2 _ Hlog2) as Hp.
    cbn. split; [|now rewrite Hrx2, Hwait2]. split; [done|]. split; [exact Hsv2|]. split; [done|]. exact Hp.
Qed.

Lemma immediate_poll fuel env log messages s' more (self : Handler) r self' sent :
  at_rest log (service self) self -> good_env env (continue_wait_duration self) -> immediate env ->
  poll fuel env self = Return (r, self', sent) ->
  pending (rx_incoming_request self) = more ++ pending (rx_incoming_request self') ->
  replies (service self) more = Some (messages, s') ->
  at_rest (log ++ messages) s' self' /\ pending (rx_incoming_request self') = []
  /\ continue_wait_duration self' = continue_wait_duration self.
Proof.
  revert log messages more self.
  induction fuel as [|fuel IH]; intros log messages more self Hrest Henv Him; [done|].
  cbn [handler_poll]. unfold poll_serviced_request at 1. rewrite (proj1 Hrest). cbn [outcome_bind].
  pose proof (pending_stream_poll (rx_incoming_request self)) as Hp.
  destruct (stream_poll (rx_incoming_request self)) as [[[[cseq request]|]|] rx].
  - set (self1 := set_rx_incoming_request rx self). rewrite Hp.
    destruct (process_request _ _ env cseq request self1) as [self2|] eqn:E2; [|done]. cbn [outcome_bind].
    intros Hpoll Hmore Hre. destruct fuel as [|fuel]; [done|].
    pose proof (process_request_rx _ _ _ _ _ E2) as Hrx2.
    destruct (handler_poll_polled _ _ _ _ _ _ Hpoll) as [l [_ Hl]%polled_delivered].
    rewrite Hrx2 in Hl. cbn in Hl. rewrite Hl, app_comm_cons in Hmore. apply app_inv_tail in Hmore as <-.
    change ((cseq, request) :: l) with ([(cseq, request)] ++ l) in Hre. rewrite replies_app in Hre.
    destruct (replies (service self) [(cseq, request)]) as [[m1 s1]|] eqn:E1; [|done]. cbn in Hre.
    destruct (replies s1 l) as [[m2 s2]|] eqn:El; [|done]. cbn in Hre. injection Hre as <- <-.
    destruct (process_ready env log self1 cseq request fuel Hrest Henv Him _ _ E1)
      as (self3 & self4 & E3 & Hsame & Hrest4 & Hrx4 & Hw4).
    rewrite E2 in E3. injection E3 as <-. rewrite Hsame in Hpoll.
    rewrite app_assoc. pose proof (proj1 (proj2 Hrest4)) as Hs4. rewrite <- Hs4 in Hrest4, El.
    destruct (IH (log ++ m1) m2 l self4) as (Hrest' & Hp' & Hw'); [exact Hrest4| |done|exact Hpoll| |exact El|].
    + now rewrite Hw4.
    + now rewrite Hrx4.
    + split; [exact Hrest'|]. split; [exact Hp'|]. now rewrite Hw', Hw4.
  - destruct Hp as [Hp1 Hp2]. unfold handler_shutdown. intros [= _ <- _]. cbn. rewrite Hp1, Hp2, app_nil_r.
    intros <-. cbn. intros [= <- <-]. rewrite app_nil_r. split; [|done].
    split; [done|]. split; [done|]. split; [done|]. done.
  - destruct Hp as [Hp1 Hp2]. intros [= _ <- _]. cbn. rewrite Hp1, Hp2, app_nil_r.
    intros <-. cbn. intros [= <- <-]. rewrite app_nil_r. split; [|done]. exact Hrest.
Qed.

(** A service that is ready at once never leaves a request in service, and the messages are exactly
    its answers. *)
Lemma pipe_run_immediate allowed service c n log accepted handled p messages service' :
  (forall env, allowed env -> immediate env) ->
  pipe_run allowed service c n log accepted handled p ->
  replies service handled = Some (messages, service') ->
  at_rest (log ++ messages) service' (handler p).
Proof.
  intros Him Hrun. revert messages service'.
  induction Hrun as [tx event wait Hc Hlog
    |accepted handled p request r fwd _ IH Hfull Hr
    |accepted handled p a fwd Hrun IH Hp
    |accepted handled p fuel env r h sent more Hrun IH Hall Henv Hfuel Hp Hmore]; intros messages service'.
  - cbn. intros [= <- <-]. rewrite app_nil_r. split; [done|]. split; [done|]. split; [done|].
    cbn. now intros tx' [= <-].
  - exact (IH messages service').
  - exact (IH messages service').
  - rewrite replies_app. destruct (replies service handled) as [[m1 s1]|] eqn:E1; [|done]. cbn.
    destruct (replies s1 more) as [[m2 s2]|] eqn:E2; [|done]. cbn. intros [= <- <-].
    pose proof (IH _ _ eq_refl) as Hrest. pose proof (proj1 (proj2 Hrest)) as Hs.
    rewrite <- Hs in Hrest, E2. rewrite app_assoc.
    now destruct (immediate_poll fuel env _ m2 s2 more _ r h sent Hrest Henv (Him env Hall) Hp Hmore E2).
Qed.

(** Where the accepted requests are. *)
Lemma pipe_run_order allowed service c n log accepted handled p :
  pipe_run allowed service c n log accepted handled p ->
  let waiting := pending (rx_incoming_request (handler p)) in
  accepted ≡ₚ handled ++ waiting ++ map_to_list (buffered_requests (incoming p))
  /\ match accepted with
     | [] => True
     | (s, _) :: _ =>
         cseq_valid s /\ in_order s (handled ++ waiting)
         /\ incoming_sequence_number (incoming p) = Some (next s (handled ++ waiting))
     end.
Proof.
  intros (Hf & _ & Hch & Hd & Hc)%pipe_run_inv. cbv zeta. apply fwd_run_inv in Hf as (_ & _ & Hinv).
  assert (Hsent : taken (E:=unit) (tx_incoming_request (incoming p))
                  = handled ++ pending (rx_incoming_request (handler p)))
    by now rewrite delivered_pending, Hch, Hd.
  destruct accepted as [|[s x] accepted].
  - destruct Hinv as (_ & -> & Hempty). rewrite Hsent, Hc in Hempty.
    apply app_eq_nil in Hempty as [-> ->]. now rewrite map_to_list_empty.
  - destruct Hinv as (sent & e & Hs & Ho & Hv & -> & Hi & Hp & _). rewrite Hsent, Hc in Hs. cbn in Hs.
    rewrite Hs. split; [|done]. now rewrite Hp, app_assoc, Hs.
Qed.

(** ** Properties *)

(** C8: Whatever the interleaving of the two tasks: every request that was accepted has been taken by
    the handler, waits in the channel, or is in the buffer, once; the handler takes them with
    consecutive CSeqs from that of the first request on, however they arrived; and it has answered
    them in that order, the last of them perhaps not yet with its final response. *)
Theorem requests_served_in_order allowed service c n log accepted handled p :
  pipe_run allowed service c n log accepted handled p ->
  let waiting := pending (rx_incoming_request (handler p)) in
  accepted ≡ₚ handled ++ waiting ++ map_to_list (buffered_requests (incoming p))
  /\ match accepted with
     | [] => True
     | (s, _) :: _ =>
         cseq_valid s /\ in_order s (handled ++ waiting)
         /\ incoming_sequence_number (incoming p) = Some (next s (handled ++ waiting))
     end
  /\ exists l, answers is_rtspu handled (fst <$> serviced_request (handler p)) l
       /\ forall tx, sender_handle (handler p) = Some tx -> posted tx = log ++ l.
Proof.
  intros Hrun. pose proof (pipe_run_order _ _ _ _ _ _ _ _ Hrun) as [Hp Ho].
  apply pipe_run_inv in Hrun as (_ & [Hl _]%handler_run_inv & _). now repeat split.
Qed.
End Serving.
