(* ===== verification/HostSteps.v ===== *)
(** * A connection and its request handler

    What a connection of [Connection] with the receiver of this library does to the requests that
    its handler of [Handler] serves, in the task beside it: a poll of the connection is a sequence of
    steps of the pipe of [Serving], which so is an abstraction of the two tasks. *)

From Stdlib Require Import Strings.Byte.
From stdpp Require Import base list numbers gmap strings.
From S2P Require Import Prelude Text Version Method HeaderName HeaderValue HeaderMap CSeq.
From S2P Require Import Status Request Response Codec Futures Forwarding Handler Pending Shutdown Sender Receiver.
From S2P Require Import ReceiverSteps Connection ConnectionSteps Serving.

Local Open Scope rust_scope.

Section Host.
Context `{HeaderMapLaws} `{URIOps} `{ClockOps} {Date : Type} `{!TypedHeader Date}
  {Chan OTx ORx World C CE Tx TStream Rx TSink HRx RxInitiate TxEvent TService TFuture TResponse : Type}
  `{!StreamOps Chan (CSeq * Request bytes)} `{!SinkOps Chan (CSeq * Request bytes) unit}
  `{!BoundedLaws Chan (CSeq * Request bytes) unit}
  `{!OneshotOps World OTx ORx (PendingRequestResponse ORx)}
  `{!StreamOps C (PendingRequestUpdate OTx)} `{!UnboundedOps C (PendingRequestUpdate OTx)}
  `{!StreamOps CE CodecEvent} `{!UnboundedOps Tx Message} `{!UnboundedLaws Tx Message}
  `{!TryStreamOps TStream Message ProtocolError}
  `{!StreamOps Rx Message} `{!SinkOps TSink Message ProtocolError} `{!FlushOps TSink ProtocolError}.
Context (is_rtspu : URI -> bool) (call : TService -> Request bytes -> TFuture * TService)
  (into : TResponse -> Response bytes).

Notation TReceiver := (Receiver (Chan := Chan) (OTx := OTx) (CE := CE) (Tx := Tx) (TStream := TStream)).
Notation TShared := (Shared (World := World) (C := C)).
Notation TSender := (Sender (Rx := Rx) (TSink := TSink)).
Notation TConnection := (Connection TReceiver TSender HRx RxInitiate TxEvent).
Notation TEnv := (ConnEnv (PartsEnv Date) HRx RxInitiate).
Notation THandler := (RequestHandler (Rx := Chan) (Tx := Tx) (TService := TService) (TFuture := TFuture)
                        (TxEvent := TxEvent)).
Notation HEnv := (Handler.Env (TFuture := TFuture) (TResponse := TResponse)).

(** A connection with its request handler, which holds the other end of the channel that the
    forwarding receiver writes to. *)
Record Host := mkHost { host_connection : TConnection; host_handler : THandler }.

Definition forwarding_side (self : TConnection) : option (ForwardingReceiver (Chan := Chan)) :=
  Connection.receiver self ≫= forwarding_receiver.

Context (arrives : Message -> Prop) (allowed : HEnv -> Prop) (service : TService) (c : Chan) (n : N)
  (log : list Message).

Notation run := (pipe_run (TxEvent := TxEvent) is_rtspu call into allowed service c n log).

(** What happens at a step: one of the two tasks is polled, or another task does something. *)
Inductive HostEvent := ConnectionPolled | HandlerPolled | Elsewhere.

#[export] Instance host_event_eq_dec : EqDecision HostEvent.
Proof. solve_decision. Defined.

(** The steps of the two tasks as long as there is a forwarding receiver: the connection is polled,
    whatever happened to the futures of its own requests, the handler is polled with enough fuel,
    and other tasks use the other ends of the channels that the connection holds. What a task does
    to the channel between them is seen by the other. *)
Inductive host_step : HostEvent -> Host -> Host -> Prop :=
  | host_poll (env : TEnv) sh conn h a sh' conn' events f' :
      only_arrivals arrives conn ->
      connection_poll (W := TShared) env sh conn = Return (a, sh', conn', events) ->
      forwarding_side conn' = Some f' ->
      host_step ConnectionPolled (mkHost conn h) (mkHost conn' (set_rx_incoming_request (tx_incoming_request f') h))
  | host_serve fuel env conn conn' f h r h' sent :
      allowed env -> Handler.good_env env (continue_wait_duration h) ->
      (length (pending (rx_incoming_request h)) < fuel)%nat ->
      handler_poll is_rtspu call into fuel env h = Return (r, h', sent) ->
      forwarding_side conn = Some f ->
      forwarding_side conn' = Some (set_channel (rx_incoming_request h') f) ->
      host_step HandlerPolled (mkHost conn h) (mkHost conn' h')
  | host_other conn conn' h :
      forwarding_side conn' = forwarding_side conn -> host_step Elsewhere (mkHost conn h) (mkHost conn' h).

(** Their runs, from a new connection and a new handler on. *)
Inductive host_run : Host -> Prop :=
  | host_start conn tx event wait :
      forwarding_side conn = Some (forwarding_new c n) -> taken (E:=unit) c = [] -> posted tx = log ->
      host_run (mkHost conn (handler_new service c tx event wait))
  | host_next e p p' : host_run p -> host_step e p p' -> host_run p'.

(** ** Steps of the pipe *)

Lemma forwards_items given items errors (f f' : ForwardingReceiver (Chan := Chan)) :
  forwards given items errors f f' ->
  Forall (fun item => item.2 ∈ given /\ typed_get CSeq (Request.headers item.2) = Some item.1) items.
Proof.
  induction 1 as [f|given items errors f1 f2 request r f3 _ IH _ _|given items errors f1 f2 a f3 _ IH _];
    [constructor| |done].
  apply Forall_app. split.
  - eapply Forall_impl; [exact IH|]. intros item [Hin Hc]. split; [|done]. apply elem_of_app. now left.
  - unfold accepted. destruct r as [u|e]; [|constructor].
    destruct (typed_get CSeq (Request.headers request)) as [cseq|] eqn:Ec; [|constructor].
    apply Forall_singleton. cbn. split; [|done]. apply elem_of_app. right. now apply list_elem_of_singleton.
Qed.

Lemma set_rx_same (h : THandler) : set_rx_incoming_request (rx_incoming_request h) h = h.
Proof. now destruct h. Qed.

Lemma pipe_forwards accepted handled f h given items errors f' :
  run accepted handled (mkPipe f h) -> forwards given items errors f f' ->
  run (accepted ++ items) handled (mkPipe f' (set_rx_incoming_request (tx_incoming_request f') h)).
Proof.
  intros Hrun Hf. induction Hf as [f|given items errors f1 f2 request r f3 _ IH Hfull Hh
                                   |given items errors f1 f2 a f3 _ IH Hp].
  - rewrite app_nil_r. pose proof (pipe_run_inv _ _ _ _ _ _ _ _ _ _ _ Hrun) as (_ & _ & E & _).
    cbn in E. now rewrite E, set_rx_same.
  - rewrite app_assoc. pose proof (pipe_accept _ _ _ _ _ _ _ _ _ _ _ _ _ _ (IH Hrun) Hfull Hh) as Hnext.
    cbn [handler] in Hnext. now rewrite <- (handle_request_channel _ _ _ _ Hh) in Hnext.
  - exact (pipe_forward _ _ _ _ _ _ _ _ _ _ _ _ _ (IH Hrun) Hp).
Qed.

Lemma requests_arrive ms : Forall arrives ms -> Forall (fun q => arrives (MRequest q)) (requests_of ms).
Proof.
  induction 1 as [|m ms Hm _ IH]; [constructor|]. rewrite requests_of_cons. apply Forall_app.
  split; [|exact IH]. destruct m; cbn; now repeat constructor.
Qed.

(** What a poll of the connection does to its forwarding receiver. *)
Lemma connection_effect_forwards sh conn sh' conn' f' :
  connection_effect (M := Tx) (ORx := ORx) sh (Connection.receiver conn) sh' (Connection.receiver conn') ->
  only_arrivals arrives conn -> forwarding_side conn' = Some f' ->
  exists f given items errors, forwarding_side conn = Some f /\ forwards given items errors f f'
    /\ Forall (fun q => arrives (MRequest q)) given.
Proof.
  unfold only_arrivals, forwarding_side. destruct (Connection.receiver conn) as [r|]; cbn [connection_effect].
  2:{ now intros [-> _]. }
  intros (sh1 & r1 & (ms & errors & handled & answers & Hs & He & _) & Hk) Harr Hf'.
  destruct Hk as [[Hr1 _]|[Hr1 _]]; rewrite Hr1 in Hf'; [|done]. cbn in Hf'.
  pose proof (effect_requests _ _ _ _ _ _ _ _ He) as Hreq. unfold advanced in Hreq. cbn.
  destruct (forwarding_receiver r) as [f|]; [|destruct Hreq; congruence].
  destruct Hreq as (f1 & (items & Hforw) & [Hf1|Hf1]); [|congruence]. rewrite Hf' in Hf1. injection Hf1 as <-.
  exists f. do 3 eexists. split; [done|]. split; [exact Hforw|].
  destruct (requests_allowed r); [|constructor]. apply requests_arrive.
  unfold stream_advanced, advanced in Hs. destruct (stream r) as [s|] eqn:Es.
  - destruct Hs as (s' & Hs & _). exact (Harr r s ms s' eq_refl Es Hs).
  - destruct Hs as [-> _]. constructor.
Qed.

Definition from_arrivals (item : CSeq * Request bytes) : Prop :=
  arrives (MRequest item.2) /\ typed_get CSeq (Request.headers item.2) = Some item.1.

Lemma host_run_pipe p :
  host_run p ->
  exists f accepted handled, forwarding_side (host_connection p) = Some f
    /\ run accepted handled (mkPipe f (host_handler p)) /\ Forall from_arrivals accepted.
Proof.
  induction 1 as [conn tx event wait Hf Hc Hlog|e p p' _ (f & accepted & handled & Hf & Hrun & Hall) Hstep].
  { exists (forwarding_new c n), [], []. split; [done|]. split; [now apply pipe_new|constructor]. }
  destruct Hstep as [env sh conn h a sh' conn' events f' Harr Hp Hf'
    |fuel env conn conn' f0 h r h' sent Hal Henv Hfuel Hp Hf0 Hf'|conn conn' h E]; cbn in *.
  - pose proof (connection_poll_effect (M := Tx) (ORx := ORx) env sh conn) as He. rewrite Hp in He.
    destruct (connection_effect_forwards _ _ _ _ _ He Harr Hf') as (f1 & given & items & errors & Hf1 & Hforw & Hgiven).
    rewrite Hf in Hf1. injection Hf1 as <-. exists f', (accepted ++ items), handled. split; [done|].
    split; [exact (pipe_forwards _ _ _ _ _ _ _ _ Hrun Hforw)|].
    apply Forall_app. split; [exact Hall|]. eapply Forall_impl; [exact (forwards_items _ _ _ _ _ Hforw)|].
    intros item [Hin Hcs]. split; [|exact Hcs]. rewrite Forall_forall in Hgiven. now apply Hgiven.
  - rewrite Hf in Hf0. injection Hf0 as <-.
    destruct (handler_poll_polled _ _ _ _ _ _ _ _ _ Hp) as [l Hl].
    destruct (polled_delivered _ _ _ Hl) as [_ Hmore].
    exists (set_channel (rx_incoming_request h') f), accepted, (handled ++ l). split; [done|].
    split; [|exact Hall]. exact (pipe_serve _ _ _ _ _ _ _ _ _ _ (mkPipe f h) fuel env r h' sent l Hrun Hal Henv Hfuel Hp Hmore).
  - exists f, accepted, handled. now rewrite E.
Qed.
End Host.
