(* ===== verification/Progress.v ===== *)
(** * The progress of the requests

    A connection and its request handler, polled again and again in any order: the requests that
    wait in the buffer of the connection with numbers in a row from the expected one on are all
    forwarded and answered, when the futures of the service resolve. *)

From Stdlib Require Import Strings.Byte.
From stdpp Require Import base list numbers gmap strings.
From S2P Require Import Prelude Text Fairness Version Method HeaderName HeaderValue HeaderMap CSeq.
From S2P Require Import Status Request Response Codec Futures Forwarding Handler Pending Shutdown Sender Receiver.
From S2P Require Import ReceiverSteps Connection ConnectionSteps Serving HostSteps.

Local Open Scope nat_scope.
Local Open Scope rust_scope.

(** ** The forwarding receiver *)

Section ForwardingProgress.
Context `{HeaderMapLaws} `{URIOps} {Chan : Type}
  `{!StreamOps Chan (CSeq * Request bytes)} `{!SinkOps Chan (CSeq * Request bytes) unit}
  `{!BoundedLaws Chan (CSeq * Request bytes) unit}.

Notation FR := (ForwardingReceiver (Chan := Chan)).
Notation Item := (CSeq * Request bytes)%type.
Notation log self := (taken (E:=unit) (tx_incoming_request self)).

(** Requests in a row, the first of which is expected, that wait in the buffer. *)
Definition ready_row (row : list Item) (f : FR) : Prop :=
  exists e, incoming_sequence_number f = Some e /\ in_order e row /\ NoDup row.*1
    /\ Forall (fun item => buffered_requests f !! item.1 = Some item.2) row.

(** What is left of such a row after requests have been sent to the channel. *)
Definition row_after (row sent : list Item) (f : FR) : Prop :=
  (exists rest, row = sent ++ rest /\ ready_row rest f) \/ (exists more, sent = row ++ more).

Lemma row_after_app row sent1 sent2 f1 f2 :
  row_after row sent1 f1 -> (forall rest, ready_row rest f1 -> row_after rest sent2 f2) ->
  row_after row (sent1 ++ sent2) f2.
Proof.
  intros [(rest & -> & Hrest)|(more & ->)] Hnext.
  - destruct (Hnext rest Hrest) as [(rest' & -> & Hr)|(more & ->)].
    + left. exists rest'. now rewrite app_assoc.
    + right. exists more. now rewrite app_assoc.
  - right. exists (more ++ sent2). now rewrite app_assoc.
Qed.

(** Rows in order from the same number on are rows of the same numbers. *)
Lemma in_order_same e (l1 l2 : list Item) :
  in_order e l1 -> in_order e l2 -> length l1 = length l2 -> l1.*1 = l2.*1.
Proof.
  revert e l2. induction l1 as [|[c a] l1 IH]; intros e [|[c' a'] l2]; try done.
  intros [-> Hl1] [-> Hl2] [= Hl]. cbn. f_equal. exact (IH _ _ Hl1 Hl2 Hl).
Qed.

Lemma same_items {A B} (l1 l2 : list (A * B)) (m : A -> option B) :
  l1.*1 = l2.*1 -> Forall (fun x => m x.1 = Some x.2) l1 -> Forall (fun x => m x.1 = Some x.2) l2 -> l1 = l2.
Proof.
  revert l2. induction l1 as [|[a b] l1 IH]; intros [|[a' b'] l2]; try done.
  cbn. intros [= <- Hl] [Hb Hl1]%Forall_cons [Hb' Hl2]%Forall_cons. cbn in Hb, Hb'.
  f_equal; [congruence|]. now apply IH.
Qed.

Lemma handle_request_row request (f : FR) r f' row :
  is_full f = false -> handle_request request f = Return (r, f') -> ready_row row f -> ready_row row f'.
Proof.
  intros Hfull Hh (e & He & Ho & Hn & Hb).
  destruct (handle_request_spec request f Hfull ltac:(congruence)) as (r1 & f1 & E & Hsame & Hcase).
  rewrite Hh in E. injection E as <- <-.
  destruct r as [[]|err]; [|rewrite Hsame by done; now exists e].
  destruct (typed_get CSeq (Request.headers request)) as [c|]; [|discriminate Hcase]. cbn zeta in Hcase.
  destruct (_ <? _)%N; [discriminate Hcase|]. destruct (buffered_requests f !! c) eqn:El; [discriminate Hcase|].
  destruct Hcase as [_ ->]. exists e. split; [cbn; now rewrite He|]. do 2 (split; [done|]).
  eapply Forall_impl; [exact Hb|]. intros [c' q'] Hc. cbn in *. rewrite lookup_insert_ne; [exact Hc|congruence].
Qed.

Lemma sent_buffered (f f' : FR) (sent : list Item) :
  map_to_list (buffered_requests f) ≡ₚ sent ++ map_to_list (buffered_requests f') ->
  Forall (fun item => buffered_requests f !! item.1 = Some item.2) sent
  /\ (forall item, item ∈ sent \/ buffered_requests f' !! item.1 = Some item.2 <-> buffered_requests f !! item.1 = Some item.2)
  /\ NoDup (sent ++ map_to_list (buffered_requests f')).*1.
Proof.
  intros Hp.
  assert (Hiff : forall item : Item, item ∈ sent \/ buffered_requests f' !! item.1 = Some item.2
                   <-> buffered_requests f !! item.1 = Some item.2).
  { intros [c q]. cbn. rewrite <- !elem_of_map_to_list, Hp. symmetry. apply elem_of_app. }
  split; [|split; [exact Hiff|]].
  - apply Forall_forall. intros item Hin. apply Hiff. now left.
  - rewrite <- Hp. apply NoDup_fst_map_to_list.
Qed.

(** Sending takes the requests of such a row, in their order. *)
Lemma sent_row (f f' : FR) e (sent row : list Item) :
  incoming_sequence_number f = Some e -> in_order e sent -> incoming_sequence_number f' = Some (next e sent) ->
  map_to_list (buffered_requests f) ≡ₚ sent ++ map_to_list (buffered_requests f') ->
  ready_row row f -> row_after row sent f'.
Proof.
  intros He Hs Hi Hperm (e' & He' & Ho & Hn & Hb). assert (e' = e) as -> by congruence.
  destruct (sent_buffered _ _ _ Hperm) as (Hsb & Hiff & _).
  destruct (Nat.le_gt_cases (length sent) (length row)) as [Hle|Hgt].
  - left. exists (drop (length sent) row). rewrite <- (take_drop (length sent) row) in Ho, Hb, Hn |- * at 1.
    apply in_order_app in Ho as [Ho1 Ho2]. apply Forall_app in Hb as [Hb1 Hb2].
    assert (Hl : length (take (length sent) row) = length sent) by (apply length_take_le; lia).
    pose proof (same_items _ _ (fun c => buffered_requests f !! c) (in_order_same e _ _ Ho1 Hs Hl) Hb1 Hsb) as E.
    rewrite E in *. split; [done|]. exists (next e sent). do 2 (split; [done|]).
    rewrite fmap_app, NoDup_app in Hn. destruct Hn as (_ & Hdisj & Hn2). split; [exact Hn2|].
    rewrite Forall_forall in Hb2 |- *. intros item Hin.
    destruct (proj2 (Hiff item) (Hb2 item Hin)) as [Hs'|Hs']; [|exact Hs'].
    destruct (Hdisj item.1); apply list_elem_of_fmap; now exists item.
  - right. exists (drop (length row) sent). rewrite <- (take_drop (length row) sent) in Hs, Hsb |- * at 1.
    apply in_order_app in Hs as [Hs1 _]. apply Forall_app in Hsb as [Hsb1 _]. f_equal.
    assert (Hl : length (take (length row) sent) = length row) by (apply length_take_le; lia).
    exact (same_items _ _ (fun c => buffered_requests f !! c) (in_order_same e _ _ Hs1 Ho Hl) Hsb1 Hb).
Qed.

Lemma forwarding_poll_row (f : FR) a f' :
  forwarding_poll f = Return (Ok a, f') ->
  exists sent, log f' = log f ++ sent /\ forall row, ready_row row f -> row_after row sent f'.
Proof.
  unfold forwarding_poll. destruct (incoming_sequence_number f) as [e|] eqn:He.
  - intros Hp. destruct (forward_loop_spec (S (size (buffered_requests f))) e f) as (r & f1 & E & Hf); [lia|].
    rewrite Hp in E. injection E as <- <-. destruct Hf as (sent & Hlog & Hs & _ & Hr).
    destruct (Hr a eq_refl) as (Hperm & Hi & _). exists sent. split; [exact Hlog|].
    intros row. now apply (sent_row f f' e).
  - intros [= <- <-]. exists []. split; [now rewrite app_nil_r|]. intros row (e & He' & _). congruence.
Qed.

(** Whatever the connection does to its forwarding receiver. *)
Lemma forwards_row given items errors (f f' : FR) :
  forwards given items errors f f' ->
  exists sent, log f' = log f ++ sent /\ forall row, ready_row row f -> row_after row sent f'.
Proof.
  induction 1 as [f|given items errors f1 f2 request r f3 _ (sent & Hlog & Hafter) Hfull Hh
                 |given items errors f1 f2 a f3 _ (sent & Hlog & Hafter) Hp].
  - exists []. split; [now rewrite app_nil_r|]. intros row Hrow. left. now exists row.
  - exists sent. rewrite (handle_request_channel _ _ _ _ Hh). split; [exact Hlog|]. intros row Hrow.
    rewrite <- (app_nil_r sent). apply (row_after_app _ _ _ f2); [now apply Hafter|].
    intros rest Hrest. left. exists rest. split; [done|]. exact (handle_request_row _ _ _ _ _ Hfull Hh Hrest).
  - destruct (forwarding_poll_row f2 a f3 Hp) as (sent2 & Hlog2 & Hnext). exists (sent ++ sent2).
    split; [now rewrite Hlog2, Hlog, app_assoc|]. intros row Hrow. apply (row_after_app _ _ _ f2); auto.
Qed.

(** ** What a poll leaves behind *)

(** The expected request waits for room in the channel, and for nothing else. *)
Definition settled (f : FR) : Prop :=
  has_requests_ready f = true -> pending (tx_incoming_request f) <> [].

Lemma settled_row f row :
  settled f -> ready_row row f -> pending (tx_incoming_request f) = [] -> row = [].
Proof.
  intros Hs (e & He & Ho & _ & Hb) Hp. destruct row as [|[c q] row]; [done|]. destruct Ho as [-> _].
  apply Forall_cons in Hb as [Hb _]. cbn in Hb. destruct Hs; [|exact Hp]. unfold has_requests_ready. now rewrite He, Hb.
Qed.

Lemma forward_loop_settled fuel e (f : FR) a f' :
  forward_loop fuel e f = Return (Ok a, f') -> settled f'.
Proof.
  revert e f. induction fuel as [|fuel IH]; intros e f; [done|]. cbn [forward_loop].
  destruct (buffered_requests f !! e) as [q|] eqn:El.
  - pose proof (full_pending (E:=unit) (tx_incoming_request f) (e, q)) as Hfull.
    pose proof (taken_start_send (E:=unit) (tx_incoming_request f) (e, q)) as Ht.
    pose proof (delivered_start_send (E:=unit) (tx_incoming_request f) (e, q)) as Hd.
    destruct (start_send _ _) as [[[|[c q']]|err] tx]; [apply IH| |done].
    intros [= <- <-] _. cbn in *. destruct Ht as [_ Ht]. rewrite !delivered_pending, Hd in Ht.
    apply app_inv_head in Ht. rewrite Ht. exact (Hfull _ _ eq_refl).
  - intros [= <- <-]. unfold settled, has_requests_ready. cbn. now rewrite El.
Qed.

Lemma forwarding_poll_settled (f : FR) a f' : forwarding_poll f = Return (Ok a, f') -> settled f'.
Proof.
  unfold forwarding_poll. destruct (incoming_sequence_number f) as [e|] eqn:Ei; [apply forward_loop_settled|].
  intros [= <- <-]. unfold settled, has_requests_ready. now rewrite Ei.
Qed.
End ForwardingProgress.

(** ** The connection *)

Section ConnectionProgress.
Context `{HeaderMapLaws} `{URIOps} `{ClockOps} {Date : Type} `{!TypedHeader Date}
  {Chan OTx ORx World C CE Tx TStream Rx TSink HRx RxInitiate TxEvent : Type}
  `{!StreamOps Chan (CSeq * Request bytes)} `{!SinkOps Chan (CSeq * Request bytes) unit}
  `{!BoundedLaws Chan (CSeq * Request bytes) unit}
  `{!OneshotOps World OTx ORx (PendingRequestResponse ORx)}
  `{!StreamOps C (PendingRequestUpdate OTx)} `{!UnboundedOps C (PendingRequestUpdate OTx)}
  `{!StreamOps CE CodecEvent} `{!UnboundedOps Tx Message}
  `{!TryStreamOps TStream Message ProtocolError}
  `{!StreamOps Rx Message} `{!SinkOps TSink Message ProtocolError} `{!FlushOps TSink ProtocolError}.

Notation TReceiver := (Receiver (Chan := Chan) (OTx := OTx) (CE := CE) (Tx := Tx) (TStream := TStream)).
Notation TShared := (Shared (World := World) (C := C)).
Notation TSender := (Sender (Rx := Rx) (TSink := TSink)).
Notation TConnection := (Connection TReceiver TSender HRx RxInitiate TxEvent).
Notation TEnv := (ConnEnv (PartsEnv Date) HRx RxInitiate).

Definition receiver_settled (r : TReceiver) : Prop := forall f, forwarding_receiver r = Some f -> settled f.
Definition connection_settled (conn : TConnection) : Prop := forall f, forwarding_side conn = Some f -> settled f.

Lemma shutdown_request_settled (r : TReceiver) :
  receiver_settled r -> receiver_settled (receiver_shutdown_request r).2.
Proof.
  intros Hr f Hf. apply Hr. revert Hf. unfold receiver_shutdown_request. cbn [snd].
  destruct (is_response_receiver_shutdown _); cbn -[has_requests_ready];
    (destruct (forwarding_receiver r) as [f0|] eqn:Ef; [|cbn; congruence]);
    (destruct (has_requests_ready f0); cbn; congruence).
Qed.

(** Whatever else a poll of the receiver does, the last thing is to poll the forwarding receiver. *)
Lemma receiver_poll_settled fuel env (sh : TShared) (r : TReceiver) :
  ends True (fun '(_, _, r') => receiver_settled r') (receiver_poll (ORx := ORx) fuel env sh r).
Proof.
  unfold receiver_poll. eapply ends_bind with (Q := fun _ => True); [now destruct (poll_receiving _ _ _ _)|].
  intros [[b sh1] r1] _.
  eapply ends_bind with (Q := fun _ => True); [now destruct (match b with Ready _ => _ | NotReady => _ end)|].
  intros [sh2 r2] _. eapply ends_bind with (Q := fun '(_, r') => receiver_settled r').
  - destruct (forwarding_receiver r2) as [f|] eqn:Ef; [|cbn; intros f; congruence].
    destruct (forwarding_poll f) as [[p f']|] eqn:Ep; [|done]. cbn [outcome_bind].
    assert (Hdrop : forall r3 : TReceiver, forwarding_receiver r3 = None ->
              receiver_settled (receiver_shutdown_request r3).2).
    { intros r3 Hr. apply shutdown_request_settled. intros f0. congruence. }
    destruct p as [[u|]|e].
    + destruct (is_request_receiver_shutdown _).
      * exact (Hdrop (set_forwarding_receiver None (set_forwarding_receiver (Some f') r2)) eq_refl).
      * intros f0 [= <-]. exact (forwarding_poll_settled _ _ _ Ep).
    + intros f0 [= <-]. exact (forwarding_poll_settled _ _ _ Ep).
    + exact (Hdrop (set_forwarding_receiver None (set_forwarding_receiver (Some f') r2)) eq_refl).
  - intros [d r3] Hr. exact Hr.
Qed.

Lemma shutdown_receiver_settled (env : TEnv) (sh : TShared) (conn : TConnection) :
  ends True (fun '(_, conn') => connection_settled conn') (Connection.shutdown_receiver (S := TSender) env sh conn).
Proof.
  unfold Connection.shutdown_receiver. eapply ends_bind with (Q := fun _ => True).
  - destruct (Connection.receiver conn); [|exact I]. now destruct (part_receiver_drop _ _ _).
  - intros sh1 _ f. discriminate 1.
Qed.

Lemma shutdown_request_receiver_settled (env : TEnv) (sh : TShared) (conn : TConnection) :
  connection_settled conn ->
  ends True (fun '(_, conn') => connection_settled conn') (shutdown_request_receiver (S := TSender) env sh conn).
Proof.
  intros Hc. unfold shutdown_request_receiver. destruct (Connection.receiver conn) as [r|] eqn:Er; [|exact Hc].
  cbn [part_shutdown_request_receiver connection_parts].
  assert (Hr : receiver_settled r) by (intros f Hf; apply Hc; unfold forwarding_side; now rewrite Er).
  pose proof (shutdown_request_settled r Hr) as Hs. destruct (receiver_shutdown_request r) as [[] r'].
  - apply shutdown_receiver_settled.
  - exact Hs.
Qed.

Lemma connection_poll_settled (env : TEnv) (sh : TShared) (conn : TConnection) :
  ends True (fun '(_, _, conn', _) => connection_settled conn') (connection_poll env sh conn).
Proof.
  unfold connection_poll. eapply ends_bind with (Q := fun '(_, c) => connection_settled c).
  { unfold poll_receiver. destruct (Connection.receiver conn) as [r|] eqn:Er.
    2:{ intros f. unfold forwarding_side. now rewrite Er. }
    eapply ends_bind; [apply (receiver_poll_settled (parts_fuel (parts_env env)))|]. intros [[[u|] sh1] r1] Hr1.
    - apply shutdown_receiver_settled.
    - exact Hr1. }
  intros [sh1 c1] Hc1. eapply ends_bind with (Q := fun '(_, c) => connection_settled c).
  { unfold poll_sender. destruct (Connection.sender c1); [|exact Hc1].
    eapply ends_bind with (Q := fun _ => True); [now destruct (part_sender_poll _ _)|]. intros [[] s'] _; [|exact Hc1].
    eapply ends_bind; [apply shutdown_request_receiver_settled; exact Hc1|]. intros [sh2 c2] Hc2. exact Hc2. }
  intros [sh2 c2] Hc2.
  eapply ends_bind with (Q := fun _ => True); [now destruct (shutdown_poll _ _)|]. intros [[u h] events] _.
  eapply ends_bind with (Q := fun _ => True); [now destruct (state _)|]. intros s _.
  assert (Hfinish : forall sh3 ev (c3 : TConnection), connection_settled c3 ->
            ends True (fun x : Async unit * TShared * TConnection * list TxEvent =>
                         let '(_, _, conn', _) := x in connection_settled conn') (finish_poll env sh3 ev c3)).
  { intros sh3 ev c3 Hc3. unfold finish_poll. destruct (is_shutdown c3); [|exact Hc3].
    now destruct (force_shutdown _ _) as [[h' ev']|]. }
  destruct s.
  - apply Hfinish. unfold poll_request_handler_shutdown.
    destruct (negb _ || _); cbn; destruct (is_receiver_shutdown _); try exact Hc2; cbn;
      destruct (rx_handler_shutdown_event c2) as [rx|]; try exact Hc2; destruct (handler_is_shutdown env rx); exact Hc2.
  - eapply ends_bind; [apply (shutdown_receiver_settled env sh2 (set_shutdown h c2))|].
    intros [sh3 c3] Hc3. exact Hc3.
  - eapply ends_bind; [apply (shutdown_request_receiver_settled env sh2 (set_shutdown h c2)); exact Hc2|].
    intros [sh3 c3] Hc3. apply Hfinish. exact Hc3.
Qed.
End ConnectionProgress.

(** ** The request handler *)

Section HandlerProgress.
Context `{HeaderMapLaws} `{URIOps} `{ClockOps} {C Tx TService TFuture TResponse TxEvent : Type}
  `{!StreamOps C (CSeq * Request bytes)} `{!SinkOps C (CSeq * Request bytes) unit}
  `{!BoundedLaws C (CSeq * Request bytes) unit} `{!UnboundedOps Tx Message} `{!UnboundedLaws Tx Message}.
Context (is_rtspu : URI -> bool) (call : TService -> Request bytes -> TFuture * TService)
  (into : TResponse -> Response bytes) (rank : TFuture -> nat).

Notation THandler := (RequestHandler (Rx := C) (Tx := Tx) (TService := TService) (TFuture := TFuture)
                       (TxEvent := TxEvent)).
Notation HEnv := (Handler.Env (TFuture := TFuture) (TResponse := TResponse)).
Notation poll := (handler_poll (TxEvent := TxEvent) is_rtspu call into).
Notation received self := (delivered (rx_incoming_request self)).

(** A future that is not ready yet is polled a bounded number of times. *)
Definition resolving (env : HEnv) : Prop :=
  forall f, match service_poll env f with (Ok NotReady, f') => rank f' < rank f | _ => True end.

(** The number of the requests that have their final answer. *)
Definition finished (self : THandler) : nat :=
  length (received self) - match serviced_request self with Some _ => 1 | None => 0 end.

Lemma answers_serviced requests cseq l : answers is_rtspu requests (Some cseq) l -> requests <> [].
Proof.
  intros Ha. remember (Some cseq) as o eqn:Eo. revert cseq Eo.
  induction Ha as [|?????? _|requests ???? _|???? IH|????? _]; intros c Eo; try discriminate Eo.
  - destruct requests; discriminate 1.
  - now apply (IH _ eq_refl).
Qed.

(** The answers to the requests that are followed by others are complete. *)
Lemma answers_split r1 r2 o l :
  answers is_rtspu (r1 ++ r2) o l -> o = None \/ r2 <> [] ->
  exists l1 l2, l = l1 ++ l2 /\ answers is_rtspu r1 None l1.
Proof.
  intros Ha. remember (r1 ++ r2) as r eqn:Er. revert r1 r2 Er.
  assert (Hlast : forall requests (x : CSeq * Request bytes) r1 r2, requests ++ [x] = r1 ++ r2 ->
            r2 = [] \/ exists r3, r2 = r3 ++ [x] /\ requests = r1 ++ r3).
  { intros requests x r1 r2 E. destruct r2 as [|y r3 _] using rev_ind; [now left|]. right. exists r3.
    rewrite app_assoc in E. apply app_inj_tail in E as [-> ->]. now split. }
  induction Ha as [|requests l c q resp Ha IH Hr|requests l c q Ha IH Hr|requests l c Ha IH|requests l c resp Ha IH];
    intros r1 r2 Er Ho.
  - symmetry in Er. apply app_eq_nil in Er as [-> ->]. exists [], []. split; [done|constructor].
  - destruct (Hlast _ _ _ _ Er) as [->|(r3 & -> & ->)].
    + rewrite app_nil_r in Er. subst r1. eexists _, []. rewrite app_nil_r. split; [done|]. now constructor.
    + destruct (IH _ _ eq_refl (or_introl eq_refl)) as (l1 & l2 & -> & H1'). exists l1. eexists. now rewrite <- app_assoc.
  - destruct (Hlast _ _ _ _ Er) as [->|(r3 & -> & ->)]; [now destruct Ho|].
    exact (IH _ _ eq_refl (or_introl eq_refl)).
  - destruct Ho as [|Ho]; [done|]. destruct (IH _ _ Er (or_intror Ho)) as (l1 & l2 & -> & H1').
    exists l1. eexists. now rewrite <- app_assoc.
  - destruct r2 as [|x r2].
    + rewrite app_nil_r in Er. subst r1. eexists _, []. rewrite app_nil_r. split; [done|]. now apply answers_final.
    + destruct (IH r1 (x :: r2) Er) as (l1 & l2 & -> & H1'); [now right|]. exists l1. eexists.
      now rewrite <- app_assoc.
Qed.

Lemma poll_serviced_request_case (env : HEnv) (self : THandler) r self' :
  poll_serviced_request into env self = Return (r, self') -> resolving env ->
  rx_incoming_request self' = rx_incoming_request self
  /\ match r with
     | Ready _ => serviced_request self' = None
     | NotReady => exists c f f', serviced_request self = Some (c, f) /\ serviced_request self' = Some (c, f')
                     /\ rank f' < rank f
     end.
Proof.
  intros Hp Hres. split; [exact (poll_serviced_request_rx _ _ _ _ _ Hp)|].
  unfold poll_serviced_request in Hp. destruct (serviced_request self) as [[c f]|] eqn:Es.
  2:{ now injection Hp as <- <-. }
  specialize (Hres f). destruct (service_poll env f) as [[[response|]|e] f']; try now injection Hp as <- <-.
  apply outcome_bind_Return in Hp as ([r1 self1] & Hc & [= <- <-]).
  apply continue_loop_same in Hc as (_ & _ & Hs & _). exists c, f, f'. split; [done|]. now rewrite Hs.
Qed.

Lemma handler_poll_received fuel (env : HEnv) (self : THandler) r self' sent :
  poll fuel env self = Return (r, self', sent) -> exists l, received self' = received self ++ l.
Proof. intros [l [Hl _]%polled_delivered]%handler_poll_polled. now exists l. Qed.

Lemma idle_poll fuel (env : HEnv) (self : THandler) r self' sent :
  serviced_request self = None -> poll fuel env self = Return (r, self', sent) ->
  length (received self) <= finished self'.
Proof.
  intros Hs. destruct fuel as [|fuel]; [done|]. cbn [handler_poll]. unfold poll_serviced_request at 1.
  rewrite Hs. cbn [outcome_bind]. pose proof (delivered_stream_poll (rx_incoming_request self)) as Hd.
  destruct (stream_poll (rx_incoming_request self)) as [[[[c q]|]|] rx].
  - intros Hp. apply outcome_bind_Return in Hp as (self2 & Hq & Hp).
    apply process_request_rx in Hq. apply handler_poll_received in Hp as [l Hl]. cbn in Hq. rewrite Hq, Hd in Hl.
    unfold finished. rewrite Hl, !length_app. cbn. destruct (serviced_request self'); lia.
  - intros [= _ <- _]. unfold finished. cbn. rewrite Hd. lia.
  - intros [= _ <- _]. unfold finished. cbn. rewrite Hd, Hs. lia.
Qed.

(** A poll brings the request in service closer to its end, or finishes what was taken. *)
Lemma handler_poll_case fuel (env : HEnv) (self : THandler) r self' sent :
  poll fuel env self = Return (r, self', sent) -> resolving env ->
  (exists c f f', serviced_request self = Some (c, f) /\ serviced_request self' = Some (c, f') /\ rank f' < rank f
     /\ rx_incoming_request self' = rx_incoming_request self)
  \/ length (received self) <= finished self'.
Proof.
  destruct fuel as [|fuel]; [done|]. intros Hp Hres. pose proof Hp as Hp'. cbn [handler_poll] in Hp'.
  apply outcome_bind_Return in Hp' as ([r1 self1] & Hq & Hp').
  destruct (poll_serviced_request_case _ _ _ _ Hq Hres) as [Hrx Hr1]. destruct r1 as [u|].
  - right. rewrite <- Hrx. apply (idle_poll (S fuel) env self1 r self' sent Hr1).
    cbn [handler_poll]. unfold poll_serviced_request at 1. rewrite Hr1. exact Hp'.
  - injection Hp' as _ <- _. left. destruct Hr1 as (c & f & f' & Hs & Hs' & Hlt). now exists c, f, f'.
Qed.
End HandlerProgress.

(** ** The two tasks *)

Section HostProgress.
Context `{HeaderMapLaws} `{URIOps} `{ClockOps} {Date : Type} `{!TypedHeader Date}
  {Chan OTx ORx World C CE Tx TStream Rx TSink HRx RxInitiate TxEvent TService TFuture TResponse : Type}
  `{!StreamOps Chan (CSeq * Request bytes)} `{!SinkOps Chan (CSeq * Request bytes) unit}
  `{!BoundedLaws Chan (CSeq * Request bytes) unit}
  `{!OneshotOps World OTx ORx (PendingRequestResponse ORx)}
  `{!StreamOps C (PendingRequestUpdate OTx)} `{!UnboundedOps C (PendingRequestUpdate OTx)}
  `{!StreamOps CE CodecEvent} `{!UnboundedOps Tx Message} `{!UnboundedLaws Tx Message}
  `{!TryStreamOps TStream Message ProtocolError}
  `{!StreamOps Rx Message} `{!SinkOps TSink Message ProtocolError} `{!FlushOps TSink ProtocolError}.
Context (is_rtspu : URI -> bool) (call : TService -> Request bytes -> TFuture * TService)
  (into : TResponse -> Response bytes).

Notation TReceiver := (Receiver (Chan := Chan) (OTx := OTx) (CE := CE) (Tx := Tx) (TStream := TStream)).
Notation TSender := (Sender (Rx := Rx) (TSink := TSink)).
Notation HEnv := (Handler.Env (TFuture := TFuture) (TResponse := TResponse)).
Notation THost := (Host (Chan := Chan) (OTx := OTx) (CE := CE) (Tx := Tx) (TStream := TStream) (Rx := Rx)
  (TSink := TSink) (HRx := HRx) (RxInitiate := RxInitiate) (TxEvent := TxEvent) (TService := TService)
  (TFuture := TFuture)).
Notation Item := (CSeq * Request bytes)%type.

Context (arrives : Message -> Prop) (allowed : HEnv -> Prop) (service : TService) (c : Chan) (n : N)
  (log : list Message) (rank : TFuture -> nat).
Context (Hres : forall env, allowed env -> resolving rank env).

Notation hrun := (host_run (Date := Date) (ORx := ORx) (World := World) (C := C) is_rtspu call into arrives allowed
  service c n log).
Notation hstep := (host_step (Date := Date) (ORx := ORx) (World := World) (C := C) is_rtspu call into arrives allowed).

(** A run that does not end, in which both tasks are polled again and again. *)
Record fair_run (tr : nat -> THost) (event : nat -> HostEvent) : Prop := {
  fair_start : hrun (tr 0);
  fair_steps : forall i, hstep (event i) (tr i) (tr (i + 1));
  fair_connection : infinitely_often (fun i => event i = ConnectionPolled);
  fair_handler : infinitely_often (fun i => event i = HandlerPolled);
}.

Notation rx p := (rx_incoming_request (host_handler p)).
Notation sent p := (taken (E:=unit) (rx p)).
Notation received p := (delivered (rx p)).
Notation done p := (finished (host_handler p)).
Notation serviced p := (serviced_request (host_handler p)).
Notation side p := (forwarding_side (host_connection p)).

(** What is known of the states of a run. *)
Definition host_known (p : THost) (f : ForwardingReceiver (Chan := Chan)) : Prop :=
  side p = Some f /\ tx_incoming_request f = rx p /\ handler_inv is_rtspu log (received p) (host_handler p).

Lemma host_run_known p : hrun p -> exists f, host_known p f.
Proof.
  intros (f & accepted & handled & Hf & Hrun & _)%host_run_pipe.
  apply pipe_run_inv in Hrun as (_ & Hh%handler_run_inv & Hch & Hd & _). cbn in Hh, Hch, Hd. subst handled.
  now exists f.
Qed.

Lemma done_received p f : host_known p f ->
  (serviced p <> None -> 0 < length (received p)) /\ done p <= length (received p)
  /\ length (received p) <= length (sent p).
Proof.
  intros (_ & _ & (l & Ha & _) & _). split; [|split].
  - destruct (serviced p) as [[cs q]|]; [|done]. intros _. apply answers_serviced in Ha. destruct (received p); [done|cbn; lia].
  - unfold finished. lia.
  - rewrite delivered_pending, length_app. lia.
Qed.

(** What a step does: it sends requests in their order, it takes requests, and it finishes some. *)
Definition step_effect (e : HostEvent) (p p' : THost) (f f' : ForwardingReceiver (Chan := Chan)) (more : list Item) :
    Prop :=
  sent p' = sent p ++ more /\ (forall row, ready_row row f -> row_after row more f')
  /\ length (received p) <= length (received p') /\ done p <= done p'
  /\ (e = ConnectionPolled -> settled f')
  /\ (e <> HandlerPolled -> serviced p' = serviced p /\ received p' = received p)
  /\ (e = HandlerPolled ->
        ((exists cs q q', serviced p = Some (cs, q) /\ serviced p' = Some (cs, q') /\ rank q' < rank q)
         \/ length (received p) <= done p')
        /\ (serviced p' = None -> pending (rx p') = [])).

Lemma row_after_none row (f : ForwardingReceiver (Chan := Chan)) : ready_row row f -> row_after row [] f.
Proof. intros Hr. left. now exists row. Qed.

Lemma host_step_effect e p p' f :
  hrun p -> host_known p f -> hstep e p p' -> exists f' more, host_known p' f' /\ step_effect e p p' f f' more.
Proof.
  intros Hrun (Hf & Hch & Hinv) Hstep. pose proof (host_next _ _ _ _ _ _ _ _ _ _ _ _ Hrun Hstep) as Hrun'.
  destruct (host_run_known p' Hrun') as (f' & Hknown'). exists f'.
  destruct Hstep as [env sh conn h a sh' conn' events f0 Harr Hp Hf0
    |fuel env conn conn' f0 h r h' out Hal Henv Hfuel Hp Hf0 Hf'|conn conn' h E]; cbn in *.
  - pose proof (connection_poll_effect (M := Tx) (ORx := ORx) env sh conn) as He. rewrite Hp in He.
    destruct (connection_effect_forwards _ _ _ _ _ _ He Harr Hf0) as (f1 & given & items & errors & Hf1 & Hforw & _).
    assert (f1 = f) as -> by congruence. assert (f0 = f') as -> by (destruct Hknown' as (Hk & _); cbn in Hk; congruence).
    pose proof (connection_poll_settled (ORx := ORx) env sh conn) as Hset. rewrite Hp in Hset.
    destruct (forwards_row _ _ _ _ _ Hforw) as (more & Hlog & Hrow). exists more. split; [exact Hknown'|].
    assert (Hd : delivered (tx_incoming_request f') = delivered (rx_incoming_request h)).
    { rewrite <- Hch. clear -Hforw. induction Hforw as [g|? ? ? g1 g2 ? ? g3 _ IH _ Hh|? ? ? g1 g2 ? g3 _ IH Hp]; [done|..].
      - now rewrite (handle_request_channel _ _ _ _ Hh).
      - now rewrite (proj1 (forwarding_poll_channel _ _ _ Hp)). }
    unfold step_effect, finished. cbn. rewrite Hd, <- Hch. split; [exact Hlog|]. split; [exact Hrow|].
    split; [lia|]. split; [lia|]. split; [intros _; now apply Hset|]. split; [now intros _|discriminate 1].
  - assert (f0 = f) as -> by congruence.
    destruct (handler_poll_polled _ _ _ _ _ _ _ _ _ Hp) as [l [Hl Hl']%polled_delivered].
    destruct (handler_poll_spec is_rtspu call into fuel env log _ h Hfuel Henv Hinv) as (r1 & h1 & out1 & tk & E & _ & _ & _ & Hr1).
    rewrite Hp in E. injection E as <- <- <-.
    assert (f' = set_channel (rx_incoming_request h') f) as -> by (destruct Hknown' as (Hk & _); cbn in Hk; congruence).
    exists []. split; [exact Hknown'|]. unfold step_effect. cbn.
    assert (Hmono : length (delivered (rx_incoming_request h)) <= length (delivered (rx_incoming_request h'))).
    { rewrite Hl, length_app. lia. }
    pose proof (handler_poll_case is_rtspu call into rank _ _ _ _ _ _ Hp (Hres env Hal)) as Hcase.
    split; [rewrite !delivered_pending, Hl, Hl', app_nil_r; now rewrite app_assoc|].
    split; [intros row; apply row_after_none|]. split; [exact Hmono|]. split.
    { destruct Hcase as [(cs & q & q' & Hs & Hs' & _ & Hrx)|Hle]; unfold finished in *; [rewrite Hs, Hs', Hrx; lia|lia]. }
    split; [discriminate 1|]. split; [done|]. intros _. split.
    + destruct Hcase as [(cs & q & q' & Hs & Hs' & Hlt & _)|Hle]; [left; now exists cs, q, q'|now right].
    + intros Hn. destruct r as [u|]; [apply Hr1|now apply Hr1].
  - assert (f' = f) as -> by (destruct Hknown' as (Hk & _); cbn in Hk; congruence).
    exists []. split; [exact Hknown'|]. unfold step_effect. cbn. rewrite app_nil_r.
    split; [done|]. split; [intros row; apply row_after_none|]. split; [done|]. split; [done|]. split; [discriminate 1|].
    split; [done|discriminate 1].
Qed.

(** ** Fair runs *)

Section Fair.
Context (tr : nat -> THost) (event : nat -> HostEvent) (Hfair : fair_run tr event).

Lemma fair_run_states i : hrun (tr i).
Proof.
  induction i as [|i IH]; [exact (fair_start _ _ Hfair)|].
  rewrite <- Nat.add_1_r. exact (host_next _ _ _ _ _ _ _ _ _ _ _ _ IH (fair_steps _ _ Hfair i)).
Qed.

Lemma fair_run_step i f :
  host_known (tr i) f ->
  exists f' more, host_known (tr (i + 1)) f' /\ step_effect (event i) (tr i) (tr (i + 1)) f f' more.
Proof. intros Hf. exact (host_step_effect _ _ _ _ (fair_run_states i) Hf (fair_steps _ _ Hfair i)). Qed.

Lemma fair_run_known i : exists f, host_known (tr i) f.
Proof. apply host_run_known, fair_run_states. Qed.

Lemma sent_grows i j : i <= j -> length (sent (tr i)) <= length (sent (tr j)).
Proof.
  apply (never_decreases tr (fun p : THost => length (sent p))). intros k. destruct (fair_run_known k) as (f & Hf).
  destruct (fair_run_step k f Hf) as (f' & more & _ & -> & _). rewrite length_app. lia.
Qed.

(** The request in service is finished. *)
Lemma serviced_finishes k :
  leads_to tr (fun p : THost => k <= done p /\ serviced p <> None) (fun p : THost => k < done p).
Proof.
  apply (leads_to_measure tr (fun p : THost => match serviced p with Some (_, q) => rank q | None => 0 end)). intros m.
  assert (Hstep : forall i, event i = HandlerPolled -> k <= done (tr i) -> serviced (tr i) <> None ->
            k < done (tr (i + 1))
            \/ exists cs q q', serviced (tr i) = Some (cs, q) /\ serviced (tr (i + 1)) = Some (cs, q')
                 /\ rank q' < rank q /\ k <= done (tr (i + 1))).
  { intros i He Hk Hs. destruct (fair_run_known i) as (f & Hf). destruct (fair_run_step i f Hf) as (f' & more & _ & Heff).
    destruct Heff as (_ & _ & _ & Hd & _ & _ & Hh). destruct (Hh He) as [[(cs & q & q' & Hs1 & Hs2 & Hlt)|Hle] _].
    - right. exists cs, q, q'. repeat split; [done..|]. lia.
    - left. destruct (done_received _ _ Hf) as (Hpos & _). specialize (Hpos Hs).
      unfold finished in Hk, Hle |- *. destruct (serviced (tr i)); [lia|done]. }
  apply (leads_to_step tr (fun i => event i = HandlerPolled)); [exact (fair_handler _ _ Hfair)| |].
  - intros i [[Hk Hs] Hm]. destruct (decide (event i = HandlerPolled)) as [He|He].
    + right. destruct (Hstep i He Hk Hs) as [Hlt|(cs & q & q' & E1 & E2 & Hlt & Hk')]; [now left|right].
      rewrite E1 in Hm. rewrite E2. repeat split; [done..|lia].
    + left. destruct (fair_run_known i) as (f & Hf). destruct (fair_run_step i f Hf) as (f' & more & _ & Heff).
      destruct Heff as (_ & _ & _ & Hd & _ & Hn & _). destruct (Hn He) as [-> _]. repeat split; [lia|done..].
  - intros i He [[Hk Hs] Hm]. destruct (Hstep i He Hk Hs) as [Hlt|(cs & q & q' & E1 & E2 & Hlt & Hk')]; [now left|right].
    rewrite E1 in Hm. rewrite E2. repeat split; [done..|lia].
Qed.

(** A request that was sent is finished. *)
Lemma sent_finishes k :
  leads_to tr (fun p : THost => k <= done p /\ k < length (sent p)) (fun p : THost => k < done p).
Proof.
  transitivity (fun p : THost => k < done p \/ (k <= done p /\ serviced p <> None)).
  2:{ apply leads_to_case; [reflexivity|apply serviced_finishes]. }
  intros i [Hk Hl]. destruct (serviced (tr i)) as [sq|] eqn:Es.
  { exists i. split; [lia|]. right. now rewrite Es. }
  apply (leads_to_step tr (fun i => event i = HandlerPolled)
           (fun p : THost => k <= done p /\ k < length (sent p) /\ serviced p = None)
           (fun p : THost => k < done p \/ (k <= done p /\ serviced p <> None))); [exact (fair_handler _ _ Hfair)| | |done].
  - intros j (Hk' & Hl' & Hs). destruct (fair_run_known j) as (f & Hf). destruct (fair_run_step j f Hf) as (f' & more & _ & Heff).
    destruct Heff as (Hsent & _ & _ & Hd & _). rewrite Hsent, length_app.
    destruct (serviced (tr (j + 1))) eqn:Es'; [right; right|left]; (split; [lia|]); [done|]. split; [lia|done].
  - intros j He (Hk' & Hl' & Hs). destruct (fair_run_known j) as (f & Hf).
    destruct (fair_run_step j f Hf) as (f' & more & Hf' & Hsent & _ & _ & Hd & _ & _ & Hh).
    destruct (Hh He) as [[(cs & q & q' & E & _)|Hle] Hempty]; [congruence|].
    destruct (serviced (tr (j + 1))) eqn:Es'; [right; split; [lia|done]|left].
    specialize (Hempty eq_refl). assert (Hall : length (sent (tr (j + 1))) = length (received (tr (j + 1)))).
    { rewrite delivered_pending, length_app, Hempty. cbn. lia. }
    rewrite Hsent, length_app in Hall. unfold finished. rewrite Es'. lia.
Qed.

Lemma all_sent_finish k : leads_to tr (fun p : THost => k <= length (sent p)) (fun p : THost => k <= done p).
Proof.
  induction k as [|k IH]; [apply leads_to_now; intros; lia|]. intros i Hi.
  destruct (IH i) as (j & Hij & Hj); [lia|]. pose proof (sent_grows i j Hij).
  destruct (sent_finishes k j) as (l & Hjl & Hl); [lia|]. exists l. lia.
Qed.

(** ** A row of requests *)

(** What has been sent of the row since [base]. *)
Definition row_on_way (base row : list Item) (p : THost) : Prop :=
  exists f more, host_known p f /\ sent p = base ++ more /\ row_after row more f.

Lemma row_on_way_step base row i : row_on_way base row (tr i) -> row_on_way base row (tr (i + 1)).
Proof.
  intros (f & more & Hf & Hs & Hrow). destruct (fair_run_step i f Hf) as (f' & more' & Hf' & Hsent & Hnext & _).
  exists f', (more ++ more'). split; [exact Hf'|]. split; [now rewrite Hsent, Hs, app_assoc|].
  exact (row_after_app _ _ _ f f' Hrow Hnext).
Qed.

Definition row_sent (base row : list Item) (p : THost) : Prop := exists more, sent p = base ++ row ++ more.

(** When everything that was sent is finished, the next poll of the connection sends more. *)
Lemma row_moves base row t :
  leads_to tr (fun p : THost => row_on_way base row p /\ length (sent p) = t)
    (fun p : THost => row_sent base row p \/ (row_on_way base row p /\ t < length (sent p))).
Proof.
  intros i [Hrow Ht]. destruct (all_sent_finish t i) as (j & Hij & Hj); [lia|].
  pose proof (sent_grows i j Hij) as Hg. pose proof (always_after tr _ (row_on_way_step base row) i j Hij Hrow) as Hrow'.
  assert (Hgo : exists k, j <= k /\ (row_sent base row (tr k) \/ (row_on_way base row (tr k) /\ t < length (sent (tr k))))).
  2:{ destruct Hgo as (k & Hjk & Hk). exists k. split; [lia|exact Hk]. }
  destruct (Nat.eq_dec (length (sent (tr j))) t) as [E|E]; [|exists j; split; [lia|right; split; [done|lia]]].
  apply (leads_to_step tr (fun i => event i = ConnectionPolled)
           (fun p : THost => row_on_way base row p /\ length (sent p) = t /\ t <= done p)
           (fun p : THost => row_sent base row p \/ (row_on_way base row p /\ t < length (sent p))));
    [exact (fair_connection _ _ Hfair)| | |now split].
  - intros k (Hr & Hl & Hd). pose proof (row_on_way_step base row k Hr) as Hr'. pose proof (sent_grows k (k + 1)).
    destruct (fair_run_known k) as (f & Hf). destruct (fair_run_step k f Hf) as (f' & more & _ & _ & _ & _ & Hd' & _).
    destruct (Nat.eq_dec (length (sent (tr (k + 1)))) t) as [E'|E']; [left; repeat split; [done..|lia]|].
    right. right. split; [done|lia].
  - intros k He (Hr & Hl & Hd). pose proof (row_on_way_step base row k Hr) as Hr'. pose proof (sent_grows k (k + 1)) as Hg'.
    destruct (Nat.eq_dec (length (sent (tr (k + 1)))) t) as [E'|E']; [|right; split; [done|lia]]. left.
    destruct (fair_run_known k) as (f & Hf). destruct (fair_run_step k f Hf) as (f' & more & Hf' & _ & _ & _ & Hd' & Hset & _).
    destruct Hr' as (f1 & sent1 & Hf1 & Hs1 & Hrow1). assert (f1 = f') as ->.
    { destruct Hf1 as (? & _), Hf' as (? & _). congruence. }
    destruct Hrow1 as [(rest & -> & Hrest)|(more1 & ->)]; [|exists more1; exact Hs1].
    destruct (done_received _ _ Hf1) as (_ & Hdr & _).
    assert (Hp : pending (tx_incoming_request f') = []).
    { destruct Hf' as (_ & -> & _). apply nil_length_inv. rewrite delivered_pending, length_app in E'. lia. }
    rewrite (settled_row f' rest (Hset He) Hrest Hp). exists []. now rewrite !app_nil_r.
Qed.

Lemma row_goes base row : leads_to tr (row_on_way base row) (row_sent base row).
Proof.
  apply (leads_to_measure tr (fun p : THost => length base + length row + 1 - length (sent p))). intros m i [Hrow Hm].
  destruct (row_moves base row (length (sent (tr i))) i) as (j & Hij & [Hj|[Hj Hlt]]); [now split|..].
  - exists j. split; [done|now left].
  - exists j. split; [done|]. destruct (Hj) as (f & more & _ & Hs & [(rest & -> & _)|(more' & ->)]).
    + right. split; [exact Hj|]. rewrite Hs, !length_app in *. lia.
    + left. exists more'. exact Hs.
Qed.

(** Where the row has been answered. *)
Lemma row_is_received base row p :
  hrun p -> length (base ++ row) <= done p -> row_sent base row p ->
  exists more, received p = (base ++ row) ++ more /\ (serviced p = None \/ more <> []).
Proof.
  intros Hrun Hd (more & Hs). destruct (host_run_known p Hrun) as (f & Hk).
  pose proof (done_received _ _ Hk) as (Hpos & Hle & _). rewrite delivered_pending, app_assoc in Hs.
  exists (drop (length (base ++ row)) (received p)).
  assert (Hrec : received p = (base ++ row) ++ drop (length (base ++ row)) (received p)).
  { rewrite <- (take_drop (length (base ++ row)) (received p)) at 1.
    f_equal. transitivity (take (length (base ++ row)) (received p ++ pending (rx p))).
    - rewrite take_app_le by lia. done.
    - rewrite Hs. apply take_app_length. }
  split; [exact Hrec|]. destruct (serviced p) as [sq|] eqn:Es; [right|now left]. intros E.
  rewrite E, app_nil_r in Hrec. specialize (Hpos ltac:(done)). unfold finished in Hd. rewrite Es, Hrec in Hd.
  rewrite Hrec in Hpos. lia.
Qed.

(** The requests of the row are taken by the handler and finished. *)
Lemma row_is_finished row i f :
  side (tr i) = Some f -> ready_row row f ->
  exists j more, i <= j /\ received (tr j) = (taken (E:=unit) (tx_incoming_request f) ++ row) ++ more
    /\ (serviced (tr j) = None \/ more <> []).
Proof.
  intros Hf Hready. destruct (fair_run_known i) as (f0 & Hk). assert (f0 = f) as -> by (destruct Hk; congruence).
  assert (Hch : tx_incoming_request f = rx (tr i)) by apply Hk. rewrite Hch.
  destruct (row_goes (sent (tr i)) row i) as (j & Hij & Hj).
  { exists f, []. split; [exact Hk|]. split; [now rewrite app_nil_r|]. now apply row_after_none. }
  destruct (all_sent_finish (length (sent (tr i) ++ row)) j) as (k & Hjk & Hd).
  { destruct Hj as (more & ->). rewrite !length_app. lia. }
  assert (Hsk : row_sent (sent (tr i)) row (tr k)).
  { apply (always_after tr (row_sent (sent (tr i)) row)) with j; [|done..]. intros l (more & Hs).
    destruct (fair_run_known l) as (g & Hg). destruct (fair_run_step l g Hg) as (g' & more' & _ & Hs' & _).
    exists (more ++ more'). now rewrite Hs', Hs, !app_assoc. }
  destruct (row_is_received _ _ _ (fair_run_states k) Hd Hsk) as (more & Hm). exists k, more. split; [lia|exact Hm].
Qed.

(** C9: Every request that can be forwarded is answered. In a run that does not end, as long as there is
    a forwarding receiver, and in which the connection and its handler are polled again and again, in
    any order and with anything else happening between: if at some time requests wait in the buffer
    with numbers in a row from the expected one on, then later the handler has sent, in the order of
    the numbers, the final answers to all requests that had been forwarded before and to these, each
    after any number of Continue responses of its own. The service may answer when it likes: what is
    used of it is that each of its futures is ready, or fails, after a bounded number of polls. *)
Theorem requests_are_answered row i f :
  side (tr i) = Some f -> ready_row row f ->
  exists j messages, i <= j
    /\ answers is_rtspu (taken (E:=unit) (tx_incoming_request f) ++ row) None messages
    /\ forall tx, Handler.sender_handle (host_handler (tr j)) = Some tx ->
         exists more, posted tx = log ++ messages ++ more.
Proof.
  intros Hf Hready. destruct (row_is_finished row i f Hf Hready) as (j & more & Hij & Hrec & Hend).
  destruct (fair_run_known j) as (g & _ & _ & (l & Ha & Hlog) & _). rewrite Hrec in Ha.
  destruct (answers_split is_rtspu _ _ _ _ Ha) as (l1 & l2 & -> & Ha1); [destruct Hend as [->|Hm]; [now left|now right]|].
  exists j, l1. do 2 (split; [done|]). intros tx Htx. exists l2. now apply Hlog.
Qed.
End Fair.
End HostProgress.
