(* ===== verification/ServerStack.v ===== *)
(** * The server on top of a connection

    The service of [rtsp-2/src/server.rs] as the service of the request handler, behind the
    forwarding receiver: what a server sends for the requests it receives. *)

From Stdlib Require Import Strings.Byte.
From stdpp Require Import base list numbers gmap strings.
From S2P Require Import Prelude Text Version Method HeaderName HeaderValue HeaderMap CSeq ContentLength.
From S2P Require Import Syntax Reason Status Request Response Decoder ResponseDecoder Encoder Codec Futures CommaList AcceptRanges Public Uri.
From S2P Require Import Forwarding Handler Serving Server.

Local Open Scope rust_scope.

Section Stack.
Context `{HeaderMapLaws} `{UL : UriparseLaws} `{TimeOps} `{ClockOps} {C Tx TxEvent : Type}
  {SM SR : Type} `{!LinkedSetOps SM Method} `{!LinkedSetLaws SM Method}
  `{!LinkedSetOps SR RangeFormat} `{!LinkedSetLaws SR RangeFormat}
  `{!StreamOps C (CSeq * Request bytes)} `{!SinkOps C (CSeq * Request bytes) unit}
  `{!BoundedLaws C (CSeq * Request bytes) unit} `{!UnboundedOps Tx Message} `{!UnboundedLaws Tx Message}.

(** [request.uri().scheme() == Some(Scheme::RTSPU)]. *)
Definition uri_is_rtspu (u : URI) : bool := bool_decide (scheme u = Some RTSPU).

(** The future of a call is ready; a call that panics has none. *)
Definition service_future (now : Time) (self : ConnectionService) (request : Request bytes) :
    Outcome (Response bytes) * ConnectionService :=
  match Server.call (SM := SM) (SR := SR) now request self with
  | Return (response, self) => (Return response, self)
  | Panic => (Panic, self)
  end.

Definition future_ready (f : Outcome (Response bytes)) : option (Response bytes) :=
  match f with Return response => Some response | Panic => None end.

(** The status of the answer to a request that reaches the request handler. *)
Definition served_status (request : Request bytes) : StatusCode :=
  if uri_is_rtspu (uri request) then NotImplemented
  else if missing_content_type request then Status.BadRequest
  else answer_status (SR := SR) request.

(** The message answers the request. *)
Definition serves (item : CSeq * Request bytes) (m : Message) : Prop :=
  exists response, m = MResponse response /\ typed_get CSeq (headers response) = Some item.1
    /\ status_code response = served_status item.2 /\ body response = [].

Notation stack_replies now :=
  (replies uri_is_rtspu (service_future now) (fun response => response) future_ready).

Lemma answer_serves c request response :
  cseq_valid c -> status_code response = served_status request -> body response = [] ->
  serves (c, request) (answer c response).
Proof.
  intros Hc Hs Hb. exists (with_cseq c response). split; [done|]. split; [|now split].
  unfold with_cseq. cbn. unfold typed_get. now rewrite (typed_insert_try_get (valid := cseq_valid)).
Qed.

(** ** The answers can be sent *)

(** A header of one of the names the server uses, that survives the encoding. *)
Definition server_header (h : HeaderName * HeaderValue) : Prop :=
  h.1 ∈ [HeaderName.CSeq; HeaderName.Public; HeaderName.AcceptRanges]
  /\ encodable_header (response_limits ResponseDecoder.config_default) h.

Lemma server_name_equiv (n n' : HeaderName) :
  n ≡ n' -> n' ∈ [HeaderName.CSeq; HeaderName.Public; HeaderName.AcceptRanges] -> n = n'.
Proof.
  intros Hn Hin. rewrite !elem_of_cons in Hin. destruct Hin as [->|[->|[->|Hin]]]; [| | |inversion Hin];
    now destruct n.
Qed.

(** Inserting such a header of one value. *)
Lemma insert_server_header `{TypedHeader Header} (h : Header) v m :
  typed_encode h = [v] -> server_header (header_name, v) -> Forall server_header (map_iter m) ->
  Forall server_header (map_iter (typed_insert h m))
  /\ (length (map_iter (typed_insert h m)) <= S (length (map_iter m)))%nat.
Proof.
  intros Hv Hh Hm. destruct (typed_insert_entries h v m Hv) as [Hall Hlen]. split; [|exact Hlen].
  rewrite Forall_forall. intros [n w] [[Hn Hw]|([n' w'] & Hp & [Hn Hw])]%list_elem_of_In%Hall; cbn in *.
  - subst w. now rewrite (server_name_equiv _ _ Hn (proj1 Hh)).
  - rewrite Forall_forall in Hm. apply list_elem_of_In, Hm in Hp. unfold equiv, header_value_equiv in Hw. subst w'.
    now rewrite (server_name_equiv _ _ Hn (proj1 Hp)).
Qed.

Lemma word_header name (w : bytes) :
  name ∈ [HeaderName.CSeq; HeaderName.Public; HeaderName.AcceptRanges] ->
  HeaderValue.try_from w = Ok (mkHeaderValue w) -> stripped CR LF w = true -> (length w <= 100)%nat ->
  server_header (name, mkHeaderValue w).
Proof.
  intros Hn Hv Hs Hl. split; [exact Hn|]. cbn.
  assert (Hlimit : (len w + 1 <= 2000)%N) by (unfold len; lia).
  rewrite !elem_of_cons in Hn. destruct Hn as [->|[->|[->|Hn]]]; [| | |inversion Hn];
    (split; [done|]; split; [vm_compute; congruence|]; now repeat split).
Qed.

Lemma cseq_header c : cseq_valid c -> server_header (HeaderName.CSeq, mkHeaderValue (Text.to_string (cseq_number c))).
Proof.
  intros Hc. apply word_header; [now repeat constructor|apply to_string_value| |].
  - pose proof (to_string_digits (cseq_number c)) as Hd. destruct (Text.to_string (cseq_number c)) as [|b w]; [done|].
    apply Forall_cons in Hd as [Hb _]. apply stripped_no_blank; [now left|].
    revert Hb. byte_cases b; intros; first [reflexivity|discriminate].
  - pose proof (to_string_length 1000000000 (cseq_number c)) as Hl.
    unfold cseq_valid, MAX_CSEQ in Hc. specialize (Hl ltac:(lia)).
    change (Pos.size_nat 1000000000) with 30%nat in Hl. lia.
Qed.

(** A response without a body whose headers are at most two of these can be sent, whatever its CSeq. *)
Lemma answer_encodable c status reason hm :
  cseq_valid c -> canonical_reason status = Some reason -> status_wf status -> reason_wf reason ->
  (length (Reason.as_str reason) <= 50)%nat ->
  Forall server_header (map_iter hm) -> (length (map_iter hm) <= 1)%nat ->
  encodable_message (answer c (mkResponse [] hm reason status Rtsp2_0)).
Proof.
  intros Hc Hr Hs Hwf Hl Hh Hn. unfold answer, with_cseq, Response.map_headers. cbn [encodable_message].
  assert (Hv : typed_encode c = [mkHeaderValue (Text.to_string (cseq_number c))]) by reflexivity.
  destruct (insert_server_header c _ hm Hv (cseq_header c Hc) Hh) as [Hall Hlen].
  split; [exact Hs|]. split; [exact Hwf|]. split.
  { unfold final_reason. cbn. now rewrite Hr. }
  split.
  { change (ResponseDecoder.c_reason_phrase_max_length ResponseDecoder.config_default) with 50%N.
    cbn [Response.reason_phrase]. unfold len. lia. }
  split; [done|].
  unfold encodable. cbn [Response.headers Response.body].
  change (sent_headers (typed_insert c hm) [])
    with (without_name HeaderName.ContentLength (map_iter (typed_insert c hm))).
  split; [|split; [|now split]].
  - apply Forall_forall. intros p Hp%list_elem_of_filter. rewrite Forall_forall in Hall. now apply Hall.
  - pose proof (with_without_length HeaderName.ContentLength (map_iter (typed_insert c hm))).
    change (l_count (response_limits ResponseDecoder.config_default)) with 64%N. lia.
Qed.

Lemma plain_answer_encodable c status reason :
  cseq_valid c -> canonical_reason status = Some reason -> status_wf status -> reason_wf reason ->
  (length (Reason.as_str reason) <= 50)%nat ->
  encodable_message (answer c (mkResponse [] map_default reason status Rtsp2_0)).
Proof.
  intros Hc Hr Hs Hw Hl. apply answer_encodable; try done; rewrite iter_default; [constructor|cbn; lia].
Qed.

Lemma service_answer_encodable c status hm reason :
  cseq_valid c -> service_answer (SM := SM) (SR := SR) status hm -> canonical_reason status = Some reason ->
  encodable_message (answer c (mkResponse [] hm reason status Rtsp2_0)).
Proof.
  intros Hc Hans Hr.
  assert (Hstatus : status ∈ [OK; HeaderFieldNotValidForResource; NotFound; Status.BadRequest; NotImplemented]).
  { destruct Hans as [| |status Hs]; [now repeat constructor..|]. do 2 (apply list_elem_of_further). exact Hs. }
  assert (Hreason : status_wf status /\ reason_wf reason /\ (length (Reason.as_str reason) <= 50)%nat).
  { rewrite !elem_of_cons in Hstatus. destruct Hstatus as [->|[->|[->|[->|[->|Hin]]]]]; [..|inversion Hin];
      injection Hr as <-; (split; [done|]; split; [now vm_compute|cbn; lia]). }
  destruct Hreason as (Hs & Hw & Hl).
  destruct Hans as [| |status Hin]; [| |now apply plain_answer_encodable].
  - assert (Hv : typed_encode (public_from_iter (S := SM) SUPPORTED_METHODS) = [mkHeaderValue (bs "OPTIONS, SETUP")]).
    { pose proof (set_iter_from_iter (S := SM) SUPPORTED_METHODS) as Hi.
      change (list_encode (set_from_iter (S := SM) SUPPORTED_METHODS) = [mkHeaderValue (bs "OPTIONS, SETUP")]).
      unfold list_encode. rewrite Hi. reflexivity. }
    destruct (insert_server_header _ _ map_default Hv) as [Hall Hlen].
    { apply word_header; [now repeat constructor|reflexivity..|cbn; lia]. }
    { rewrite iter_default. constructor. }
    rewrite iter_default in Hlen. now apply answer_encodable.
  - assert (Hv : typed_encode (accept_ranges_new (S := SR)) = [mkHeaderValue []]).
    { change (list_encode (set_new : SR) = [mkHeaderValue []]). unfold list_encode. now rewrite set_iter_new. }
    destruct (insert_server_header _ _ map_default Hv) as [Hall Hlen].
    { apply word_header; [now repeat constructor|reflexivity..|cbn; lia]. }
    { rewrite iter_default. constructor. }
    rewrite iter_default in Hlen. now apply answer_encodable.
Qed.

(** The refusals of the request handler and the answers of the service. *)
Lemma server_replies now requests :
  Forall (fun item => cseq_valid item.1 /\ uri_made (uri item.2)) requests ->
  exists messages,
    stack_replies now (mkConnectionService None) requests = Some (messages, mkConnectionService None)
    /\ Forall2 serves requests messages /\ Forall encodable_message messages.
Proof.
  induction 1 as [|[c request] requests [Hc Hu] _ (messages & IH & Hall & Henc)]; [now exists []|].
  cbn [replies]. cbn in Hc, Hu. unfold refusal.
  destruct (uri_is_rtspu (uri request)) eqn:Er; [|destruct (missing_content_type request) eqn:Em].
  - rewrite IH. eexists. split; [reflexivity|].
    split; [|constructor; [apply plain_answer_encodable; [done|reflexivity|done..|cbn; lia]|done]].
    constructor; [|done]. apply answer_serves; [done| |done]. unfold served_status. now rewrite Er.
  - rewrite IH. eexists. split; [reflexivity|].
    split; [|constructor; [apply plain_answer_encodable; [done|reflexivity|done..|cbn; lia]|done]].
    constructor; [|done]. apply answer_serves; [done| |done]. unfold served_status. now rewrite Er, Em.
  - destruct (service_call_answers (SM := SM) (SR := SR) now request (mkConnectionService None) Hu)
      as (response & self' & Hcall & Hb & Hs & _ & _ & _ & Hafter); [done|].
    destruct (service_call_shape (SM := SM) (SR := SR) now request _ _ _ Hcall)
      as (status & hm & reason & -> & Hr & Hans).
    assert (self' = mkConnectionService None) as ->.
    { unfold session_after in Hafter. cbn in Hafter. destruct self' as [s]. cbn in Hafter.
      destruct (method request); now subst. }
    unfold service_future at 1. rewrite Hcall. cbn -[encodable_message]. rewrite IH.
    eexists. split; [reflexivity|].
    split; [|constructor; [now apply service_answer_encodable|done]].
    constructor; [|done]. apply answer_serves; [done| |done]. unfold served_status. now rewrite Er, Em.
Qed.

(** What the server has sent. *)
Lemma server_posted allowed now (c : C) n log accepted handled
    (p : Pipe (C := C) (Tx := Tx) (TService := ConnectionService) (TFuture := Outcome (Response bytes))
           (TxEvent := TxEvent)) :
  (forall env, allowed env -> immediate future_ready env) ->
  pipe_run uri_is_rtspu (service_future now) (fun response => response)
    allowed (mkConnectionService None) c n log accepted handled p ->
  Forall (fun item => uri_made (uri item.2)) accepted ->
  match accepted with [] => handled = [] | (s, _) :: _ => in_order s handled end
  /\ serviced_request (handler p) = None
  /\ forall tx, sender_handle (handler p) = Some tx ->
       exists messages, posted tx = log ++ messages /\ Forall2 serves handled messages
         /\ Forall encodable_message messages.
Proof.
  intros Hallowed Hrun Hu. destruct (pipe_run_order _ _ _ _ _ _ _ _ _ _ _ Hrun) as [Hperm Horder].
  assert (Hok : match accepted with [] => handled = [] | (s, _) :: _ => in_order s handled end
                /\ Forall (fun item => cseq_valid item.1) handled).
  { destruct accepted as [|[s x] accepted].
    - symmetry in Hperm. apply Permutation_nil_r, app_eq_nil in Hperm as [-> _]. now split.
    - destruct Horder as (Hs & [Ho _]%in_order_app & _). split; [exact Ho|]. exact (in_order_valid s _ Hs Ho). }
  destruct Hok as [Hin Hv]. split; [exact Hin|].
  rewrite Hperm, Forall_app in Hu. destruct Hu as [Hu _].
  destruct (server_replies now handled) as (messages & Hre & Hall & Henc); [now apply Forall_and|].
  destruct (pipe_run_immediate _ _ _ future_ready _ _ _ _ _ _ _ _ messages _ Hallowed Hrun Hre)
    as (Hn & _ & _ & Hlog).
  split; [exact Hn|]. intros tx Htx. exists messages. split; [exact (Hlog tx Htx)|now split].
Qed.

(** C15: A server answers, on a connection and whatever the interleaving of its tasks, the requests it has
    accepted: those that the handler has taken have consecutive CSeqs from the first on; each was
    answered at once, by one message, in that order, with its CSeq, an empty body and the status that
    the refusals of the handler and the service give it. Nothing stays in service. *)
Theorem server_serves now (c : C) n log accepted handled
    (p : Pipe (C := C) (Tx := Tx) (TService := ConnectionService) (TFuture := Outcome (Response bytes))
           (TxEvent := TxEvent)) :
  pipe_run uri_is_rtspu (service_future now) (fun response => response)
    (immediate future_ready) (mkConnectionService None) c n log accepted handled p ->
  Forall (fun item => uri_made (uri item.2)) accepted ->
  match accepted with [] => handled = [] | (s, _) :: _ => in_order s handled end
  /\ serviced_request (handler p) = None
  /\ forall tx, sender_handle (handler p) = Some tx ->
       exists messages, posted tx = log ++ messages /\ Forall2 serves handled messages.
Proof.
  intros Hrun Hu. destruct (server_posted _ now c n log accepted handled p (fun _ H => H) Hrun Hu) as (Ho & Hn & Hm).
  split; [exact Ho|]. split; [exact Hn|]. intros tx Htx. destruct (Hm tx Htx) as (messages & Hp & Hall & _).
  now exists messages.
Qed.

(** A poll of the request handler of such a server returns and takes and answers everything that
    waits in the channel: with [server_serves], every accepted request that has been forwarded is
    answered by the next poll. *)
Theorem server_drains now (c : C) n log accepted handled
    (p : Pipe (C := C) (Tx := Tx) (TService := ConnectionService) (TFuture := Outcome (Response bytes))
           (TxEvent := TxEvent)) fuel env :
  pipe_run uri_is_rtspu (service_future now) (fun response => response)
    (immediate future_ready) (mkConnectionService None) c n log accepted handled p ->
  Forall (fun item => uri_made (uri item.2)) accepted ->
  immediate future_ready env -> good_env env (continue_wait_duration (handler p)) ->
  (length (pending (rx_incoming_request (handler p))) < fuel)%nat ->
  exists r h sent,
    handler_poll uri_is_rtspu (service_future now) (fun response => response) fuel env (handler p)
      = Return (r, h, sent)
    /\ pending (rx_incoming_request h) = [] /\ serviced_request h = None
    /\ pipe_run uri_is_rtspu (service_future now) (fun response => response)
         (immediate future_ready) (mkConnectionService None) c n log
         accepted (handled ++ pending (rx_incoming_request (handler p)))
         (mkPipe (set_channel (rx_incoming_request h) (incoming p)) h).
Proof.
  intros Hrun Hu Him Henv Hf.
  pose proof (pipe_run_inv _ _ _ _ _ _ _ _ _ _ _ Hrun) as (_ & Hh%handler_run_inv & _).
  destruct (handler_poll_spec _ (service_future now) (fun response => response) fuel env _ _ _ Hf Henv Hh)
    as (r & h & sent & more & Hp & Hmore & _ & _ & Hr).
  pose proof (pipe_serve _ _ _ _ _ _ _ _ _ _ _ fuel env r h sent more Hrun Him Henv Hf Hp Hmore) as Hrun'.
  destruct (server_posted _ now c n log _ _ _ (fun _ H => H) Hrun' Hu) as (_ & Hnone & _).
  cbn [handler] in Hnone. exists r, h, sent. split; [exact Hp|].
  assert (Hempty : pending (rx_incoming_request h) = []).
  { destruct r as [[]|]; [apply Hr|]. now apply Hr. }
  rewrite Hempty, app_nil_r in Hmore. rewrite Hmore. now repeat split.
Qed.
End Stack.
