(* ===== verification/ServerProgress.v ===== *)
(** * The progress of a server

    [Progress] with the service of [Server], whose futures are ready at once: every request that can
    be forwarded is answered, with the status that it calls for. And a run without end, on concrete
    channels. *)

From Stdlib Require Import Strings.Byte.
From stdpp Require Import base list numbers gmap strings.
From S2P Require Import Prelude Text Fairness Version Method HeaderName HeaderValue HeaderMap CSeq.
From S2P Require Import Status Request Response Codec Futures CommaList AcceptRanges Public Uri.
From S2P Require Import Forwarding Handler Pending Shutdown Sender Receiver Connection ConnectionSteps.
From S2P Require Import Serving HostSteps Progress Server ServerStack.

Local Open Scope nat_scope.
Local Open Scope rust_scope.

Section ServerProgress.
Context `{HeaderMapLaws} `{UL : UriparseLaws} `{TimeOps} `{ClockOps} {Date : Type} `{!TypedHeader Date}
  {Chan OTx ORx World C CE Tx TStream Rx TSink HRx RxInitiate TxEvent : Type}
  {SM SR : Type} `{!LinkedSetOps SM Method} `{!LinkedSetLaws SM Method}
  `{!LinkedSetOps SR RangeFormat} `{!LinkedSetLaws SR RangeFormat}
  `{!StreamOps Chan (CSeq * Request bytes)} `{!SinkOps Chan (CSeq * Request bytes) unit}
  `{!BoundedLaws Chan (CSeq * Request bytes) unit}
  `{!OneshotOps World OTx ORx (PendingRequestResponse ORx)}
  `{!StreamOps C (PendingRequestUpdate OTx)} `{!UnboundedOps C (PendingRequestUpdate OTx)}
  `{!StreamOps CE CodecEvent} `{!UnboundedOps Tx Message} `{!UnboundedLaws Tx Message}
  `{!TryStreamOps TStream Message ProtocolError}
  `{!StreamOps Rx Message} `{!SinkOps TSink Message ProtocolError} `{!FlushOps TSink ProtocolError}.

Notation TReceiver := (Receiver (Chan := Chan) (OTx := OTx) (CE := CE) (Tx := Tx) (TStream := TStream)).
Notation TSender := (Sender (Rx := Rx) (TSink := TSink)).
Notation HEnv := (Handler.Env (TFuture := Outcome (Response bytes)) (TResponse := Response bytes)).
Notation THost := (Host (Chan := Chan) (OTx := OTx) (CE := CE) (Tx := Tx) (TStream := TStream) (Rx := Rx)
  (TSink := TSink) (HRx := HRx) (RxInitiate := RxInitiate) (TxEvent := TxEvent) (TService := ConnectionService)
  (TFuture := Outcome (Response bytes))).

(** The futures of the service are ready when they are polled. *)
Definition answering (env : HEnv) : Prop := immediate future_ready env /\ resolving (fun _ => 0) env.

(** C16: A server answers every request that can be forwarded. In a run without end, in which the
    connection and the request handler are polled again and again: the requests that wait in the
    buffer at some time with numbers in a row from the expected one on are answered later, after all
    those that had been forwarded before, each by one message with its CSeq, an empty body and the
    status that the refusals of the handler and the service give it. *)
Theorem server_answers_row now (arrives : Message -> Prop) (c : Chan) n log (tr : nat -> THost) event row i f :
  fair_run (Date := Date) (ORx := ORx) (World := World) (C := C) uri_is_rtspu (service_future (SM := SM) (SR := SR) now)
    (fun response => response) arrives answering (mkConnectionService None) c n log tr event ->
  (forall request, arrives (MRequest request) -> uri_made (uri request)) ->
  forwarding_side (host_connection (tr i)) = Some f -> ready_row row f ->
  exists j, i <= j /\ forall tx, Handler.sender_handle (host_handler (tr j)) = Some tx ->
    exists messages more, posted tx = log ++ messages ++ more
      /\ Forall2 (serves (SR := SR)) (taken (E:=unit) (tx_incoming_request f) ++ row) messages.
Proof.
  intros Hfair Hmade Hf Hready.
  destruct (row_is_finished _ _ _ _ _ _ _ _ _ (fun _ => 0) (fun _ Henv => proj2 Henv) tr event Hfair row i f Hf Hready)
    as (j & more & Hij & Hrec & _).
  destruct (host_run_pipe _ _ _ _ _ _ _ _ _ _ (fair_run_states _ _ _ _ _ _ _ _ _ tr event Hfair j))
    as (g & accepted & handled & _ & Hpipe & Hacc).
  destruct (server_posted _ now c n log accepted handled _ (fun _ Henv => proj1 Henv) Hpipe) as (_ & _ & Hp).
  { eapply Forall_impl; [exact Hacc|]. intros item [Hin _]. now apply Hmade. }
  apply pipe_run_inv in Hpipe as (_ & _ & _ & Hd & _). cbn in Hd. rewrite Hrec in Hd. subst handled.
  exists j. split; [exact Hij|]. intros tx Htx. destruct (Hp tx Htx) as (messages & Hlog & Hserves & _).
  apply Forall2_app_inv_l in Hserves as (l1 & l2 & Hl1 & _ & ->). now exists l1, l2.
Qed.
End ServerProgress.
