(* ===== verification/Endpoints.v ===== *)
(** * Clients and servers

    Model of [Client] in [rtsp-2/src/client.rs], of [Server] and its accept loop in
    [rtsp-2/src/server.rs], and of [Connection::new] in
    [rtsp-2/src/protocol/connection/mod.rs]: what the two ends make of a socket and which tasks they
    start. The sockets are those of the [tokio] library; its executor is an interface. *)

From Stdlib Require Import Strings.Byte.
From stdpp Require Import base list numbers gmap strings.
From S2P Require Import Prelude Text Version Method HeaderName HeaderValue HeaderMap CSeq.
From S2P Require Import CommaList AcceptRanges Public Session Uri.
From S2P Require Import Status Request Response Codec Futures Forwarding Handler Pending Shutdown Sender Receiver ReceiverSteps Connection ConnectionSteps Handle.
From S2P Require Import Serving HostSteps Server ServerStack.

Local Open Scope rust_scope.

(** ** The executor *)

(** [Executor::spawn] of [tokio_executor]: it takes the task or has an error. *)
Class ExecutorOps (X Task SpawnError : Type) := {
  spawn : X -> Task -> Result unit SpawnError * X;
}.

(** The tasks an executor has been given run in no fixed order; their list is that in which they
    were given. *)
Class ExecutorLaws (X Task SpawnError : Type) `{!ExecutorOps X Task SpawnError} := {
  tasks : X -> list Task;
  tasks_spawn x t :
    let '(r, x') := spawn x t in
    tasks x' = match r with Ok _ => tasks x ++ [t] | Err _ => tasks x end;
}.

Section Endpoints.
Context `{HeaderMapOps} `{URIOps} `{ClockOps}
  {Chan OTx ORx World C CE Tx TStream RxMessage TSink RxRequest TService TFuture : Type}
  {TxEvent SRx RxInitiate TxInitiate : Type}
  `{!OneshotOps World OTx ORx (PendingRequestResponse ORx)} `{!UnboundedOps C (PendingRequestUpdate OTx)}
  `{!UnboundedOps Tx Message}.
Context (from_secs : N -> Duration).

Notation TReceiver := (Receiver (Chan := Chan) (OTx := OTx) (CE := CE) (Tx := Tx) (TStream := TStream)).
Notation TSender := (Sender (Rx := RxMessage) (TSink := TSink)).
Notation TConnection := (Connection TReceiver TSender SRx RxInitiate TxEvent).
Notation THandler := (RequestHandler (Rx := RxRequest) (Tx := Tx) (TService := TService)
                        (TFuture := TFuture) (TxEvent := TxEvent)).
Notation TChannels :=
  (Channels (Chan := Chan) (CE := CE) (Tx := Tx) (RxMessage := RxMessage) (RxRequest := RxRequest)
     (TxEvent := TxEvent) (SRx := SRx) (RxInitiate := RxInitiate) (TxInitiate := TxInitiate)).
Notation THandle := (ConnectionHandle (Tx := Tx) (SRx := SRx)).
Notation TShared := (HandleShared (TxInitiate := TxInitiate)).

(** A socket that was connected or accepted: the halves of its framed transport, the channels that
    are made for its connection, and the random number of the first request. *)
Record Socket := mkSocket {
  socket_stream : TStream;
  socket_sink : TSink;
  socket_channels : TChannels;
  socket_cseq : CSeq;
}.

(** [Connection::new]: the default configuration. *)
Definition connection_of (socket : Socket) (service : option TService) :
    TConnection * option THandler * THandle * TShared :=
  with_config (OTx := OTx) (TFuture := TFuture) (socket_channels socket) (socket_stream socket)
    (socket_sink socket) (socket_cseq socket) service (config_new from_secs).

(** The tasks that are started: connections and request handlers. *)
Inductive Task :=
  | ConnectionTask (connection : TConnection)
  | HandlerTask (handler : THandler).

Context {X SpawnError : Type} `{!ExecutorOps X Task SpawnError}.

(** [unwrap] on the result of [spawn]; [tokio::spawn] panics on its own. *)
Definition spawn_unwrap (task : Task) (x : X) : Outcome X :=
  match spawn x task with
  | (Ok _, x) => Return x
  | (Err _, _) => Panic
  end.

(** *** The client *)

Section Client.
Context {Address IoError : Type}.

Record Client := mkClient { handle : THandle; handle_shared : TShared; server_address : Address }.

(** The closure of [Client::connect], which has no service. *)
Definition connected (address : Address) (socket : Socket) (x : X) : Outcome (Client * X) :=
  let '(connection, handler, handle, shared) := connection_of socket None in
  let! x := spawn_unwrap (ConnectionTask connection) x in
  let! x :=
    match handler with
    | Some handler => spawn_unwrap (HandlerTask handler) x
    | None => Return x
    end in
  Return (mkClient handle shared address, x).

(** A poll of the future of [Client::connect], by what that of the socket gives. *)
Definition connect_poll (address : Address) (tcp : Poll Socket IoError) (x : X) :
    Outcome (Poll Client IoError * X) :=
  match tcp with
  | Ok (Ready socket) => let! (client, x) := connected address socket x in Return (Ok (Ready client), x)
  | Ok NotReady => Return (Ok NotReady, x)
  | Err e => Return (Err e, x)
  end.

(** [Client::send_request]: that of the handle. *)
Definition client_send_request (env : TimeEnv) (allow_requests : bool) (self : Client)
    (request : Request bytes) (w : World) (c : C) (m : Tx) :=
  send_request (ORx := ORx) from_secs env allow_requests (handle self) (sequence_number (handle_shared self))
    request w c m.
End Client.

(** *** The server *)

Section Server.
Context {SessionKey Session IoError : Type}.

(** [Server], with what the handles share; the map of the sessions as a list. *)
Record Server := mkServer {
  connections : list (THandle * TShared);
  sessions : list (SessionKey * Session);
}.

(** [Server::new]. *)
Definition server_new : Server := mkServer [] [].

(** [connections.push]: the lock on the server is held for nothing else. *)
Definition push_connection (handle : THandle * TShared) (self : Server) : Server :=
  mkServer (connections self ++ [handle]) (sessions self).

(** The closure that [Server::run] calls for an accepted socket. *)
Definition accept_socket (service : TService) (socket : Socket) (server : Server) (x : X) :
    Outcome (Server * X) :=
  let '(connection, handler, handle, shared) := connection_of socket (Some service) in
  let server := push_connection (handle, shared) server in
  let! x := spawn_unwrap (ConnectionTask connection) x in
  match handler with
  | Some handler => let! x := spawn_unwrap (HandlerTask handler) x in Return (server, x)
  | None => Panic
  end.

(** [incoming().for_each] in [Server::run] over what the listener gives: the first error ends it. *)
Fixpoint accept_loop (service : TService) (incoming : list (Result Socket IoError)) (server : Server) (x : X) :
    Outcome (Poll unit unit * Server * X) :=
  match incoming with
  | [] => Return (Ok NotReady, server, x)
  | Ok socket :: incoming =>
      let! (server, x) := accept_socket service socket server x in
      accept_loop service incoming server x
  | Err _ :: _ => Return (Err tt, server, x)
  end.
End Server.
End Endpoints.

(** ** What the two ends start *)

Section EndpointsSpec.
Context `{HeaderMapLaws} `{Request.URIOps} `{ClockOps} {Date : Type} `{!TypedHeader Date}
  {Chan OTx ORx World C CE Tx TStream RxMessage TSink TService TFuture TResponse : Type}
  {TxEvent SRx RxInitiate TxInitiate X SpawnError : Type}
  `{!StreamOps Chan (CSeq * Request bytes)} `{!SinkOps Chan (CSeq * Request bytes) unit}
  `{!BoundedLaws Chan (CSeq * Request bytes) unit}
  `{!OneshotOps World OTx ORx (PendingRequestResponse ORx)}
  `{!OneshotLaws World OTx ORx (PendingRequestResponse ORx)}
  `{!StreamOps C (PendingRequestUpdate OTx)} `{!UnboundedOps C (PendingRequestUpdate OTx)}
  `{!ChannelLaws C (PendingRequestUpdate OTx)}
  `{!StreamOps CE CodecEvent} `{!UnboundedOps Tx Message} `{!UnboundedLaws Tx Message}
  `{!TryStreamOps TStream Message ProtocolError}
  `{!StreamOps RxMessage Message} `{!SinkOps TSink Message ProtocolError} `{!FlushOps TSink ProtocolError}.
Context (from_secs : N -> Duration).

Notation TReceiver := (Receiver (Chan := Chan) (OTx := OTx) (CE := CE) (Tx := Tx) (TStream := TStream)).
Notation TSender := (Sender (Rx := RxMessage) (TSink := TSink)).
Notation TConnection := (Connection TReceiver TSender SRx RxInitiate TxEvent).
Notation THandler := (RequestHandler (Rx := Chan) (Tx := Tx) (TService := TService)
                        (TFuture := TFuture) (TxEvent := TxEvent)).
Notation TSocket :=
  (Socket (Chan := Chan) (CE := CE) (Tx := Tx) (TStream := TStream) (RxMessage := RxMessage) (TSink := TSink)
     (RxRequest := Chan) (TxEvent := TxEvent) (SRx := SRx) (RxInitiate := RxInitiate) (TxInitiate := TxInitiate)).
Notation TTask :=
  (Task (Chan := Chan) (OTx := OTx) (CE := CE) (Tx := Tx) (TStream := TStream) (RxMessage := RxMessage)
     (TSink := TSink) (RxRequest := Chan) (TService := TService) (TFuture := TFuture) (TxEvent := TxEvent)
     (SRx := SRx) (RxInitiate := RxInitiate)).
Notation TParts :=
  (connection_parts (Date := Date) (Chan := Chan) (OTx := OTx) (ORx := ORx) (World := World) (C := C)
     (CE := CE) (Tx := Tx) (TStream := TStream) (Rx := RxMessage) (TSink := TSink)).
Notation THost := (Host (Chan := Chan) (OTx := OTx) (CE := CE) (Tx := Tx) (TStream := TStream) (Rx := RxMessage)
  (TSink := TSink) (HRx := SRx) (RxInitiate := RxInitiate) (TxEvent := TxEvent) (TService := TService)
  (TFuture := TFuture)).
Context `{!ExecutorOps X TTask SpawnError} `{!ExecutorLaws X TTask SpawnError}.

Notation graceful := (DEFAULT_GRACEFUL_SHUTDOWN_TIMEOUT_DURATION from_secs).
Notation initiate socket := (fst (initiate_shutdown (socket_channels socket))).

(** A handle that is the only one of its connection and that has asked for nothing. *)
Definition only_handle (socket : TSocket) (shared : HandleShared (TxInitiate := TxInitiate)) : Prop :=
  handles_run (initiate socket) graceful [] 1 (shutdown_sender shared) [].

Lemma spawn_unwrap_spec (task : TTask) (x : X) :
  match spawn_unwrap task x with
  | Return x' => spawn x task = (Ok tt, x') /\ tasks x' = tasks x ++ [task]
  | Panic => exists e, (spawn x task).1 = Err e
  end.
Proof.
  unfold spawn_unwrap. pose proof (tasks_spawn x task) as Ht.
  destruct (spawn x task) as [[[]|e] x']; [done|]. now exists e.
Qed.

(** *** The client *)

Section Client.
Context {Address IoError : Type}.

(** A client that has its socket starts one task, its connection, or panics if the executor does not
    take it. The connection is new, has no request handler whose end it would await, and is at the
    start of the runs in which its callers get the responses to their requests; the numbers of
    the requests begin with the random one, and dropping the client shuts the connection down. *)
Theorem client_connects arrives (address : Address) (socket : TSocket) (x : X)
    (sh : Shared (World := World) (C := C)) :
  (forall t, ~ allocated (oneshots sh) t) -> (forall t, sent (oneshots sh) t = None) ->
  pending (update_channel sh) = [] ->
  exists (conn : TConnection) (handle : ConnectionHandle (Tx := Tx) (SRx := SRx)) shared,
    connect_poll (TService := TService) (TFuture := TFuture) (IoError := IoError) from_secs address (Ok (Ready socket)) x
      = (match spawn x (ConnectionTask conn) with
         | (Ok _, x') => Return (Ok (Ready (mkClient handle shared address)), x')
         | (Err _, _) => Panic
         end)
    /\ connection_run (ConnectionParts0 := TParts) (snd (initiate_shutdown (socket_channels socket)))
         (fst (connection_shutdown_event (socket_channels socket))) [] conn
    /\ Connection.rx_handler_shutdown_event conn = None
    /\ handle_shutdown_receiver handle
       = shutdown_receiver_new (snd (connection_shutdown_event (socket_channels socket))) None
    /\ sequence_number shared = socket_cseq socket
    /\ peer_run (Date := Date) (ORx := ORx) arrives (sequence_number shared) (handle_sender handle)
         (mkPeer conn sh [] (sequence_number shared) (handle_sender handle))
    /\ only_handle socket shared.
Proof.
  intros Hal Hse Hpe. unfold connect_poll, connected, connection_of, only_handle, with_config.
  destruct (incoming_request _ _) as [chan rx], (outgoing_message _) as [tx rxm] eqn:Eo,
    (initiate_shutdown _) as [ti ri], (connection_shutdown_event _) as [te re], (handler_shutdown_event _) as [th rh].
  cbn [outcome_bind handle_new fst snd]. unfold spawn_unwrap.
  match goal with |- context [spawn x (ConnectionTask ?c)] => exists c end. do 2 eexists. split.
  - match goal with |- context [spawn x (ConnectionTask ?c)] => destruct (spawn x (ConnectionTask c)) as [[u|e] x'] end;
      reflexivity.
  - split; [now apply connection_run_new|]. do 3 (split; [done|]). split; [|constructor]. now apply peer_start.
Qed.
End Client.

(** *** The server *)

Section Server.
Context {SessionKey Session IoError : Type} (is_rtspu : Request.URI -> bool)
  (call : TService -> Request bytes -> TFuture * TService) (into : TResponse -> Response bytes).

(** The sockets that are accepted, and whether the listener gave an error. *)
Fixpoint accepted (incoming : list (Result TSocket IoError)) : list TSocket :=
  match incoming with
  | Ok socket :: incoming => socket :: accepted incoming
  | _ => []
  end.
Definition failed (incoming : list (Result TSocket IoError)) : bool :=
  existsb (fun r => match r with Err _ => true | Ok _ => false end) incoming.

(** The channel of the requests of a socket with both its ends. *)
Definition new_socket (socket : TSocket) (c : Chan) (n : N) : Prop :=
  incoming_request (socket_channels socket) n = (c, c) /\ taken (E:=unit) c = []
  /\ posted (fst (outgoing_message (socket_channels socket))) = [].

(** The two tasks of a connection. *)
Definition host_tasks (host : THost) : list TTask :=
  [ConnectionTask (host_connection host); HandlerTask (host_handler host)].

Notation the_run arrives allowed service c n :=
  (host_run (Date := Date) (ORx := ORx) (World := World) (C := C) is_rtspu call into arrives allowed service c n []).

(** What is made of an accepted socket. *)
Definition hosts arrives allowed (service : TService) (socket : TSocket) (host : THost) : Prop :=
  forall c, new_socket socket c DEFAULT_REQUEST_BUFFER_SIZE ->
    the_run arrives allowed service c DEFAULT_REQUEST_BUFFER_SIZE host.

Lemma accept_socket_spec arrives allowed (service : TService) (socket : TSocket)
    (server : Server (SessionKey := SessionKey) (Session := Session)) (x : X) :
  (forall x task, exists x', spawn x task = (Ok tt, x')) ->
  exists host handle x',
    accept_socket from_secs service socket server x = Return (push_connection handle server, x')
    /\ tasks x' = tasks x ++ host_tasks host /\ hosts arrives allowed service socket host
    /\ only_handle socket (snd handle).
Proof.
  intros Hspawn. unfold accept_socket, connection_of, hosts, new_socket, only_handle, with_config.
  change (request_buffer_size (config_new from_secs)) with DEFAULT_REQUEST_BUFFER_SIZE.
  destruct (incoming_request _ _) as [chan rx] eqn:Ei, (outgoing_message _) as [tx rxm] eqn:Eo,
    (initiate_shutdown _) as [ti ri], (connection_shutdown_event _) as [te re], (handler_shutdown_event _) as [th rh].
  cbn [outcome_bind handle_new fst snd].
  match goal with |- context [spawn_unwrap (ConnectionTask ?c) x] =>
    pose proof (spawn_unwrap_spec (ConnectionTask c) x) as Hs1; destruct (spawn_unwrap (ConnectionTask c) x) as [x1|];
    [destruct Hs1 as [_ Hs1]|destruct Hs1 as [e Hs1], (Hspawn x (ConnectionTask c)) as [y E]; now rewrite E in Hs1]
  end.
  cbn [outcome_bind].
  match goal with |- context [spawn_unwrap (HandlerTask ?h) x1] =>
    pose proof (spawn_unwrap_spec (HandlerTask h) x1) as Hs2; destruct (spawn_unwrap (HandlerTask h) x1) as [x2|];
    [destruct Hs2 as [_ Hs2]|destruct Hs2 as [e Hs2], (Hspawn x1 (HandlerTask h)) as [y E]; now rewrite E in Hs2]
  end.
  cbn [outcome_bind]. eexists (mkHost _ _), (_, _), x2. split; [reflexivity|].
  split; [rewrite Hs2, Hs1, <- app_assoc; reflexivity|]. split; [|constructor].
  intros c ([= <- <-] & Hc & Hp). now apply host_start.
Qed.

Lemma accept_loop_spec arrives allowed (service : TService) (incoming : list (Result TSocket IoError))
    (server : Server (SessionKey := SessionKey) (Session := Session)) (x : X) :
  (forall x task, exists x', spawn x task = (Ok tt, x')) ->
  exists all handles x',
    accept_loop from_secs service incoming server x
      = Return (if failed incoming then Err tt else Ok NotReady,
                mkServer (connections server ++ handles) (sessions server), x')
    /\ tasks x' = tasks x ++ (all ≫= host_tasks)
    /\ Forall2 (hosts arrives allowed service) (accepted incoming) all
    /\ Forall2 (fun socket handle => only_handle socket (snd handle)) (accepted incoming) handles.
Proof.
  intros Hspawn. revert server x. induction incoming as [|[socket|e] incoming IH]; intros server x; cbn.
  - exists [], [], x. cbn. rewrite !app_nil_r. destruct server. repeat split; constructor.
  - destruct (accept_socket_spec arrives allowed service socket server x Hspawn) as (host & handle & x1 & E & Ht & Hh & Ho).
    rewrite E. cbn [outcome_bind].
    destruct (IH (push_connection handle server) x1) as (all & handles & x2 & E2 & Ht2 & Hh2 & Ho2).
    exists (host :: all), (handle :: handles), x2. rewrite E2. cbn [connections sessions push_connection].
    rewrite <- app_assoc. split; [done|]. split; [|now split; constructor].
    rewrite Ht2, Ht, <- app_assoc. reflexivity.
  - exists [], [], x. cbn. rewrite !app_nil_r. destruct server. repeat split; constructor.
Qed.
End Server.
End EndpointsSpec.

(** ** The server with its service *)

Section Run.
Context `{HeaderMapLaws} `{UL : UriparseLaws} `{ClockOps} `{TimeOps} {Date : Type} `{!TypedHeader Date}
  {Chan OTx ORx World C CE Tx TStream RxMessage TSink : Type}
  {TxEvent SRx RxInitiate TxInitiate X SpawnError IoError : Type}
  {SM SR : Type} `{!LinkedSetOps SM Method} `{!LinkedSetOps SR RangeFormat}
  `{!StreamOps Chan (CSeq * Request bytes)} `{!SinkOps Chan (CSeq * Request bytes) unit}
  `{!BoundedLaws Chan (CSeq * Request bytes) unit}
  `{!OneshotOps World OTx ORx (PendingRequestResponse ORx)}
  `{!StreamOps C (PendingRequestUpdate OTx)} `{!UnboundedOps C (PendingRequestUpdate OTx)}
  `{!StreamOps CE CodecEvent} `{!UnboundedOps Tx Message} `{!UnboundedLaws Tx Message}
  `{!TryStreamOps TStream Message ProtocolError}
  `{!StreamOps RxMessage Message} `{!SinkOps TSink Message ProtocolError} `{!FlushOps TSink ProtocolError}.
Context (from_secs : N -> Duration).

Notation TSocket :=
  (Socket (Chan := Chan) (CE := CE) (Tx := Tx) (TStream := TStream) (RxMessage := RxMessage) (TSink := TSink)
     (RxRequest := Chan) (TxEvent := TxEvent) (SRx := SRx) (RxInitiate := RxInitiate) (TxInitiate := TxInitiate)).
Notation TTask :=
  (Task (Chan := Chan) (OTx := OTx) (CE := CE) (Tx := Tx) (TStream := TStream) (RxMessage := RxMessage)
     (TSink := TSink) (RxRequest := Chan) (TService := ConnectionService) (TFuture := Outcome (Response bytes))
     (TxEvent := TxEvent) (SRx := SRx) (RxInitiate := RxInitiate)).
Context `{!ExecutorOps X TTask SpawnError} `{!ExecutorLaws X TTask SpawnError}.

Notation TServer :=
  (Server (Tx := Tx) (SRx := SRx) (TxInitiate := TxInitiate) (SessionKey := SessionID) (Session := ServerSession)).

(** [Server::run] when the listener is bound: a new server, and a service without a session for
    every connection. *)
Definition run (incoming : list (Result TSocket IoError)) (x : X) : Outcome (Poll unit unit * TServer * X) :=
  accept_loop from_secs (mkConnectionService None) incoming server_new x.

Notation server_run now arrives c n :=
  (host_run (Date := Date) (ORx := ORx) (World := World) (C := C) uri_is_rtspu (service_future (SM := SM) (SR := SR) now)
     (fun response => response) arrives (immediate future_ready) (mkConnectionService None) c n []).

(** C19: The server starts two tasks for every socket that it accepts, the connection and its request
    handler, in this order, until the listener gives an error, which ends the loop for good; the two
    tasks are at the start of the runs in which the requests that arrive are answered in order. The
    handle of every connection stays in the server, so that no connection is asked to shut down. *)
Theorem server_accepts now arrives (incoming : list (Result TSocket IoError)) (x : X) :
  (forall x task, exists x', spawn x task = (Ok tt, x')) ->
  exists all handles x',
    run incoming x = Return (if failed incoming then Err tt else Ok NotReady, mkServer handles [], x')
    /\ tasks x' = tasks x ++ (all ≫= host_tasks)
    /\ Forall2 (fun socket host => forall c, new_socket socket c DEFAULT_REQUEST_BUFFER_SIZE ->
                  server_run now arrives c DEFAULT_REQUEST_BUFFER_SIZE host) (accepted incoming) all
    /\ Forall2 (fun socket handle => only_handle from_secs socket (snd handle)) (accepted incoming) handles.
Proof.
  intros Hspawn. unfold run.
  destruct (accept_loop_spec (H1 := uri_ops) (Date := Date) (ORx := ORx) (World := World) (C := C) from_secs uri_is_rtspu
              (service_future (SM := SM) (SR := SR) now) (fun response => response) arrives
              (immediate future_ready) (mkConnectionService None) incoming (server_new (SessionKey := SessionID) (Session := ServerSession)) x Hspawn)
    as (all & handles & x' & E & Ht & Hh & Ho).
  now exists all, handles, x'.
Qed.
End Run.
