(* ===== verification/Media.v ===== *)
(** * Descriptions of media

    The declarations of [rtsp-2/src/media.rs]: what a stream of media says about itself. The crate
    has no operation on them yet. *)

From stdpp Require Import base.
From S2P Require Import Prelude.

Inductive MediaContentModification := Dynamic | Immutable | TimeProgressing.

Inductive MediaRetention := TimeDuration | TimeLimited | Unlimited.

Inductive MediaSeeking := BeginningOnly | NoSeeking | RandomAccess.

Inductive MediaUsage := DynamicOnDemand | Live | LiveWithRecording | OnDemand.

(** The trait, of functions without [self]. *)
Class MediaStream (Self : Type) := {
  content_modification : MediaContentModification;
  retention : MediaRetention;
  seeking : MediaSeeking;
}.

(** The struct has no field, and the other trait no function. *)
Inductive Presentation := presentation.
