(* ===== verification/Conversation.v ===== *)
(** * A conversation

    The whole way of a request: a client encodes its requests, the codec of a server decodes them,
    the forwarding receiver and the request handler have the service answer them, the answers are
    encoded, and the codec of the client decodes them. *)

From Stdlib Require Import Strings.Byte.
From stdpp Require Import base list numbers gmap strings.
From S2P Require Import Prelude Text Version Method HeaderName HeaderValue HeaderMap CSeq ContentLength.
From S2P Require Import Syntax Status Request Response Encoder Codec Futures CommaList AcceptRanges Public Uri.
From S2P Require Import Forwarding Handler Serving Server ServerStack.

Local Open Scope rust_scope.

(** ** What the other side reads of the headers *)

Section Received.
Context `{HeaderMapLaws} `{URIOps}.

(** Every header but the content length arrives as it was. *)
Lemma received_get_all name hm hm' (body : bytes) :
  map_iter hm' ≡ sent_headers hm body -> ¬ name ≡ HeaderName.ContentLength ->
  get_all name hm' = get_all name hm.
Proof.
  intros Hr Hn. rewrite !get_all_iter. apply headers_snd. rewrite Hr. unfold sent_headers.
  rewrite with_name_app, (with_name_without HeaderName.ContentLength name) by exact Hn.
  destruct (0 <? len body)%N; [|done]. unfold with_name at 1. now rewrite filter_cons_False by (cbn; intros E; now apply Hn).
Qed.

Lemma received_cseq hm hm' (body : bytes) :
  map_iter hm' ≡ sent_headers hm body -> typed_get CSeq hm' = typed_get CSeq hm.
Proof.
  intros Hr. assert (E : get_all (header_name (Header := CSeq)) hm' = get_all (header_name (Header := CSeq)) hm)
    by (apply (received_get_all _ _ _ _ Hr); done).
  unfold typed_get, typed_try_get. now rewrite E.
Qed.

Lemma received_requests (requests : list (Request bytes)) ms :
  Forall2 received_message (MRequest <$> requests) ms ->
  exists received, ms = MRequest <$> received
    /\ Forall2 (fun q q' => received_message (MRequest q) (MRequest q')) requests received.
Proof.
  revert ms. induction requests as [|q requests IH]; intros ms Hall; inversion Hall as [|? m ? ms' Hm Hrest]; subst.
  - now exists [].
  - destruct m as [q'|r']; [|done]. destruct (IH _ Hrest) as (received & -> & Hr).
    exists (q' :: received). split; [done|]. now constructor.
Qed.
End Received.

(** ** The conversation *)

Section Conversation.
Context `{HeaderMapLaws} `{UL : UriparseLaws} `{TimeOps} `{ClockOps} {C Tx TxEvent : Type}
  {SM SR : Type} `{!LinkedSetOps SM Method} `{!LinkedSetLaws SM Method}
  `{!LinkedSetOps SR RangeFormat} `{!LinkedSetLaws SR RangeFormat}
  `{!StreamOps C (CSeq * Request bytes)} `{!SinkOps C (CSeq * Request bytes) unit}
  `{!BoundedLaws C (CSeq * Request bytes) unit} `{!UnboundedOps Tx Message} `{!UnboundedLaws Tx Message}.

Notation server_run now c n := (pipe_run (C := C) (Tx := Tx) (TxEvent := TxEvent)
  uri_is_rtspu (service_future (SM := SM) (SR := SR) now)
  (fun response => response) (immediate future_ready) (mkConnectionService None) c n []).

(** The requests with their numbers. *)
Definition numbered (requests : list (Request bytes)) (items : list (CSeq * Request bytes)) : Prop :=
  Forall2 (fun q item => typed_get CSeq (Request.headers q) = Some item.1 /\ item.2 = q) requests items.

(** The response is the answer to the request, as the server received it. *)
Definition answered (q : Request bytes) (m : Message) : Prop :=
  exists response, m = MResponse response
    /\ typed_get CSeq (Response.headers response) = typed_get CSeq (Request.headers q)
    /\ status_code response = served_status (SR := SR) q /\ Response.body response = [].

Lemma serves_received items messages received :
  Forall2 (serves (SR := SR)) items messages -> Forall2 received_message messages received ->
  Forall2 (fun item m => exists response, m = MResponse response
             /\ typed_get CSeq (Response.headers response) = Some item.1
             /\ status_code response = served_status (SR := SR) item.2 /\ Response.body response = [])
    items received.
Proof.
  intros Hs. revert received. induction Hs as [|item m items messages Hm _ IH]; intros received Hr.
  { inversion Hr. constructor. }
  inversion Hr as [|? m' ? received' Hm' Hrest]; subst. constructor; [|now apply IH].
  destruct Hm as (response & -> & Hc & Hst & Hb). destruct m' as [|response']; [done|].
  destruct Hm' as (Hst' & _ & _ & Hb' & Hh). exists response'. split; [done|].
  rewrite (received_cseq _ _ _ Hh), Hst', Hb'. now repeat split.
Qed.

(** The properties of the numbered requests that do not depend on their order. *)
Lemma numbered_items requests items :
  numbered requests items -> Forall (fun q => uri_made (uri q)) requests ->
  Forall (fun item => uri_made (uri item.2)) items
  /\ Forall (fun item => typed_get CSeq (Request.headers item.2) = Some item.1) items.
Proof.
  induction 1 as [|q [c q'] requests items [Hc Hq'] _ IH]; intros Hu; [now split|]. cbn in Hc, Hq'. subst q'.
  apply Forall_cons in Hu as [Hq Hu]. destruct (IH Hu) as [IH1 IH2]. now split; constructor.
Qed.

Lemma items_answered items messages :
  Forall (fun item => typed_get CSeq (Request.headers item.2) = Some item.1) items ->
  Forall2 (fun item m => exists response, m = MResponse response
             /\ typed_get CSeq (Response.headers response) = Some item.1
             /\ status_code response = served_status (SR := SR) item.2 /\ Response.body response = [])
    items messages ->
  Forall2 answered (snd <$> items) messages.
Proof.
  intros Hn Hm. induction Hm as [|item m items messages (response & -> & Hr & Hst & Hb) _ IH]; [constructor|].
  apply Forall_cons in Hn as [Hc Hn]. constructor; [|now apply IH].
  exists response. rewrite Hc. now repeat split.
Qed.

(** C2: A client that sends requests with any codec to a server: the codec of the server decodes as many
    requests, with the same methods, URIs and bodies and the numbers they were sent with. When the
    server has accepted them, however its tasks are interleaved, and its handler has taken them all,
    the codec of the client decodes, from what the server's codec writes, one response for each
    request, in the order of their numbers, each with the number of its request and with the status
    that the refusals of the handler and the service give it. *)
Theorem conversation client server server' client' (requests : list (Request bytes)) :
  codec_idle server -> codec_idle client' ->
  Forall (fun q => encodable_message (MRequest q) /\ uri_made (uri q)) requests ->
  exists received server1,
    decode_many (length requests) server (encode_all client (MRequest <$> requests) []).2
      = Return (MRequest <$> received, server1, [])
    /\ Forall2 (fun q q' => method q' = method q /\ uri q' = uri q /\ Request.body q' = Request.body q
                  /\ typed_get CSeq (Request.headers q') = typed_get CSeq (Request.headers q))
         requests received
    /\ forall now c n accepted handled p tx,
         numbered received accepted -> server_run now c n accepted handled p ->
         handled ≡ₚ accepted -> sender_handle (handler p) = Some tx ->
         match handled with [] => True | (s, _) :: _ => in_order s handled end
         /\ exists responses client1,
              decode_many (length handled) client' (encode_all server' (posted tx) []).2
                = Return (responses, client1, [])
              /\ Forall2 answered (snd <$> handled) responses.
Proof.
  intros Hserver Hclient Hall. apply Forall_and in Hall as [Henc Hmade].
  destruct (decode_messages server (MRequest <$> requests) [] Hserver) as (ms & server1 & Hd & Hms & _).
  { now apply Forall_fmap. }
  destruct (received_requests _ _ Hms) as (received & -> & Hr).
  exists received, server1. rewrite length_fmap, app_nil_r in Hd.
  split; [rewrite encode_all_text; exact Hd|]. split.
  { eapply Forall2_impl; [exact Hr|]. intros q q' (Hm & Hu & _ & Hb & Hh).
    do 3 (split; [done|]). exact (received_cseq _ _ _ Hh). }
  intros now c n accepted handled p tx Hnum Hrun Hperm Htx.
  assert (Hmade' : Forall (fun q => uri_made (uri q)) received).
  { clear - Hr Hmade. induction Hr as [|q q' requests received Hq _ IH]; [constructor|].
    apply Forall_cons in Hmade as [Hq1 Hmade]. constructor; [|now apply IH].
    destruct Hq as (_ & -> & _). exact Hq1. }
  destruct (numbered_items _ _ Hnum Hmade') as [Hu Hc].
  destruct (server_posted _ now c n [] accepted handled p (fun _ H => H) Hrun Hu) as (Ho & _ & Hp).
  destruct (Hp tx Htx) as (messages & -> & Hserves & Hencodable). cbn [app]. split.
  { destruct accepted as [|[s x] accepted]; [now subst|]. destruct handled as [|[s' x'] handled]; [done|].
    destruct (Ho) as [-> _]. exact Ho. }
  destruct (decode_messages client' messages [] Hclient Hencodable) as (responses & client1 & Hdec & Hrec & _).
  exists responses, client1. rewrite app_nil_r in Hdec. rewrite encode_all_text, (Forall2_length _ _ _ Hserves).
  split; [exact Hdec|]. apply items_answered; [now rewrite Hperm|].
  exact (serves_received _ _ _ Hserves Hrec).
Qed.
End Conversation.

(** ** A concrete conversation *)

(** Two requests that arrive in the wrong order after a first one, over a channel with room for
    five, to a service of the small world of URIs. *)
#[local] Existing Instances counting_clock Seconds.time SmallWorld.ops SmallWorld.references SmallWorld.laws.

Definition numbered_request (m : Method) (u : URI) (number : string) : Request bytes :=
  mkRequest [] [(HeaderName.CSeq, mkHeaderValue (bs number))] m u Rtsp2_0.

Definition first_request := numbered_request Options asterisk "7".
Definition second_request := numbered_request Setup sample_uri "8".
Definition third_request := numbered_request Play sample_uri "9".

Notation SamplePipe := (Pipe (C := Channel (CSeq * Request bytes)) (Tx := Mailbox Message)
  (TService := ConnectionService) (TFuture := Outcome (Response bytes)) (TxEvent := unit)).

Definition sample_call (s : ConnectionService) (q : Request bytes) :
    Outcome (Response bytes) * ConnectionService :=
  service_future (SM := list Method) (SR := list RangeFormat) 90%N s q.

Definition same_response (response : Response bytes) : Response bytes := response.

Definition sample_environment : Env (TFuture := Outcome (Response bytes)) (TResponse := Response bytes) :=
  mkEnv 0%N (fun _ => Ok NotReady)
    (fun f => match f with Return response => (Ok (Ready response), f) | Panic => (Ok NotReady, f) end).

Definition sample_channel : Channel (CSeq * Request bytes) := mkChannel [] [] 5 true true.

Definition start : SamplePipe :=
  mkPipe (forwarding_new sample_channel 4)
    (handler_new (mkConnectionService None) sample_channel (mkMailbox [] true) tt None).

Definition accept (q : Request bytes) (p : SamplePipe) : SamplePipe :=
  match handle_request q (incoming p) with
  | Return (_, fwd) => mkPipe fwd (handler p)
  | Panic => p
  end.

Definition forward (p : SamplePipe) : SamplePipe :=
  match forwarding_poll (incoming p) with
  | Return (_, fwd) => mkPipe fwd (set_rx_incoming_request (tx_incoming_request fwd) (handler p))
  | Panic => p
  end.

Definition serve (p : SamplePipe) : SamplePipe :=
  match handler_poll uri_is_rtspu sample_call same_response 9 sample_environment (handler p) with
  | Return (_, h, _) => mkPipe (set_channel (rx_incoming_request h) (incoming p)) h
  | Panic => p
  end.

Definition sample_pipe : SamplePipe :=
  serve (forward (accept second_request (forward (accept third_request (accept first_request start))))).

Definition sample_accepted : list (CSeq * Request bytes) :=
  [(mkCSeq 7, first_request); (mkCSeq 9, third_request); (mkCSeq 8, second_request)].
Definition sample_handled : list (CSeq * Request bytes) :=
  [(mkCSeq 7, first_request); (mkCSeq 8, second_request); (mkCSeq 9, third_request)].

Notation sample_run := (pipe_run (C := Channel (CSeq * Request bytes)) (Tx := Mailbox Message)
  (TxEvent := unit) uri_is_rtspu sample_call same_response
  (immediate future_ready) (mkConnectionService None) sample_channel 4 []).

Lemma sample_environment_good : good_env sample_environment None.
Proof. now split. Qed.

Lemma sample_environment_immediate : immediate future_ready sample_environment.
Proof. now intros [r|] response [= <-]. Qed.

Lemma sample_accepted_run : sample_run sample_accepted [] (forward (accept second_request (forward (accept third_request (accept first_request start))))).
Proof.
  pose (p1 := accept first_request start). pose (p2 := accept third_request p1).
  pose (p3 := forward p2). pose (p4 := accept second_request p3). pose (p5 := forward p4).
  assert (H0 : sample_run [] [] start) by now apply pipe_new.
  assert (H1 : sample_run [(mkCSeq 7, first_request)] [] p1).
  { exact (pipe_accept _ _ _ _ _ _ _ _ _ _ start first_request (Ok tt) (incoming p1) H0 eq_refl eq_refl). }
  assert (H2 : sample_run [(mkCSeq 7, first_request); (mkCSeq 9, third_request)] [] p2).
  { exact (pipe_accept _ _ _ _ _ _ _ _ _ _ p1 third_request (Ok tt) (incoming p2) H1 eq_refl eq_refl). }
  assert (H3 : sample_run [(mkCSeq 7, first_request); (mkCSeq 9, third_request)] [] p3).
  { exact (pipe_forward _ _ _ _ _ _ _ _ _ _ p2 (Ready tt) (incoming p3) H2 eq_refl). }
  assert (H4 : sample_run sample_accepted [] p4).
  { exact (pipe_accept _ _ _ _ _ _ _ _ _ _ p3 second_request (Ok tt) (incoming p4) H3 eq_refl eq_refl). }
  exact (pipe_forward _ _ _ _ _ _ _ _ _ _ p4 (Ready tt) (incoming p5) H4 eq_refl).
Qed.

Lemma serve_run accepted handled p more :
  sample_run accepted handled p -> (length (pending (rx_incoming_request (handler p))) < 9)%nat ->
  continue_wait_duration (handler p) = None ->
  pending (rx_incoming_request (handler p)) = more ++ pending (rx_incoming_request (handler (serve p))) ->
  match handler_poll uri_is_rtspu sample_call same_response 9 sample_environment (handler p) with
  | Return _ => True
  | Panic => False
  end ->
  sample_run accepted (handled ++ more) (serve p).
Proof.
  intros Hrun Hlen Hwait. unfold serve. destruct (handler_poll _ _ _ _ _ _) as [[[r h] s]|] eqn:E; [|done].
  intros Hmore _.
  refine (pipe_serve _ _ _ _ _ _ _ _ _ _ p 9 sample_environment r h s more Hrun sample_environment_immediate _ Hlen E Hmore).
  rewrite Hwait. exact sample_environment_good.
Qed.

Lemma sample_pipe_run : sample_run sample_accepted sample_handled sample_pipe.
Proof.
  apply (serve_run sample_accepted [] _ sample_handled sample_accepted_run); [now apply Nat.ltb_lt|reflexivity| |].
  - reflexivity.
  - exact I.
Qed.

(** The requests in the order in which the client sends them. *)
Definition sample_requests : list (Request bytes) := [first_request; third_request; second_request].

Lemma sample_encodable m u number :
  method_wf m -> (len (Method.as_str m) <= 50)%N -> uri_made u -> (len (Uri.to_string u) <= 2000)%N ->
  HeaderValue.try_from (bs number) = Ok (mkHeaderValue (bs number)) -> stripped CR LF (bs number) = true ->
  (len (bs number) <= 100)%N ->
  encodable_message (MRequest (numbered_request m u number)).
Proof.
  intros Hm Hml Hu Hul Hv Hs Hl. destruct (uri_encodable u Hu) as [Ht Hsp].
  do 6 (split; [assumption || reflexivity|]). split; [|split; [|now split]].
  - apply Forall_singleton. do 4 (split; [done|]).
    change (len (bs number) + 1 <= 2000)%N. lia.
  - now vm_compute.
Qed.

Lemma sample_requests_encodable :
  Forall (fun q => encodable_message (MRequest q) /\ uri_made (uri q)) sample_requests.
Proof.
  assert (Hone : forall m u number, uri_made u -> method_wf m -> (len (Method.as_str m) <= 50)%N ->
            (len (Uri.to_string u) <= 2000)%N ->
            HeaderValue.try_from (bs number) = Ok (mkHeaderValue (bs number)) ->
            stripped CR LF (bs number) = true -> (len (bs number) <= 100)%N ->
            encodable_message (MRequest (numbered_request m u number))
            /\ uri_made (uri (numbered_request m u number)))
    by (intros; split; [now apply sample_encodable|assumption]).
  repeat (apply Forall_cons; split; [apply Hone; (exact made_asterisk || exact sample_uri_made || done)|]).
  exact (List.Forall_nil _).
Qed.

(** What the server decodes is compared with them by a decision. *)
#[local] Instance host_eq_dec : EqDecision SmallWorld.host.
Proof. solve_decision. Defined.
#[local] Instance auth_eq_dec : EqDecision SmallWorld.auth.
Proof. solve_decision. Defined.
#[local] Instance path_eq_dec : EqDecision SmallWorld.path.
Proof. solve_decision. Defined.
#[local] Instance query_eq_dec : EqDecision SmallWorld.query.
Proof. solve_decision. Defined.
#[local] Instance components_eq_dec : EqDecision Components.
Proof.
  intros [s a p q] [s' a' p' q'].
  refine (cast_if_and4 (decide (s = s')) (decide ((a : SmallWorld.auth) = a'))
            (decide ((p : SmallWorld.path) = p')) (decide ((q : option SmallWorld.query) = q')));
    abstract (cbn in *; congruence).
Defined.
#[local] Instance uri_eq_dec : EqDecision URI.
Proof. intros [c] [c']. refine (cast_if (decide (c = c'))); abstract congruence. Defined.
#[local] Instance request_eq_dec : EqDecision (Request bytes).
Proof.
  intros [b h m u v] [b' h' m' u' v'].
  refine (cast_if_and5 (decide (b = b')) (decide ((h : Headers) = h')) (decide (m = m'))
            (decide ((u : URI) = u')) (decide (v = v'))); abstract congruence.
Defined.

Fixpoint same_requests (ms : list Message) (l : list (Request bytes)) : bool :=
  match ms, l with
  | [], [] => true
  | MRequest q :: ms, q' :: l => bool_decide (q = q') && same_requests ms l
  | _, _ => false
  end.

Lemma same_requests_eq ms l : same_requests ms l = true -> ms = MRequest <$> l.
Proof.
  revert l. induction ms as [|[q|] ms IH]; intros [|q' l]; try done. cbn.
  intros [->%bool_decide_eq_true Hl]%andb_prop. now rewrite (IH l Hl).
Qed.

Definition sample_text : bytes := (encode_all Codec.new (MRequest <$> sample_requests) []).2.

Lemma sample_decoded :
  match decode_many 3 Codec.new sample_text with
  | Return (ms, _, _) => same_requests ms sample_requests
  | Panic => false
  end = true.
Proof. vm_compute. reflexivity. Qed.

Lemma new_idle : codec_idle Codec.new.
Proof. now repeat split. Qed.

Lemma requests_served_in_order_witness :
  let waiting := pending (rx_incoming_request (handler sample_pipe)) in
  in_order (mkCSeq 7) (sample_handled ++ waiting)
  /\ incoming_sequence_number (incoming sample_pipe) = Some (next (mkCSeq 7) (sample_handled ++ waiting)).
Proof.
  exact (proj2 (proj1 (proj2 (requests_served_in_order _ _ _ _ _ _ _ _ _ _ _ sample_pipe_run)))).
Defined.

Lemma sample_accepted_made : Forall (fun item => uri_made (uri item.2)) sample_accepted.
Proof. repeat constructor; exact sample_uri_made. Qed.

Lemma server_serves_witness :
  match sender_handle (handler sample_pipe) with
  | Some tx => exists messages, posted tx = messages /\ Forall2 (serves (SR := list RangeFormat)) sample_handled messages
  | None => False
  end.
Proof.
  assert (Hsender : match sender_handle (handler sample_pipe) with Some _ => True | None => False end) by exact I.
  destruct (server_serves (SM := list Method) (SR := list RangeFormat) (90%N : @Time Seconds.time) sample_channel 4%N []
              sample_accepted sample_handled sample_pipe sample_pipe_run sample_accepted_made) as (_ & _ & Hm).
  destruct (sender_handle (handler sample_pipe)) as [tx|]; [|exact Hsender]. exact (Hm tx eq_refl).
Defined.

Lemma conversation_witness :
  match sender_handle (handler sample_pipe) with
  | Some tx =>
      exists responses client1,
        decode_many 3 Codec.new (encode_all Codec.new (posted tx) []).2 = Return (responses, client1, [])
        /\ Forall2 (answered (SR := list RangeFormat)) [first_request; second_request; third_request] responses
  | None => False
  end.
Proof.
  assert (Hsender : match sender_handle (handler sample_pipe) with Some _ => True | None => False end) by exact I.
  destruct (conversation (TxEvent := unit) (SM := list Method) (SR := list RangeFormat)
              Codec.new Codec.new Codec.new Codec.new sample_requests new_idle new_idle sample_requests_encodable)
    as (received & server1 & Hd & _ & Hall).
  pose proof sample_decoded as Hs. unfold sample_text in Hs. change 3%nat with (length sample_requests) in Hs.
  rewrite Hd in Hs. apply same_requests_eq in Hs.
  assert (received = sample_requests) as ->.
  { clear - Hs. revert Hs. generalize sample_requests as l.
    induction received as [|q received IH]; intros [|q' l]; cbn; try done.
    intros [= <- Hl]. now rewrite (IH l Hl). }
  destruct (sender_handle (handler sample_pipe)) as [tx|] eqn:Htx; [|exact Hsender].
  refine (proj2 (Hall (90%N : @Time Seconds.time) sample_channel 4%N sample_accepted sample_handled sample_pipe tx _ sample_pipe_run _ Htx)).
  - now repeat constructor.
  - apply perm_skip, perm_swap.
Defined.

Lemma server_drains_witness :
  exists r h sent,
    handler_poll uri_is_rtspu sample_call same_response 4 sample_environment
      (handler (forward (accept second_request (forward (accept third_request (accept first_request start))))))
    = Return (r, h, sent)
    /\ pending (rx_incoming_request h) = [].
Proof.
  destruct (server_drains (SM := list Method) (SR := list RangeFormat) (90%N : @Time Seconds.time) sample_channel 4%N []
              sample_accepted [] _ 4 sample_environment sample_accepted_run sample_accepted_made
              sample_environment_immediate sample_environment_good ltac:(now apply Nat.ltb_lt))
    as (r & h & sent & Hp & He & _).
  exists r, h, sent. split; [exact Hp|exact He].
Defined.
