(* ===== verification/Exchange.v ===== *)
(** * Requests and their answers

    The two ends together: the callers of a client's connection, its sender and codec, the codec of
    a server, its connection and request handler with the service of [Server], and the way back. A
    caller whose future resolves has the answer of the server to its own request. *)

From Stdlib Require Import Strings.Byte.
From stdpp Require Import base list numbers gmap strings.
From S2P Require Import Prelude Text Version Method HeaderName HeaderValue HeaderMap CSeq ContentLength.
From S2P Require Import Status Request Response RequestDecoder Decoder Encoder Codec Futures CommaList AcceptRanges Public Uri.
From S2P Require Import Forwarding Handler Pending Shutdown Sender Receiver ReceiverSteps Connection ConnectionSteps.
From S2P Require Import Serving HostSteps Server ServerStack Conversation.

Local Open Scope rust_scope.

(** ** A request on its way *)

Section Arrival.
Context `{HeaderMapLaws} `{UL : UriparseLaws} `{TimeOps} {Date SR : Type} `{!TypedHeader Date}
  `{!LinkedSetOps SR RangeFormat}.

(** The sender adds the header of the date. *)
Context (date_name : header_name (Header := Date) = HeaderName.Date).

(** The status of the answer to a request, by what the client gives: a body needs a content type. *)
Definition expected_status (q : Request bytes) : StatusCode :=
  if uri_is_rtspu (uri q) then NotImplemented
  else if (0 <? len (Request.body q))%N && negb (contains_key HeaderName.ContentType (Request.headers q))
  then Status.BadRequest
  else answer_status (SR := SR) q.

Lemma dated_get_all (d : Date) name m :
  ¬ name ≡ HeaderName.Date -> get_all name (typed_insert d m) = get_all name m.
Proof. intros Hn. apply typed_insert_get_other. now rewrite date_name. Qed.

Lemma dated_cseq (d : Date) m : typed_get CSeq (typed_insert d m) = typed_get CSeq m.
Proof.
  assert (E : get_all (header_name (Header := CSeq)) (typed_insert d m) = get_all (header_name (Header := CSeq)) m)
    by (now apply dated_get_all).
  unfold typed_get, typed_try_get. now rewrite E.
Qed.

(** The content length that arrives is that of the body. *)
Lemma received_content_length hm hm' body :
  map_iter hm' ≡ sent_headers hm body -> (len body <= MAX_CONTENT_LENGTH)%N ->
  match typed_get ContentLength hm' with Some c => 0 <? ContentLength.content_length c | None => false end%N = (0 <? len body)%N.
Proof.
  intros Hh Hl. pose proof (sent_body_length hm body Hl) as Hb. unfold body_length in Hb.
  assert (E : typed_try_get ContentLength (append_all (sent_headers hm body) map_default)
              = typed_try_get ContentLength hm').
  { unfold typed_try_get. f_equal. rewrite !get_all_iter. apply headers_snd.
    now rewrite Hh, iter_append_all, iter_default. }
  rewrite E in Hb. unfold typed_get. destruct (typed_try_get ContentLength hm') as [[c|]|]; [|now injection Hb as <-|done].
  now injection Hb as ->.
Qed.

(** What arrives is served with that status. *)
Lemma arrived_status (d : Date) (q q' : Request bytes) :
  encodable_message (dated d (MRequest q)) -> received_message (dated d (MRequest q)) (MRequest q') ->
  served_status (SR := SR) q' = expected_status q
  /\ typed_get CSeq (Request.headers q') = typed_get CSeq (Request.headers q).
Proof.
  intros (_ & _ & _ & _ & _ & _ & _ & _ & _ & Hl) (Hm & Hu & _ & Hb & Hh). cbn in *.
  assert (Hother : forall name, ¬ name ≡ HeaderName.Date -> ¬ name ≡ HeaderName.ContentLength ->
            get_all name (Request.headers q') = get_all name (Request.headers q)).
  { intros name Hn1 Hn2. rewrite (received_get_all name _ _ _ Hh) by exact Hn2. now apply dated_get_all. }
  assert (Hmissing : missing_content_type q'
            = ((0 <? len (Request.body q))%N && negb (contains_key HeaderName.ContentType (Request.headers q)))).
  { unfold missing_content_type. pose proof (received_content_length _ _ _ Hh Hl) as Hcl. rewrite <- Hcl.
    rewrite (contains_key_get_all HeaderName.ContentType (Request.headers q)) by (now apply Hother).
    now destruct (typed_get ContentLength (Request.headers q')). }
  split.
  - unfold served_status, expected_status. rewrite Hu, Hmissing. destruct (uri_is_rtspu (uri q)); [done|].
    destruct (_ && _); [done|]. unfold answer_status. rewrite Hm, Hu.
    assert (E : get_all (header_name (Header := AcceptRanges SR)) (Request.headers q')
                = get_all (header_name (Header := AcceptRanges SR)) (Request.headers q)) by (now apply Hother).
    unfold typed_try_get. now rewrite E.
  - rewrite (received_cseq _ _ _ Hh). apply dated_cseq.
Qed.
End Arrival.

(** ** The exchange *)

(** Elements of lists related one by one. *)
Lemma Forall2_elem_r {A B} (R : A -> B -> Prop) l l' b :
  Forall2 R l l' -> b ∈ l' -> exists a, a ∈ l /\ R a b.
Proof.
  intros Hall [i Hi]%list_elem_of_lookup. destruct (Forall2_lookup_r _ _ _ _ _ Hall Hi) as (a & Ha & HR).
  exists a. split; [now apply list_elem_of_lookup_2 with i|done].
Qed.

(** Numbers in a row do not repeat before they wrap around. *)
Lemma in_order_lookup {A} s (l : list (CSeq * A)) i x :
  in_order s l -> l !! i = Some x -> x.1 = Nat.iter i wrapping_increment s.
Proof.
  revert s i. induction l as [|[c a] l IH]; intros s i; [done|]. intros [-> Ho].
  destruct i as [|i]; cbn [lookup list_lookup]; [now intros [= <-]|]. intros Hi.
  rewrite Nat.iter_succ_r. now apply IH.
Qed.

Lemma in_order_unique {A} s (l : list (CSeq * A)) c a b :
  cseq_valid s -> in_order s l -> (N.of_nat (length l) <= MAX_CSEQ + 1)%N ->
  (c, a) ∈ l -> (c, b) ∈ l -> a = b.
Proof.
  intros Hs Ho Hl [i Hi]%list_elem_of_lookup [j Hj]%list_elem_of_lookup.
  pose proof (in_order_lookup s l i _ Ho Hi) as Ei. pose proof (in_order_lookup s l j _ Ho Hj) as Ej.
  cbn in Ei, Ej. rewrite Ei in Ej. apply (f_equal cseq_number) in Ej. rewrite !increments_number in Ej by done.
  assert (i = j) as ->; [|congruence].
  apply lookup_lt_Some in Hi, Hj. change (MAX_CSEQ + 1)%N with 1000000000%N in *.
  pose proof (N.Div0.div_mod (cseq_number s + N.of_nat i) 1000000000).
  pose proof (N.Div0.div_mod (cseq_number s + N.of_nat j) 1000000000). lia.
Qed.

Section Exchange.
Context `{HeaderMapLaws} `{UL : UriparseLaws} `{TimeOps} `{ClockOps} {Date : Type} `{!TypedHeader Date}
  {Chan OTx ORx World C CE Tx TStream Rx TSink HRx RxInitiate TxEvent M : Type}
  {SM SR : Type} `{!LinkedSetOps SM Method} `{!LinkedSetLaws SM Method}
  `{!LinkedSetOps SR RangeFormat} `{!LinkedSetLaws SR RangeFormat}
  `{!StreamOps Chan (CSeq * Request bytes)} `{!SinkOps Chan (CSeq * Request bytes) unit}
  `{!BoundedLaws Chan (CSeq * Request bytes) unit}
  `{!OneshotOps World OTx ORx (PendingRequestResponse ORx)}
  `{!OneshotLaws World OTx ORx (PendingRequestResponse ORx)}
  `{!StreamOps C (PendingRequestUpdate OTx)} `{!UnboundedOps C (PendingRequestUpdate OTx)}
  `{!ChannelLaws C (PendingRequestUpdate OTx)}
  `{!StreamOps CE CodecEvent} `{!UnboundedOps Tx Message} `{!UnboundedLaws Tx Message}
  `{!TryStreamOps TStream Message ProtocolError}
  `{!StreamOps Rx Message} `{!SinkOps TSink Message ProtocolError} `{!FlushOps TSink ProtocolError}
  `{!UnboundedOps M Message} `{!UnboundedLaws M Message}.
Context (date_name : header_name (Header := Date) = HeaderName.Date).

(** What the sender writes for a message, and when. *)
Definition stamp (x : Date * Message) : Message := dated x.1 x.2.

(** The messages that the receiver of the server sends itself. *)
Definition own_answer (m : Message) : Prop :=
  (exists e, m = ReceiverSteps.refusal e)
  \/ exists e response, protocol_error_response e = Some response /\ m = MResponse response.

Lemma canned_unnumbered status reason : typed_get CSeq (headers (canned_response status reason)) = None.
Proof. unfold typed_get, typed_try_get. cbn. now rewrite get_all_default. Qed.

Lemma own_answer_unnumbered r : own_answer (MResponse r) -> typed_get CSeq (headers r) = None.
Proof.
  intros [[e E]|(e & response & He & [= ->])].
  - unfold ReceiverSteps.refusal in E. injection E as ->. destruct e; apply canned_unnumbered.
  - destruct e as [[e|e]| | |]; try discriminate He. destruct e; injection He as <-; apply canned_unnumbered.
Qed.

(** A response that was sent, as it arrives. *)
Lemma received_response (d : Date) m response :
  received_message (dated d m) (MResponse response) ->
  exists r, m = MResponse r /\ typed_get CSeq (headers response) = typed_get CSeq (headers r)
    /\ status_code response = status_code r /\ Response.body response = Response.body r.
Proof.
  destruct m as [q|r]; [done|]. intros (Hs & _ & _ & Hb & Hh). cbn in *. exists r. split; [done|].
  split; [|done]. rewrite (received_cseq _ _ _ Hh). now apply dated_cseq.
Qed.

(** A request that was received, with the request it was. *)
Lemma received_stamped (stamped : list (Date * Message)) received q' :
  Forall (fun x => encodable_message (stamp x) /\ exists q, x.2 = MRequest q /\ uri_made (uri q)) stamped ->
  Forall2 received_message (stamp <$> stamped) received -> MRequest q' ∈ received ->
  exists d q, (d, MRequest q) ∈ stamped /\ uri_made (uri q')
    /\ served_status (SR := SR) q' = expected_status (SR := SR) q
    /\ typed_get CSeq (Request.headers q') = typed_get CSeq (Request.headers q).
Proof.
  intros Hall Hr Hin. destruct (Forall2_elem_r _ _ _ _ Hr Hin) as (m & Hm & Hrec).
  apply list_elem_of_fmap in Hm as ((d & m0) & -> & Hx). rewrite Forall_forall in Hall.
  destruct (Hall _ Hx) as (Henc & q & Eq & Hmade). cbn in Eq. subst m0. exists d, q. split; [done|].
  unfold stamp in Henc, Hrec. cbn [fst snd] in Henc, Hrec.
  pose proof (arrived_status (SR := SR) date_name d q q' Henc Hrec) as [Hs Hc].
  destruct Hrec as (_ & Hu & _). rewrite Hu. done.
Qed.

Notation TReceiver := (Receiver (Chan := Chan) (OTx := OTx) (CE := CE) (Tx := Tx) (TStream := TStream)).
Notation TSender := (Sender (Rx := Rx) (TSink := TSink)).
Notation TPeer := (Peer (Chan := Chan) (OTx := OTx) (ORx := ORx) (World := World) (C := C) (CE := CE) (Tx := Tx)
  (TStream := TStream) (Rx := Rx) (TSink := TSink) (HRx := HRx) (RxInitiate := RxInitiate) (TxEvent := TxEvent) (M := M)).
Notation THost := (Host (Chan := Chan) (OTx := OTx) (CE := CE) (Tx := Tx) (TStream := TStream) (Rx := Rx)
  (TSink := TSink) (HRx := HRx) (RxInitiate := RxInitiate) (TxEvent := TxEvent) (TService := ConnectionService)
  (TFuture := Outcome (Response bytes))).
Notation server_run now arrives c n :=
  (host_run (Date := Date) (ORx := ORx) (World := World) (C := C) (Tx := Tx) uri_is_rtspu (service_future (SM := SM) (SR := SR) now)
     (fun response => response) arrives (immediate future_ready) (mkConnectionService None) c n []).

(** What the handler of a server has sent. *)
Lemma host_answers now (stamped : list (Date * Message)) received c n (host : THost) tx m :
  Forall (fun x => encodable_message (stamp x) /\ exists q, x.2 = MRequest q /\ uri_made (uri q)) stamped ->
  Forall2 received_message (stamp <$> stamped) received ->
  server_run now (fun m => m ∈ received) c n host ->
  Handler.sender_handle (host_handler host) = Some tx -> m ∈ posted tx ->
  exists d q r c, (d, MRequest q) ∈ stamped /\ m = MResponse r /\ typed_get CSeq (Request.headers q) = Some c
    /\ typed_get CSeq (headers r) = Some c /\ status_code r = expected_status (SR := SR) q /\ Response.body r = [].
Proof.
  intros Hall Hr Hrun Htx Hm.
  destruct (host_run_pipe _ _ _ _ _ _ _ _ _ _ Hrun) as (f & accepted & handled & _ & Hpipe & Hacc).
  assert (Hknown : Forall (fun item => uri_made (uri item.2)
            /\ exists d q, (d, MRequest q) ∈ stamped /\ served_status (SR := SR) item.2 = expected_status (SR := SR) q
                 /\ typed_get CSeq (Request.headers q) = Some item.1) accepted).
  { eapply Forall_impl; [exact Hacc|]. intros [cs q'] [Hin Hc]. cbn in Hin, Hc |- *.
    destruct (received_stamped stamped received q' Hall Hr Hin) as (d & q & Hx & Hu & Hs & Hcq).
    split; [done|]. exists d, q. now rewrite <- Hcq. }
  apply Forall_and in Hknown as [Hmade Hknown].
  destruct (server_posted _ now c n [] _ _ _ (fun _ H => H) Hpipe Hmade) as (_ & _ & Hp).
  destruct (Hp tx Htx) as (messages & Epost & Hserves & _). rewrite Epost in Hm. cbn [app] in Hm.
  destruct (Forall2_elem_r _ _ _ _ Hserves Hm) as (item & Hitem & r & -> & Hc & Hst & Hb).
  destruct (pipe_run_order _ _ _ _ _ _ _ _ _ _ _ Hpipe) as [Hperm _].
  rewrite Hperm, Forall_app in Hknown. destruct Hknown as [Hknown _]. rewrite Forall_forall in Hknown.
  destruct (Hknown item Hitem) as (d & q & Hx & Hs & Hcq). exists d, q, r, item.1.
  rewrite Hst, Hs. done.
Qed.

(** C1: A caller of a client that talks to a server has, when its future resolves, the answer of the
    server to its own request. The client's sender has written the messages [stamped], which its
    callers have sent; the server has read what its codec decodes from them; it has written [replies],
    messages of its request handler and answers of its receiver; the client has read what its codec
    decodes from those. Then the response is one to a request that a caller has sent, with the CSeq of
    the future and of that request, and has the status that this request calls for; and as long as
    the numbers have not wrapped around there is only that one request with the number. *)
Theorem exchange (client server server' client' : Codec) (stamped : list (Date * Message)) :
  codec_idle server -> codec_idle client' ->
  Forall (fun x => encodable_message (stamp x) /\ exists q, x.2 = MRequest q /\ uri_made (uri q)) stamped ->
  exists received server1,
    decode_many (length stamped) server (encode_all client (stamp <$> stamped) []).2
      = Return (received, server1, [])
    /\ forall now c n (host : THost) tx (replies : list (Date * Message)),
         server_run now (fun m => m ∈ received) c n host -> Handler.sender_handle (host_handler host) = Some tx ->
         Forall (fun x => encodable_message (stamp x) /\ (x.2 ∈ posted tx \/ own_answer x.2)) replies ->
         exists answers client1,
           decode_many (length replies) client' (encode_all server' (stamp <$> replies) []).2
             = Return (answers, client1, [])
           /\ forall (s : CSeq) (m0 : M) (peer : TPeer) f env response w' c' f',
                cseq_valid s -> posted m0 = [] ->
                peer_run (Date := Date) (fun m => m ∈ answers) s m0 peer ->
                Forall (fun x => x.2 ∈ posted (requests_channel peer)) stamped -> f ∈ callers peer ->
                send_request_poll env (oneshots (shared peer)) (update_channel (shared peer)) f
                  = Return (Ok (Ready response), w', c', f') ->
                typed_get CSeq (headers response) = Some (sequence_number f)
                /\ exists q, MRequest q ∈ posted (requests_channel peer)
                     /\ typed_get CSeq (Request.headers q) = Some (sequence_number f)
                     /\ status_code response = expected_status (SR := SR) q /\ Response.body response = []
                     /\ ((N.of_nat (length (posted (requests_channel peer))) <= MAX_CSEQ + 1)%N ->
                         forall q', MRequest q' ∈ posted (requests_channel peer) ->
                           typed_get CSeq (Request.headers q') = Some (sequence_number f) -> q' = q).
Proof.
  intros Hserver Hclient Hall.
  destruct (decode_messages server (stamp <$> stamped) [] Hserver) as (received & server1 & Hd & Hrec & _).
  { apply Forall_fmap. eapply Forall_impl; [exact Hall|]. now intros x [? _]. }
  exists received, server1. rewrite length_fmap, app_nil_r in Hd. split; [rewrite encode_all_text; exact Hd|].
  intros now c n host tx replies Hhost Htx Hreplies. apply Forall_and in Hreplies as [Henc Hfrom].
  destruct (decode_messages client' (stamp <$> replies) [] Hclient) as (answers & client1 & Hd' & Hrec' & _).
  { now apply Forall_fmap. }
  exists answers, client1. rewrite length_fmap, app_nil_r in Hd'. split; [rewrite encode_all_text; exact Hd'|].
  intros s m0 peer f env response w' c' f' Hs Hm0 Hpeer Hsent Hf Hpoll.
  destruct (peer_run_reachable _ _ _ _ Hpeer) as (handled & Hhandled & Hreach).
  destruct (future_response s m0 handled (view peer) f env response w' c' f' Hs Hreach Hf Hpoll) as [Hcs Hin].
  split; [exact Hcs|]. rewrite Forall_forall in Hhandled. specialize (Hhandled response Hin). cbn in Hhandled.
  destruct (Forall2_elem_r _ _ _ _ Hrec' Hhandled) as (m & Hm & Hresp).
  apply list_elem_of_fmap in Hm as ([d m1] & -> & Hx). unfold stamp in Hresp. cbn [fst snd] in Hresp.
  destruct (received_response d m1 response Hresp) as (r & -> & Hc & Hst & Hb).
  rewrite Forall_forall in Hfrom. destruct (Hfrom _ Hx) as [Hposted|Hown]; cbn [snd] in *.
  2:{ pose proof (own_answer_unnumbered r Hown). congruence. }
  destruct (host_answers now stamped received c n host tx _ Hall Hrec Hhost Htx Hposted)
    as (d' & q & r' & cs & Hq & [= <-] & Hcq & Hcr & Hsr & Hbr).
  assert (cs = sequence_number f) as -> by congruence.
  rewrite Forall_forall in Hsent. pose proof (Hsent _ Hq) as Hqp. cbn in Hqp.
  exists q. do 2 (split; [done|]). split; [congruence|]. split; [congruence|]. intros Hlen q' Hq' Hcq'.
  destruct (system_inv s m0 handled (view peer) Hs Hreach) as (owner & _ & l & Hpost & Ho & _ & Hl).
  cbn in Hpost. rewrite Hm0 in Hpost. cbn [app] in Hpost.
  assert (Hmem : forall q0, MRequest q0 ∈ posted (requests_channel peer) ->
            typed_get CSeq (Request.headers q0) = Some (sequence_number f) -> (sequence_number f, q0) ∈ l).
  { intros q0 Hq0 Hc0. rewrite Hpost in Hq0. apply list_elem_of_fmap in Hq0 as ([c0 q1] & [= ->] & Hq0).
    rewrite Forall_forall in Hl. specialize (Hl _ Hq0). cbn in Hl. now replace (sequence_number f) with c0 by congruence. }
  rewrite Hpost, length_fmap in Hlen.
  exact (in_order_unique s l _ _ _ Hs Ho Hlen (Hmem q' Hq' Hcq') (Hmem q Hqp Hcq)).
Qed.
End Exchange.
