(* ===== verification/ExchangeSample.v ===== *)
(** * A concrete exchange

    A run of the two ends of [Exchange] on concrete channels: a caller asks for the options of a
    server, the messages go through the codecs and the two connections, and the future of the caller
    resolves. *)

From Stdlib Require Import Strings.Byte.
From stdpp Require Import base list numbers gmap strings.
From S2P Require Import Prelude Text Version Method HeaderName HeaderValue HeaderMap CSeq ContentLength.
From S2P Require Import Status Request Response RequestDecoder Decoder Encoder Codec Futures CommaList AcceptRanges Public Date Uri.
From S2P Require Import Forwarding Handler Pending Shutdown Sender Receiver ReceiverSteps Connection ConnectionSteps.
From S2P Require Import Handle Serving HostSteps Server ServerStack Endpoints Conversation Exchange.

Local Open Scope rust_scope.

#[local] Existing Instances counting_clock Seconds.time SmallWorld.ops SmallWorld.references SmallWorld.laws.

(** The header that the sender writes. *)
#[local] Instance date_header : TypedHeader (Date (H := Calendar.chrono)) := {|
  HeaderDecodeError := DateError;
  typed_decode values := match Date.decode (H := Calendar.chrono) values with Return r => r | Panic => Err InvalidDateTime end;
  typed_encode := Date.encode (H := Calendar.chrono);
  header_name := HeaderName.Date;
|}.

Lemma date_header_name : header_name (Header := Date (H := Calendar.chrono)) = HeaderName.Date.
Proof. reflexivity. Qed.

Notation TDate := (Date (H := Calendar.chrono)).
Notation TChan := (Channel (CSeq * Request bytes)).
Notation TResponses := (list (Cell (PendingRequestResponse nat))).
Notation TUpdates := (Pending.Pipe (PendingRequestUpdate nat)).
Notation TMessages := (list (Result Message ProtocolError)).

(** A sink with room for one message. *)
#[local] Instance sink_ops : SinkOps (BoundedChannel Message) Message ProtocolError := {|
  start_send s item :=
    match start_send (E:=unit) s item with
    | (Ok a, s) => (Ok a, s)
    | (Err _, s) => (Err IO, s)
    end;
|}.

#[local] Instance sink_flush : FlushOps (BoundedChannel Message) ProtocolError := {|
  poll_complete s := (Ok (Ready tt), s);
  close s := (Ok (Ready tt), s);
|}.

Notation TReceiver := (Receiver (Chan := TChan) (OTx := nat) (CE := Queue CodecEvent) (Tx := Mailbox Message)
  (TStream := TMessages)).
Notation TSender := (Sender (Rx := Queue Message) (TSink := BoundedChannel Message)).
Notation TConnection := (Connection TReceiver TSender unit unit unit).
Notation TShared := (Shared (World := TResponses) (C := TUpdates)).

Definition new_connection (messages : list Message) : TConnection :=
  connection_new
    (receiver_new (Ok <$> messages : TMessages) (mkQueue [] false) sample_channel (mkMailbox [] true)
       (10%N : Duration) 4)
    None (sender_new (mkQueue [] false) (mkBoundedChannel [] 0 1 true)) tt tt.

Definition new_shared : TShared := mkShared [] (Pending.mkPipe [] false false).

Definition connection_env : ConnEnv (PartsEnv TDate) unit unit :=
  mkConnEnv (mkPartsEnv 9 (mkTimeEnv (5%N : Instant) (fun _ => Ok NotReady)) (mkDate (H := Calendar.chrono) sample_time))
    (Shutdown.sample_env 5%N (Ok NotReady)) (fun _ => false).

Definition poll_connection (sh : TShared) (conn : TConnection) : TShared * TConnection :=
  match connection_poll connection_env sh conn with
  | Return (_, sh', conn', _) => (sh', conn')
  | Panic => (sh, conn)
  end.

(** ** The run *)

Definition options_request : Request bytes := mkRequest [] [] Options asterisk Rtsp2_0.
Definition today : TDate := mkDate (H := Calendar.chrono) sample_time.

(** The caller sends its request, which gets the number 7. *)
Definition sent_request : Request bytes := Request.map_headers (typed_insert (mkCSeq 7)) options_request.
Definition stamped : list (TDate * Message) := [(today, MRequest sent_request)].

Definition decoded (n : nat) (text : bytes) : list Message :=
  match decode_many n Codec.new text with Return (ms, _, _) => ms | Panic => [] end.

(** The server reads it, and its handler answers. *)
Definition received : list Message := decoded 1 (encode_all Codec.new (stamp <$> stamped) []).2.

Definition server_0 : TConnection := new_connection received.
Definition server_1 : TConnection := (poll_connection new_shared server_0).2.

Definition forwarding_of (conn : TConnection) : ForwardingReceiver (Chan := TChan) :=
  default (forwarding_new sample_channel 4%N) (forwarding_side conn).

Notation THandler := (RequestHandler (Rx := TChan) (Tx := Mailbox Message) (TService := ConnectionService)
  (TFuture := Outcome (Response bytes)) (TxEvent := unit)).

Definition handler_0 : THandler := handler_new (mkConnectionService None) sample_channel (mkMailbox [] true) tt None.
Definition handler_1 : THandler := set_rx_incoming_request (tx_incoming_request (forwarding_of server_1)) handler_0.
Definition handler_2 : THandler :=
  match handler_poll (Tx := Mailbox Message) (TxEvent := unit) uri_is_rtspu sample_call same_response 9 sample_environment handler_1 with
  | Return (_, h, _) => h
  | Panic => handler_1
  end.

Definition answered_messages : list Message :=
  match Handler.sender_handle handler_2 with Some tx => posted tx | None => [] end.
Definition replies : list (TDate * Message) := (fun m => (today, m)) <$> answered_messages.

(** The client reads the answer. *)
Definition answers : list Message := decoded 1 (encode_all Codec.new (stamp <$> replies) []).2.

Example sample_run_lengths :
  length received = 1 /\ length answered_messages = 1 /\ length answers = 1.
Proof. now vm_compute. Qed.

(** ** What the messages are *)

(** The headers that are sent, evaluated. *)
Ltac evaluate_list :=
  match goal with
  | |- Forall _ ?l =>
      let l' := eval vm_compute in l in
      let E := fresh in assert (E : l = l') by (vm_cast_no_check (@eq_refl _ l')); rewrite E; clear E
  end.

Lemma stamped_encodable : Forall (fun x => encodable_message (stamp x) /\ exists q, x.2 = MRequest q /\ uri_made (uri q)) stamped.
Proof.
  apply Forall_singleton. split; [|exists sent_request; split; [done|exact made_asterisk]].
  destruct (uri_encodable _ made_asterisk) as [Ht Hsp].
  split; [exact I|]. split; [now vm_compute|]. split; [exact Ht|]. split; [exact Hsp|].
  split; [now vm_compute|]. split; [reflexivity|]. split; [|split; [|now split]].
  - evaluate_list.
    repeat constructor; vm_compute; congruence.
  - now vm_compute.
Qed.

Definition the_answer : Response bytes :=
  match answered_messages with
  | MResponse r :: _ => r
  | _ => BAD_REQUEST_RESPONSE
  end.

Lemma answered_messages_eq : answered_messages = [MResponse the_answer].
Proof.
  assert (E : match answered_messages with [MResponse _] => true | _ => false end = true) by now vm_compute.
  unfold the_answer. destruct answered_messages as [|[q|r] [|m ms]]; done.
Qed.

Lemma replies_encodable :
  Forall (fun x => encodable_message (stamp x) /\ (x.2 ∈ answered_messages \/ own_answer x.2)) replies.
Proof.
  unfold replies. rewrite answered_messages_eq. apply Forall_singleton. split; [|left; apply list_elem_of_here].
  split; [exact I|]. split; [now vm_compute|]. split; [now vm_compute|]. split; [now vm_compute|].
  split; [reflexivity|]. split; [|split; [now vm_compute|split; now vm_compute]].
  evaluate_list.
  repeat constructor; vm_compute; congruence.
Qed.

(** ** The runs *)

(** A stream of results gives what is in it. *)
Lemma list_reads (s s' : TMessages) ms : reads s ms s' -> Forall (fun m => Ok m ∈ s) ms.
Proof.
  induction 1 as [s|s m s' ms s'' Hp _ IH|s s' ms s'' Hp _ IH]; [constructor|..];
    destruct s as [|[m0|e] s]; cbn in Hp; try discriminate Hp.
  - injection Hp as -> ->. constructor; [apply list_elem_of_here|].
    eapply Forall_impl; [exact IH|]. intros m' Hm'. now apply list_elem_of_further.
  - injection Hp as <-. exact IH.
Qed.

Lemma new_only_arrivals (ms : list Message) : only_arrivals (fun m => m ∈ ms) (new_connection ms).
Proof.
  intros r s items s' [= <-] [= <-] Hr%list_reads. eapply Forall_impl; [exact Hr|].
  intros m Hm. apply list_elem_of_fmap in Hm as (m' & [= <-] & Hm). exact Hm.
Qed.

(** A poll of a connection that does not panic is the one of [poll_connection]. *)
Lemma poll_connection_eq sh conn :
  match connection_poll connection_env sh conn with Return _ => true | Panic => false end = true ->
  exists a events, connection_poll connection_env sh conn
    = Return (a, (poll_connection sh conn).1, (poll_connection sh conn).2, events).
Proof.
  unfold poll_connection. destruct (connection_poll _ _ _) as [[[[a sh'] conn'] events]|]; [|done].
  intros _. now exists a, events.
Qed.

Notation sample_server_run :=
  (host_run (Date := TDate) (OTx := nat) (ORx := nat) (World := TResponses) (C := TUpdates) (CE := Queue CodecEvent)
     (Tx := Mailbox Message) (TStream := TMessages) (Rx := Queue Message) (TSink := BoundedChannel Message)
     uri_is_rtspu sample_call same_response (fun m => m ∈ received) (immediate future_ready)
     (mkConnectionService None) sample_channel 4%N []).

Lemma server_polled :
  match connection_poll connection_env new_shared server_0 with Return _ => true | Panic => false end = true
  /\ match forwarding_side server_1 with Some _ => true | None => false end = true
  /\ match handler_poll (Tx := Mailbox Message) (TxEvent := unit) uri_is_rtspu sample_call same_response 9
             sample_environment handler_1 with Return _ => true | Panic => false end = true.
Proof. now vm_compute. Qed.

Definition server_2 : TConnection :=
  match Connection.receiver server_1 with
  | Some r =>
      Connection.set_receiver
        (Some (set_forwarding_receiver
                 (Some (set_channel (rx_incoming_request handler_2) (forwarding_of server_1))) r)) server_1
  | None => server_1
  end.

Lemma sample_host_run : sample_server_run (mkHost server_2 handler_2).
Proof.
  destruct server_polled as (Hpoll & Hf & Hh).
  assert (H0 : sample_server_run (mkHost server_0 handler_0)) by (apply host_start; reflexivity).
  assert (Hf1 : forwarding_side server_1 = Some (forwarding_of server_1)).
  { revert Hf. unfold forwarding_of. generalize (forwarding_side server_1).
    intros [f|] Hf; [reflexivity|discriminate Hf]. }
  destruct (poll_connection_eq new_shared server_0 Hpoll) as (a & events & E).
  assert (H1 : sample_server_run (mkHost server_1 handler_1)).
  { exact (host_next _ _ _ _ _ _ _ _ _ _ _ _ H0
      (host_poll _ _ _ _ _ _ _ _ _ _ _ _ _ _ (new_only_arrivals received) E Hf1)). }
  revert Hh. destruct (handler_poll _ _ _ 9 sample_environment handler_1) as [[[r h] sent]|] eqn:Eh;
    [intros _|discriminate 1].
  assert (Eh2 : handler_2 = h) by (unfold handler_2; rewrite Eh; reflexivity).
  refine (host_next _ _ _ _ _ _ _ _ _ _ _ _ H1
    (host_serve _ _ _ _ _ 9 sample_environment server_1 server_2 (forwarding_of server_1) handler_1 r
       handler_2 sent sample_environment_immediate _ _ _ Hf1 _)).
  - exact sample_environment_good.
  - apply Nat.ltb_lt. vm_compute. reflexivity.
  - rewrite Eh2. exact Eh.
  - revert Hf1. unfold server_2, forwarding_side.
    destruct (Connection.receiver server_1) as [r0|] eqn:Er; [reflexivity|]. rewrite Er. discriminate 1.
Qed.

(** The caller sends its request; the connection is polled and reads the answer. *)
Definition caller_env : TimeEnv := mkTimeEnv (0%N : Instant) (fun _ => Ok NotReady).

Definition the_future : SendRequest nat := mkSendRequest None 0 (mkCSeq 7) None None.
Definition sent_outbox : Mailbox Message := mkMailbox [MRequest sent_request] true.
Definition sent_shared : TShared :=
  mkShared [mkCell None false true] (Pending.mkPipe [AddPendingRequest (mkCSeq 7) 0] false false).

Definition client_0 : TConnection := new_connection answers.
Definition client_shared : TShared := (poll_connection sent_shared client_0).1.
Definition client_1 : TConnection := (poll_connection sent_shared client_0).2.

Notation TPeer := (Peer (Chan := TChan) (OTx := nat) (ORx := nat) (World := TResponses) (C := TUpdates)
  (CE := Queue CodecEvent) (Tx := Mailbox Message) (TStream := TMessages) (Rx := Queue Message)
  (TSink := BoundedChannel Message) (HRx := unit) (RxInitiate := unit) (TxEvent := unit) (M := Mailbox Message)).

Definition the_peer : TPeer := mkPeer client_1 client_shared [the_future] (mkCSeq 8) sent_outbox.

Notation sample_peer_run := (peer_run (Date := TDate) (fun m => m ∈ answers) (mkCSeq 7) (mkMailbox [] true)).

(** What the future of the caller gives. *)
Definition the_result :=
  send_request_poll caller_env (oneshots (shared the_peer)) (update_channel (shared the_peer)) the_future.

Lemma client_polled :
  match connection_poll connection_env sent_shared client_0 with Return _ => true | Panic => false end = true
  /\ match the_result with
     | Return (Ok (Ready response), _, _, _) => bool_decide (status_code response = OK)
     | _ => false
     end = true.
Proof. split; vm_compute; reflexivity. Qed.

Definition peer_before : TPeer := mkPeer client_0 sent_shared [the_future] (mkCSeq 8) sent_outbox.

Lemma peer_before_run : sample_peer_run peer_before.
Proof.
  assert (H0 : sample_peer_run (mkPeer client_0 new_shared [] (mkCSeq 7) (mkMailbox [] true) : TPeer)).
  { apply peer_start; [reflexivity|intros t Ht; inversion Ht|reflexivity..]. }
  refine (peer_run_step _ _ _ _ _ H0
    (peer_send _ caller_env options_request None None client_0 new_shared [] (mkCSeq 7) (mkMailbox [] true)
       (Ok the_future) (mkCSeq 8) _ _ sent_outbox _)). reflexivity.
Qed.

Lemma the_peer_step : peer_step (Date := TDate) (fun m => m ∈ answers) peer_before the_peer.
Proof.
  destruct (poll_connection_eq sent_shared client_0 (proj1 client_polled)) as (a & events & E).
  exact (peer_poll _ connection_env client_0 sent_shared [the_future] (mkCSeq 8) sent_outbox a _ _ events
           (new_only_arrivals answers) E).
Qed.

Lemma the_peer_run : sample_peer_run the_peer.
Proof. exact (peer_run_step _ _ _ _ _ peer_before_run the_peer_step). Qed.

Lemma connection_refines_witness :
  exists handled more,
    steps more (view peer_before) (view the_peer)
    /\ reachable (mkCSeq 7) (mkMailbox [] true) (handled ++ more) (view the_peer).
Proof.
  destruct (connection_refines _ _ _ _ _ peer_before_run the_peer_step) as (handled & more & _ & Hs & Hr & _).
  exists handled, more. split; [exact Hs|exact Hr].
Defined.

(** The receiver of the client reads the answer. *)
Definition client_receiver : TReceiver :=
  receiver_new (Ok <$> answers : TMessages) (mkQueue [] false) sample_channel (mkMailbox [] true)
    (10%N : Duration) 4.

Lemma client_receiver_polled :
  match receiver_poll (ORx := nat) 9 (parts_time (parts_env connection_env)) sent_shared client_receiver with
  | Return _ => true
  | Panic => false
  end = true.
Proof. vm_compute. reflexivity. Qed.

Lemma receiver_poll_steps_witness :
  exists a sh' self' ms handled,
    receiver_poll (ORx := nat) 9 (parts_time (parts_env connection_env)) sent_shared client_receiver
      = Return (a, sh', self')
    /\ steps (M := Mailbox Message) handled (response_side sent_shared client_receiver [] (mkCSeq 8) sent_outbox)
         (response_side sh' self' [] (mkCSeq 8) sent_outbox)
    /\ (handled = responses_of ms \/ handled = [] /\ response_receiver self' = None).
Proof.
  pose proof client_receiver_polled as Hp.
  destruct (receiver_poll 9 _ sent_shared client_receiver) as [[[a sh'] self']|] eqn:E; [|discriminate Hp].
  destruct (receiver_poll_steps (M := Mailbox Message) _ _ _ _ _ _ _ E) as (ms & errors & handled & answers' & _ & _ & Hs & Hh & _).
  exists a, sh', self', ms, handled. split; [reflexivity|]. split; [exact (Hs _ _ _)|exact Hh].
Defined.

Lemma decoded_eq n text ms codec :
  decode_many n Codec.new text = Return (ms, codec, []) -> decoded n text = ms.
Proof. unfold decoded. now intros ->. Qed.

Lemma the_sender : exists tx, Handler.sender_handle handler_2 = Some tx /\ posted tx = answered_messages.
Proof.
  pose proof answered_messages_eq as E. unfold answered_messages in *.
  destruct (Handler.sender_handle handler_2) as [tx|]; [|discriminate E]. now exists tx.
Qed.

Lemma exchange_witness :
  exists response w' c' f',
    the_result = Return (Ok (Ready response), w', c', f')
    /\ typed_get CSeq (headers response) = Some (mkCSeq 7)
    /\ exists q, MRequest q ∈ [MRequest sent_request]
         /\ status_code response = expected_status (SR := list RangeFormat) q /\ Response.body response = [].
Proof.
  assert (Hres : exists response w' c' f', the_result = Return (Ok (Ready response), w', c', f')).
  { pose proof (proj2 client_polled) as Hp. destruct the_result as [[[[[[response|]|e] w'] c'] f']|]; try discriminate Hp.
    now exists response, w', c', f'. }
  destruct Hres as (response & w' & c' & f' & Hres). exists response, w', c', f'. split; [exact Hres|].
  destruct (exchange (Date := TDate) (Chan := TChan) (OTx := nat) (ORx := nat) (World := TResponses) (C := TUpdates)
              (CE := Queue CodecEvent) (Tx := Mailbox Message) (TStream := TMessages) (Rx := Queue Message)
              (TSink := BoundedChannel Message) (HRx := unit) (RxInitiate := unit) (TxEvent := unit)
              (SM := list Method) (SR := list RangeFormat) (M := Mailbox Message) date_header_name
              Codec.new Codec.new Codec.new Codec.new stamped new_idle new_idle stamped_encodable)
    as (received' & server1 & Hd & Hall).
  apply decoded_eq in Hd. change (received = received') in Hd. subst received'.
  destruct the_sender as (tx & Htx & Hpost).
  pose proof replies_encodable as Hrep. rewrite <- Hpost in Hrep.
  destruct (Hall _ _ _ _ tx replies sample_host_run Htx Hrep) as (answers' & client1 & Hd & Hend).
  apply decoded_eq in Hd. assert (Hanswers : answers = answers').
  { rewrite <- Hd. unfold answers, replies. rewrite length_fmap, answered_messages_eq. reflexivity. }
  clear Hd. subst answers'.
  destruct (Hend (mkCSeq 7) (mkMailbox [] true) the_peer the_future caller_env response w' c' f') as (Hc & q & Hq & _ & Hs & Hb & _).
  - vm_compute; discriminate.
  - reflexivity.
  - exact the_peer_run.
  - apply Forall_singleton. apply list_elem_of_here.
  - apply list_elem_of_here.
  - exact Hres.
  - split; [exact Hc|]. exists q. split; [exact Hq|]. now split.
Defined.

(** ** A client and a server that start *)

Notation TSocket := (Socket (Chan := TChan) (CE := Queue CodecEvent) (Tx := Mailbox Message) (TStream := TMessages)
  (RxMessage := Queue Message) (TSink := BoundedChannel Message) (RxRequest := TChan) (TxEvent := unit) (SRx := unit)
  (RxInitiate := unit) (TxInitiate := nat)).
Notation TTask := (Task (Chan := TChan) (OTx := nat) (CE := Queue CodecEvent) (Tx := Mailbox Message)
  (TStream := TMessages) (RxMessage := Queue Message) (TSink := BoundedChannel Message) (RxRequest := TChan)
  (TService := ConnectionService) (TFuture := Outcome (Response bytes)) (TxEvent := unit) (SRx := unit) (RxInitiate := unit)).

(** An executor that takes every task. *)
#[local] Instance sample_executor : ExecutorOps (list TTask) TTask unit := {| spawn x t := (Ok tt, x ++ [t]) |}.
#[local] Instance sample_executor_laws : ExecutorLaws (list TTask) TTask unit.
Proof. now refine {| tasks x := x |}. Defined.

Lemma sample_spawns (x : list TTask) (t : TTask) : exists x', spawn x t = (Ok tt, x').
Proof. now eexists. Qed.

(** Seconds are the numbers of the counting clock. *)
Definition from_secs (n : N) : Duration := n.

Definition sample_socket (id : nat) : TSocket :=
  mkSocket (Ok <$> received : TMessages) (mkBoundedChannel [] 0 1 true)
    (mkChannels (mkQueue [] false) (fun _ => (sample_channel, sample_channel)) (mkMailbox [] true, mkQueue [] false)
       (id, tt) (tt, tt) (tt, tt)) (mkCSeq 7).

Lemma sample_socket_new id : new_socket (sample_socket id) sample_channel DEFAULT_REQUEST_BUFFER_SIZE.
Proof. now split; [|split]. Qed.

Lemma client_connects_witness :
  exists client conn,
    connect_poll (TService := ConnectionService) (TFuture := Outcome (Response bytes)) (IoError := unit)
      from_secs 80 (Ok (Ready (sample_socket 1))) []
    = Return (Ok (Ready client), [ConnectionTask conn])
    /\ Connection.rx_handler_shutdown_event conn = None /\ server_address client = 80.
Proof.
  destruct (client_connects (Date := TDate) (ORx := nat) (World := TResponses) (C := TUpdates) (Address := nat)
              (IoError := unit) (TService := ConnectionService) (TFuture := Outcome (Response bytes))
              from_secs (fun _ => True) 80 (sample_socket 1) ([] : list TTask) new_shared)
    as (conn & handle & shared & E & _ & Hn & _).
  - intros t Ht. inversion Ht.
  - reflexivity.
  - reflexivity.
  - exists (mkClient handle shared 80), conn. split; [exact E|]. now split.
Defined.

Lemma server_accepts_witness :
  exists host1 host2 handles x',
    run (IoError := unit) from_secs [Ok (sample_socket 1); Ok (sample_socket 2); Err tt; Ok (sample_socket 3)] ([] : list TTask)
    = Return (Err tt, mkServer handles [], x')
    /\ x' = [ConnectionTask (host_connection host1); HandlerTask (host_handler host1);
             ConnectionTask (host_connection host2); HandlerTask (host_handler host2)]
    /\ length handles = 2.
Proof.
  destruct (server_accepts (Date := TDate) (OTx := nat) (ORx := nat) (World := TResponses) (C := TUpdates) (SM := list Method)
              (SR := list RangeFormat) from_secs (90%N : @Time Seconds.time) (fun _ => True)
              [Ok (sample_socket 1); Ok (sample_socket 2); Err tt; Ok (sample_socket 3)] ([] : list TTask) sample_spawns)
    as (all & handles & x' & E & Ht & Hh & Ho).
  apply Forall2_length in Ho. destruct all as [|h1 [|h2 [|h3 all]]]; try (apply Forall2_length in Hh; discriminate Hh).
  exists h1, h2, handles, x'. split; [exact E|]. split; [exact Ht|symmetry; exact Ho].
Defined.
