(* ===== verification/ProgressSample.v ===== *)
(** * A run without end

    A connection of a server and its request handler on concrete channels, for [Progress] and
    [ServerProgress]: two requests arrive, the channel to the handler has room for one, and the two
    tasks are polled in turns for ever. *)

From Stdlib Require Import Strings.Byte.
From stdpp Require Import base list numbers gmap strings.
From S2P Require Import Prelude Text Fairness Version Method HeaderName HeaderValue HeaderMap CSeq.
From S2P Require Import Status Request Response Codec Futures CommaList AcceptRanges Public Date Uri.
From S2P Require Import Forwarding Handler Pending Shutdown Sender Receiver Connection ConnectionSteps.
From S2P Require Import Serving HostSteps Progress Server ServerStack ServerProgress Conversation Exchange ExchangeSample.

Local Open Scope nat_scope.
Local Open Scope rust_scope.

#[local] Existing Instances counting_clock Seconds.time SmallWorld.ops SmallWorld.references SmallWorld.laws.
#[local] Existing Instances date_header sink_ops sink_flush.

Definition small_channel : TChan := mkChannel [] [] 0 true true.
Definition numbered (c : CSeq) : Request bytes := Request.map_headers (typed_insert c) options_request.
Definition two_requests : list Message := [MRequest (numbered (mkCSeq 1)); MRequest (numbered (mkCSeq 2))].

Definition first_connection : TConnection :=
  connection_new
    (receiver_new (Ok <$> two_requests : TMessages) (mkQueue [] false) small_channel (mkMailbox [] true)
       (10%N : Duration) 4)
    None (sender_new (mkQueue [] false) (mkBoundedChannel [] 0 1 true)) tt tt.
Definition first_handler : THandler :=
  handler_new (mkConnectionService None) small_channel (mkMailbox [] true) tt None.

Notation THost := (Host (Chan := TChan) (OTx := nat) (CE := Queue CodecEvent) (Tx := Mailbox Message)
  (TStream := TMessages) (Rx := Queue Message) (TSink := BoundedChannel Message) (HRx := unit) (RxInitiate := unit)
  (TxEvent := unit) (TService := ConnectionService) (TFuture := Outcome (Response bytes))).

(** Futures are ready when they are polled; one that panicked has failed. *)
Definition ready_env : Handler.Env (TFuture := Outcome (Response bytes)) (TResponse := Response bytes) :=
  Handler.mkEnv 0%N (fun _ => Ok NotReady)
    (fun f => match f with Return response => (Ok (Ready response), f) | Panic => (Err tt, f) end).

Lemma ready_env_answering : answering ready_env.
Proof. split; [now intros [r|] response [= <-]|now intros [r|]]. Qed.

Definition with_channel (c : TChan) (conn : TConnection) : TConnection :=
  match Connection.receiver conn with
  | Some r => Connection.set_receiver (Some (set_forwarding_receiver (set_channel c <$> forwarding_receiver r) r)) conn
  | None => conn
  end.

Lemma with_channel_side c conn f :
  forwarding_side conn = Some f -> forwarding_side (with_channel c conn) = Some (set_channel c f).
Proof.
  unfold with_channel, forwarding_side. destruct (Connection.receiver conn) as [r|] eqn:Er; [|rewrite Er; discriminate 1].
  cbn. intros Hf. now rewrite Hf.
Qed.

Notation serve_poll h :=
  (handler_poll (Tx := Mailbox Message) (TxEvent := unit) uri_is_rtspu sample_call same_response 9 ready_env h).

(** One turn: a task is polled. *)
Definition turn (e : HostEvent) (p : THost) : THost :=
  match e with
  | ConnectionPolled =>
      let conn := (poll_connection new_shared (host_connection p)).2 in
      match forwarding_side conn with
      | Some f => mkHost conn (set_rx_incoming_request (tx_incoming_request f) (host_handler p))
      | None => p
      end
  | HandlerPolled =>
      match serve_poll (host_handler p) with
      | Return (_, h, _) => mkHost (with_channel (rx_incoming_request h) (host_connection p)) h
      | Panic => p
      end
  | Elsewhere => p
  end.

(** What has to hold for the turn to be a step. *)
Definition turn_ok (e : HostEvent) (p : THost) : bool :=
  match e with
  | ConnectionPolled =>
      match connection_poll connection_env new_shared (host_connection p) with Return _ => true | Panic => false end
      && is_some (forwarding_side (poll_connection new_shared (host_connection p)).2)
  | HandlerPolled =>
      match serve_poll (host_handler p) with Return _ => true | Panic => false end
      && is_some (forwarding_side (host_connection p))
      && (length (pending (rx_incoming_request (host_handler p))) <? 9)
      && negb (is_some (continue_wait_duration (host_handler p)))
  | Elsewhere => false
  end.

Notation arrived := (fun m : Message => m ∈ two_requests).
Notation sample_step :=
  (host_step (Date := TDate) (OTx := nat) (ORx := nat) (World := TResponses) (C := TUpdates) (CE := Queue CodecEvent)
     (Tx := Mailbox Message) (TStream := TMessages) (Rx := Queue Message) (TSink := BoundedChannel Message)
     uri_is_rtspu sample_call same_response arrived answering).

Lemma turn_step e p :
  only_arrivals arrived (host_connection p) -> turn_ok e p = true -> sample_step e p (turn e p).
Proof.
  intros Harr Hok. destruct p as [conn h]. destruct e; cbn [turn turn_ok host_connection host_handler] in *; [| |done].
  - apply andb_true_iff in Hok as [Hp Hf]. destruct (poll_connection_eq new_shared conn Hp) as (a & events & E).
    destruct (forwarding_side (poll_connection new_shared conn).2) as [f|] eqn:Ef; [|discriminate Hf].
    exact (host_poll _ _ _ _ _ _ _ _ _ _ _ _ _ _ Harr E Ef).
  - rewrite !andb_true_iff in Hok. destruct Hok as [[[Hp Hf] Hl] Hw].
    destruct (handler_poll _ _ _ 9 ready_env h) as [[[r h'] sent]|] eqn:Eh; [|discriminate Hp].
    destruct (forwarding_side conn) as [f|] eqn:Ef; [|discriminate Hf].
    destruct (continue_wait_duration h) eqn:Ew; [discriminate Hw|].
    refine (host_serve _ _ _ _ _ 9 ready_env conn _ f h r h' sent ready_env_answering _ _ Eh Ef _).
    + rewrite Ew. now split.
    + now apply Nat.ltb_lt.
    + now apply with_channel_side.
Qed.

(** The states, until nothing changes any more. *)
Definition state_0 : THost := mkHost first_connection first_handler.
Definition state_1 : THost := turn ConnectionPolled state_0.
Definition state_2 : THost := turn HandlerPolled state_1.
Definition state_3 : THost := turn ConnectionPolled state_2.
Definition state_4 : THost := turn HandlerPolled state_3.

Definition whose_turn (i : nat) : HostEvent := if Nat.even i then ConnectionPolled else HandlerPolled.

Definition endless (i : nat) : THost :=
  match i with 0 => state_0 | 1 => state_1 | 2 => state_2 | 3 => state_3 | _ => state_4 end.

Lemma state_4_stays e : turn e state_4 = state_4.
Proof. destruct e; vm_cast_no_check (@eq_refl THost state_4). Qed.

(** The streams are read. *)
Definition all_read (p : THost) : bool :=
  match Connection.receiver (host_connection p) with
  | Some r => match stream r with Some [] => true | _ => false end
  | None => false
  end.

Lemma all_read_arrivals p : all_read p = true -> only_arrivals arrived (host_connection p).
Proof.
  unfold all_read, only_arrivals. intros Hr r s ms s' Er Es Hreads. rewrite Er, Es in Hr. destruct s; [|discriminate Hr].
  apply list_reads in Hreads. eapply Forall_impl; [exact Hreads|]. intros m Hm. inversion Hm.
Qed.

Lemma states_ok :
  turn_ok ConnectionPolled state_0 && turn_ok HandlerPolled state_1 && turn_ok ConnectionPolled state_2
  && turn_ok HandlerPolled state_3 && turn_ok ConnectionPolled state_4 && turn_ok HandlerPolled state_4
  && all_read state_1 && all_read state_2 && all_read state_3 && all_read state_4 = true.
Proof. vm_compute. reflexivity. Qed.

Lemma first_arrivals : only_arrivals arrived first_connection.
Proof.
  intros r s items s' [= <-] [= <-] Hr%list_reads. eapply Forall_impl; [exact Hr|].
  intros m Hm. change (Ok m ∈ (Ok <$> two_requests : TMessages)) in Hm.
  apply list_elem_of_fmap in Hm as (m' & [= <-] & Hm). exact Hm.
Qed.

Lemma endless_steps i : sample_step (whose_turn i) (endless i) (endless (i + 1)).
Proof.
  pose proof states_ok as Hok. rewrite !andb_true_iff in Hok.
  destruct Hok as [[[[[[[[[H0 H1] H2] H3] H4c] H4h] R1] R2] R3] R4].
  destruct i as [|[|[|[|i]]]]; [..|].
  - exact (turn_step ConnectionPolled state_0 first_arrivals H0).
  - exact (turn_step HandlerPolled state_1 (all_read_arrivals _ R1) H1).
  - exact (turn_step ConnectionPolled state_2 (all_read_arrivals _ R2) H2).
  - exact (turn_step HandlerPolled state_3 (all_read_arrivals _ R3) H3).
  - change (endless (S (S (S (S i))) + 1)) with state_4. change (endless (S (S (S (S i))))) with state_4.
    rewrite <- (state_4_stays (whose_turn (S (S (S (S i)))))) at 2. apply turn_step; [exact (all_read_arrivals _ R4)|].
    unfold whose_turn. now destruct (Nat.even _).
Qed.

Lemma endless_fair :
  fair_run (Date := TDate) (OTx := nat) (ORx := nat) (World := TResponses) (C := TUpdates) (CE := Queue CodecEvent)
    (Tx := Mailbox Message) (TStream := TMessages) (Rx := Queue Message) (TSink := BoundedChannel Message)
    uri_is_rtspu sample_call same_response arrived answering (mkConnectionService None) small_channel 4%N []
    endless whose_turn.
Proof.
  split.
  - now apply host_start.
  - exact endless_steps.
  - intros i. exists (2 * i). split; [lia|]. unfold whose_turn. now rewrite Nat.even_mul.
  - intros i. exists (2 * i + 1). split; [lia|]. unfold whose_turn. now rewrite Nat.even_add, Nat.even_mul.
Qed.

(** ** The second request waits *)

(** The channel holds the first request, and there is no room for the other. *)
Definition waiting_side : ForwardingReceiver (Chan := TChan) :=
  mkForwardingReceiver {[mkCSeq 2 := numbered (mkCSeq 2)]} (Some (mkCSeq 2)) 4%N
    (mkChannel [] [(mkCSeq 1, numbered (mkCSeq 1))] 0 true true).

Lemma waiting_side_eq : forwarding_side (host_connection (endless 1)) = Some waiting_side.
Proof. vm_cast_no_check (@eq_refl _ (Some waiting_side)). Qed.

Definition waiting_row : list (CSeq * Request bytes) := [(mkCSeq 2, numbered (mkCSeq 2))].

Lemma waiting_row_ready : ready_row waiting_row waiting_side.
Proof.
  exists (mkCSeq 2). split; [done|]. split; [done|]. split; [apply NoDup_singleton|].
  apply Forall_singleton. apply lookup_singleton_eq.
Qed.

Lemma two_requests_made request : MRequest request ∈ two_requests -> uri_made (uri request).
Proof.
  unfold two_requests. rewrite !elem_of_cons. intros [[= ->]|[[= ->]|Hin]]; [exact made_asterisk..|inversion Hin].
Qed.

Lemma requests_are_answered_witness :
  exists j messages, 1 <= j
    /\ Handler.answers uri_is_rtspu [(mkCSeq 1, numbered (mkCSeq 1)); (mkCSeq 2, numbered (mkCSeq 2))] None messages
    /\ forall tx, Handler.sender_handle (host_handler (endless j)) = Some tx ->
         exists more, posted tx = messages ++ more.
Proof.
  exact (requests_are_answered _ _ _ _ _ _ _ _ _ (fun _ => 0) (fun _ Henv => proj2 Henv) endless whose_turn
           endless_fair waiting_row 1 waiting_side waiting_side_eq waiting_row_ready).
Defined.

Lemma server_answers_row_witness :
  exists j, 1 <= j /\ forall tx, Handler.sender_handle (host_handler (endless j)) = Some tx ->
    exists messages more, posted tx = messages ++ more
      /\ Forall2 (serves (SR := list RangeFormat))
           [(mkCSeq 1, numbered (mkCSeq 1)); (mkCSeq 2, numbered (mkCSeq 2))] messages.
Proof.
  exact (server_answers_row _ _ _ _ [] endless whose_turn waiting_row 1 waiting_side
           endless_fair two_requests_made waiting_side_eq waiting_row_ready).
Defined.
